(* ===== verification/_CoqProject ===== *)
-Q . S2P
Prelude.v
Programs.v
Exceptions.v
Parse.v
Gid.v
Token.v
Text.v
TokenHeader.v
Http.v
HttpThreads.v
IbvCore.v
World.v
Verbs.v
Topology.v
Transport.v
Pool.v
PoolThreads.v
Locks.v
PoolCode.v
PoolRefines.v
Buffer.v
BufferCode.v
BufferSafe.v
Abandoned.v
State.v
Invariant.v
Control.v
Api.v
Safety.v
Threads.v
ThreadSafety.v
Behaviour.v
Transfers.v
ThrowingCode.v
ThrowingSafety.v
RdmaServer.v
TestServer.v
TestMain.v
ServerThreads.v
CurlOps.v
Examples.v
Tools.v
MinioRdma.v
MinioClient.v
GetPut.v
MinioThreads.v
Integration.v
