(* ===== verification/Prelude.v ===== *)
(** * hipObject, verified

    hipObject lets an application read and write objects of an S3 store
    straight to and from GPU memory.  The application speaks HTTP; the
    library speaks RDMA: it registers the application's buffers with a NIC,
    describes the range of a transfer in a token that the application sends
    in a request header, and finishes the transfer when the reply arrives.
    This development models the library (everything under [src/src/], and
    the headers under [src/shared/] that it uses), and the programs around it
    (the examples, the minio-cpp integration, and the RDMA test server),
    function by function, and proves what makes them correct.

    ** The parts, and where they are

    The names of files are those under [src/].  Definitions have the names of
    the functions and types they model; where two parts have a function of
    one name, the definition's name tells them apart ([new_X] and [destroy_X]
    are a constructor and a destructor of [X]).

    - [Prelude] (this file): characters, integers of a given width, the monad
      [M S A], its weakest preconditions [wp], and the tactic [wstep].
    - [Programs]: programs of threads, as sequences of actions, and threads
      that share a state.
    - [Parse]: [shared/hipobj-parse.h], [shared/hipobj-span.h].
    - [Gid]: [src/common/gid.h], [src/common/ibv-gid.h].
    - [Token]: [src/rdma/token.h], [src/rdma/token.cpp]: the token's wire
      format, and the reply header.
    - [IbvCore]: [src/common/ibv-core.h]: what the library uses of the verbs'
      data types, and which transitions of a QP the verbs allow.
    - [World]: [src/common/ibv-wrapper.h], [src/common/hip-seam.h],
      [src/common/ibv-ptr.h]: the calls to libibverbs, HIP, the clock, the
      file system and the environment; the trace; the deleters; example
      worlds.
    - [Verbs]: [src/common/ibv-wrapper.cpp], [src/common/dl-handle.h].
    - [Topology]: [src/common/rdma-topology.cpp], [src/common/nic-seam.h]:
      the class [NicTopology], and its instance [SysfsTopology].
    - [Transport]: [src/rdma/transport.h], [src/rdma/transport.cpp], and the
      vendors' backends: devices, connections, completions.
    - [Pool]: [src/rdma/connection-pool.h], [src/rdma/connection-pool.cpp]:
      what each operation does while it holds the mutex.  [PoolThreads] has
      the same operations called by any number of threads, as the steps of a
      monitor; [Locks] ([src/common/thread-safety.h]) programs whose
      statements interleave; [PoolCode] the pool's functions as such
      programs; and [PoolRefines] the simulation of one by the other.
    - [Buffer]: [src/buffer.h], [src/buffer.cpp]: the registrations, an
      operation of [BufferMap] at a time.  [BufferCode] has its functions as
      programs of [Locks], with the shared mutex and the use counts of the
      entries' pointers, and [BufferSafe] what holds in any interleaving.
    - [Abandoned]: [src/abandoned-copies.h], [src/abandoned-copies.cpp]: the
      staging copies that timed out.
    - [State]: [src/state.h], [src/state.cpp]: an instance (a record
      [Instance_t] of the pool, the buffers, the abandoned copies, the device
      and the options), the current instance, initialization and shutdown.
    - [Invariant]: what holds of the whole state between steps.
    - [Control]: [src/s3/control.h], [src/s3/control.cpp]: the callbacks.
    - [Api]: [include/hipobj.h], [src/hipobj.cpp]: the public functions.
    - [Threads]: the public functions as programs of threads, and the steps
      of any number of threads that call them.
    - [Exceptions], [ThrowingCode], [ThrowingSafety]: programs that may throw;
      the functions of one thread that allocate, or call the application, with
      the destructors that run when an exception passes, and the [catch]
      clauses of the public functions; and the theorems about them.
    - [Safety], [ThreadSafety], [Behaviour], [Transfers]: the theorems about
      the public functions, called by one thread, by many, what each does,
      and what a transfer that succeeds has done.

    The programs around the library:

    - [Text]: what they use of the standard library's strings.
    - [TokenHeader], [Http], [RdmaServer], [TestServer]: the test server,
      [test/integration/rdma-test-server/]: [token_header.h]; the parser,
      the response writer and the two socket loops of [http_server.cpp];
      [rdma_server.cpp], in its module [RdmaTestServer]; and [main.cpp], its
      handler and its [main()].  Its state is a record [Server] of the stored
      objects, the transfers' state, and the trace.  [HttpThreads] has
      accept loop, the workers and [stop()] as steps of threads,
      [TestMain] the socket ([test/common/unique-fd.h], and the constructor
      of [HttpServer]) and [main()] until it serves, and
      [ServerThreads] the handler and the transfers as programs of the
      threads that serve connections.
    - [CurlOps]: [examples/s3_curl_ops.h], [examples/s3_curl_ops.cpp]: the
      callbacks that carry a token and a reply with libcurl.
    - [Examples]: [examples/get-object.cpp], [examples/put-object.cpp].
    - [Tools]: [tools/hipobj-test-install/hipobj-test-install.cpp],
      [examples/get-version.cpp].
    - [MinioRdma], [MinioClient]: [integrations/minio-cpp/]: [src/rdma.cpp]
      and [src/bytes-transferred.h]; [src/client.cpp], and the test pattern
      of [examples/getput-rdma.cpp].  Their state is a record [Minio] of the
      library's and of what [HipObjRuntime] and the counters hold.
      [MinioThreads] has the client's calls as programs of threads.
    - [GetPut]: the [main()] of [examples/getput-rdma.cpp].
    - [Integration]: the integration against the test server.

    They interact as in the code.  A public function takes the current
    instance (a reference that it holds to its end), finds the buffer's entry
    (another reference), leases a connection from the pool, builds a token
    from the two, and hands it to the application's callbacks, which may call
    the library again.  It then finishes the transfer on the connection,
    gives it back, and drops its references; the last reference destroys.
    Staging copies run between the application's buffer and the entry's, and
    one that doesn't end in time is handed to the list of abandoned copies
    with a reference to the entry.

    The examples and the integration are applications in this sense, and get
    [Safety]'s theorems.  The test server is the other end: its handler takes
    the token apart with the library's decoder, and its transfers use the
    library's transport, not its public functions.

    ** How the state is modelled

    [M S A] is a state monad whose programs may stop for a reason that no
    code handles: [Blocked], a call that would wait for its own thread;
    [Undefined], the use of something that's been destroyed; [OutOfFuel].
    A failure that the code handles is a value of the type it returns.

    The calls to the outside are values of [call A], and a [World] is any
    function that answers a call from the trace of the calls before it.  So a
    theorem over every [World] holds of every NIC, driver, GPU runtime, file
    system and environment, deterministic or not, faulty or not.  What a
    theorem assumes of them is in classes: [SteadyClock] (the clock doesn't
    go back, and a sleep lasts), [PortsFit] (a device has fewer than 255
    ports) and [OwnCompletions] (a successful completion is one of a request
    that was posted).  [lab] is a family of concrete worlds, with [working]
    the one in which all calls succeed, and has instances of each.
    [LibraryKeeps bad] is what the first two give a client: the public
    functions keep the invariant, and stop for no reason but those in [bad].
    minio-cpp, which isn't in the repository, is the class [MinioCpp] of the
    functions of it that are called, with [MinioLaws] for what they promise,
    and [lab_minio] for an instance of both.

    A [shared_ptr] is a number in a store that holds each object with its use
    count: [m_ents] for the buffers' entries, [g_insts] for instances.  The
    trace accounts for what the library opens: [bal h t] is how often [h] was
    opened in [t], less how often it was closed.  Where the code leaks on
    purpose (a copy that never ends when the library is shut down), the field
    [m_leaked] lists what stays open; nothing that the code does reads it.
    The invariant [Inv F g] says who owns every reference and everything
    that's open; the [Frame] [F] lists what the calls in progress hold: their
    references, leases, slots set aside and handles not yet handed over, and
    in [f_elsewhere] the leases of other threads.
    The application's own memory that its callbacks use is a field too,
    [g_app]: [CurlOps] keeps its reply buffer, [lastReply], there.

    ** What the theorems show

    - The codecs ([Token]): the token's layout, its round trip, and exactly
      what the decoder and the reply parser accept, in both directions.
    - The choices ([Topology]): the GID and the NIC that are picked are the
      first of the best ones; a list of devices is read entry by entry.
    - The connections ([Transport], [Pool], [PoolThreads], [PoolRefines]): a QP only makes
      transitions that the verbs allow; polling ends by its deadline; opening
      leaks nothing; with many threads, a connection is leased at most once,
      and no thread that waits is forgotten.  The monitor's step and
      [Pool]'s [release] do the same to the pool; and statement by statement
      the functions do what the monitor does, without a data race, a lost
      wake-up or a deadlock.
    - The buffers ([Buffer], [BufferSafe], [Abandoned]): registering adds one entry or
      changes nothing; an MR goes before the memory it covers; device memory
      isn't staged when the options forbid it; room for an abandoned copy is
      there before the copy starts; [running()] is right.  Statement by
      statement, with many threads, no entry is used once it's been
      destroyed, the map is used under its lock only, what
      [deregisterBuffer()] destroys has no other pointer to it, and no call
      gets stuck.
    - The library ([Safety]): [application_program] is any program of the
      public functions, with callbacks that are such programs.  It never
      deadlocks, uses nothing that was destroyed, keeps the invariant, and
      returns; what's open is what has an owner, and a shutdown closes it.
    - Many threads ([Threads], [ThreadSafety]): with no other thread in
      between, the programs of threads are the functions of [Api] (a
      refinement, whose equivalence is [M_equiv]: the same results, states
      and reasons to stop).  In every interleaving, they keep the invariant
      and use nothing that was destroyed, all calls return, and a shutdown
      closes what any of them opened.
    - Exceptions ([ThrowingCode], [ThrowingSafety]): when nothing fails, the
      functions that may throw are those of [Api].  Whichever allocations fail,
      and wherever a callback throws, an application keeps the invariant and
      ends, and no exception leaves the library; initialization and
      registration are then all or nothing.
    - The public functions ([Behaviour], [Transfers]): which arguments they
      accept, what a success means, what a token gives access to, what a failed
      initialization leaves, how a staging copy can end.

    - The test server ([Http], [HttpThreads], [TokenHeader], [RdmaServer],
      [TestServer]): a request that arrives in any pieces is received as it
      was sent, within the caps; a worker's descriptor is registered exactly
      while it's served, and [stop()] leaves no worker; each request gets one
      answer, of the status that it should; a GET gives what the PUT before
      it has stored; a GET over RDMA writes the object's bytes and no other.
      With many threads ([ServerThreads]), requests over HTTP alone are
      atomic, and those over RDMA aren't: a client can be sent the bytes of
      another's object.
      [main()] ([TestMain]) serves the port it was asked to, or returns with
      nothing left open; but a [listen()] that fails isn't noticed.
    - libibverbs ([Verbs]): it's used only when it's complete, and each
      method then calls the function of its name.
    - The clients ([CurlOps], [Examples], [MinioRdma], [MinioClient],
      [GetPut]): the reply that the server sends is the reply the library
      gets; the examples clean up on every way out; the integration's
      counters say what happened, and it never reports more bytes than it
      asked for; its example only succeeds when the data came back.  With
      many threads ([MinioThreads]), the counters still add up, and all calls
      return; but calls take each other's registrations away.
    - The programs about versions ([Tools]): their exit statuses.
    - Together ([Integration]): with the library's token, the server writes
      an object to the caller's range, or reads the range into an object, and
      touches nothing else; an upload to a server without RDMA is lost.

    The components' theorems have the form [wp bad m Q s]: run from [s], [m]
    either stops for a reason in [bad], or returns a value and a state with
    [Q].  With [never] for [bad], [m] returns.

    ** Threads

    A program of a thread, [prog S A], is a sequence of actions, programs of
    [M S] that no other thread interrupts; [T] is [prog Process], with [Lock] and [Unlock] of [initMutex],
    which [initWith()] and [shutdownInstance()] hold throughout.  An action
    is what a function does while it holds another of the library's locks,
    or what it does with objects that no other thread can reach: what it has
    taken out of a map or a list, a connection it has leased, an instance
    that isn't published or that nothing else refers to.  The wait for a
    staging copy, and building an instance, are one action each, since
    nothing in them can be seen by another thread before they end.  A wait
    for a connection is an action that can't be taken yet; that the condition
    variable wakes whoever can go on is [PoolThreads]' theorem.  [safe] is a
    program's weakest precondition beside any other threads: each action has
    to keep the invariant of all that it and they hold.

    ** Fuel

    The loops of the library that depend on the outside get fuel, an amount
    under which they always end when the outside does as assumed:
    [port_fuel], 256, for the loop over a [uint8_t] port; [poll_fuel] and
    [stage_fuel], one more than the timeout in milliseconds, for the loops
    that sleep for a millisecond between looks at the clock.
    [completion_fuel], for the test server's waits, which skip completions
    they don't expect, adds the size of the completion queue.
    [application_terminates] shows that no application runs out of it, and
    [test_server_serves] that the server doesn't;
    [active_port_255_diverges] is about the one case that [PortsFit] leaves
    out, in which the code doesn't end, whatever the fuel.  [header_loop]'s
    fuel is one more than the characters it reads, and that of
    [dec_fuel] (printing a number) its number of binary digits; each is at
    least the number of turns, so neither changes what's computed.  The
    loops over a socket are recursive in the list of what its calls return.

    ** What's not modelled

    Mutexes: outside [PoolThreads], [PoolCode], [BufferCode], [Threads],
    [HttpThreads], [ServerThreads] and [MinioThreads], the state is that of
    one thread, and an operation is one step.  In [MinioThreads], a call to the library is one action.  The
    C++ memory model: what one action leaves, the next one sees.  Exceptions:
    [ThrowingCode] has them for the functions of one thread, with any
    allocation failing and any callback throwing; the other files, those with
    threads and the programs around the library among them, are about runs in
    which nothing throws, and a mutex that can't be locked is nowhere.  That
    [AbandonedCopies::add()] can't throw is the theorem
    [add_never_reallocates].  The memory that buffers hold, and the effect of
    a copy or of an RDMA operation on it, but for the bytes that the test
    server's staging buffer is given and gives.  What the functions of
    libibverbs, HIP and the kernel do is the world's; of the methods that
    forward to them, [Verbs] has which function each one calls.  Messages are
    calls that carry what's printed.  The tests. *)

From Stdlib Require Import Ascii String.
From Stdlib Require Import Setoid.
From stdpp Require Import base numbers list gmap fin_maps strings.

#[global] Open Scope Z_scope.

(** ** Characters and machine integers

    A [std::string_view], a [std::string] and a [char] array are lists of
    characters; a byte ([uint8_t]) is a [Z] in [0, 256). *)

Abbreviation chars := (list ascii).

(** A string literal of the source *)
Definition lit (s : string) : chars := list_ascii_of_string s.

(** The code of a [char], and the [char] with a code *)
Definition code (c : ascii) : Z := Z.of_N (N_of_ascii c).
Definition chr (z : Z) : ascii := ascii_of_N (Z.to_N z).

(** A C++ integer type: its width, and whether it's signed *)
Record ity := { ity_signed : bool; ity_bits : Z }.

Definition uint8_t  : ity := {| ity_signed := false; ity_bits := 8 |}.
Definition uint16_t : ity := {| ity_signed := false; ity_bits := 16 |}.
Definition uint32_t : ity := {| ity_signed := false; ity_bits := 32 |}.
Definition uint64_t : ity := {| ity_signed := false; ity_bits := 64 |}.
Definition int32_t  : ity := {| ity_signed := true; ity_bits := 32 |}.
Definition int64_t  : ity := {| ity_signed := true; ity_bits := 64 |}.

(** [std::numeric_limits<T>::min()] and [max()] *)
Definition ity_min (T : ity) : Z :=
  if ity_signed T then - 2 ^ (ity_bits T - 1) else 0.
Definition ity_max (T : ity) : Z :=
  if ity_signed T then 2 ^ (ity_bits T - 1) - 1 else 2 ^ ity_bits T - 1.

Definition in_range (T : ity) (z : Z) : bool := (ity_min T <=? z) && (z <=? ity_max T).

(** Conversion to an unsigned type, and the result of its arithmetic: the
    value modulo 2 to the width *)
Definition wrapu (w z : Z) : Z := z mod 2 ^ w.

Definition is_byte (z : Z) : Prop := 0 <= z < 256.

#[export] Instance is_byte_dec z : Decision (is_byte z).
Proof. unfold is_byte. apply _. Defined.

(** ** Automation *)

Create HintDb hipobj.

(** Destructs the scrutinee of every [match] and [if] of the goal, keeping
    the equations *)
Ltac case_all :=
  repeat match goal with
  | |- context [match ?x with _ => _ end] => destruct x eqn:?; simplify_eq/=
  end.

(** The same in a hypothesis, until it's closed or has no [match] left *)
Ltac case_in H :=
  repeat match type of H with
  | context [match ?x with _ => _ end] => destruct x eqn:?; simplify_eq/=
  end.

(** Turns boolean comparisons into propositions, everywhere *)
Ltac bools :=
  repeat match goal with
  | H : _ && _ = true |- _ => apply andb_true_iff in H as [? ?]
  | H : _ && _ = false |- _ => apply andb_false_iff in H
  | H : _ || _ = true |- _ => apply orb_true_iff in H
  | H : _ || _ = false |- _ => apply orb_false_iff in H as [? ?]
  | H : negb _ = true |- _ => apply negb_true_iff in H
  | H : negb _ = false |- _ => apply negb_false_iff in H
  | H : (_ =? _) = true |- _ => apply Z.eqb_eq in H
  | H : (_ =? _) = false |- _ => apply Z.eqb_neq in H
  | H : (_ <=? _) = true |- _ => apply Z.leb_le in H
  | H : (_ <=? _) = false |- _ => apply Z.leb_gt in H
  | H : (_ <? _) = true |- _ => apply Z.ltb_lt in H
  | H : (_ <? _) = false |- _ => apply Z.ltb_ge in H
  | H : bool_decide _ = true |- _ => apply bool_decide_eq_true in H
  | H : bool_decide _ = false |- _ => apply bool_decide_eq_false in H
  end.

(** Cuts a goal down along the first [match] or [if] on a variable-free path,
    one level only *)
Ltac case_one :=
  match goal with
  | |- context [match ?x with _ => _ end] => destruct x eqn:?; simplify_eq/=
  end.

(** ** Record update

    [r <| f := v |>] is [r] with the field [f] changed, for a record whose
    [Eta] instance says how it's rebuilt from its fields. *)

Class Eta (R : Type) := eta_rec : R -> R.
Class Setter {R T : Type} (p : R -> T) := set_field : (T -> T) -> R -> R.
#[global] Hint Mode Setter + + + : typeclass_instances.

Ltac solve_setter :=
  match goal with
  | |- @Setter ?R ?T ?p =>
      let i := constr:(_ : Eta R) in
      let e := eval hnf in i in
      match eval pattern p in e with
      | ?g _ => exact (fun f => g (fun r => f (p r)))
      end
  end.
#[export] Hint Extern 0 (Setter _) => solve_setter : typeclass_instances.

Declare Scope record_scope.
Delimit Scope record_scope with rec.
#[global] Open Scope record_scope.
Notation "r <| f := v |>" := (set_field (p:=f) (fun _ => v) r)
  (at level 1, left associativity, format "r  <| f  :=  v |>") : record_scope.
Notation "r <| f ::= g |>" := (set_field (p:=f) g r)
  (at level 1, left associativity, format "r  <| f  ::=  g |>") : record_scope.

(** ** Programs

    A program over the states [S] returns a value, or stops without one:
    it waits for ever ([Blocked]), it does what C++ leaves undefined or
    fails an assertion ([Undefined]), or its loop runs out of the fuel the
    model gives it ([OutOfFuel]).  Fuel is only given to loops that wait for
    time to pass or count what they leave, and the theorems on them show
    that the fuel they get is enough. *)

Inductive stop := Blocked | Undefined | OutOfFuel.

Definition M (S A : Type) : Type := S -> (A + stop) * S.

#[export] Instance M_ret {S} : MRet (M S) := fun A a s => (inl a, s).
#[export] Instance M_bind {S} : MBind (M S) := fun A B k m s =>
  match m s with
  | (inl a, s') => k a s'
  | (inr e, s') => (inr e, s')
  end.

Definition halt {S A} (e : stop) : M S A := fun s => (inr e, s).
Definition get_state {S} : M S S := fun s => (inl s, s).
Definition put_state {S} (s : S) : M S unit := fun _ => (inl tt, s).
Definition modify {S} (f : S -> S) : M S unit := fun s => (inl tt, f s).

(** A program over a part of the state, as one over the whole *)
Definition zoom {S T A} (part : S -> T) (with_part : T -> S -> S) (m : M T A) : M S A := fun s =>
  let (r, t) := m (part s) in (r, with_part t s).

(** [wp bad m Q s]: from [s], [m] returns a value and a state that satisfy
    [Q], or stops for a reason that [bad] allows *)
Definition wp {S A} (bad : stop -> Prop) (m : M S A) (Q : A -> S -> Prop) (s : S) : Prop :=
  match m s with
  | (inl a, s') => Q a s'
  | (inr e, _) => bad e
  end.

Section wp.
Context {S : Type} (bad : stop -> Prop).

Lemma wp_ret {A} (a : A) Q (s : S) : Q a s -> wp bad (mret a) Q s.
Proof. done. Qed.

Lemma wp_bind {A B} (m : M S A) (k : A -> M S B) Q s :
  wp bad m (fun a => wp bad (k a) Q) s -> wp bad (m ≫= k) Q s.
Proof. unfold wp, mbind, M_bind. destruct (m s) as [[a|e] s']; done. Qed.

Lemma wp_mono {A} (m : M S A) (P Q : A -> S -> Prop) s :
  wp bad m P s -> (forall a s', P a s' -> Q a s') -> wp bad m Q s.
Proof. unfold wp. destruct (m s) as [[a|e] s']; auto. Qed.

Lemma wp_get Q (s : S) : Q s s -> wp bad get_state Q s.
Proof. done. Qed.

Lemma wp_put Q (s s' : S) : Q tt s' -> wp bad (put_state s') Q s.
Proof. done. Qed.

Lemma wp_modify Q f (s : S) : Q tt (f s) -> wp bad (modify f) Q s.
Proof. done. Qed.

Lemma wp_halt {A} e (Q : A -> S -> Prop) s : bad e -> wp bad (halt e) Q s.
Proof. done. Qed.

Lemma wp_zoom {T A} part with_part (m : M T A) (Q : A -> S -> Prop) s :
  wp bad m (fun a t => Q a (with_part t s)) (part s) -> wp bad (zoom part with_part m) Q s.
Proof. unfold wp, zoom. destruct (m (part s)) as [[a|e] t]; done. Qed.

Lemma wp_conj {A} (m : M S A) (P Q : A -> S -> Prop) s :
  wp bad m P s -> wp bad m Q s -> wp bad m (fun a s' => P a s' /\ Q a s') s.
Proof. unfold wp. by destruct (m s) as [[a|e] s']. Qed.

Lemma wp_bad {A} (bad' : stop -> Prop) (m : M S A) Q s :
  (forall e, bad e -> bad' e) -> wp bad m Q s -> wp bad' m Q s.
Proof. intros Hb. unfold wp. destruct (m s) as [[a|e] s']; auto. Qed.

Lemma wp_run {A} (m : M S A) Q s a s' : wp bad m Q s -> m s = (inl a, s') -> Q a s'.
Proof. unfold wp. intros H E. by rewrite E in H. Qed.
End wp.

(** Programs that do the same from every state: they return the same value
    and state, or stop for the same reason. The state in which a program
    stops doesn't count. *)
Definition outcome {S A} (r : (A + stop) * S) : A * S + stop :=
  match r with (inl a, s) => inl (a, s) | (inr e, _) => inr e end.

#[export] Instance M_equiv {S A} : Equiv (M S A) := fun m m' => forall s, outcome (m s) = outcome (m' s).

#[export] Instance M_equivalence {S A} : Equivalence (≡@{M S A}).
Proof.
  split; [done|intros m m' H s; by symmetry|]. intros m1 m2 m3 H1 H2 s. by rewrite H1.
Qed.

Lemma outcome_bind {S A B} (m : M S A) (k : A -> M S B) s :
  outcome ((m ≫= k) s) = match outcome (m s) with inl (a, s') => outcome (k a s') | inr e => inr e end.
Proof. unfold mbind, M_bind. by destruct (m s) as [[a|e] s']. Qed.

#[export] Instance bind_proper {S A B} :
  Proper (pointwise_relation A (≡@{M S B}) ==> (≡@{M S A}) ==> (≡@{M S B})) mbind.
Proof.
  intros k k' Hk m m' Hm s. rewrite !outcome_bind, Hm.
  destruct (outcome (m' s)) as [[a s']|e]; [apply Hk|done].
Qed.

#[export] Instance wp_proper {S A} bad : Proper ((≡@{M S A}) ==> eq ==> eq ==> iff) (wp bad).
Proof.
  intros m m' Hm Q _ <- s _ <-. unfold wp. specialize (Hm s).
  destruct (m s) as [[a|e] s1], (m' s) as [[a'|e'] s2]; cbn in Hm; by simplify_eq.
Qed.

Lemma bind_assoc {S A B C} (m : M S A) (k : A -> M S B) (l : B -> M S C) :
  (m ≫= k) ≫= l ≡ m ≫= (fun a => k a ≫= l).
Proof.
  intros s. rewrite !outcome_bind. destruct (outcome (m s)) as [[a s']|e]; [|done]. by rewrite outcome_bind.
Qed.

Lemma bind_ret {S A} (m : M S A) : m ≫= mret ≡ m.
Proof. intros s. rewrite outcome_bind. by destruct (outcome (m s)) as [[a s']|e]. Qed.

Lemma ret_bind {S A B} (a : A) (k : A -> M S B) : mret a ≫= k ≡ k a.
Proof. done. Qed.

Lemma zoom_bind {S T A B} (part : S -> T) with_part (m : M T A) (k : A -> M T B) :
  (forall t s, part (with_part t s) = t) -> (forall t t' s, with_part t (with_part t' s) = with_part t s) ->
  zoom part with_part (m ≫= k) ≡ zoom part with_part m ≫= (fun a => zoom part with_part (k a)).
Proof.
  intros H1 H2 s. unfold zoom, mbind, M_bind. destruct (m (part s)) as [[a|e] t]; [|done].
  rewrite H1. destruct (k a t) as [r t']. by rewrite H2.
Qed.

(** What a program that returned has run *)
Lemma bind_returns {S A B} (m : M S A) (k : A -> M S B) s b s' :
  (m ≫= k) s = (inl b, s') -> exists a s1, m s = (inl a, s1) /\ k a s1 = (inl b, s').
Proof. unfold mbind, M_bind. destruct (m s) as [[a|e] s1]; [by eauto|done]. Qed.

(** ** Counting *)

(** How often [x] is in [l] *)
Definition cnt {A} `{EqDecision A} (x : A) (l : list A) : Z :=
  foldr (fun y acc => (if decide (x = y) then 1 else 0) + acc) 0 l.

Section cnt.
Context {A : Type} `{EqDecision A}.
Implicit Types (x y : A) (l : list A).

Lemma cnt_nil x : cnt x [] = 0.
Proof. done. Qed.

Lemma cnt_cons x y l : cnt x (y :: l) = (if decide (x = y) then 1 else 0) + cnt x l.
Proof. done. Qed.

Lemma cnt_app x l k : cnt x (l ++ k) = cnt x l + cnt x k.
Proof. induction l; simpl; [done|]. rewrite IHl. lia. Qed.

Lemma cnt_nonneg x l : 0 <= cnt x l.
Proof. induction l; simpl; [done|]. case_decide; lia. Qed.

Lemma cnt_elem x l : 0 < cnt x l <-> x ∈ l.
Proof.
  induction l as [|y l IH]; simpl.
  - split; [lia|]. by intros ?%elem_of_nil.
  - rewrite elem_of_cons. pose proof (cnt_nonneg x l). case_decide; intuition lia.
Qed.

Lemma cnt_Permutation x l k : l ≡ₚ k -> cnt x l = cnt x k.
Proof. induction 1; simpl; lia. Qed.
End cnt.

(** The sum of [f] over a finite map *)
Definition msum {K V} `{Countable K} (f : K -> V -> Z) (m : gmap K V) : Z :=
  map_fold (fun k v acc => f k v + acc) 0 m.

Section msum.
Context {K V : Type} `{Countable K}.
Implicit Types (f g : K -> V -> Z) (m : gmap K V).

Lemma msum_empty f : msum f ∅ = 0.
Proof. apply map_fold_empty. Qed.

Lemma msum_insert f m k v : m !! k = None -> msum f (<[k := v]> m) = f k v + msum f m.
Proof. intros Hk. unfold msum. rewrite map_fold_insert_L; [done|intros; lia|done]. Qed.

Lemma msum_delete f m k v : m !! k = Some v -> msum f m = f k v + msum f (delete k m).
Proof. intros Hk. unfold msum. rewrite (map_fold_delete_L _ _ k v); [done|intros; lia|done]. Qed.

Lemma msum_update f m k v v' :
  m !! k = Some v -> msum f (<[k := v']> m) = msum f m - f k v + f k v'.
Proof.
  intros Hk. rewrite <- insert_delete_eq, msum_insert by apply lookup_delete_eq.
  rewrite (msum_delete f m k v Hk). lia.
Qed.

Lemma msum_ext f g m : (forall k v, m !! k = Some v -> f k v = g k v) -> msum f m = msum g m.
Proof.
  induction m as [|k v m Hk IH] using map_ind; intros Hfg; [by rewrite !msum_empty|].
  rewrite !msum_insert by done. rewrite IH.
  - rewrite (Hfg k v) by (by rewrite lookup_insert_eq). lia.
  - intros k' v' Hk'. apply Hfg. rewrite lookup_insert_ne; [done|]. intros ->. congruence.
Qed.

Lemma msum_nonneg f m : (forall k v, m !! k = Some v -> 0 <= f k v) -> 0 <= msum f m.
Proof.
  induction m as [|k v m Hk IH] using map_ind; intros Hf; [by rewrite msum_empty|].
  rewrite msum_insert by done. pose proof (Hf k v ltac:(by rewrite lookup_insert_eq)).
  enough (0 <= msum f m) by lia. apply IH. intros k' v' Hk'. apply Hf.
  rewrite lookup_insert_ne; [done|]. intros ->. congruence.
Qed.

Lemma msum_zero f m : (forall k v, m !! k = Some v -> f k v = 0) -> msum f m = 0.
Proof.
  intros Hf. rewrite (msum_ext f (fun _ _ => 0)) by done. clear Hf.
  induction m as [|k v m Hk IH] using map_ind; [apply msum_empty|].
  by rewrite msum_insert, IH.
Qed.
End msum.

(** ** Characters *)

Lemma code_chr z : is_byte z -> code (chr z) = z.
Proof.
  unfold is_byte. intros Hz. unfold code, chr. rewrite N_ascii_embedding; lia.
Qed.

Lemma chr_code c : chr (code c) = c.
Proof. unfold code, chr. rewrite N2Z.id. apply ascii_N_embedding. Qed.

Lemma code_byte c : is_byte (code c).
Proof.
  unfold code, is_byte. pose proof (N_ascii_bounded c). lia.
Qed.

Lemma code_inj c d : code c = code d -> c = d.
Proof. intros H. rewrite <- (chr_code c), <- (chr_code d). by rewrite H. Qed.

#[export] Hint Resolve code_byte : hipobj.

(** A property of every byte holds when it holds of the 256 of them, so a
    boolean one is decided by computation *)
Definition all_bytes : list Z := seqZ 0 256.

Lemma byte_forall (P : Z -> bool) :
  forallb P all_bytes = true -> forall z, is_byte z -> P z = true.
Proof.
  intros H z Hz. rewrite List.forallb_forall in H. apply H.
  apply list_elem_of_In, elem_of_seqZ. unfold is_byte in Hz. lia.
Qed.

(** ** Machine integers *)

Lemma in_range_spec T z : in_range T z = true <-> ity_min T <= z <= ity_max T.
Proof. unfold in_range. rewrite andb_true_iff, !Z.leb_le. lia. Qed.

Lemma wrapu_small w z : 0 <= z < 2 ^ w -> wrapu w z = z.
Proof. intros H. unfold wrapu. by apply Z.mod_small. Qed.

Lemma wrapu_range w z : 0 <= w -> 0 <= wrapu w z < 2 ^ w.
Proof. intros H. unfold wrapu. apply Z.mod_pos_bound. lia. Qed.
