(* ===== verification/Programs.v ===== *)
(** * Programs of threads

    A program is a sequence of actions on a state that threads share.  Other
    threads run between two actions of one, and not within an action. *)

From stdpp Require Import base list relations.
From S2P Require Import Prelude.

(** ** Definitions *)

(** [Lock] and [Unlock] are those of a mutex that's held from one action to
    the next.  A mutex that's only held within an action needs none. *)
Inductive prog (S A : Type) : Type :=
| Ret (a : A)
| Act {X : Type} (m : M S X) (k : X -> prog S A)
| Lock (k : prog S A)
| Unlock (k : prog S A).
Arguments Ret {_ _} a.
Arguments Act {_ _ _} m k.
Arguments Lock {_ _} k.
Arguments Unlock {_ _} k.

Fixpoint bind_prog {S A B} (k : A -> prog S B) (p : prog S A) : prog S B :=
  match p with
  | Ret a => k a
  | Act m next => Act m (fun x => bind_prog k (next x))
  | Lock next => Lock (bind_prog k next)
  | Unlock next => Unlock (bind_prog k next)
  end.

#[export] Instance prog_ret {S} : MRet (prog S) := @Ret S.
#[export] Instance prog_bind {S} : MBind (prog S) := @bind_prog S.

Definition act {S X} (m : M S X) : prog S X := Act m Ret.
Definition lock {S} : prog S unit := Lock (Ret tt).
Definition unlock {S} : prog S unit := Unlock (Ret tt).

(** What a thread does when no other thread runs *)
Fixpoint alone {S A} (p : prog S A) : M S A :=
  match p with
  | Ret a => mret a
  | Act m k => x ← m; alone (k x)
  | Lock k => alone k
  | Unlock k => alone k
  end.

(** *** Threads that share a state

    One of them takes its next action.  The mutex of [Lock] isn't part of
    these systems. *)
Definition progress {S A} (p : prog S A) (s : S) : option (prog S A * S) :=
  match p with
  | Act m k => match m s with (inl x, s') => Some (k x, s') | (inr _, _) => None end
  | _ => None
  end.

Definition config (S A : Type) : Type := (S * list (prog S A))%type.

Inductive interleave {S A} : config S A -> config S A -> Prop :=
| interleave_turn s ps t p p' s' :
    ps !! t = Some p -> progress p s = Some (p', s') -> interleave (s, ps) (s', <[t := p']> ps).

(** The threads take turns: one that can't go on misses its turn *)
Definition take_turn {S A} (t : nat) (c : config S A) : config S A :=
  match p ← snd c !! t; progress p (fst c) with
  | Some (p', s') => (s', <[t := p']> (snd c))
  | None => c
  end.

Fixpoint take_turns {S A} (ts : list nat) (c : config S A) : config S A :=
  match ts with [] => c | t :: ts => take_turns ts (take_turn t c) end.

(** ** Lemmas *)

Lemma bind_cong {S A B} (m m' : M S A) (k k' : A -> M S B) :
  m ≡ m' -> (forall a, k a ≡ k' a) -> m ≫= k ≡ m' ≫= k'.
Proof. intros Hm Hk. by apply bind_proper. Qed.

Lemma alone_bind {S A B} (p : prog S A) (k : A -> prog S B) :
  alone (p ≫= k) ≡ alone p ≫= (fun a => alone (k a)).
Proof.
  induction p as [a|X m next IH|next IH|next IH]; cbn; [done| |exact IH|exact IH].
  rewrite bind_assoc. apply bind_cong; [done|]. intros x. apply IH.
Qed.

Lemma alone_act {S X} (m : M S X) : alone (act m) ≡ m.
Proof. apply bind_ret. Qed.

Lemma alone_bind_run {S A B} (p : prog S A) (k : A -> prog S B) s :
  outcome (alone (p ≫= k) s) =
  match outcome (alone p s) with inl (a, s') => outcome (alone (k a) s') | inr e => inr e end.
Proof. rewrite (alone_bind p k s). apply outcome_bind. Qed.

(** Takes both sides apart, along the thread's program *)
Ltac astep :=
  match goal with
  | |- alone (mret _) ≡ mret _ => done
  | |- alone (act ?m) ≡ ?m' => apply alone_act
  | |- alone (act _ ≫= _) ≡ _ =>
      etransitivity; [apply alone_bind|]; apply bind_cong; [apply alone_act|intros ?]
  | |- alone (_ ≫= _) ≡ _ => etransitivity; [apply alone_bind|]; apply bind_cong; [|intros ?]
  | |- alone (let '_ := ?x in _) ≡ _ => destruct x
  | |- alone (if ?b then _ else _) ≡ _ => destruct b eqn:?
  | |- alone (match ?x with _ => _ end) ≡ _ => destruct x eqn:?
  end; cbn beta iota.

(** What a thread does while it has the mutex *)
Lemma alone_locked {S A} (p : prog S A) : alone (_ ← lock; r ← p; _ ← unlock; mret r) ≡ alone p.
Proof.
  change (alone (r ← p; _ ← unlock; mret r) ≡ alone p). rewrite alone_bind.
  etransitivity; [|apply bind_ret]. by apply bind_cong.
Qed.

Lemma interleave_inv {S A} (s s' : S) (ps ps' : list (prog S A)) :
  interleave (s, ps) (s', ps') ->
  exists t p p', ps !! t = Some p /\ progress p s = Some (p', s') /\ ps' = <[t := p']> ps.
Proof. intros Hs. inversion Hs; subst. eauto 10. Qed.

Lemma take_turns_interleave {S A} ts (c : config S A) : rtc interleave c (take_turns ts c).
Proof.
  revert c. induction ts as [|t ts IH]; intros [s ps]; [done|]. cbn.
  assert (rtc interleave (s, ps) (take_turn t (s, ps))) as Hturn; [|by etransitivity].
  unfold take_turn. cbn. destruct (ps !! t) as [p|] eqn:Hp; [|done]. cbn.
  destruct (progress p s) as [[p' s']|] eqn:Hs; [|done]. by eapply rtc_once, interleave_turn.
Qed.

(** *** Every run ends *)

Section rest.
Context {S A : Type}.
Implicit Types (p q : prog S A) (ps qs : list (prog S A)).

(** What a step leaves of a thread's program *)
Definition rest q p : Prop :=
  match p with
  | Ret _ => False
  | Act m k => exists x, q = k x
  | Lock k => q = k
  | Unlock k => q = k
  end.

Lemma rest_wf : well_founded rest.
Proof.
  intros p. induction p as [a|X m k IH|k IH|k IH]; constructor; cbn; intros q Hq; [done| |by subst..].
  destruct Hq as [x ->]. apply IH.
Qed.

(** What a step leaves of the threads: one of them has less to do *)
Definition rests qs ps : Prop := exists t p q, ps !! t = Some p /\ rest q p /\ qs = <[t := q]> ps.

Lemma rests_cons p ps : Acc rest p -> Acc rests ps -> Acc rests (p :: ps).
Proof.
  intros Hp. revert ps. induction Hp as [p _ IHp]. intros ps Hps. induction Hps as [ps Hps IHps].
  constructor. intros qs ([|t] & p' & q & Ht & Hq & ->); cbn in *.
  - injection Ht as <-. apply IHp; [done|by constructor].
  - apply IHps. by exists t, p', q.
Qed.

Lemma rests_wf : well_founded rests.
Proof.
  intros ps. induction ps as [|p ps IH]; [|by apply rests_cons; [apply rest_wf|]].
  constructor. by intros qs (t & p & q & Ht & _).
Qed.

Lemma interleave_ends (c : config S A) : Acc (flip interleave) c.
Proof.
  destruct c as [s ps]. revert s. induction (rests_wf ps) as [ps _ IH]. intros s. constructor. intros [s' ps'] Hs.
  apply interleave_inv in Hs as (t & p & p' & Hp & Hs & ->). apply IH. exists t, p, p'. split_and!; [done| |done].
  destruct p as [a|X m k|k|k]; [done| |done..]. cbn in *. destruct (m s) as [[x|e] s1]; [|done].
  injection Hs as <- <-. by exists x.
Qed.
End rest.
