(* ===== verification/Exceptions.v ===== *)
(** * Programs that may throw

    An exception leaves a C++ function where an allocation fails, or where a
    callback throws; on its way, the destructors of the locals run, and a
    [catch (...)] ends it.  [X S A] is a program over [S] that returns a value
    or throws, and that still may stop without either, as those of [M] do.
    Nothing that the library catches looks at what was thrown, so an exception
    has no value.

    Which allocations fail is decided in advance, by a list: the first one
    says whether the first allocation fails, and so on, and those that come
    after the list's end all work.  A run makes finitely many allocations, so
    some list describes it, whatever the allocator does. *)

From stdpp Require Import base list.
From S2P Require Import Prelude.

(** ** Definitions *)

Inductive result (A : Type) := Returned (a : A) | Threw.
#[global] Arguments Returned {A} a.
#[global] Arguments Threw {A}.

Abbreviation faults := (list bool).

Definition X (S A : Type) : Type := M (S * faults) (result A).

#[export] Instance X_ret {S} : MRet (X S) := fun A a s => (inl (Returned a), s).
#[export] Instance X_bind {S} : MBind (X S) := fun A B k m s =>
  match m s with
  | (inl (Returned a), s') => k a s'
  | (inl Threw, s') => (inl Threw, s')
  | (inr e, s') => (inr e, s')
  end.

Definition throw {S A} : X S A := fun s => (inl Threw, s).

(** A part that doesn't throw *)
Definition nothrow {S A} (m : M S A) : X S A := fun s =>
  match m (fst s) with
  | (inl a, s') => (inl (Returned a), (s', snd s))
  | (inr e, s') => (inr e, (s', snd s))
  end.

(** Allocations, as many as there are with nothing to be seen between them *)
Definition allocate {S} : X S unit := fun s =>
  (inl (if default false (head (snd s)) then Threw else Returned tt), (fst s, tail (snd s))).

(** What a program does, without its exception leaving *)
Definition caught {S A} (m : X S A) : X S (result A) := fun s =>
  match m s with
  | (inl r, s') => (inl (Returned r), s')
  | (inr e, s') => (inr e, s')
  end.

Definition rethrow {S A} (r : result A) : X S A :=
  match r with Returned a => mret a | Threw => throw end.

(** A block whose locals are destroyed when it's left, either way *)
Definition scope {S A} (body : X S A) (destroy : M S unit) : X S A :=
  r ← caught body; _ ← nothrow destroy; rethrow r.

(** The same, when the locals' contents are moved out before it returns *)
Definition unwinding {S A} (body : X S A) (destroy : M S unit) : X S A :=
  r ← caught body;
  match r with Returned a => mret a | Threw => _ ← nothrow destroy; throw end.

(** [try { return body; } catch (...) { return handler; }] *)
Definition try_catch {S A} (body : X S A) (handler : A) : X S A :=
  r ← caught body; mret (match r with Returned a => a | Threw => handler end).

(** A program over a part of the state *)
Definition xzoom {S T A} (part : S -> T) (with_part : T -> S -> S) (m : X T A) : X S A :=
  zoom (fun s => (part (fst s), snd s)) (fun t s => (with_part (fst t) (fst s), snd t)) m.

(** [wpx bad m Q T s]: whatever fails, from [s], [m] returns a value and a
    state that satisfy [Q], throws in a state that satisfies [T], or stops for
    a reason that [bad] allows *)
Definition wpx {S A} (bad : stop -> Prop) (m : X S A) (Q : A -> S -> Prop) (T : S -> Prop) (s : S) : Prop :=
  forall fs, wp bad m (fun r s' => match r with Returned a => Q a (fst s') | Threw => T (fst s') end) (s, fs).

(** When no allocation fails, [m] is [m'] *)
Definition agrees {S A} (m : X S A) (m' : M S A) : Prop := forall s, m (s, []) = nothrow m' (s, []).

(** ** Lemmas *)

Section wpx.
Context {S : Type} (bad : stop -> Prop).

Lemma wpx_ret {A} (a : A) Q T (s : S) : Q a s -> wpx bad (mret a) Q T s.
Proof. by intros HQ fs. Qed.

Lemma wpx_throw {A} (Q : A -> S -> Prop) T s : T s -> wpx bad throw Q T s.
Proof. by intros HT fs. Qed.

Lemma wpx_bind {A B} (m : X S A) (k : A -> X S B) Q T s :
  wpx bad m (fun a => wpx bad (k a) Q T) T s -> wpx bad (m ≫= k) Q T s.
Proof.
  intros Hm fs. specialize (Hm fs). unfold wp, mbind, X_bind in *.
  destruct (m (s, fs)) as [[[a|]|e] [s' fs']]; cbn in Hm; [apply Hm|done..].
Qed.

Lemma wpx_mono {A} (m : X S A) (P Q : A -> S -> Prop) (T U : S -> Prop) s :
  wpx bad m P T s -> (forall a s', P a s' -> Q a s') -> (forall s', T s' -> U s') -> wpx bad m Q U s.
Proof. intros Hm HQ HU fs. eapply wp_mono; [apply Hm|]. intros [a|] s'; auto. Qed.

Lemma wpx_nothrow {A} (m : M S A) Q T s : wp bad m Q s -> wpx bad (nothrow m) Q T s.
Proof. unfold wp. intros Hm fs. unfold wp, nothrow. cbn [fst snd]. destruct (m s) as [[a|e] s']; exact Hm. Qed.

Lemma wpx_nothrow_bind {A B C} (m : M S A) (f : A -> M S B) (k : B -> X S C) Q T s :
  wp bad (m ≫= f) (fun b => wpx bad (k b) Q T) s -> wpx bad (a ← nothrow m; b ← nothrow (f a); k b) Q T s.
Proof.
  intros Hw. apply wpx_bind, wpx_nothrow. revert Hw. unfold wp at 1 2, mbind, M_bind.
  destruct (m s) as [[a|e] s']; [|done]. intros Hw. by apply wpx_bind, wpx_nothrow.
Qed.

Lemma wpx_allocate (Q : unit -> S -> Prop) T s : Q tt s -> T s -> wpx bad allocate Q T s.
Proof. by intros HQ HT [|[] fs]. Qed.

Lemma wpx_caught {A} (m : X S A) (Q : result A -> S -> Prop) T s :
  wpx bad m (fun a => Q (Returned a)) (Q Threw) s -> wpx bad (caught m) Q T s.
Proof.
  intros Hm fs. specialize (Hm fs). unfold wp, caught in *. by destruct (m (s, fs)) as [[[a|]|e] s'].
Qed.

Lemma wpx_scope {A} (body : X S A) destroy Q T s :
  wpx bad body (fun a => wp bad destroy (fun _ => Q a)) (wp bad destroy (fun _ => T)) s ->
  wpx bad (scope body destroy) Q T s.
Proof.
  intros Hb. apply wpx_bind, wpx_caught. eapply wpx_mono; [exact Hb|..]; cbv beta.
  - intros a s' Hd. apply wpx_bind, wpx_nothrow. eapply wp_mono; [exact Hd|]. intros [] s2. apply wpx_ret.
  - intros s' Hd. apply wpx_bind, wpx_nothrow. eapply wp_mono; [exact Hd|]. intros [] s2. apply wpx_throw.
Qed.

Lemma wpx_unwinding {A} (body : X S A) destroy Q T s :
  wpx bad body Q (wp bad destroy (fun _ => T)) s -> wpx bad (unwinding body destroy) Q T s.
Proof.
  intros Hb. apply wpx_bind, wpx_caught. eapply wpx_mono; [exact Hb|..]; cbv beta.
  - intros a s'. apply wpx_ret.
  - intros s' Hd. apply wpx_bind, wpx_nothrow. eapply wp_mono; [exact Hd|]. intros [] s2. apply wpx_throw.
Qed.

Lemma wpx_try {A} (body : X S A) handler Q T s :
  wpx bad body Q (Q handler) s -> wpx bad (try_catch body handler) Q T s.
Proof.
  intros Hb. apply wpx_bind, wpx_caught. eapply wpx_mono; [exact Hb|..]; cbv beta; intros; by apply wpx_ret.
Qed.

Lemma wpx_xzoom {T A} (part : S -> T) with_part (m : X T A) (Q : A -> S -> Prop) U s :
  wpx bad m (fun a t => Q a (with_part t s)) (fun t => U (with_part t s)) (part s) ->
  wpx bad (xzoom part with_part m) Q U s.
Proof.
  intros Hm fs. specialize (Hm fs). unfold xzoom. apply wp_zoom. eapply wp_mono; [exact Hm|]. by intros [a|] t.
Qed.

(** What a run has shown *)
Lemma wpx_run {A} (m : X S A) Q T s fs r s' fs' :
  wpx bad m Q T s -> m (s, fs) = (inl r, (s', fs')) -> match r with Returned a => Q a s' | Threw => T s' end.
Proof. intros Hm Hrun. exact (wp_run _ _ _ _ _ _ (Hm fs) Hrun). Qed.
End wpx.

(** *** Nothing fails *)

Lemma agrees_halts {S A} (m : X S A) m' s :
  agrees m m' -> m (s, []) = match m' s with (inl a, s') => (inl (Returned a), (s', [])) | (inr e, s') => (inr e, (s', [])) end.
Proof. intros Hm. by rewrite Hm. Qed.

Section agrees.
Context {S : Type}.

Lemma agrees_ret {A} (a : A) : agrees (mret a : X S A) (mret a).
Proof. done. Qed.

Lemma agrees_nothrow {A} (m : M S A) : agrees (nothrow m) m.
Proof. done. Qed.

Lemma agrees_bind {A B} (m : X S A) m' (k : A -> X S B) k' :
  agrees m m' -> (forall a, agrees (k a) (k' a)) -> agrees (m ≫= k) (m' ≫= k').
Proof.
  intros Hm Hk s. unfold nothrow, mbind, X_bind, M_bind. cbn. rewrite (agrees_halts _ _ _ Hm).
  destruct (m' s) as [[a|e] s']; [apply Hk|done].
Qed.

Lemma agrees_caught {A} (m : X S A) m' : agrees m m' -> agrees (caught m) (a ← m'; mret (Returned a)).
Proof.
  intros Hm s. unfold nothrow, caught, mbind, M_bind. cbn. rewrite (agrees_halts _ _ _ Hm). by destruct (m' s) as [[a|e] s'].
Qed.

(** Allocating does nothing then *)
Lemma agrees_allocate {A} (k : unit -> X S A) m' : agrees (k tt) m' -> agrees (allocate ≫= k) m'.
Proof. intros Hk s. exact (Hk s). Qed.

Lemma agrees_scope {A} (body : X S A) m' destroy :
  agrees body m' -> agrees (scope body destroy) (a ← m'; _ ← destroy; mret a).
Proof.
  intros Hb s. unfold scope, caught, nothrow, mbind, X_bind, M_bind. cbn. rewrite (agrees_halts _ _ _ Hb).
  destruct (m' s) as [[a|e] s']; [cbn|done]. by destruct (destroy s') as [[[]|e] s2].
Qed.

Lemma agrees_unwinding {A} (body : X S A) m' destroy : agrees body m' -> agrees (unwinding body destroy) m'.
Proof.
  intros Hb s. unfold unwinding, caught, mbind, X_bind. cbn. rewrite (agrees_halts _ _ _ Hb). unfold nothrow. cbn.
  by destruct (m' s) as [[a|e] s'].
Qed.

Lemma agrees_try {A} (body : X S A) m' handler : agrees body m' -> agrees (try_catch body handler) m'.
Proof.
  intros Hb s. unfold try_catch, caught, mbind, X_bind. cbn. rewrite (agrees_halts _ _ _ Hb). unfold nothrow. cbn.
  by destruct (m' s) as [[a|e] s'].
Qed.

Lemma agrees_xzoom {T A} (part : S -> T) with_part (m : X T A) m' :
  agrees m m' -> agrees (xzoom part with_part m) (zoom part with_part m').
Proof.
  intros Hm s. unfold xzoom, nothrow, zoom. cbn. rewrite (agrees_halts _ _ _ Hm). by destruct (m' (part s)) as [[a|e] t].
Qed.
End agrees.

(** An allocation that can be undone *)
Lemma agrees_allocating {S A} (destroy : M S unit) (k : unit -> X S A) m' :
  agrees (k tt) m' -> agrees (unwinding allocate destroy ≫= k) m'.
Proof. intros Hk s. exact (Hk s). Qed.

(** A program with a caught exception, and one that looks at what it returned *)
Lemma agrees_caught_bind {S A B} (m : X S A) m' (k : result A -> X S B) k' :
  agrees m m' -> (forall a, agrees (k (Returned a)) (k' a)) -> agrees (caught m ≫= k) (m' ≫= k').
Proof.
  intros Hm Hk s. unfold nothrow, caught, mbind, X_bind, M_bind. cbn. rewrite (agrees_halts _ _ _ Hm).
  destruct (m' s) as [[a|e] s']; [apply Hk|done].
Qed.

Lemma agrees_ext {S A} (m : X S A) m' m'' : agrees m m' -> (forall s, m' s = m'' s) -> agrees m m''.
Proof. intros Hm He s. rewrite Hm. unfold nothrow. cbn. by rewrite He. Qed.

(** Takes two programs apart together *)
Ltac agree_step :=
  match goal with
  | |- agrees (allocate ≫= _) _ => apply agrees_allocate
  | |- agrees (unwinding allocate _ ≫= _) _ => apply agrees_allocating
  | |- agrees (caught _ ≫= _) (_ ≫= _) => apply agrees_caught_bind; [|intros ?]
  | |- agrees (nothrow ?m) ?m => apply agrees_nothrow
  | |- agrees (mret _) (mret _) => apply agrees_ret
  | |- agrees (unwinding _ _) _ => apply agrees_unwinding
  | |- agrees (try_catch _ _) _ => apply agrees_try
  | |- agrees (scope _ _) _ => apply agrees_scope
  | |- agrees (xzoom _ _ _) _ => apply agrees_xzoom
  | |- agrees (_ ≫= _) (_ ≫= _) => apply agrees_bind; [|intros ?]
  | |- agrees (match ?x with _ => _ end) _ => destruct x eqn:?
  end; cbn beta iota.
