(* ===== verification/Parse.v ===== *)
(** * Strict number parsing and bounded views ([shared/hipobj-parse.h],
    [shared/hipobj-span.h])

    [from_chars] models what [parseNumber()] uses of [std::from_chars]: the
    longest run of digits, an optional minus sign for a signed type, and the
    out-of-range error.  [to_string] models [std::to_string] and what
    [std::format] prints for an integer. *)

From Stdlib Require Import Ascii String.
From stdpp Require Import base numbers list.
From S2P Require Import Prelude.

(** ** Definitions *)

(** [std::errc], as far as [std::from_chars] uses it *)
Inductive errc := errc_ok | errc_invalid_argument | errc_result_out_of_range.

#[export] Instance errc_eq_dec : EqDecision errc.
Proof. solve_decision. Defined.

(** The value of a digit in bases up to 36, in either case *)
Definition digit_value (c : ascii) : option Z :=
  let z := code c in
  if (48 <=? z) && (z <=? 57) then Some (z - 48)
  else if (97 <=? z) && (z <=? 122) then Some (z - 87)
  else if (65 <=? z) && (z <=? 90) then Some (z - 55)
  else None.

(** The value of [c] if it's a digit in [base] *)
Definition base_digit (base : Z) (c : ascii) : option Z :=
  match digit_value c with
  | Some d => if d <? base then Some d else None
  | None => None
  end.

(** The digits that [s] starts with *)
Fixpoint digit_prefix (base : Z) (s : chars) : list Z :=
  match s with
  | [] => []
  | c :: s' =>
      match base_digit base c with
      | Some d => d :: digit_prefix base s'
      | None => []
      end
  end.

(** The number that digits stand for, most significant first *)
Definition digits_value (base : Z) (ds : list Z) : Z :=
  foldl (fun acc d => acc * base + d) 0 ds.

(** [std::from_chars(first, last, value, base)]: how many characters it
    consumed, its error, and the value *)
Definition from_chars (T : ity) (s : chars) (base : Z) : nat * errc * Z :=
  let '(neg, rest) :=
    match s with
    | c :: s' => if ity_signed T && (code c =? 45) then (true, s') else (false, s)
    | [] => (false, s)
    end in
  let ds := digit_prefix base rest in
  if decide (ds = []) then (0%nat, errc_invalid_argument, 0)
  else
    let n := if neg : bool then - digits_value base ds else digits_value base ds in
    let consumed := (List.length ds + (if neg : bool then 1 else 0))%nat in
    if in_range T n then (consumed, errc_ok, n)
    else (consumed, errc_result_out_of_range, 0).

Definition kMinNumberBase : Z := 2.
Definition kMaxNumberBase : Z := 36.
Definition kDefaultNumberBase : Z := 10.

Definition parseNumber (T : ity) (text : chars) (base : Z) : option Z :=
  if bool_decide (text = []) || (base <? kMinNumberBase) || (kMaxNumberBase <? base) then None
  else
    let '(ptr, ec, value) := from_chars T text base in
    if negb (bool_decide (ec = errc_ok)) || negb (Nat.eqb ptr (List.length text)) then None
    else Some value.

(** The digit character of a value below 10 *)
Definition dec_digit (d : Z) : ascii := chr (48 + d).

(** [n]'s decimal digits in front of [acc]; each step takes one digit *)
Fixpoint dec_digits (fuel : nat) (n : Z) (acc : chars) : chars :=
  match fuel with
  | O => acc
  | S fuel' =>
      let acc' := dec_digit (n mod 10) :: acc in
      if n <? 10 then acc' else dec_digits fuel' (n / 10) acc'
  end.

(** A number has at most as many decimal digits as binary ones *)
Definition dec_fuel (n : Z) : nat := S (Z.to_nat (Z.log2 n)).

Definition to_string (n : Z) : chars :=
  if n <? 0 then chr 45 :: dec_digits (dec_fuel (- n)) (- n) []
  else dec_digits (dec_fuel n) n [].

(** The string in [s] up to its first NUL, or all of [s] if it has none *)
Fixpoint cStringView (s : chars) : chars :=
  match s with
  | [] => []
  | c :: s' => if code c =? 0 then [] else c :: cStringView s'
  end.

(** The NUL-terminated string at a pointer to the characters [mem],
    scanning at most [maxLen] of them *)
Definition cStringViewN (mem : chars) (maxLen : nat) : chars :=
  cStringView (take maxLen mem).

(** A string that holds no NUL *)
Definition no_nul (s : chars) : Prop := Forall (fun c => code c <> 0) s.

(** What [parseNumber] accepts: [numeral T base s v]: the whole of [s] is a numeral of base [base] for
    the value [v] of the type [T]. *)
Inductive numeral (T : ity) (base : Z) : chars -> Z -> Prop :=
| numeral_pos s ds :
    ds <> [] ->
    Forall2 (fun c d => base_digit base c = Some d) s ds ->
    in_range T (digits_value base ds) = true ->
    numeral T base s (digits_value base ds)
| numeral_neg s ds :
    ity_signed T = true ->
    ds <> [] ->
    Forall2 (fun c d => base_digit base c = Some d) s ds ->
    in_range T (- digits_value base ds) = true ->
    numeral T base (chr 45 :: s) (- digits_value base ds).

(** ** Digits *)

Lemma digit_value_range c d : digit_value c = Some d -> 0 <= d < 36.
Proof. unfold digit_value. intros H. case_in H; bools; lia. Qed.

Lemma base_digit_range base c d : base_digit base c = Some d -> 0 <= d < base.
Proof.
  unfold base_digit. intros H. case_in H. bools.
  pose proof (digit_value_range _ _ Heqo). lia.
Qed.

Lemma digit_prefix_length base s : (List.length (digit_prefix base s) <= List.length s)%nat.
Proof. induction s as [|c s IH]; simpl; [lia|]. case_all; simpl; lia. Qed.

(** A prefix of digits as long as the string is all of it *)
Lemma digit_prefix_all base s :
  List.length (digit_prefix base s) = List.length s <->
  Forall2 (fun c d => base_digit base c = Some d) s (digit_prefix base s).
Proof.
  split.
  - induction s as [|c s IH]; simpl; [constructor|].
    case_all; simpl; [|lia]. intros H. constructor; [done|]. apply IH. lia.
  - intros H. symmetry. by eapply Forall2_length.
Qed.

Lemma digit_prefix_Forall2 base s ds :
  Forall2 (fun c d => base_digit base c = Some d) s ds -> digit_prefix base s = ds.
Proof. induction 1; simpl; [done|]. rewrite H. by f_equal. Qed.

Lemma foldl_digits_app base acc ds es :
  foldl (fun acc d => acc * base + d) acc (ds ++ es) =
  foldl (fun acc d => acc * base + d) (foldl (fun acc d => acc * base + d) acc ds) es.
Proof. apply foldl_app. Qed.

Lemma digits_value_snoc base ds d :
  digits_value base (ds ++ [d]) = digits_value base ds * base + d.
Proof. unfold digits_value. by rewrite foldl_digits_app. Qed.

Lemma digits_value_nonneg base ds :
  0 <= base -> Forall (fun d => 0 <= d) ds -> 0 <= digits_value base ds.
Proof.
  intros Hb. induction ds as [|d ds IH] using rev_ind; [done|].
  rewrite Forall_app, Forall_singleton. intros [H1 H2].
  rewrite digits_value_snoc. specialize (IH H1). nia.
Qed.

Lemma minus_not_digit base : base_digit base (chr 45) = None.
Proof. done. Qed.

Lemma from_chars_all T s base v :
  from_chars T s base = (List.length s, errc_ok, v) <-> numeral T base s v.
Proof.
  split.
  - unfold from_chars. destruct s as [|c s]; [done|].
    destruct (ity_signed T && (code c =? 45)) eqn:Hc.
    + apply andb_true_iff in Hc as [HT Hc]. apply Z.eqb_eq in Hc.
      assert (c = chr 45) as -> by (apply code_inj; by rewrite Hc).
      case_decide; [done|]. destruct (in_range T _) eqn:Hr; [|done].
      simpl. intros [= Hl <-]. constructor; try done.
      apply digit_prefix_all. lia.
    + case_decide; [done|]. destruct (in_range T _) eqn:Hr; [|done].
      intros [= Hl <-]. constructor; try done. apply digit_prefix_all.
      rewrite Nat.add_0_r in Hl. exact Hl.
  - intros [s' ds Hne Hf Hr|s' ds HT Hne Hf Hr]; unfold from_chars.
    + assert (Hlen := Forall2_length _ _ _ Hf).
      destruct s' as [|c s']; [by inversion Hf; subst|].
      assert (ity_signed T && (code c =? 45) = false) as ->.
      { apply andb_false_iff. right. apply Z.eqb_neq. intros Hc.
        inversion Hf as [|? d ? ? Hd]; subst.
        assert (c = chr 45) as -> by (apply code_inj; by rewrite Hc).
        by rewrite minus_not_digit in Hd. }
      rewrite (digit_prefix_Forall2 _ _ _ Hf). case_decide; [done|].
      rewrite Hr. by rewrite Nat.add_0_r, Hlen.
    + assert (Hlen := Forall2_length _ _ _ Hf).
      change (code (chr 45) =? 45) with true. rewrite HT. simpl.
      rewrite (digit_prefix_Forall2 _ _ _ Hf). case_decide; [done|].
      rewrite Hr. repeat f_equal. lia.
Qed.

Lemma parseNumber_numeral T text base v :
  parseNumber T text base = Some v <->
  kMinNumberBase <= base <= kMaxNumberBase /\ numeral T base text v.
Proof.
  rewrite <- from_chars_all. unfold parseNumber.
  destruct (bool_decide (text = [])) eqn:Ht.
  { apply bool_decide_eq_true in Ht as ->. simpl. split; [done|].
    intros [_ H]. unfold from_chars in H. by case_decide. }
  destruct (base <? kMinNumberBase) eqn:H1, (kMaxNumberBase <? base) eqn:H2; simpl; bools;
    try (split; [done|]; intros [? ?]; unfold kMinNumberBase, kMaxNumberBase in *; lia).
  destruct (from_chars T text base) as [[ptr ec] value] eqn:Hf.
  destruct (decide (ec = errc_ok)) as [->|He].
  - simpl. destruct (Nat.eqb_spec ptr (List.length text)) as [->|Hp]; simpl.
    + split; [intros [= ->]; split; [lia|done]|]. by intros [_ [= ->]].
    + split; [done|]. intros [_ [= -> ->]]. done.
  - rewrite bool_decide_eq_false_2 by done. simpl. split; [done|].
    by intros [_ [= -> ->]].
Qed.

(** ** Decimal strings *)

Lemma dec_digit_value d : 0 <= d < 10 -> base_digit 10 (dec_digit d) = Some d.
Proof.
  intros H.
  assert (d ∈ seqZ 0 10) as Hd by (apply elem_of_seqZ; lia).
  revert d Hd H. apply (Forall_forall (fun d => 0 <= d < 10 -> base_digit 10 (dec_digit d) = Some d)).
  repeat constructor.
Qed.

(** The digits [dec_digits] puts in front of [acc] are [n]'s *)
Lemma dec_digits_value fuel n acc :
  0 <= n -> n < 2 ^ Z.of_nat fuel -> (0 < fuel)%nat ->
  exists s ds, dec_digits fuel n acc = s ++ acc /\ ds <> [] /\
    Forall2 (fun c d => base_digit 10 c = Some d) s ds /\ digits_value 10 ds = n.
Proof.
  revert n acc. induction fuel as [|fuel IH]; intros n acc Hn Hf Hpos; [lia|]. simpl.
  pose proof (Z.mod_pos_bound n 10 ltac:(lia)) as Hm.
  destruct (n <? 10) eqn:Hlt; bools.
  - exists [dec_digit (n mod 10)], [n mod 10]. split; [done|]. split; [done|].
    split; [repeat constructor; by apply dec_digit_value|].
    unfold digits_value. simpl. rewrite Z.mod_small; lia.
  - assert (2 ^ Z.of_nat (S fuel) = 2 * 2 ^ Z.of_nat fuel) as Hp
      by (rewrite Nat2Z.inj_succ, Z.pow_succ_r; lia).
    destruct (IH (n / 10) (dec_digit (n mod 10) :: acc)) as (s & ds & -> & Hne & Hds & Hv).
    { apply Z.div_pos; lia. }
    { apply Z.div_lt_upper_bound; lia. }
    { destruct fuel; [|lia]. simpl in *. lia. }
    exists (s ++ [dec_digit (n mod 10)]), (ds ++ [n mod 10]).
    split; [by rewrite <- app_assoc|]. split; [by destruct ds|].
    split; [apply Forall2_app; [done|]; repeat constructor; by apply dec_digit_value|].
    rewrite digits_value_snoc, Hv. pose proof (Z.div_mod n 10 ltac:(lia)). lia.
Qed.

Lemma dec_fuel_enough n : 0 <= n -> n < 2 ^ Z.of_nat (dec_fuel n).
Proof.
  intros Hn. unfold dec_fuel. rewrite Nat2Z.inj_succ, Z2Nat.id by apply Z.log2_nonneg.
  destruct (decide (n = 0)) as [->|]; [done|].
  apply Z.log2_spec. lia.
Qed.

Lemma dec_digits_numeral n :
  0 <= n ->
  exists ds, ds <> [] /\
    Forall2 (fun c d => base_digit 10 c = Some d) (dec_digits (dec_fuel n) n []) ds /\
    digits_value 10 ds = n.
Proof.
  intros Hn.
  destruct (dec_digits_value (dec_fuel n) n []) as (s & ds & -> & H); try done.
  { by apply dec_fuel_enough. }
  { unfold dec_fuel. lia. }
  exists ds. by rewrite app_nil_r.
Qed.

Lemma to_string_numeral T n :
  in_range T n = true -> numeral T 10 (to_string n) n.
Proof.
  intros Hr. unfold to_string. destruct (n <? 0) eqn:Hn; bools.
  - destruct (dec_digits_numeral (- n)) as (ds & Hne & Hds & Hv); [lia|].
    pose proof (fun s => numeral_neg T 10 s ds) as Hneg. rewrite Hv, Z.opp_involutive in Hneg.
    apply Hneg; [|done..].
    apply in_range_spec in Hr. unfold ity_min in Hr. destruct (ity_signed T); [done|lia].
  - destruct (dec_digits_numeral n) as (ds & Hne & Hds & Hv); [lia|].
    pose proof (fun s => numeral_pos T 10 s ds) as Hpos. rewrite Hv in Hpos. by apply Hpos.
Qed.

(** ** NUL-terminated strings *)

Lemma cStringView_app s rest :
  no_nul s -> cStringView (s ++ chr 0 :: rest) = s.
Proof.
  induction 1 as [|c s Hc _ IH]; [done|]. simpl.
  rewrite (proj2 (Z.eqb_neq _ _) Hc). by rewrite IH.
Qed.

Lemma cStringView_id s : no_nul s -> cStringView s = s.
Proof.
  induction 1 as [|c s Hc _ IH]; [done|]. simpl.
  rewrite (proj2 (Z.eqb_neq _ _) Hc). by rewrite IH.
Qed.

Lemma cStringView_prefix s : cStringView s `prefix_of` s.
Proof.
  induction s as [|c s [k IH]]; [by exists []|]. simpl. case_all.
  - by exists (c :: s).
  - exists k. simpl. by rewrite <- IH.
Qed.

Lemma cStringViewN_length mem n : (List.length (cStringViewN mem n) <= n)%nat.
Proof.
  unfold cStringViewN. pose proof (prefix_length _ _ (cStringView_prefix (take n mem))) as H.
  rewrite length_take in H. lia.
Qed.
