(* ===== verification/Gid.v ===== *)
(** * GIDs ([src/common/gid.h], [src/common/ibv-gid.h])

    A [Gid] is the 16 bytes of a GID table entry.  [union ibv_gid] holds the
    same bytes, and [toGid()] and [toIbvGid()] are [std::bit_cast]s. *)

From stdpp Require Import base numbers list.
From S2P Require Import Prelude.

(** ** Definitions *)

Definition kGidLen : nat := 16.

Abbreviation Gid := (list Z).

(** What the type [std::array<uint8_t, kGidLen>] guarantees *)
Definition wf_gid (g : Gid) : Prop := List.length g = kGidLen /\ Forall is_byte g.

(** [Gid{}], the unconfigured GID table entry *)
Definition zero_gid : Gid := replicate kGidLen 0.

Definition kIpv4MappedPrefix : list Z := [0; 0; 0; 0; 0; 0; 0; 0; 0; 0; 255; 255].

Definition isIpv4MappedGid (gid : Gid) : bool :=
  bool_decide (take (List.length kIpv4MappedPrefix) gid = kIpv4MappedPrefix).

Definition ipv4OfGid (gid : Gid) : list Z := drop (List.length gid - 4) gid.

(** [union ibv_gid], by its raw bytes *)
Record ibv_gid := { raw : list Z }.

Definition toGid (gid : ibv_gid) : Gid := raw gid.
Definition toIbvGid (gid : Gid) : ibv_gid := {| raw := gid |}.

(** ** Lemmas *)

Lemma toGid_toIbvGid g : toGid (toIbvGid g) = g.
Proof. done. Qed.

Lemma toIbvGid_toGid g : toIbvGid (toGid g) = g.
Proof. by destruct g. Qed.

Lemma wf_zero_gid : wf_gid zero_gid.
Proof. split; [done|]. by apply Forall_replicate. Qed.

(** An IPv4-mapped GID is the prefix and the four bytes of the address *)
Lemma ipv4_mapped_split g :
  wf_gid g -> isIpv4MappedGid g = true -> g = kIpv4MappedPrefix ++ ipv4OfGid g.
Proof.
  intros [Hl _] H. apply bool_decide_eq_true in H. rewrite <- H.
  unfold ipv4OfGid. rewrite Hl. change (kGidLen - 4)%nat with (List.length kIpv4MappedPrefix).
  by rewrite take_drop.
Qed.

Lemma ipv4OfGid_length g : wf_gid g -> List.length (ipv4OfGid g) = 4%nat.
Proof. intros [Hl _]. unfold ipv4OfGid. rewrite length_drop, Hl. done. Qed.

Lemma ipv4OfGid_bytes g : wf_gid g -> Forall is_byte (ipv4OfGid g).
Proof. intros [_ H]. by apply Forall_drop. Qed.

#[export] Hint Resolve wf_zero_gid ipv4OfGid_length ipv4OfGid_bytes : hipobj.
