(* ===== verification/Token.v ===== *)
(** * RDMA tokens and replies ([src/rdma/token.h], [src/rdma/token.cpp])

    The wire form of an RDMA token (44 bytes, little-endian integers, 88
    lowercase hex digits), its decoder, and the [x-amz-rdma-reply] parser. *)

From Stdlib Require Import Ascii String.
From stdpp Require Import base numbers list.
From S2P Require Import Prelude.
From S2P Require Import Parse.
From S2P Require Import Gid.

(** ** Definitions *)

Definition kRdmaTokenHexLen : nat := 88.

Inductive TransportType := DC | RC.

#[export] Instance TransportType_eq_dec : EqDecision TransportType.
Proof. solve_decision. Defined.

(** [static_cast<uint8_t>(transport)] *)
Definition transport_byte (t : TransportType) : Z :=
  match t with DC => 0 | RC => 1 end.

(** The enumerator a byte names, if it names one *)
Definition transport_of_byte (b : Z) : option TransportType :=
  if b =? 0 then Some DC else if b =? 1 then Some RC else None.

Record RdmaToken := {
  tok_qpNum : Z;
  tok_gid : Gid;
  tok_rkey : Z;
  tok_remoteAddr : Z;
  tok_length : Z;
  tok_transport : TransportType;
  tok_portNum : Z;
  tok_lid : Z;
}.

(** What the types of [RdmaToken]'s fields guarantee *)
Definition wf_token (t : RdmaToken) : Prop :=
  0 <= tok_qpNum t < 2 ^ 32 /\ wf_gid (tok_gid t) /\ 0 <= tok_rkey t < 2 ^ 32 /\
  0 <= tok_remoteAddr t < 2 ^ 64 /\ 0 <= tok_length t < 2 ^ 64 /\
  0 <= tok_portNum t < 2 ^ 8 /\ 0 <= tok_lid t < 2 ^ 16.

#[export] Instance wf_token_dec t : Decision (wf_token t).
Proof. unfold wf_token, wf_gid. apply _. Defined.

Inductive RdmaReplyStatus := Success | Failed | NotSupported.

#[export] Instance RdmaReplyStatus_eq_dec : EqDecision RdmaReplyStatus.
Proof. solve_decision. Defined.

Definition kHexDigits : chars := lit "0123456789abcdef".
Definition kLowNibble : Z := 15.

(** [sizeof(T)] *)
Definition sizeof (T : ity) : nat := Z.to_nat (ity_bits T / 8).

Definition kTokenBinaryLen : nat :=
  (sizeof uint8_t + sizeof uint32_t + kGidLen + sizeof uint32_t + sizeof uint64_t
   + sizeof uint64_t + sizeof uint8_t + sizeof uint16_t)%nat.

(** [TokenWriter]: the bytes in front of [rest_], and [rest_] itself *)
Record TokenWriter := { w_done : list Z; w_rest : list Z }.

(** The bytes [put(T value)] writes, one for each turn of its loop *)
Definition put_bytes (T : ity) (value : Z) : list Z :=
  map (fun i => wrapu 8 (Z.shiftr value (8 * Z.of_nat i))) (seq 0 (sizeof T)).

(** [put(std::span<const uint8_t>)] *)
Definition put_span (bytes : list Z) (w : TokenWriter) : TokenWriter :=
  {| w_done := w_done w ++ bytes; w_rest := drop (List.length bytes) (w_rest w) |}.

(** [put(T value)] *)
Definition put (T : ity) (value : Z) (w : TokenWriter) : TokenWriter :=
  put_span (put_bytes T value) w.

(** [get<T>()]: the value, and the [rest_] after it *)
Definition get (T : ity) (rest : list Z) : Z * list Z :=
  (foldl (fun value i =>
            wrapu (ity_bits T) (Z.lor value (Z.shiftl (nth i rest 0) (8 * Z.of_nat i))))
         0 (seq 0 (sizeof T)),
   drop (sizeof T) rest).

(** [get(std::span<uint8_t>)] for a span of [n] bytes *)
Definition get_span (n : nat) (rest : list Z) : list Z * list Z := (take n rest, drop n rest).

Definition kHttpOk : Z := 200.
Definition kHttpNoContent : Z := 204.
Definition kHttpPartialContent : Z := 206.
Definition kHttpStatusMin : Z := 100.
Definition kHttpStatusMax : Z := 599.

(** [HIPOBJ_RDMA_REPLY_NOT_IMPLEMENTED] *)
Definition HIPOBJ_RDMA_REPLY_NOT_IMPLEMENTED : Z := 501.

Definition isSuccessHttpCode (code : Z) : bool :=
  (code =? kHttpOk) || (code =? kHttpNoContent) || (code =? kHttpPartialContent).

(** [encodeRdmaTokenHex()]'s writer, after the token's fields *)
Definition write_token (token : RdmaToken) : TokenWriter :=
  let out := {| w_done := []; w_rest := replicate kTokenBinaryLen 0 |} in
  let out := put uint8_t (transport_byte (tok_transport token)) out in
  let out := put uint32_t (tok_qpNum token) out in
  let out := put_span (tok_gid token) out in
  let out := put uint32_t (tok_rkey token) out in
  let out := put uint64_t (tok_remoteAddr token) out in
  let out := put uint64_t (tok_length token) out in
  let out := put uint8_t (tok_portNum token) out in
  put uint16_t (tok_lid token) out.

(** The digit at an index of [kHexDigits] *)
Definition hex_digit (d : Z) : ascii := nth (Z.to_nat d) kHexDigits (chr 0).

Definition hex_of_byte (b : Z) : chars :=
  [hex_digit (Z.shiftr b 4); hex_digit (Z.land b kLowNibble)].

(** [encodeRdmaTokenHex()]: the digits and the NUL after them *)
Definition encodeRdmaTokenHex (token : RdmaToken) : chars :=
  let out := write_token token in
  let buf := w_done out ++ w_rest out in
  flat_map hex_of_byte buf ++ [chr 0].

Definition encodeRdmaToken (token : RdmaToken) : chars :=
  take kRdmaTokenHexLen (encodeRdmaTokenHex token).

Definition decodeRdmaTokenHex (tokenHex : chars) : option RdmaToken :=
  if negb (Nat.eqb (List.length tokenHex) kRdmaTokenHexLen) then None
  else
    match mapM (fun i => parseNumber uint8_t (take 2 (drop (2 * i) tokenHex)) 16)
               (seq 0 kTokenBinaryLen) with
    | None => None
    | Some buf =>
        let '(tbyte, rest) := get uint8_t buf in
        match transport_of_byte tbyte with
        | None => None
        | Some transport =>
            let '(qpNum, rest) := get uint32_t rest in
            let '(gid, rest) := get_span kGidLen rest in
            let '(rkey, rest) := get uint32_t rest in
            let '(remoteAddr, rest) := get uint64_t rest in
            let '(length, rest) := get uint64_t rest in
            let '(portNum, rest) := get uint8_t rest in
            let '(lid, rest) := get uint16_t rest in
            Some {| tok_qpNum := qpNum; tok_gid := gid; tok_rkey := rkey;
                    tok_remoteAddr := remoteAddr; tok_length := length;
                    tok_transport := transport; tok_portNum := portNum; tok_lid := lid |}
        end
    end.

Record ParsedReply := { httpCode : Z; peerToken : option RdmaToken }.

(** Drops the characters that satisfy [p] from the end of [s] *)
Fixpoint remove_trailing (p : ascii -> bool) (s : chars) : chars :=
  match s with
  | [] => []
  | c :: s' =>
      match remove_trailing p s' with
      | [] => if p c then [] else [c]
      | r => c :: r
      end
  end.

(** The characters that can follow a reply: NUL, LF, and CR *)
Definition is_line_end (c : ascii) : bool :=
  (code c =? 0) || (code c =? 10) || (code c =? 13).

(** [s.find(c)] *)
Definition find_char (c : ascii) (s : chars) : option nat :=
  fst <$> list_find (fun d => d = c) s.

(** [s.substr(0, pos)], where no position is [npos] *)
Definition substr_to (s : chars) (pos : option nat) : chars :=
  match pos with Some n => take n s | None => s end.

Definition parseReply (reply : chars) : option ParsedReply :=
  let value := remove_trailing is_line_end reply in
  if decide (value = lit "ok") then Some {| httpCode := kHttpOk; peerToken := None |}
  else if decide (value = lit "err") then Some {| httpCode := -1; peerToken := None |}
  else
    let status := substr_to value (find_char ":"%char value) in
    if negb (Nat.eqb (List.length status) 3) then None
    else
      match parseNumber uint32_t status kDefaultNumberBase with
      | None => None
      | Some parsed =>
          if (parsed <? kHttpStatusMin) || (kHttpStatusMax <? parsed) then None
          else if Nat.eqb (List.length status) (List.length value) then
            Some {| httpCode := parsed; peerToken := None |}
          else if negb (parsed =? kHttpOk) then None
          else
            match decodeRdmaTokenHex (drop (List.length status + 1) value) with
            | None => None
            | Some token => Some {| httpCode := parsed; peerToken := Some token |}
            end
      end.

Definition parseRdmaReplyHttpCode (reply : chars) : option Z :=
  match parseReply reply with
  | None => None
  | Some parsed => Some (httpCode parsed)
  end.

Definition decodeRdmaReply (reply : chars) : option RdmaReplyStatus :=
  match parseRdmaReplyHttpCode reply with
  | None => None
  | Some code =>
      if code =? HIPOBJ_RDMA_REPLY_NOT_IMPLEMENTED then Some NotSupported
      else if isSuccessHttpCode code then Some Success
      else Some Failed
  end.

(** [INET_ADDRSTRLEN] *)
Definition INET_ADDRSTRLEN : nat := 16.

(** What [std::format] prints for ["{}.{}.{}.{}"] *)
Definition dotted_quad (ip : list Z) : chars :=
  to_string (nth 0 ip 0) ++ lit "." ++ to_string (nth 1 ip 0) ++ lit "." ++
  to_string (nth 2 ip 0) ++ lit "." ++ to_string (nth 3 ip 0).

(** [std::ranges::copy(src, dst.begin())], when [src] isn't longer *)
Definition copy_into (src dst : chars) : chars := src ++ drop (List.length src) dst.

(** [parseClientNicFromTokenHex()]: its result, and the caller's buffer
    after the call *)
Definition parseClientNicFromTokenHex (tokenHex : chars) (nicIp : chars) : bool * chars :=
  match nicIp with
  | [] => (false, [])
  | _ :: tl =>
      let nicIp := chr 0 :: tl in
      match decodeRdmaTokenHex tokenHex with
      | None => (false, nicIp)
      | Some token =>
          if negb (isIpv4MappedGid (tok_gid token)) then (true, nicIp)
          else
            let text := dotted_quad (ipv4OfGid (tok_gid token)) in
            let buf := copy_into (take (INET_ADDRSTRLEN - 1) text)
                                 (replicate INET_ADDRSTRLEN (chr 0)) in
            let length := List.length text in
            if Nat.leb (List.length nicIp) length then (false, nicIp)
            else (true, copy_into (take (length + 1) buf) nicIp)
      end
  end.

Definition parsePeerTokenFromReply (reply : chars) : option RdmaToken :=
  match parseReply reply with
  | None => None
  | Some parsed => peerToken parsed
  end.

Definition encodeReplyWithPeerToken (httpCode : Z) (peer : RdmaToken) : chars :=
  to_string httpCode ++ lit ":" ++ take kRdmaTokenHexLen (encodeRdmaTokenHex peer).

(** The number that little-endian bytes stand for *)
Definition le_value (bs : list Z) : Z := foldr (fun b acc => b + 256 * acc) 0 bs.

(** The wire layout of [docs/interop.rst]: each field's first byte, its
    width, and its value as a number, little-endian *)
Definition wire_layout (t : RdmaToken) : list (nat * nat * Z) :=
  [(0, 1, transport_byte (tok_transport t)); (1, 4, tok_qpNum t);
   (5, 16, le_value (tok_gid t)); (21, 4, tok_rkey t); (25, 8, tok_remoteAddr t);
   (33, 8, tok_length t); (41, 1, tok_portNum t); (42, 2, tok_lid t)]%nat.

(** The types the token's fields have: a whole number of bytes, unsigned *)
Definition whole_bytes (T : ity) : Prop :=
  ity_signed T = false /\ ity_bits T = 8 * Z.of_nat (sizeof T).

(** A hex digit, in either case, and its lowercase form *)
Definition is_hex (c : ascii) : bool := bool_decide (is_Some (base_digit 16 c)).
Definition lower (c : ascii) : ascii :=
  if (65 <=? code c) && (code c <=? 90) then chr (code c + 32) else c.

(** [s] is the hex digits, in either case, of the bytes *)
Inductive hex_pairs : chars -> list Z -> Prop :=
| hex_nil : hex_pairs [] []
| hex_cons c1 c2 d1 d2 s bs :
    base_digit 16 c1 = Some d1 -> base_digit 16 c2 = Some d2 -> hex_pairs s bs ->
    hex_pairs (c1 :: c2 :: s) (16 * d1 + d2 :: bs).

(** The reply forms [docs/interop.rst] lists, with the trailing NUL, CR and
    LF characters already dropped *)
Inductive reply_form : chars -> ParsedReply -> Prop :=
| reply_ok : reply_form (lit "ok") {| httpCode := 200; peerToken := None |}
| reply_err : reply_form (lit "err") {| httpCode := -1; peerToken := None |}
| reply_status s n :
    List.length s = 3%nat -> numeral uint32_t 10 s n -> 100 <= n <= 599 ->
    reply_form s {| httpCode := n; peerToken := None |}
| reply_peer hex t :
    decodeRdmaTokenHex hex = Some t ->
    reply_form (lit "200:" ++ hex) {| httpCode := 200; peerToken := Some t |}.

(** ** Little-endian integers *)

Lemma lor_shiftl_add a b k : 0 <= k -> 0 <= a < 2 ^ k -> Z.lor a (Z.shiftl b k) = a + b * 2 ^ k.
Proof.
  intros Hk Ha. rewrite <- Z.shiftl_mul_pow2, <- Z.add_lor_land by done.
  assert (Z.land a (Z.shiftl b k) = 0) as ->; [|lia].
  apply Z.bits_inj'. intros i Hi. rewrite Z.land_spec, Z.bits_0.
  destruct (decide (i < k)).
  - rewrite (Z.shiftl_spec_low b k i) by lia. apply andb_false_r.
  - rewrite <- (Z.mod_small a (2 ^ k)), Z.mod_pow2_bits_high by lia. done.
Qed.

Lemma le_value_range bs : Forall is_byte bs -> 0 <= le_value bs < 2 ^ (8 * Z.of_nat (List.length bs)).
Proof.
  induction 1 as [|b bs Hb _ IH]; [done|]. cbn [le_value foldr List.length].
  fold (le_value bs). unfold is_byte in Hb.
  replace (8 * Z.of_nat (S (List.length bs))) with (8 + 8 * Z.of_nat (List.length bs)) by lia.
  rewrite Z.pow_add_r by lia. change (2 ^ 8) with 256. lia.
Qed.

Lemma le_value_app bs cs :
  le_value (bs ++ cs) = le_value bs + 2 ^ (8 * Z.of_nat (List.length bs)) * le_value cs.
Proof.
  induction bs as [|b bs IH]; [simpl; lia|]. cbn [app le_value foldr List.length].
  fold (le_value (bs ++ cs)) (le_value bs). rewrite IH.
  replace (8 * Z.of_nat (S (List.length bs))) with (8 + 8 * Z.of_nat (List.length bs)) by lia.
  rewrite Z.pow_add_r by lia. change (2 ^ 8) with 256. ring.
Qed.

Lemma le_value_inj bs cs :
  Forall is_byte bs -> Forall is_byte cs -> List.length bs = List.length cs ->
  le_value bs = le_value cs -> bs = cs.
Proof.
  intros Hbs. revert cs. induction Hbs as [|b bs Hb _ IH]; intros [|c cs] Hcs Hl; try done.
  cbn [le_value foldr]. fold (le_value bs) (le_value cs). intros H.
  apply Forall_cons in Hcs as [Hc Hcs]. unfold is_byte in *.
  assert (b = c) as -> by lia. f_equal. apply IH; [done|simpl in Hl; lia|lia].
Qed.

Lemma map_seq_S {A} (f : nat -> A) n : map f (seq 0 (S n)) = f 0%nat :: map (fun i => f (S i)) (seq 0 n).
Proof. simpl. f_equal. rewrite <- seq_shift, map_map. done. Qed.

(** The low [n] bytes of a number *)
Lemma le_value_bytes n v :
  le_value (map (fun i => wrapu 8 (Z.shiftr v (8 * Z.of_nat i))) (seq 0 n))
  = v mod 2 ^ (8 * Z.of_nat n).
Proof.
  revert v. induction n as [|n IH]; intros v; [by rewrite Z.mod_1_r|].
  rewrite map_seq_S. cbn [le_value foldr].
  assert (map (fun i => wrapu 8 (Z.shiftr v (8 * Z.of_nat (S i)))) (seq 0 n) =
          map (fun i => wrapu 8 (Z.shiftr (v / 256) (8 * Z.of_nat i))) (seq 0 n)) as ->.
  { apply map_ext. intros i. change 256 with (2 ^ 8).
    rewrite <- Z.shiftr_div_pow2, Z.shiftr_shiftr by lia. do 2 f_equal. lia. }
  fold (le_value (map (fun i => wrapu 8 (Z.shiftr (v / 256) (8 * Z.of_nat i))) (seq 0 n))).
  rewrite IH. replace (8 * Z.of_nat (S n)) with (8 + 8 * Z.of_nat n) by lia.
  rewrite Z.pow_add_r by lia. change (2 ^ 8) with 256. rewrite Z.rem_mul_r by lia.
  unfold wrapu. change (8 * Z.of_nat 0) with 0. by rewrite Z.shiftr_0_r.
Qed.

Lemma put_bytes_length T v : List.length (put_bytes T v) = sizeof T.
Proof. unfold put_bytes. by rewrite length_map, length_seq. Qed.

Lemma put_bytes_bytes T v : Forall is_byte (put_bytes T v).
Proof.
  apply Forall_fmap, Forall_forall. intros i _. simpl. apply (wrapu_range 8). lia.
Qed.

Lemma put_bytes_value T v :
  whole_bytes T -> 0 <= v < 2 ^ ity_bits T -> le_value (put_bytes T v) = v.
Proof.
  intros [_ HT] Hv. unfold put_bytes. rewrite le_value_bytes, <- HT. by apply Z.mod_small.
Qed.

(** [get]'s loop, after [n] turns *)
Lemma get_loop w rest n :
  Forall is_byte rest -> (n <= List.length rest)%nat -> 8 * Z.of_nat n <= w ->
  foldl (fun value i => wrapu w (Z.lor value (Z.shiftl (nth i rest 0) (8 * Z.of_nat i))))
        0 (seq 0 n) = le_value (take n rest).
Proof.
  intros Hb. induction n as [|n IH]; intros Hn Hw; [done|].
  rewrite seq_S, foldl_app, IH by lia. cbn [foldl]. rewrite Nat.add_0_l.
  destruct (lookup_lt_is_Some_2 rest n) as [b Hnth]; [lia|].
  rewrite (nth_lookup_Some _ _ 0 b), (take_S_r _ _ b) by done.
  assert (Hbb : is_byte b) by (by eapply Forall_lookup_1).
  assert (Hr := le_value_range (take n rest) (Forall_take _ _ _ Hb)).
  rewrite length_take, Nat.min_l in Hr by lia.
  rewrite le_value_app, length_take, Nat.min_l by lia.
  rewrite lor_shiftl_add by lia. unfold is_byte in Hbb. cbn [le_value foldr].
  rewrite wrapu_small; [ring|].
  assert (2 ^ (8 * Z.of_nat n) * 256 <= 2 ^ w).
  { change 256 with (2 ^ 8). rewrite <- Z.pow_add_r by lia. apply Z.pow_le_mono_r; lia. }
  nia.
Qed.

Lemma get_value T rest :
  whole_bytes T -> Forall is_byte rest -> (sizeof T <= List.length rest)%nat ->
  get T rest = (le_value (take (sizeof T) rest), drop (sizeof T) rest).
Proof. intros [_ HT] Hb Hl. unfold get. rewrite get_loop; [done|done|done|lia]. Qed.

Lemma get_put T v rest :
  whole_bytes T -> 0 <= v < 2 ^ ity_bits T -> Forall is_byte rest ->
  get T (put_bytes T v ++ rest) = (v, rest).
Proof.
  intros HT Hv Hr. rewrite get_value; [|done| |].
  - rewrite take_app_length', drop_app_length' by (symmetry; apply put_bytes_length).
    by rewrite put_bytes_value.
  - apply Forall_app. split; [apply put_bytes_bytes|done].
  - rewrite length_app, put_bytes_length. lia.
Qed.

(** Writing a value that was read gives back its bytes *)
Lemma put_get T rest v rest' :
  whole_bytes T -> Forall is_byte rest -> (sizeof T <= List.length rest)%nat ->
  get T rest = (v, rest') ->
  rest = put_bytes T v ++ rest' /\ 0 <= v < 2 ^ ity_bits T.
Proof.
  intros HT Hb Hl. rewrite get_value by done. intros [= <- <-].
  assert (Hr := le_value_range (take (sizeof T) rest) (Forall_take _ _ _ Hb)).
  rewrite length_take, Nat.min_l, <- (proj2 HT) in Hr by lia. split; [|done].
  rewrite <- (take_drop (sizeof T) rest) at 1. f_equal.
  apply le_value_inj; [by apply Forall_take|apply put_bytes_bytes| |].
  - rewrite length_take, put_bytes_length. lia.
  - by rewrite put_bytes_value.
Qed.

(** ** Hex digits *)

Lemma parse_hex_byte c1 c2 b :
  parseNumber uint8_t [c1; c2] 16 = Some b <->
  exists d1 d2, base_digit 16 c1 = Some d1 /\ base_digit 16 c2 = Some d2 /\ b = 16 * d1 + d2.
Proof.
  rewrite parseNumber_numeral. split.
  - intros [_ H]. inversion H as [s ds _ Hf Hr|]; subst; [|done].
    inversion Hf as [|? d1 ? ? H1 Hf1]; subst. inversion Hf1 as [|? d2 ? ? H2 Hf2]; subst.
    inversion Hf2; subst. exists d1, d2. unfold digits_value. simpl. split_and!; [done..|lia].
  - intros (d1 & d2 & H1 & H2 & ->). split; [unfold kMinNumberBase, kMaxNumberBase; lia|].
    pose proof (base_digit_range _ _ _ H1). pose proof (base_digit_range _ _ _ H2).
    replace (16 * d1 + d2) with (digits_value 16 [d1; d2]) by (unfold digits_value; simpl; lia).
    constructor; [done|by repeat constructor|]. apply in_range_spec.
    unfold digits_value. cbn. lia.
Qed.

Lemma hex_pairs_length s bs : hex_pairs s bs -> List.length s = (2 * List.length bs)%nat.
Proof. induction 1; simpl; lia. Qed.

Lemma hex_pairs_bytes s bs : hex_pairs s bs -> Forall is_byte bs.
Proof.
  induction 1 as [|c1 c2 d1 d2 s bs H1 H2 _ IH]; constructor; [|done].
  pose proof (base_digit_range _ _ _ H1). pose proof (base_digit_range _ _ _ H2).
  unfold is_byte. lia.
Qed.

(** The decoder's loop over the pairs of digits *)
Lemma decode_loop s n bs :
  List.length s = (2 * n)%nat ->
  mapM (fun i => parseNumber uint8_t (take 2 (drop (2 * i) s)) 16) (seq 0 n) = Some bs <->
  hex_pairs s bs.
Proof.
  revert s bs. induction n as [|n IH]; intros s bs Hl.
  - destruct s; [|done]. simpl. split; [intros [= <-]; constructor|]. by inversion 1.
  - destruct s as [|c1 [|c2 s]]; [simpl in Hl; lia..|].
    rewrite <- cons_seq, <- fmap_S_seq. cbn [mapM]. rewrite bind_Some. cbn [take drop Nat.mul Nat.add].
    assert (forall bs, mapM (fun i => parseNumber uint8_t (take 2 (drop (2 * i) (c1 :: c2 :: s))) 16)
                  (S <$> seq 0 n) = Some bs <-> hex_pairs s bs) as Htl.
    { intros bs'. rewrite <- IH by (simpl in Hl; lia).
      rewrite !mapM_Some, Forall2_fmap_l.
      split; intros Hf; (eapply Forall2_impl; [exact Hf|]); intros i b; unfold compose;
        replace (2 * S i)%nat with (S (S (2 * i))) by lia; done. }
    split.
    + intros (b & Hb & H). apply parse_hex_byte in Hb as (d1 & d2 & H1 & H2 & ->).
      apply bind_Some in H as (bs' & H & [= <-]). constructor; [done..|]. by apply Htl.
    + inversion 1 as [|? ? d1 d2 ? bs' H1 H2 H3]; subst. exists (16 * d1 + d2).
      split; [apply parse_hex_byte; by eauto|]. apply bind_Some. exists bs'. split; [|done].
      by apply Htl.
Qed.

Definition hex_byte_ok (b : Z) : bool :=
  match hex_of_byte b with
  | [c1; c2] =>
      match base_digit 16 c1, base_digit 16 c2 with
      | Some d1, Some d2 => 16 * d1 + d2 =? b
      | _, _ => false
      end
  | _ => false
  end.

Lemma hex_of_byte_ok b : is_byte b -> hex_byte_ok b = true.
Proof. apply byte_forall. vm_compute. done. Qed.

Lemma flat_map_hex_pairs bs : Forall is_byte bs -> hex_pairs (flat_map hex_of_byte bs) bs.
Proof.
  induction 1 as [|b bs Hb _ IH]; [constructor|].
  pose proof (hex_of_byte_ok _ Hb) as H. unfold hex_byte_ok in H. cbn [flat_map].
  destruct (hex_of_byte b) as [|c1 [|c2 [|? ?]]] eqn:E; try done.
  destruct (base_digit 16 c1) as [d1|] eqn:H1; [|done].
  destruct (base_digit 16 c2) as [d2|] eqn:H2; [|done].
  apply Z.eqb_eq in H. rewrite <- H. by constructor.
Qed.

Definition lower_hex_ok (z : Z) : bool :=
  match base_digit 16 (chr z) with
  | Some d => bool_decide (hex_digit d = lower (chr z))
  | None => true
  end.

Lemma hex_digit_lower c d : base_digit 16 c = Some d -> hex_digit d = lower c.
Proof.
  intros H. assert (lower_hex_ok (code c) = true) as Hok.
  { apply byte_forall; [vm_compute; done|apply code_byte]. }
  unfold lower_hex_ok in Hok. rewrite chr_code, H in Hok. by apply bool_decide_eq_true in Hok.
Qed.

(** Encoding the bytes that hex digits stand for gives the digits back, in
    lowercase *)
Lemma hex_pairs_lower s bs : hex_pairs s bs -> flat_map hex_of_byte bs = map lower s.
Proof.
  induction 1 as [|c1 c2 d1 d2 s bs H1 H2 _ IH]; [done|].
  pose proof (base_digit_range _ _ _ H1). pose proof (base_digit_range _ _ _ H2).
  cbn [flat_map map app]. rewrite IH. unfold hex_of_byte, kLowNibble.
  rewrite Z.shiftr_div_pow2 by lia. change 15 with (Z.ones 4). rewrite Z.land_ones by lia.
  change (2 ^ 4) with 16.
  replace ((16 * d1 + d2) / 16) with d1 by (apply Z.div_unique with d2; lia).
  replace ((16 * d1 + d2) mod 16) with d2 by (apply Z.mod_unique with d1; lia).
  cbn [app]. by rewrite (hex_digit_lower _ _ H1), (hex_digit_lower _ _ H2).
Qed.

Lemma hex_pairs_fun s bs bs' : hex_pairs s bs -> hex_pairs s bs' -> bs = bs'.
Proof.
  intros H. revert bs'. induction H; inversion 1; subst; [done|]. simplify_eq. f_equal. eauto.
Qed.

(** ** Tokens *)

Lemma whole_u8 : whole_bytes uint8_t. Proof. done. Qed.
Lemma whole_u16 : whole_bytes uint16_t. Proof. done. Qed.
Lemma whole_u32 : whole_bytes uint32_t. Proof. done. Qed.
Lemma whole_u64 : whole_bytes uint64_t. Proof. done. Qed.
#[export] Hint Resolve whole_u8 whole_u16 whole_u32 whole_u64 : hipobj.

Lemma transport_byte_range t : 0 <= transport_byte t < 2 ^ 8.
Proof. destruct t; done. Qed.

Lemma transport_of_byte_Some b t : transport_of_byte b = Some t <-> b = transport_byte t.
Proof.
  unfold transport_of_byte. split.
  - intros H. case_in H; bools; done.
  - intros ->. by destruct t.
Qed.

(** The [static_assert] on the wire format *)
Lemma kTokenBinaryLen_hex : kRdmaTokenHexLen = (2 * kTokenBinaryLen)%nat.
Proof. done. Qed.

(** The token's fields, written one after another *)
Definition token_fields (t : RdmaToken) : list Z :=
  put_bytes uint8_t (transport_byte (tok_transport t)) ++ put_bytes uint32_t (tok_qpNum t) ++
  tok_gid t ++ put_bytes uint32_t (tok_rkey t) ++ put_bytes uint64_t (tok_remoteAddr t) ++
  put_bytes uint64_t (tok_length t) ++ put_bytes uint8_t (tok_portNum t) ++
  put_bytes uint16_t (tok_lid t).

Lemma token_fields_length t : wf_gid (tok_gid t) -> List.length (token_fields t) = kTokenBinaryLen.
Proof.
  intros [Hl _]. unfold token_fields.
  repeat (rewrite length_app || rewrite put_bytes_length). by rewrite Hl.
Qed.

Lemma token_fields_bytes t : wf_gid (tok_gid t) -> Forall is_byte (token_fields t).
Proof.
  intros [_ Hg]. unfold token_fields. rewrite !Forall_app.
  split_and!; auto using put_bytes_bytes.
Qed.

(** The writer fills its buffer exactly *)
Lemma write_token_fields t :
  wf_gid (tok_gid t) ->
  write_token t = {| w_done := token_fields t; w_rest := [] |}.
Proof.
  intros [Hl Hg]. unfold write_token, put, put_span. cbn [w_done w_rest].
  f_equal.
  - unfold token_fields. rewrite !app_assoc. done.
  - rewrite !put_bytes_length, Hl, !drop_drop. done.
Qed.

Lemma encode_fields t :
  wf_gid (tok_gid t) ->
  encodeRdmaTokenHex t = flat_map hex_of_byte (token_fields t) ++ [chr 0].
Proof.
  intros Hg. unfold encodeRdmaTokenHex. rewrite write_token_fields by done. cbn [w_done w_rest].
  by rewrite app_nil_r.
Qed.

Lemma encode_hex_pairs t :
  wf_gid (tok_gid t) -> hex_pairs (encodeRdmaToken t) (token_fields t).
Proof.
  intros Hg. unfold encodeRdmaToken. rewrite encode_fields by done.
  pose proof (flat_map_hex_pairs _ (token_fields_bytes _ Hg)) as H.
  assert (List.length (flat_map hex_of_byte (token_fields t)) = kRdmaTokenHexLen) as Hl.
  { rewrite (hex_pairs_length _ _ H), token_fields_length by done. done. }
  by rewrite take_app_length' by done.
Qed.

Lemma encodeRdmaToken_length t :
  wf_gid (tok_gid t) -> List.length (encodeRdmaToken t) = kRdmaTokenHexLen.
Proof.
  intros Hg. rewrite (hex_pairs_length _ _ (encode_hex_pairs _ Hg)), token_fields_length by done.
  done.
Qed.

Lemma encodeRdmaTokenHex_split t :
  wf_gid (tok_gid t) -> encodeRdmaTokenHex t = encodeRdmaToken t ++ [chr 0].
Proof.
  intros Hg. pose proof (encodeRdmaToken_length _ Hg) as Hl. unfold encodeRdmaToken in *.
  rewrite encode_fields in * by done.
  pose proof (flat_map_hex_pairs _ (token_fields_bytes _ Hg)) as H.
  rewrite take_app_length'; [done|].
  by rewrite (hex_pairs_length _ _ H), token_fields_length by done.
Qed.

(** What the decoder does with the bytes, once it has them *)
Definition decode_fields (buf : list Z) : option RdmaToken :=
  let '(tbyte, rest) := get uint8_t buf in
  match transport_of_byte tbyte with
  | None => None
  | Some transport =>
      let '(qpNum, rest) := get uint32_t rest in
      let '(gid, rest) := get_span kGidLen rest in
      let '(rkey, rest) := get uint32_t rest in
      let '(remoteAddr, rest) := get uint64_t rest in
      let '(length, rest) := get uint64_t rest in
      let '(portNum, rest) := get uint8_t rest in
      let '(lid, rest) := get uint16_t rest in
      Some {| tok_qpNum := qpNum; tok_gid := gid; tok_rkey := rkey;
              tok_remoteAddr := remoteAddr; tok_length := length;
              tok_transport := transport; tok_portNum := portNum; tok_lid := lid |}
  end.

Lemma decode_Some s t :
  decodeRdmaTokenHex s = Some t <->
  exists bs, hex_pairs s bs /\ List.length bs = kTokenBinaryLen /\ decode_fields bs = Some t.
Proof.
  unfold decodeRdmaTokenHex. split.
  - destruct (Nat.eqb_spec (List.length s) kRdmaTokenHexLen) as [Hl|]; [|done]. cbn [negb].
    destruct (mapM _ _) as [bs|] eqn:Hm; [|done]. intros H. exists bs.
    apply decode_loop in Hm; [|done]. split_and!; [done| |exact H].
    pose proof (hex_pairs_length _ _ Hm). rewrite kTokenBinaryLen_hex in Hl. lia.
  - intros (bs & Hp & Hl & H). pose proof (hex_pairs_length _ _ Hp) as Hs. rewrite Hl in Hs.
    change (2 * kTokenBinaryLen)%nat with kRdmaTokenHexLen in Hs. rewrite Hs, Nat.eqb_refl.
    cbn [negb]. apply (decode_loop _ kTokenBinaryLen) in Hp; [|done]. by rewrite Hp.
Qed.

Ltac solve_bytes :=
  repeat apply Forall_app_2; auto using put_bytes_bytes with hipobj.

Lemma decode_token_fields t : wf_token t -> decode_fields (token_fields t) = Some t.
Proof.
  intros (Hq & [Hl Hg] & Hr & Ha & Hn & Hp & Hi). unfold decode_fields, token_fields.
  rewrite get_put; [|auto with hipobj|apply transport_byte_range|solve_bytes].
  rewrite (proj2 (transport_of_byte_Some _ _) eq_refl).
  rewrite get_put by (auto with hipobj || solve_bytes). unfold get_span.
  rewrite take_app_length', drop_app_length' by done.
  do 4 rewrite get_put by (auto with hipobj || solve_bytes).
  rewrite <- (app_nil_r (put_bytes uint16_t _)).
  rewrite get_put by (auto with hipobj || solve_bytes). by destruct t.
Qed.

(** One read of the decoder, from a buffer with [k] bytes after the value *)
Lemma get_step T k rest v rest' :
  whole_bytes T -> Forall is_byte rest -> List.length rest = (sizeof T + k)%nat ->
  get T rest = (v, rest') ->
  rest = put_bytes T v ++ rest' /\ 0 <= v < 2 ^ ity_bits T /\
  Forall is_byte rest' /\ List.length rest' = k.
Proof.
  intros HT Hb Hl Hg. destruct (put_get T rest v rest') as [-> Hv]; [done|done|lia|done|].
  apply Forall_app in Hb as [_ Hb]. rewrite length_app, put_bytes_length in Hl.
  split_and!; [done|lia..|done|lia].
Qed.

Ltac get_step E k :=
  apply (get_step _ k) in E as (? & ? & ? & ?); [|auto with hipobj|assumption|assumption].

Lemma decode_fields_sound bs t :
  Forall is_byte bs -> List.length bs = kTokenBinaryLen -> decode_fields bs = Some t ->
  wf_token t /\ token_fields t = bs.
Proof.
  intros Hb Hl. unfold decode_fields, get_span.
  destruct (get uint8_t bs) as [tb r1] eqn:E1. get_step E1 43%nat.
  destruct (transport_of_byte tb) as [tr|] eqn:Etr; [|done].
  apply transport_of_byte_Some in Etr as ->.
  destruct (get uint32_t r1) as [qp r2] eqn:E2. get_step E2 39%nat.
  assert (wf_gid (take kGidLen r2)) as Hwg.
  { split; [|by apply Forall_take]. rewrite length_take. unfold kGidLen. lia. }
  assert (Forall is_byte (drop kGidLen r2)) by (by apply Forall_drop).
  assert (List.length (drop kGidLen r2) = 23%nat) by (rewrite length_drop; unfold kGidLen; lia).
  destruct (get uint32_t (drop kGidLen r2)) as [rk r4] eqn:E4. get_step E4 19%nat.
  destruct (get uint64_t r4) as [ra r5] eqn:E5. get_step E5 11%nat.
  destruct (get uint64_t r5) as [ln r6] eqn:E6. get_step E6 3%nat.
  destruct (get uint8_t r6) as [pn r7] eqn:E7. get_step E7 2%nat.
  destruct (get uint16_t r7) as [li r8] eqn:E8. get_step E8 0%nat.
  assert (r8 = []) as -> by (by apply nil_length_inv).
  intros [= <-]. split; [by repeat (split; [assumption|])|].
  unfold token_fields. cbn [tok_qpNum tok_gid tok_rkey tok_remoteAddr tok_length tok_transport
    tok_portNum tok_lid]. subst.
  match goal with H : drop kGidLen r2 = _ |- _ => rewrite app_nil_r in H; rewrite <- H end.
  by rewrite take_drop.
Qed.

Definition lower_digit_ok (z : Z) : bool :=
  match base_digit 16 (lower (chr z)) with
  | Some d => bool_decide (base_digit 16 (chr z) = Some d)
  | None => true
  end.

Lemma lower_digit c d : base_digit 16 (lower c) = Some d -> base_digit 16 c = Some d.
Proof.
  intros H. assert (lower_digit_ok (code c) = true) as Hok.
  { apply byte_forall; [vm_compute; done|apply code_byte]. }
  unfold lower_digit_ok in Hok. rewrite chr_code, H in Hok. by apply bool_decide_eq_true in Hok.
Qed.

Lemma hex_pairs_unlower s bs : hex_pairs (map lower s) bs -> hex_pairs s bs.
Proof.
  revert s. enough (forall m bs, hex_pairs m bs -> forall s, m = map lower s -> hex_pairs s bs) as H
    by (intros s Hs; by eapply H).
  clear bs. induction 1 as [|c1 c2 d1 d2 m bs H1 H2 _ IH]; intros s Hs.
  - destruct s; [constructor|done].
  - destruct s as [|x [|y s]]; [done..|]. cbn in Hs. simplify_eq.
    constructor; eauto using lower_digit.
Qed.

Lemma encodeRdmaToken_flat t :
  wf_gid (tok_gid t) -> encodeRdmaToken t = flat_map hex_of_byte (token_fields t).
Proof.
  intros Hg. pose proof (encodeRdmaTokenHex_split _ Hg) as H. rewrite encode_fields in H by done.
  by apply app_inj_tail in H as [-> _].
Qed.

Lemma encode_lower t : wf_gid (tok_gid t) -> map lower (encodeRdmaToken t) = encodeRdmaToken t.
Proof.
  intros Hg. rewrite encodeRdmaToken_flat by done. symmetry. apply hex_pairs_lower.
  by apply flat_map_hex_pairs, token_fields_bytes.
Qed.

Lemma decode_iff s t :
  decodeRdmaTokenHex s = Some t <-> wf_token t /\ map lower s = encodeRdmaToken t.
Proof.
  rewrite decode_Some. split.
  - intros (bs & Hp & Hl & Hd).
    apply decode_fields_sound in Hd as [Hwf <-]; [|by eapply hex_pairs_bytes|done].
    split; [done|]. rewrite encodeRdmaToken_flat by apply Hwf. symmetry. by apply hex_pairs_lower.
  - intros [Hwf Hs]. exists (token_fields t). split_and!.
    + apply hex_pairs_unlower. rewrite Hs. apply encode_hex_pairs, Hwf.
    + apply token_fields_length, Hwf.
    + by apply decode_token_fields.
Qed.

Lemma decode_encode t : wf_token t -> decodeRdmaTokenHex (encodeRdmaToken t) = Some t.
Proof. intros H. apply decode_iff. split; [done|]. apply encode_lower, H. Qed.

(** ** Replies *)

Lemma find_char_None c s : find_char c s = None <-> c ∉ s.
Proof.
  unfold find_char. rewrite fmap_None, list_find_None, Forall_forall.
  split; [intros H Hc; by apply (H c)|intros H x Hx ->; done].
Qed.

Lemma find_char_Some c s n :
  find_char c s = Some n <->
  s = take n s ++ (c :: drop (S n) s) /\ (c ∉ take n s) /\ (n < List.length s)%nat.
Proof.
  unfold find_char. rewrite fmap_Some. split.
  - intros ([i x] & H & ->). cbn [fst]. apply list_find_Some in H as (Hx & -> & Hn).
    pose proof (lookup_lt_Some _ _ _ Hx). split_and!; [|intros Hc|done].
    + by rewrite (take_drop_middle s i c).
    + apply list_elem_of_lookup in Hc as [j Hj]. pose proof (lookup_lt_Some _ _ _ Hj) as Hjl.
      rewrite length_take in Hjl. rewrite lookup_take_lt in Hj by lia.
      apply (Hn j c); [done|lia|done].
  - intros (Hs & Hn & Hl). exists (n, c). split; [|done]. apply list_find_Some. split_and!; [|done|].
    + rewrite Hs, lookup_app_r, length_take; [|rewrite length_take; lia].
      by rewrite Nat.min_l, Nat.sub_diag by lia.
    + intros j y Hy Hj ->. apply Hn. apply list_elem_of_lookup. exists j.
      by rewrite lookup_take_lt.
Qed.

Lemma digit_not_colon c d : base_digit 10 c = Some d -> c <> ":"%char.
Proof. intros H ->. done. Qed.

Lemma numeral_no_colon n s : numeral uint32_t 10 s n -> ":"%char ∉ s.
Proof.
  inversion 1 as [? ds _ Hf _|]; [|done]. subst. intros Hc.
  apply list_elem_of_lookup in Hc as [i Hi].
  destruct (Forall2_lookup_l _ _ _ _ _ Hf Hi) as (d & _ & Hd). by apply digit_not_colon in Hd.
Qed.

Definition digit_inv_ok (z : Z) : bool :=
  match base_digit 10 (chr z) with Some d => bool_decide (chr z = dec_digit d) | None => true end.

Lemma digit_inv c d : base_digit 10 c = Some d -> c = dec_digit d.
Proof.
  intros H. assert (digit_inv_ok (code c) = true) as Hok.
  { apply byte_forall; [vm_compute; done|apply code_byte]. }
  unfold digit_inv_ok in Hok. rewrite chr_code, H in Hok. by apply bool_decide_eq_true in Hok.
Qed.

(** Three digits for 200 are ["200"] *)
Lemma numeral_200 s : List.length s = 3%nat -> numeral uint32_t 10 s 200 -> s = lit "200".
Proof.
  intros Hl. inversion 1 as [? ds _ Hf _ Hs Hv|]; [|done]. subst.
  pose proof (Forall2_length _ _ _ Hf) as Hld.
  destruct s as [|c1 [|c2 [|c3 [|? ?]]]]; try (simpl in Hl; lia).
  destruct ds as [|d1 [|d2 [|d3 [|? ?]]]]; try (simpl in Hld; lia).
  rewrite !Forall2_cons in Hf. destruct Hf as (H1 & H2 & H3 & _).
  rewrite (digit_inv _ _ H1), (digit_inv _ _ H2), (digit_inv _ _ H3).
  apply base_digit_range in H1, H2, H3. unfold digits_value in Hv. cbn in Hv.
  assert (d1 = 2) as -> by lia. assert (d2 = 0) as -> by lia. by assert (d3 = 0) as -> by lia.
Qed.

Lemma parseNumber_status s n :
  parseNumber uint32_t s kDefaultNumberBase = Some n <-> numeral uint32_t 10 s n.
Proof.
  rewrite parseNumber_numeral. unfold kDefaultNumberBase, kMinNumberBase, kMaxNumberBase.
  intuition lia.
Qed.

Lemma substr_find c s :
  List.length (substr_to s (find_char c s)) = List.length s -> substr_to s (find_char c s) = s.
Proof.
  destruct (find_char c s) eqn:H; [|done]. cbn. rewrite length_take. intros Hl.
  apply take_ge. lia.
Qed.

Lemma parseReply_sound r p :
  parseReply r = Some p -> reply_form (remove_trailing is_line_end r) p.
Proof.
  unfold parseReply. set (value := remove_trailing is_line_end r).
  case_decide as Hok; [rewrite Hok; intros [= <-]; constructor|].
  case_decide as Herr; [rewrite Herr; intros [= <-]; constructor|].
  set (status := substr_to value (find_char ":"%char value)).
  destruct (Nat.eqb_spec (List.length status) 3) as [H3|]; [|done]. cbn [negb].
  destruct (parseNumber uint32_t status _) as [n|] eqn:Hn; [|done].
  apply parseNumber_status in Hn.
  destruct (_ || _) eqn:Hr; [done|].
  unfold kHttpStatusMin, kHttpStatusMax in Hr. bools.
  destruct (Nat.eqb_spec (List.length status) (List.length value)) as [Hl|Hl].
  - intros [= <-]. assert (status = value) as Hv by (by apply substr_find).
    rewrite Hv in *. by constructor.
  - unfold kHttpOk. destruct (Z.eqb_spec n 200) as [->|]; [|done]. cbn [negb].
    destruct (decodeRdmaTokenHex _) as [t|] eqn:Ht; [|done]. intros [= <-].
    apply numeral_200 in Hn; [|done]. subst status.
    destruct (find_char ":"%char value) as [k|] eqn:Hf; [|done].
    apply find_char_Some in Hf as (Hv & _ & Hk). cbn [substr_to] in *.
    rewrite length_take, Nat.min_l in H3 by lia. subst k. rewrite Hn in Hv, Ht.
    rewrite Hv. cbn [Nat.add List.length lit list_ascii_of_string] in *. by constructor.
Qed.

Lemma parseReply_complete r p :
  reply_form (remove_trailing is_line_end r) p -> parseReply r = Some p.
Proof.
  unfold parseReply. set (value := remove_trailing is_line_end r). clearbody value.
  destruct 1 as [| |s n H3 Hn Hr|hex t Ht]; [done|done|..].
  - pose proof (numeral_no_colon _ _ Hn) as Hc. apply find_char_None in Hc. rewrite Hc.
    cbn [substr_to]. rewrite H3, (proj2 (parseNumber_status _ _) Hn). cbn [Nat.eqb negb].
    rewrite (decide_False (P := s = lit "ok")) by (by intros ->).
    rewrite (decide_False (P := s = lit "err")) by (intros ->; by inversion Hn as [? ? ? Hf|]; subst; inversion Hf).
    unfold kHttpStatusMin, kHttpStatusMax.
    rewrite (proj2 (Z.ltb_ge _ _)) by lia. rewrite (proj2 (Z.ltb_ge _ _)) by lia. done.
  - change (lit "200:" ++ hex) with (lit "200" ++ ":"%char :: hex).
    rewrite !decide_False by done.
    assert (find_char ":"%char (lit "200" ++ ":"%char :: hex) = Some 3%nat) as ->.
    { apply find_char_Some. split_and!; [done| |simpl; lia]. by apply find_char_None. }
    cbn [substr_to]. rewrite take_app_length' by done.
    change (parseNumber uint32_t (lit "200") kDefaultNumberBase) with (Some 200).
    cbn [List.length lit list_ascii_of_string Nat.eqb negb app drop Nat.add].
    rewrite drop_0, Ht. done.
Qed.

Lemma remove_trailing_id p s c : p c = false -> remove_trailing p (s ++ [c]) = s ++ [c].
Proof.
  intros Hc. induction s as [|d s IH]; simpl; [by rewrite Hc|]. rewrite IH.
  by destruct s.
Qed.

Lemma hex_not_line_end c : is_Some (base_digit 16 c) -> is_line_end c = false.
Proof.
  intros [d Hd]. apply not_true_iff_false. intros H. unfold is_line_end in H.
  rewrite !orb_true_iff in H. destruct H as [[H|H]|H]; apply Z.eqb_eq in H.
  - assert (c = chr 0) as -> by (apply code_inj; by rewrite H). done.
  - assert (c = chr 10) as -> by (apply code_inj; by rewrite H). done.
  - assert (c = chr 13) as -> by (apply code_inj; by rewrite H). done.
Qed.

Lemma hex_pairs_hex s bs : hex_pairs s bs -> Forall (fun c => is_Some (base_digit 16 c)) s.
Proof. induction 1; repeat constructor; eauto. Qed.

(** An encoded token ends in a hex digit, so nothing is dropped after it *)
Lemma remove_trailing_token p t :
  wf_gid (tok_gid t) ->
  remove_trailing is_line_end (p ++ encodeRdmaToken t) = p ++ encodeRdmaToken t.
Proof.
  intros Hg. pose proof (encodeRdmaToken_length _ Hg) as Hl.
  pose proof (hex_pairs_hex _ _ (encode_hex_pairs _ Hg)) as Hh.
  destruct (encodeRdmaToken t) as [|c s _] using rev_ind; [done|].
  apply Forall_app in Hh as [_ Hh]. rewrite Forall_singleton in Hh.
  rewrite app_assoc. by apply remove_trailing_id, hex_not_line_end.
Qed.

Lemma encodeReply_split n t :
  encodeReplyWithPeerToken n t = to_string n ++ lit ":" ++ encodeRdmaToken t.
Proof. done. Qed.

(** Which status a parsed code stands for *)
Definition status_of_code (n : Z) : RdmaReplyStatus :=
  if decide (n = 501) then NotSupported
  else if decide (n = 200 \/ n = 204 \/ n = 206) then Success
  else Failed.

Lemma decodeRdmaReply_status r :
  decodeRdmaReply r = status_of_code <$> parseRdmaReplyHttpCode r.
Proof.
  unfold decodeRdmaReply. destruct (parseRdmaReplyHttpCode r) as [n|]; [|done].
  cbn [fmap option_fmap option_map]. unfold status_of_code, isSuccessHttpCode,
    HIPOBJ_RDMA_REPLY_NOT_IMPLEMENTED, kHttpOk, kHttpNoContent, kHttpPartialContent.
  destruct (Z.eqb_spec n 501), (Z.eqb_spec n 200), (Z.eqb_spec n 204), (Z.eqb_spec n 206);
    repeat case_decide; cbn; try done; lia.
Qed.

(** ** The client's address in a token *)

Definition byte_text_ok (b : Z) : bool :=
  let s := to_string b in
  Nat.leb (List.length s) 3 && forallb (fun c => negb (code c =? 0)) s.

Lemma byte_text b : is_byte b -> (List.length (to_string b) <= 3)%nat /\ no_nul (to_string b).
Proof.
  intros Hb. assert (byte_text_ok b = true) as H.
  { revert b Hb. apply byte_forall. vm_compute. done. }
  apply andb_true_iff in H as [Hl Hc]. apply Nat.leb_le in Hl. split; [done|].
  rewrite List.forallb_forall in Hc. apply Forall_forall. intros c Hin.
  apply list_elem_of_In, Hc in Hin. bools. done.
Qed.

Lemma dotted_quad_text ip :
  List.length ip = 4%nat -> Forall is_byte ip ->
  (List.length (dotted_quad ip) <= INET_ADDRSTRLEN - 1)%nat /\ no_nul (dotted_quad ip).
Proof.
  intros Hl Hb. destruct ip as [|a [|b [|c [|d [|? ?]]]]]; try (simpl in Hl; lia).
  rewrite !Forall_cons in Hb. destruct Hb as (Ha & Hb & Hc & Hd & _).
  apply byte_text in Ha as [La Na], Hb as [Lb Nb], Hc as [Lc Nc], Hd as [Ld Nd].
  unfold dotted_quad, INET_ADDRSTRLEN. cbn [nth]. split.
  - rewrite !length_app. cbn [lit list_ascii_of_string List.length]. lia.
  - unfold no_nul in *. rewrite !Forall_app. split_and!; (assumption || by repeat constructor).
Qed.

(** What the address buffer holds afterwards: the text, as a C string *)
Lemma cStringView_copy text (buf nicIp : chars) :
  (List.length text < List.length nicIp)%nat -> no_nul text ->
  buf = text ++ [chr 0] ->
  cStringView (copy_into buf nicIp) = text /\
  List.length (copy_into buf nicIp) = List.length nicIp.
Proof.
  intros Hl Hn ->. unfold copy_into. split.
  - rewrite <- app_assoc. cbn [app]. by apply cStringView_app.
  - rewrite length_app, length_drop, length_app. simpl. lia.
Qed.

(** What a successful call leaves as the client's address *)
Definition nic_text (t : RdmaToken) : chars :=
  if isIpv4MappedGid (tok_gid t) then dotted_quad (ipv4OfGid (tok_gid t)) else [].

Lemma parseClientNic_cases tokenHex nicIp :
  nicIp <> [] ->
  exists buf, parseClientNicFromTokenHex tokenHex nicIp =
    match decodeRdmaTokenHex tokenHex with
    | Some t => if decide (List.length (nic_text t) < List.length nicIp)%nat
                then (true, buf) else (false, chr 0 :: tail nicIp)
    | None => (false, chr 0 :: tail nicIp)
    end /\
    forall t, decodeRdmaTokenHex tokenHex = Some t ->
      (List.length (nic_text t) < List.length nicIp)%nat ->
      cStringView buf = nic_text t /\ List.length buf = List.length nicIp.
Proof.
  intros Hne. destruct nicIp as [|c tl]; [done|]. cbn [parseClientNicFromTokenHex tail].
  destruct (decodeRdmaTokenHex tokenHex) as [t|] eqn:Hd; [|by exists []].
  apply decode_iff in Hd as [(_ & Hg & _) _]. unfold nic_text.
  destruct (isIpv4MappedGid (tok_gid t)) eqn:Hm; cbn [negb].
  - set (text := dotted_quad _).
    destruct (dotted_quad_text (ipv4OfGid (tok_gid t))) as [Hl Hn]; [auto with hipobj..|].
    fold text in Hl, Hn. set (src := take (List.length text + 1) _).
    exists (copy_into src (chr 0 :: tl)). cbn [List.length].
    destruct (Nat.leb_spec (S (List.length tl)) (List.length text)), (decide _); try lia.
    + split; [done|]. intros ? [= <-]. cbn. rewrite Hm. fold text. lia.
    + split; [done|]. intros ? [= <-] _. rewrite Hm. fold text. apply cStringView_copy; [done..|].
      subst src. rewrite (take_ge text) by done. unfold copy_into.
      rewrite take_app_ge, drop_replicate, take_replicate by lia. f_equal.
      replace (_ `min` _)%nat with 1%nat; [done|]. unfold INET_ADDRSTRLEN in *. lia.
  - exists (chr 0 :: tl). cbn [List.length]. rewrite decide_True by lia. split; [done|].
    intros ? [= <-]. rewrite Hm. done.
Qed.

(** Each field's bytes are where [wire_layout] puts them *)
Lemma token_fields_layout t :
  wf_token t ->
  Forall (fun '(off, width, value) => le_value (take width (drop off (token_fields t))) = value)
         (wire_layout t).
Proof.
  intros (Hq & [Hl Hg] & Hr & Ha & Hn & Hp & Hi). unfold token_fields.
  rewrite <- (app_nil_r (put_bytes uint16_t _)).
  pose proof (transport_byte_range (tok_transport t)) as Ht.
  unfold wire_layout. repeat apply Forall_cons_2; [..|apply Forall_nil_2].
  all: repeat (rewrite drop_app_ge by
                 (rewrite ?put_bytes_length, ?Hl; apply Nat.leb_le; reflexivity);
               rewrite ?put_bytes_length, ?Hl).
  all: match goal with |- context [drop ?n _] => change n with 0%nat end.
  all: rewrite drop_0, take_app_length' by (rewrite ?put_bytes_length, ?Hl; reflexivity).
  all: try (apply put_bytes_value; [auto with hipobj|assumption]); reflexivity.
Qed.

Lemma remove_trailing_ending p s e :
  Forall (fun c => p c = true) e -> remove_trailing p (s ++ e) = remove_trailing p s.
Proof.
  intros He. assert (remove_trailing p e = []) as Hnil.
  { induction He as [|c e Hc _ IH]; simpl; [done|]. by rewrite IH, Hc. }
  induction s as [|c s IH]; simpl; [done|]. by rewrite IH.
Qed.

Definition three_digits_ok (n : Z) : bool := Nat.eqb (List.length (to_string n)) 3.

Lemma to_string_three n : 100 <= n <= 599 -> List.length (to_string n) = 3%nat.
Proof.
  intros Hn. apply Nat.eqb_eq. change (three_digits_ok n = true).
  assert (forallb three_digits_ok (seqZ 100 500) = true) as H by (vm_compute; done).
  rewrite List.forallb_forall in H. apply H, list_elem_of_In, elem_of_seqZ. lia.
Qed.

Lemma numeral_fun s n m : numeral uint32_t 10 s n -> numeral uint32_t 10 s m -> n = m.
Proof.
  rewrite <- !parseNumber_status. congruence.
Qed.

(** What the client makes of a status and a peer's token *)
Lemma parseReply_peer_token code peer ending :
  wf_token peer -> Forall (fun c => is_line_end c = true) ending -> 100 <= code <= 599 ->
  parseReply (encodeReplyWithPeerToken code peer ++ ending) =
    if code =? 200 then Some {| httpCode := 200; peerToken := Some peer |} else None.
Proof.
  intros Hwf Hend Hcode. pose proof (decode_encode _ Hwf) as Hd.
  assert (remove_trailing is_line_end (encodeReplyWithPeerToken code peer ++ ending)
          = to_string code ++ ":"%char :: encodeRdmaToken peer) as Hrt.
  { rewrite remove_trailing_ending by done. rewrite encodeReply_split, app_assoc.
    rewrite remove_trailing_token by apply Hwf. by rewrite <- app_assoc. }
  pose proof (to_string_three _ Hcode) as H3.
  assert (numeral uint32_t 10 (to_string code) code) as Hnum
    by (apply to_string_numeral, in_range_spec; cbn; lia).
  destruct (Z.eqb_spec code 200) as [->|Hne].
  - apply parseReply_complete. rewrite Hrt. by apply (reply_peer (encodeRdmaToken peer)).
  - apply eq_None_not_Some. intros [p Hp]. apply parseReply_sound in Hp. rewrite Hrt in Hp.
    revert H3 Hnum Hp. generalize (to_string code) as s. intros s H3 Hnum Hp.
    destruct s as [|a [|b [|c [|? ?]]]]; try done. cbn [app] in Hp.
    inversion Hp as [| |? n Hl|hex t Hh Hs]; subst; [done|].
    apply Hne, (numeral_fun (lit "200")); [exact Hnum|by apply (to_string_numeral _ 200)].
Qed.

(** ** Properties *)

(** C39: The decoder accepts exactly the canonical encodings, up to the case of
    the hex digits: [decodeRdmaTokenHex()] returns a token just when the
    token's fields fit their types and the input, lowercased, is what
    [encodeRdmaToken()] writes for it. *)
Theorem decodeRdmaTokenHex_iff (s : chars) (t : RdmaToken) :
  decodeRdmaTokenHex s = Some t <-> wf_token t /\ map lower s = encodeRdmaToken t.
Proof. apply decode_iff. Qed.

(** C6: Every token that can exist survives the wire: it's encoded as 88
    digits and a NUL, and decoding the digits gives the token back. *)
Theorem token_roundtrip (t : RdmaToken) (Hwf : wf_token t) :
  encodeRdmaTokenHex t = encodeRdmaToken t ++ [chr 0] /\
  List.length (encodeRdmaToken t) = kRdmaTokenHexLen /\
  decodeRdmaTokenHex (encodeRdmaToken t) = Some t.
Proof.
  split_and!; [apply encodeRdmaTokenHex_split, Hwf|apply encodeRdmaToken_length, Hwf|].
  by apply decode_encode.
Qed.

(** The token of the repository's golden test *)
Definition golden_token : RdmaToken :=
  {| tok_qpNum := 0x01020304; tok_gid := seqZ 0x10 16; tok_rkey := 0x21222324;
     tok_remoteAddr := 0x3132333435363738; tok_length := 0x4142434445464748;
     tok_transport := RC; tok_portNum := 0x51; tok_lid := 0x6162 |}.

Lemma golden_token_wf : wf_token golden_token.
Proof. apply (bool_decide_unpack _). by vm_compute. Qed.

Lemma token_roundtrip_witness :
  wf_token golden_token /\
  decodeRdmaTokenHex
    (lit "0104030201101112131415161718191a1b1c1d1e1f2423222138373635343332314847464544434241516261")
  = Some golden_token.
Proof.
  split; [exact golden_token_wf|].
  destruct (token_roundtrip golden_token golden_token_wf) as (_ & _ & H).
  rewrite <- H. reflexivity.
Defined.

(** The encoding has the layout [docs/interop.rst] documents: at each
    field's offset, the bytes that the digits stand for are the field,
    little-endian. *)
Theorem token_wire_layout (t : RdmaToken) (Hwf : wf_token t) :
  exists bytes, hex_pairs (encodeRdmaToken t) bytes /\ List.length bytes = kTokenBinaryLen /\
    Forall (fun '(off, width, value) => le_value (take width (drop off bytes)) = value)
           (wire_layout t).
Proof.
  exists (token_fields t). split; [apply encode_hex_pairs, Hwf|].
  split; [apply token_fields_length, Hwf|]. by apply token_fields_layout.
Qed.

Lemma token_wire_layout_witness :
  wf_token golden_token /\
  exists bytes, hex_pairs (encodeRdmaToken golden_token) bytes /\
    le_value (take 8 (drop 25 bytes)) = 0x3132333435363738.
Proof.
  split; [exact golden_token_wf|].
  destruct (token_wire_layout golden_token golden_token_wf) as (bytes & Hp & _ & H).
  exists bytes. split; [exact Hp|]. exact (proj1 (Forall_lookup _ _) H 4%nat (25, 8, _)%nat eq_refl).
Defined.

(** C40: A reply parses just when, without the NUL, CR and LF characters
    after it, it has one of the documented forms: "ok", "err", a three-digit
    status from 100 to 599, or "200:" and the peer's token. *)
Theorem parseReply_iff (reply : chars) (p : ParsedReply) :
  parseReply reply = Some p <-> reply_form (remove_trailing is_line_end reply) p.
Proof. split; [apply parseReply_sound|apply parseReply_complete]. Qed.

(** What [decodeRdmaReply()] makes of a reply: 501 is "not supported",
    200, 204 and 206 are successes, every other reply that parses is a
    failure, and one that doesn't parse gives nothing. *)
Theorem decodeRdmaReply_spec (reply : chars) :
  match decodeRdmaReply reply with
  | Some st => exists p, reply_form (remove_trailing is_line_end reply) p /\
                         st = status_of_code (httpCode p)
  | None => forall p, ~ reply_form (remove_trailing is_line_end reply) p
  end.
Proof.
  rewrite decodeRdmaReply_status. unfold parseRdmaReplyHttpCode.
  destruct (parseReply reply) as [p|] eqn:H; cbn.
  - exists p. split; [by apply parseReply_sound|done].
  - intros p Hp. apply parseReply_complete in Hp. by rewrite Hp in H.
Qed.

(** A reply that carries a peer token gives the token back, with
    whatever line ending follows it, and only the status 200 can carry one:
    the client rejects the reply any other three-digit status makes. *)
Theorem reply_peer_roundtrip (code : Z) (peer : RdmaToken) (ending : chars)
    (Hwf : wf_token peer) (Hend : Forall (fun c => is_line_end c = true) ending)
    (Hcode : 100 <= code <= 599) :
  parsePeerTokenFromReply (encodeReplyWithPeerToken code peer ++ ending) =
    (if code =? 200 then Some peer else None) /\
  parseRdmaReplyHttpCode (encodeReplyWithPeerToken code peer ++ ending) =
    (if code =? 200 then Some 200 else None).
Proof.
  unfold parsePeerTokenFromReply, parseRdmaReplyHttpCode.
  rewrite (parseReply_peer_token code peer ending) by done.
  by destruct (code =? 200).
Qed.

Lemma reply_peer_roundtrip_witness :
  wf_token golden_token /\
  parsePeerTokenFromReply (encodeReplyWithPeerToken 200 golden_token ++ [chr 13; chr 10])
  = Some golden_token /\
  parsePeerTokenFromReply (encodeReplyWithPeerToken 206 golden_token ++ []) = None.
Proof.
  split_and!; [exact golden_token_wf| |].
  - by destruct (reply_peer_roundtrip 200 golden_token [chr 13; chr 10] golden_token_wf)
      as [H _]; [repeat constructor|lia|exact H].
  - by destruct (reply_peer_roundtrip 206 golden_token [] golden_token_wf)
      as [H _]; [constructor|lia|exact H].
Defined.

(** The caller's address buffer is never overrun and always holds a C
    string: the call keeps the buffer's length; when it succeeds the buffer
    holds the token's IPv4 address, or an empty string if the GID isn't
    IPv4-mapped; when it fails, an empty string. It fails exactly when the
    token is malformed or the buffer can't hold the text and its NUL. *)
Theorem parseClientNicFromTokenHex_spec (tokenHex nicIp : chars) :
  let (ok, buf) := parseClientNicFromTokenHex tokenHex nicIp in
  List.length buf = List.length nicIp /\
  match decodeRdmaTokenHex tokenHex with
  | Some t =>
      ok = bool_decide (List.length (nic_text t) < List.length nicIp)%nat /\
      cStringView buf = if ok then nic_text t else []
  | None => ok = false /\ cStringView buf = []
  end.
Proof.
  destruct (decide (nicIp = [])) as [->|Hne].
  { cbn. destruct (decodeRdmaTokenHex tokenHex); [|done].
    split_and!; [done| |done]. symmetry. apply bool_decide_eq_false. lia. }
  destruct (parseClientNic_cases tokenHex nicIp Hne) as (buf & -> & H).
  destruct nicIp as [|c tl]; [done|].
  destruct (decodeRdmaTokenHex tokenHex) as [t|]; [|done].
  case_decide as Hl.
  - destruct (H t eq_refl Hl) as [-> ->]. split_and!; [done| |done].
    symmetry. by apply bool_decide_eq_true.
  - split_and!; [done| |done]. symmetry. by apply bool_decide_eq_false.
Qed.
