(* ===== verification/Text.v ===== *)
(** * Text: searching, splitting, and trimming

    What the programs around the library use of [std::string],
    [std::string_view] and [std::istringstream], in the "C" locale. *)

From Stdlib Require Import Ascii String.
From stdpp Require Import base numbers list strings.
From S2P Require Import Prelude.
From S2P Require Import Token.

(** ** Definitions *)

(** [s.substr(pos, n)], where [pos] isn't past the end *)
Definition substr (pos n : nat) (s : chars) : chars := take n (drop pos s).

(** [s.find(c, pos)] *)
Definition find_char_from (c : ascii) (pos : nat) (s : chars) : option nat :=
  Nat.add pos <$> find_char c (drop pos s).

(** Whether [s] starts with [pat] *)
Fixpoint starts_with (pat s : chars) : bool :=
  match pat, s with
  | [], _ => true
  | c :: pat', d :: s' => bool_decide (c = d) && starts_with pat' s'
  | _ :: _, [] => false
  end.

(** [s.find(pat)] *)
Fixpoint find_str (pat s : chars) : option nat :=
  if starts_with pat s then Some 0%nat
  else match s with [] => None | _ :: s' => S <$> find_str pat s' end.

(** [std::isspace()] *)
Definition is_space (c : ascii) : bool :=
  (code c =? 32) || ((9 <=? code c) && (code c <=? 13)).

(** The characters of [s] up to the first that satisfies [p], and the rest *)
Fixpoint span_until (p : ascii -> bool) (s : chars) : chars * chars :=
  match s with
  | [] => ([], [])
  | c :: s' => if p c then ([], s) else let (a, b) := span_until p s' in (c :: a, b)
  end.

Fixpoint skip_while (p : ascii -> bool) (s : chars) : chars :=
  match s with
  | [] => []
  | c :: s' => if p c then skip_while p s' else s
  end.

(** [std::getline(in, line)]: the line, without its newline, and what's left
    in the stream; nothing when the stream is at its end *)
Definition LF : ascii := chr 10.
Definition CR : ascii := chr 13.
Definition is_newline (c : ascii) : bool := bool_decide (c = LF).

Definition getline (s : chars) : option (chars * chars) :=
  match s with
  | [] => None
  | _ => let (line, rest) := span_until is_newline s in Some (line, drop 1 rest)
  end.

(** [in >> word]: the next word, empty when there's none, and what's left *)
Definition next_word (s : chars) : chars * chars :=
  span_until is_space (skip_while is_space s).

(** ["\r\n"] *)
Definition CRLF : chars := [CR; LF].

(** ** Lemmas *)

Lemma starts_with_prefix pat s : starts_with pat s = true <-> pat `prefix_of` s.
Proof.
  revert s. induction pat as [|c pat IH]; intros s; [by split; [intros _; apply prefix_nil|]|].
  destruct s as [|d s]; cbn [starts_with].
  - split; [done|]. by intros ?%prefix_nil_inv.
  - rewrite andb_true_iff, bool_decide_eq_true, IH. split.
    + intros [-> H]. by apply prefix_cons.
    + intros H. split; [by eapply prefix_cons_inv_1|by eapply prefix_cons_inv_2].
Qed.

(** The first place where [pat] starts in [s] *)
Lemma find_str_Some pat s n :
  find_str pat s = Some n <->
  pat `prefix_of` drop n s /\ (n <= List.length s)%nat /\
  (forall k, (k < n)%nat -> ~ pat `prefix_of` drop k s).
Proof.
  revert n. induction s as [|c s IH]; intros n; cbn [find_str];
    destruct (starts_with pat _) eqn:Hs.
  - apply starts_with_prefix in Hs. split.
    + intros [= <-]. split_and!; [done|done|lia].
    + intros (_ & Hl & _). simpl in Hl. f_equal. lia.
  - split; [done|]. intros (H & Hl & _). simpl in Hl. assert (n = 0%nat) as -> by lia.
    apply starts_with_prefix in H. rewrite drop_0 in H. congruence.
  - apply starts_with_prefix in Hs. split.
    + intros [= <-]. split_and!; [done|lia|lia].
    + intros (_ & _ & Hk). destruct n as [|n]; [done|]. exfalso. apply (Hk 0%nat); [lia|done].
  - assert (~ pat `prefix_of` c :: s) as Hn by (rewrite <- starts_with_prefix; congruence).
    rewrite fmap_Some. split.
    + intros (k & Hk & ->). apply IH in Hk as (H1 & H2 & H3). split_and!; [done|simpl; lia|].
      intros [|j] Hj; [done|]. apply H3. lia.
    + intros (H1 & H2 & H3). destruct n as [|n]; [done|]. exists n. split; [|done].
      apply IH. split_and!; [done|simpl in H2; lia|]. intros k Hk. apply (H3 (S k)). lia.
Qed.

Lemma find_str_None pat s : find_str pat s = None -> forall k, ~ pat `prefix_of` drop k s.
Proof.
  induction s as [|c s IH]; intros H k Hk; cbn [find_str] in H.
  - rewrite drop_nil in Hk. apply starts_with_prefix in Hk. by rewrite Hk in H.
  - destruct (starts_with pat (c :: s)) eqn:Hs; [done|]. destruct k as [|k]; [cbn [drop] in Hk; apply starts_with_prefix in Hk; congruence|].
    apply fmap_None in H. by apply (IH H k).
Qed.

Lemma span_until_app p s : let (a, b) := span_until p s in s = a ++ b.
Proof.
  induction s as [|c s IH]; [done|]. cbn [span_until]. destruct (p c); [done|].
  destruct (span_until p s). cbn [app]. by rewrite IH at 1.
Qed.

(** Words and separators *)
Lemma span_until_stop p a c b :
  Forall (fun x => p x = false) a -> p c = true -> span_until p (a ++ c :: b) = (a, c :: b).
Proof.
  intros Ha Hc. induction Ha as [|x a Hx _ IH]; cbn [app span_until].
  - by rewrite Hc.
  - by rewrite Hx, IH.
Qed.

Lemma span_until_all p a : Forall (fun x => p x = false) a -> span_until p a = (a, []).
Proof. induction 1 as [|x a Hx _ IH]; [done|]. cbn [span_until]. by rewrite Hx, IH. Qed.

Lemma skip_while_stop p c s : p c = false -> skip_while p (c :: s) = c :: s.
Proof. intros H. cbn [skip_while]. by rewrite H. Qed.

(** [getline] takes a line and its newline off the stream *)
Definition no_newline (s : chars) : Prop := LF ∉ s.

Lemma no_newline_Forall s : no_newline s -> Forall (fun x => is_newline x = false) s.
Proof.
  intros H. apply Forall_forall. intros x Hx. unfold is_newline. rewrite bool_decide_eq_false.
  by intros ->.
Qed.

Lemma getline_line line rest : no_newline line -> getline (line ++ LF :: rest) = Some (line, rest).
Proof.
  intros H. unfold getline. pose proof (span_until_stop is_newline line LF rest (no_newline_Forall _ H) eq_refl) as Hs.
  destruct (line ++ LF :: rest) eqn:He; [by destruct line|]. by rewrite Hs.
Qed.

(** Each line that's read leaves less to read *)
Lemma getline_length s line rest :
  getline s = Some (line, rest) -> (List.length rest < List.length s)%nat.
Proof.
  unfold getline. destruct s as [|c s]; [done|].
  pose proof (span_until_app is_newline (c :: s)) as Ha.
  destruct (span_until is_newline (c :: s)) as [a b]. intros [= <- <-].
  rewrite Ha, length_app, length_drop. destruct a as [|? a]; [|simpl; lia].
  destruct b; [done|]. simpl. lia.
Qed.

Lemma next_word_spec w c rest :
  w <> [] -> Forall (fun x => is_space x = false) w -> is_space c = true ->
  next_word (w ++ c :: rest) = (w, c :: rest).
Proof.
  intros Hw Hf Hc. unfold next_word. destruct w as [|x w]; [done|].
  cbn [app]. apply Forall_cons in Hf as Hx. destruct Hx as [Hx _].
  rewrite skip_while_stop by done. by apply (span_until_stop is_space (x :: w)).
Qed.

Lemma next_word_skip c s : is_space c = true -> next_word (c :: s) = next_word s.
Proof. intros H. unfold next_word. cbn [skip_while]. by rewrite H. Qed.

Lemma find_char_app c a b : c ∉ a -> find_char c (a ++ c :: b) = Some (List.length a).
Proof.
  intros H. apply find_char_Some. rewrite take_app_length.
  replace (S (List.length a)) with (List.length (a ++ [c])) by (rewrite length_app; simpl; lia).
  split_and!; [|done|rewrite !length_app; simpl; lia].
  replace (a ++ c :: b) with ((a ++ [c]) ++ b) at 2 by (by rewrite <- app_assoc).
  by rewrite drop_app_length.
Qed.
