(* ===== verification/TokenHeader.v ===== *)
(** * The token header that the test server gets
    ([test/integration/rdma-test-server/token_header.h])

    The value of [x-amz-rdma-token]: an encoded token, and optionally an
    address and a length, in hex, that override the token's. *)

From Stdlib Require Import Ascii String.
From stdpp Require Import base numbers list.
From S2P Require Import Prelude.
From S2P Require Import Parse.
From S2P Require Import Gid.
From S2P Require Import Token.
From S2P Require Import Text.

(** ** Definitions *)

#[export] Instance eta_RdmaToken : Eta RdmaToken := fun r =>
  {| tok_qpNum := tok_qpNum r; tok_gid := tok_gid r; tok_rkey := tok_rkey r;
     tok_remoteAddr := tok_remoteAddr r; tok_length := tok_length r;
     tok_transport := tok_transport r; tok_portNum := tok_portNum r; tok_lid := tok_lid r |}.

Record TokenHeader := { th_token : RdmaToken; th_length : Z }.

(** The token with the suffix's overrides applied *)
Definition override (token : RdmaToken) (addr len : Z) : RdmaToken :=
  let token := if negb (addr =? 0) then token <| tok_remoteAddr := addr |> else token in
  if negb (len =? 0) then token <| tok_length := len |> else token.

Definition parseTokenHeader (header : chars) : option TokenHeader :=
  let c1 := find_char ":"%char header in
  match decodeRdmaTokenHex (substr_to header c1) with
  | None => None
  | Some decoded =>
      match c1 with
      | None => Some {| th_token := decoded; th_length := 0 |}
      | Some c1 =>
          match find_char_from ":"%char (c1 + 1) header with
          | None => None
          | Some c2 =>
              let addr := parseNumber uint64_t (substr (c1 + 1) (c2 - c1 - 1) header) 16 in
              let len := parseNumber uint64_t (drop (c2 + 1) header) 16 in
              match addr, len with
              | Some addr, Some len =>
                  Some {| th_token := override decoded addr len; th_length := len |}
              | _, _ => None
              end
          end
      end
  end.

(** What the header may be, and what it stands for *)
Inductive token_header : chars -> TokenHeader -> Prop :=
| plain_header hex t :
    decodeRdmaTokenHex hex = Some t ->
    token_header hex {| th_token := t; th_length := 0 |}
| suffixed_header hex t a l addr len :
    decodeRdmaTokenHex hex = Some t ->
    numeral uint64_t 16 a addr -> numeral uint64_t 16 l len ->
    token_header (hex ++ lit ":" ++ a ++ lit ":" ++ l)
      {| th_token := override t addr len; th_length := len |}.

(** ** Lemmas *)

Lemma base_digit_colon base : base_digit base ":"%char = None.
Proof. done. Qed.

Lemma decoded_no_colon s t : decodeRdmaTokenHex s = Some t -> ":"%char ∉ s.
Proof.
  intros (bs & Hp & _)%decode_Some Hc. apply hex_pairs_hex in Hp.
  rewrite Forall_forall in Hp. by destruct (Hp _ Hc).
Qed.

Lemma numeral64_no_colon s n : numeral uint64_t 16 s n -> ":"%char ∉ s.
Proof.
  inversion 1 as [? ds _ Hf _|]; [|done]. subst. intros Hc.
  apply list_elem_of_lookup in Hc as [i Hi].
  by destruct (Forall2_lookup_l _ _ _ _ _ Hf Hi) as (d & _ & Hd).
Qed.

Lemma parseNumber_hex64 s n : parseNumber uint64_t s 16 = Some n <-> numeral uint64_t 16 s n.
Proof.
  rewrite parseNumber_numeral. unfold kMinNumberBase, kMaxNumberBase. intuition lia.
Qed.

Lemma numeral64_range s n : numeral uint64_t 16 s n -> 0 <= n < 2 ^ 64.
Proof.
  inversion 1 as [? ds _ _ Hr|]; [|done]. apply in_range_spec in Hr. cbn in Hr. lia.
Qed.

(** Splitting at the first colon puts a header together again *)
Lemma split_colon s n :
  find_char ":"%char s = Some n ->
  s = take n s ++ lit ":" ++ drop (n + 1) s /\ ":"%char ∉ take n s.
Proof.
  intros (H & Hn & _)%find_char_Some. split; [|done]. rewrite H at 1.
  by replace (n + 1)%nat with (S n) by lia.
Qed.

Lemma parseTokenHeader_sound header h : parseTokenHeader header = Some h -> token_header header h.
Proof.
  unfold parseTokenHeader. destruct (find_char ":"%char header) as [c1|] eqn:H1; cbn [substr_to].
  2: { destruct (decodeRdmaTokenHex header) eqn:Hd; [|done]. intros [= <-]. by constructor. }
  destruct (decodeRdmaTokenHex (take c1 header)) as [t|] eqn:Hd; [|done].
  unfold find_char_from. destruct (find_char _ (drop _ _)) as [k|] eqn:H2; [|done]. cbn [fmap option_fmap option_map].
  destruct (parseNumber _ (substr _ _ _) _) as [addr|] eqn:Ha; [|done].
  destruct (parseNumber _ (drop _ _) _) as [len|] eqn:Hl; [|done]. intros [= <-].
  apply parseNumber_hex64 in Ha, Hl.
  apply split_colon in H1 as [H1 _], H2 as [H2 _].
  unfold substr in Ha.
  replace (c1 + 1 + k - c1 - 1)%nat with k in Ha by lia.
  replace (c1 + 1 + k + 1)%nat with (c1 + 1 + (k + 1))%nat in Hl by lia.
  rewrite <- drop_drop in Hl. pose proof (suffixed_header _ _ _ _ _ _ Hd Ha Hl) as Hs.
  by rewrite <- H2, <- H1 in Hs.
Qed.

Lemma parseTokenHeader_complete header h : token_header header h -> parseTokenHeader header = Some h.
Proof.
  unfold parseTokenHeader. destruct 1 as [hex t Ht|hex t a l addr len Ht Ha Hl].
  - rewrite (proj2 (find_char_None _ _)) by (by eapply decoded_no_colon). cbn [substr_to]. by rewrite Ht.
  - pose proof (decoded_no_colon _ _ Ht) as Hc. pose proof (numeral64_no_colon _ _ Ha) as Hca.
    pose proof (find_char_app ":"%char hex (a ++ lit ":" ++ l) Hc) as H1.
    pose proof (find_char_app ":"%char a l Hca) as H2.
    change (":"%char :: a ++ lit ":" ++ l) with (lit ":" ++ a ++ lit ":" ++ l) in H1.
    change (":"%char :: l) with (lit ":" ++ l) in H2. rewrite H1. cbn [substr_to].
    rewrite take_app_length, Ht. unfold find_char_from, substr.
    assert (drop (List.length hex + 1) (hex ++ lit ":" ++ a ++ lit ":" ++ l) = a ++ lit ":" ++ l) as Hd.
    { rewrite <- drop_drop, drop_app_length. done. }
    rewrite Hd, H2. cbn [fmap option_fmap option_map].
    replace (List.length hex + 1 + List.length a - List.length hex - 1)%nat with (List.length a) by lia.
    rewrite take_app_length, (proj2 (parseNumber_hex64 _ _) Ha).
    replace (List.length hex + 1 + List.length a + 1)%nat
      with (List.length hex + 1 + (List.length a + 1))%nat by lia.
    rewrite <- drop_drop, Hd, <- drop_drop, drop_app_length. change (drop 1 (lit ":" ++ l)) with l.
    by rewrite (proj2 (parseNumber_hex64 _ _) Hl).
Qed.

Lemma override_wf t addr len :
  wf_token t -> 0 <= addr < 2 ^ 64 -> 0 <= len < 2 ^ 64 -> wf_token (override t addr len).
Proof.
  intros Ht Ha Hl. unfold override, wf_token in *.
  destruct (negb (addr =? 0)), (negb (len =? 0)); cbn; tauto.
Qed.

(** ** Properties *)

(** C36: the test server accepts exactly the documented token headers: an
    encoded token alone, or with two hex numbers that fit in 64 bits; and a
    number that isn't zero overrides the token's. *)
Theorem parseTokenHeader_iff (header : chars) (h : TokenHeader) :
  parseTokenHeader header = Some h <-> token_header header h.
Proof. split; [apply parseTokenHeader_sound|apply parseTokenHeader_complete]. Qed.


