(* ===== verification/Http.v ===== *)
(** * The test server's HTTP ([test/integration/rdma-test-server/http_server.h],
    [test/integration/rdma-test-server/http_server.cpp])

    Requests and responses as text, and what a connection's worker makes of
    the bytes that arrive.  A socket is the list of what its calls return: a
    [turn] of a receive loop, or of the send loop, is one pass through it.
    The threads are in the file [HttpThreads]. *)

From Stdlib Require Import Ascii String.
From stdpp Require Import base numbers list gmap sorting strings.
From S2P Require Import Prelude.
From S2P Require Import Parse.
From S2P Require Import Token.
From S2P Require Import Text.

(** ** Definitions *)

Module Status.
Definition kHttpOk : Z := 200.
Definition kHttpNoContent : Z := 204.
Definition kHttpBadRequest : Z := 400.
Definition kHttpForbidden : Z := 403.
Definition kHttpNotFound : Z := 404.
Definition kHttpMethodNotAllowed : Z := 405.
Definition kHttpRequestTimeout : Z := 408.
Definition kHttpConflict : Z := 409.
Definition kHttpContentTooLarge : Z := 413.
Definition kHttpInternalServerError : Z := 500.
Definition kHttpNotImplemented : Z := 501.
Definition kHttpServiceUnavailable : Z := 503.
End Status.
Import Status.

(** Header names are in lower case *)
Record HttpRequest := {
  method : chars;
  path : chars;
  req_headers : gmap chars chars;
  req_body : chars;
  contentLength : Z;
}.

Record HttpResponse := {
  resp_status : Z;
  resp_headers : gmap chars chars;
  resp_body : chars;
}.

#[export] Instance eta_HttpRequest : Eta HttpRequest := fun r =>
  {| method := method r; path := path r; req_headers := req_headers r; req_body := req_body r;
     contentLength := contentLength r |}.

#[export] Instance eta_HttpResponse : Eta HttpResponse := fun r =>
  {| resp_status := resp_status r; resp_headers := resp_headers r; resp_body := resp_body r |}.

(** [HttpRequest{}] and [HttpResponse{}] *)
Definition new_HttpRequest : HttpRequest :=
  {| method := []; path := []; req_headers := ∅; req_body := []; contentLength := 0 |}.
Definition new_HttpResponse : HttpResponse :=
  {| resp_status := kHttpInternalServerError; resp_headers := ∅; resp_body := [] |}.

Definition toLower (s : chars) : chars := map lower s.

(** What [trim()] drops in front, and at the end *)
Definition is_leading (c : ascii) : bool := (code c =? 32) || (code c =? 9).
Definition is_trailing (c : ascii) : bool := (code c =? 32) || (code c =? 13).
Definition trim (s : chars) : chars := remove_trailing is_trailing (skip_while is_leading s).

Definition kRecvChunk : nat := 64 * 1024.
Definition kMaxHeaderBytes : nat := 64 * 1024.
Definition kMaxBodyBytes : Z := 1024 * 1024.

Definition reasonPhrase (status : Z) : chars :=
  if status =? kHttpOk then lit "OK"
  else if status =? kHttpNoContent then lit "No Content"
  else if status =? kHttpBadRequest then lit "Bad Request"
  else if status =? kHttpForbidden then lit "Forbidden"
  else if status =? kHttpNotFound then lit "Not Found"
  else if status =? kHttpMethodNotAllowed then lit "Method Not Allowed"
  else if status =? kHttpRequestTimeout then lit "Request Timeout"
  else if status =? kHttpConflict then lit "Conflict"
  else if status =? kHttpContentTooLarge then lit "Content Too Large"
  else if status =? kHttpInternalServerError then lit "Internal Server Error"
  else if status =? kHttpNotImplemented then lit "Not Implemented"
  else if status =? kHttpServiceUnavailable then lit "Service Unavailable"
  else lit "Status".

(** The timeout that [setTimeoutUntil()] sets, in seconds and microseconds,
    when [left] nanoseconds are left before the deadline; nothing, when it
    has passed *)
Definition kMaxPerCall : Z := 5 * 1000000.

Definition setTimeoutUntil (left : Z) : option (Z * Z) :=
  let remain := - (- left / 1000) in
  if remain <=? 0 then None
  else
    let remain := if kMaxPerCall <? remain then kMaxPerCall else remain in
    let secs := remain / 1000000 in
    Some (secs, remain - secs * 1000000).

(** *** Requests and responses *)

(** One header line of a request *)
Definition add_header_line (line : chars) (headers : gmap chars chars) : gmap chars chars :=
  let line := match last line with
              | Some c => if decide (c = CR) then take (List.length line - 1) line else line
              | None => line
              end in
  match find_char ":"%char line with
  | None => headers
  | Some colon =>
      <[toLower (trim (take colon line)) := trim (drop (colon + 1) line)]> headers
  end.

(** The header lines, up to an empty one or the end: the headers, and what's
    left in the stream *)
Fixpoint header_loop (fuel : nat) (iss : chars) (headers : gmap chars chars)
    : gmap chars chars * chars :=
  match fuel with
  | O => (headers, iss)
  | S fuel' =>
      match getline iss with
      | None => (headers, iss)
      | Some (line, rest) =>
          if bool_decide (line = [CR]) || bool_decide (line = []) then (headers, rest)
          else header_loop fuel' rest (add_header_line line headers)
      end
  end.

(** Each line takes at least a character off the stream *)
Definition parseRequest (raw : chars) : HttpRequest :=
  match getline raw with
  | None => new_HttpRequest
  | Some (line, iss) =>
      let (meth, ls) := next_word line in
      let (target, _) := next_word ls in
      let (headers, rest) := header_loop (S (List.length iss)) iss ∅ in
      {| method := meth; path := target; req_headers := headers; req_body := rest;
         contentLength := 0 |}
  end.

(** [std::string]'s order: by the characters' codes, a prefix first *)
Fixpoint key_le (a b : chars) : bool :=
  match a, b with
  | [], _ => true
  | _ :: _, [] => false
  | c :: a', d :: b' => (code c <? code d) || ((code c =? code d) && key_le a' b')
  end.

(** The entries of a [std::map], in its order *)
Definition map_entries (m : gmap chars chars) : list (chars * chars) :=
  merge_sort (fun x y => key_le (fst x) (fst y)) (map_to_list m).

Definition header_line (kv : chars * chars) : chars := fst kv ++ lit ": " ++ snd kv ++ CRLF.

Definition serializeResponse (resp : HttpResponse) : chars :=
  lit "HTTP/1.1 " ++ to_string (resp_status resp) ++ lit " " ++ reasonPhrase (resp_status resp) ++ CRLF ++
  lit "Content-Length: " ++ to_string (Z.of_nat (List.length (resp_body resp))) ++ CRLF ++
  concat (map header_line (map_entries (resp_headers resp))) ++ CRLF ++ resp_body resp.

(** *** A connection *)

(** One turn of a receive loop: the deadline has passed, [recv()] returned
    data, it was interrupted or timed out, or the peer is gone.  A list
    that's at its end has no turns left before the deadline. *)
Inductive turn := Expired | Got (data : chars) | Again | Gone.

(** Up to the blank line: what's been received, where the blank line starts,
    and the turns that follow *)
Fixpoint receive_head (raw : chars) (turns : list turn) : option (chars * nat * list turn) :=
  match turns with
  | [] => None
  | Expired :: _ => None
  | Gone :: _ => None
  | Again :: turns => receive_head raw turns
  | Got data :: turns =>
      let raw := raw ++ data in
      if Nat.ltb kMaxHeaderBytes (List.length raw) then None
      else
        match find_str (CRLF ++ CRLF) raw with
        | Some headerEnd => Some (raw, headerEnd, turns)
        | None => receive_head raw turns
        end
  end.

(** Up to the declared length, or as far as it gets *)
Fixpoint receive_body (raw : chars) (headerLen : nat) (contentLen : Z) (turns : list turn) : chars :=
  if Z.of_nat (List.length raw - headerLen) <? contentLen then
    match turns with
    | [] => raw
    | Expired :: _ => raw
    | Gone :: _ => raw
    | Again :: turns => receive_body raw headerLen contentLen turns
    | Got data :: turns => receive_body (raw ++ data) headerLen contentLen turns
    end
  else raw.

(** The length that the headers declare, if it's one the server takes *)
Definition declared_length (headers : gmap chars chars) : option Z :=
  match headers !! lit "content-length" with
  | None => Some 0
  | Some v =>
      match parseNumber uint64_t v kDefaultNumberBase with
      | None => None
      | Some len => if kMaxBodyBytes <? len then None else Some len
      end
  end.

(** The request that the handler gets, if it gets one *)
Definition receive_request (turns : list turn) : option HttpRequest :=
  match receive_head [] turns with
  | None => None
  | Some (raw, headerEnd, turns) =>
      let headerLen := (headerEnd + 4)%nat in
      match declared_length (req_headers (parseRequest (take headerLen raw))) with
      | None => None
      | Some contentLen =>
          let raw := receive_body raw headerLen contentLen turns in
          if negb (contentLen <=? Z.of_nat (List.length raw - headerLen)) then None
          else
            Some ((parseRequest (take headerLen raw))
                    <| req_body := drop headerLen raw |> <| contentLength := contentLen |>)
      end
  end.

(** One turn of [sendAll()]'s loop: the deadline has passed, [send()] took
    some characters, it was interrupted or timed out, or it failed *)
Inductive send_turn := SendExpired | Sent (n : nat) | SendAgain | SendFailed.

(** Whether all was sent, and what was *)
Fixpoint sendAll (data : chars) (turns : list send_turn) : bool * chars :=
  match data, turns with
  | [], _ => (true, [])
  | _, [] => (false, [])
  | _, SendExpired :: _ => (false, [])
  | _, SendFailed :: _ => (false, [])
  | _, SendAgain :: turns => sendAll data turns
  | _, Sent n :: turns => let (ok, out) := sendAll (drop n data) turns in (ok, take n data ++ out)
  end.

(** What's sent back, given how the socket takes it; nothing, when the
    handler wasn't called *)
Definition handleConnection {S} (handler : HttpRequest -> M S HttpResponse)
    (turns : list turn) (sends : list send_turn) : M S (option chars) :=
  match receive_request turns with
  | None => mret None
  | Some req => resp ← handler req; mret (Some (snd (sendAll (serializeResponse resp) sends)))
  end.

(** *** Requests as a client writes them *)

Definition request_head (meth target : chars) (headers : list (chars * chars)) : chars :=
  meth ++ lit " " ++ target ++ lit " HTTP/1.1" ++ CRLF ++ concat (map header_line headers) ++ CRLF.

Definition is_word (s : chars) : Prop := s <> [] /\ Forall (fun c => is_space c = false) s.

(** A header's name has no colon, and neither part a line's end, or a space
    at one of its ends *)
Definition header_ok (kv : chars * chars) : Prop :=
  (":"%char ∉ fst kv) /\ (LF ∉ fst kv ++ snd kv) /\ trim (fst kv) = fst kv /\ trim (snd kv) = snd kv.

#[export] Instance is_word_dec s : Decision (is_word s).
Proof. unfold is_word. apply _. Defined.
#[export] Instance header_ok_dec kv : Decision (header_ok kv).
Proof. unfold header_ok. apply _. Defined.

(** The headers as the server keeps them: the last of each name *)
Definition kept_headers (headers : list (chars * chars)) : gmap chars chars :=
  foldl (fun m kv => <[toLower (fst kv) := snd kv]> m) ∅ headers.

(** The data that's in turns, and turns that bring nothing but data *)
Definition data_of (turns : list turn) : chars :=
  concat (map (fun t => match t with Got d => d | _ => [] end) turns).
Definition only_data (turns : list turn) : Prop :=
  Forall (fun t => match t with Got _ => True | Again => True | _ => False end) turns.

(** A read fills at most the buffer *)
Definition turn_fits (t : turn) : Prop :=
  match t with Got d => (List.length d <= kRecvChunk)%nat | _ => True end.

#[export] Instance only_data_dec turns : Decision (only_data turns).
Proof. unfold only_data. apply Forall_dec. intros []; apply _. Defined.

#[export] Instance turn_fits_dec t : Decision (turn_fits t).
Proof. destruct t; unfold turn_fits; apply _. Defined.

(** ** Lemmas *)

(** *** Requests *)

Lemma last_snoc_char (s : chars) c : last (s ++ [c]) = Some c.
Proof. by rewrite last_snoc. Qed.

(** A line is taken apart as it was put together *)
Lemma trim_space v : trim v = v -> trim (lit " " ++ v) = v.
Proof. intros H. unfold trim. cbn [lit list_ascii_of_string app skip_while]. exact H. Qed.

Lemma add_header_line_render kv m :
  header_ok kv ->
  add_header_line (fst kv ++ lit ": " ++ snd kv ++ [CR]) m = <[toLower (fst kv) := snd kv]> m.
Proof.
  intros (Hc & _ & Hk & Hv). unfold add_header_line.
  rewrite !app_assoc, last_snoc_char, decide_True by done.
  replace (List.length _ - 1)%nat with (List.length ((fst kv ++ lit ": ") ++ snd kv))
    by (rewrite (length_app _ [CR]); simpl; lia).
  rewrite take_app_length, <- app_assoc.
  pose proof (find_char_app ":"%char (fst kv) (lit " " ++ snd kv) Hc) as Hf.
  change (":"%char :: lit " " ++ snd kv) with (lit ": " ++ snd kv) in Hf. rewrite Hf.
  rewrite take_app_length, Hk, <- drop_drop, drop_app_length.
  change (drop 1 (lit ": " ++ snd kv)) with (lit " " ++ snd kv). by rewrite trim_space.
Qed.

Lemma header_loop_render headers body m fuel :
  Forall header_ok headers -> (List.length headers < fuel)%nat ->
  header_loop fuel (concat (map header_line headers) ++ CRLF ++ body) m =
    (foldl (fun m kv => <[toLower (fst kv) := snd kv]> m) m headers, body).
Proof.
  intros Hok. revert m fuel. induction Hok as [|kv headers Hkv _ IH]; intros m fuel Hf.
  - destruct fuel as [|fuel]; [simpl in Hf; lia|]. cbn [map concat foldl app header_loop].
    change (CRLF ++ body) with ([CR] ++ LF :: body).
    rewrite getline_line; [done|]. unfold no_newline. by intros H%list_elem_of_singleton.
  - destruct fuel as [|fuel]; [simpl in Hf; lia|]. cbn [map concat header_loop foldl].
    pose proof Hkv as (_ & Hn & _).
    assert (no_newline (fst kv ++ lit ": " ++ snd kv ++ [CR])) as Hl.
    { unfold no_newline. rewrite elem_of_app in Hn. rewrite !elem_of_app. intros [H|[H|[H|H]]]; [tauto| |tauto|].
      - revert H. apply (bool_decide_unpack (LF ∉ lit ": ")). by vm_compute.
      - by apply list_elem_of_singleton in H. }
    assert ((header_line kv ++ concat (map header_line headers)) ++ CRLF ++ body =
            (fst kv ++ lit ": " ++ snd kv ++ [CR]) ++ LF :: concat (map header_line headers) ++ CRLF ++ body) as ->.
    { unfold header_line. by rewrite <- !app_assoc. }
    rewrite getline_line by done. rewrite !bool_decide_eq_false_2.
    + rewrite add_header_line_render by done. cbn [orb]. apply IH. simpl in Hf. lia.
    + by destruct (fst kv).
    + intros H. apply (f_equal List.length) in H. rewrite !length_app in H. simpl in H. lia.
Qed.

Lemma concat_header_lines headers :
  (List.length headers <= List.length (concat (map header_line headers)))%nat.
Proof.
  induction headers as [|kv headers IH]; [done|]. cbn [map concat List.length].
  rewrite length_app. unfold header_line at 1. rewrite !length_app. simpl. lia.
Qed.

Lemma is_word_no_newline s : is_word s -> no_newline s.
Proof. intros [_ H] Hn. rewrite Forall_forall in H. by specialize (H _ Hn). Qed.

Lemma parse_request_head meth target headers body :
  is_word meth -> is_word target -> Forall header_ok headers ->
  parseRequest (request_head meth target headers ++ body) =
    {| method := meth; path := target; req_headers := kept_headers headers; req_body := body;
       contentLength := 0 |}.
Proof.
  intros Hm Ht Hh. unfold parseRequest, request_head.
  set (line := meth ++ lit " " ++ target ++ lit " HTTP/1.1" ++ [CR]).
  assert ((meth ++ lit " " ++ target ++ lit " HTTP/1.1" ++ CRLF ++ concat (map header_line headers) ++ CRLF) ++ body =
          line ++ LF :: concat (map header_line headers) ++ CRLF ++ body) as ->.
  { unfold line. by rewrite <- !app_assoc. }
  rewrite getline_line.
  2: { unfold no_newline, line. rewrite !elem_of_app. intros [H|[H|[H|[H|H]]]].
       - by apply (is_word_no_newline meth).
       - by apply list_elem_of_singleton in H.
       - by apply (is_word_no_newline target).
       - revert H. apply (bool_decide_unpack (LF ∉ lit " HTTP/1.1")). by vm_compute.
       - by apply list_elem_of_singleton in H. }
  unfold line. destruct Hm as [Hm1 Hm2], Ht as [Ht1 Ht2].
  change (lit " " ++ target ++ lit " HTTP/1.1" ++ [CR])
    with (" "%char :: target ++ " "%char :: lit "HTTP/1.1" ++ [CR]).
  rewrite (next_word_spec meth) by done. rewrite next_word_skip, (next_word_spec target) by done.
  rewrite header_loop_render; [done|done|].
  rewrite !length_app. pose proof (concat_header_lines headers). lia.
Qed.

(** *** The blank line *)

Definition blank : chars := CRLF ++ CRLF.

Lemma prefix_of_app_short (pat a b : chars) :
  pat `prefix_of` a ++ b -> (List.length pat <= List.length a)%nat -> pat `prefix_of` a.
Proof.
  intros [x Hx] Hl. exists (take (List.length a - List.length pat) x).
  apply (f_equal (take (List.length a))) in Hx. by rewrite take_app_length, take_app_ge in Hx.
Qed.

Lemma find_str_app pat a b n : find_str pat a = Some n -> find_str pat (a ++ b) = Some n.
Proof.
  intros (H & Hn & Hk)%find_str_Some. pose proof (prefix_length _ _ H) as Hl. rewrite length_drop in Hl.
  apply find_str_Some. split_and!; [|rewrite length_app; lia|].
  - rewrite drop_app_le by done. by apply prefix_app_r.
  - intros k Hlt Hp. apply (Hk k Hlt). rewrite drop_app_le in Hp by lia.
    apply (prefix_of_app_short _ _ _ Hp). rewrite length_drop. lia.
Qed.

Lemma starts_blank_inv c s : starts_with blank (c :: s) = true -> c = CR /\ exists s', s = LF :: s'.
Proof.
  intros H%starts_with_prefix. destruct H as [x Hx]. cbn in Hx. injection Hx as -> ->. split; [done|]. by eexists.
Qed.

(** A line that isn't blank holds no blank line, and neither does its end *)
Lemma find_blank_line line rest :
  no_newline line -> ~ CRLF `prefix_of` rest ->
  find_str blank (line ++ CRLF ++ rest) = Nat.add (List.length line + 2) <$> find_str blank rest.
Proof.
  intros Hn Hr. induction line as [|c line IH].
  - cbn [app CRLF find_str]. destruct (starts_with blank (CR :: LF :: rest)) eqn:Hs.
    { apply starts_with_prefix in Hs. exfalso. apply Hr. by repeat apply prefix_cons_inv_2 in Hs. }
    destruct (starts_with blank (LF :: rest)) eqn:Hs2; [by apply starts_blank_inv in Hs2 as [? _]|].
    by destruct (find_str blank rest).
  - assert (no_newline line) as Hn' by (intros H; apply Hn; by right).
    cbn [app find_str]. rewrite IH by done.
    destruct (starts_with blank (c :: line ++ CRLF ++ rest)) eqn:Hs.
    { apply starts_blank_inv in Hs as (-> & s' & Hs). destruct line as [|d line]; [done|].
      injection Hs as -> _. exfalso. apply Hn. right. by left. }
    by destruct (find_str blank rest).
Qed.

Definition good_line (l : chars) : Prop := no_newline l /\ l <> [].
Definition text_of (lines : list chars) : chars := concat (map (fun l => l ++ CRLF) lines).

Lemma text_of_start l lines rest : good_line l -> ~ CRLF `prefix_of` (text_of (l :: lines) ++ rest).
Proof.
  intros [Hn Hl] [x Hx]. unfold text_of in Hx. cbn [map concat] in Hx.
  destruct l as [|c [|d l]]; [done|done|]. injection Hx as _ -> _. apply Hn. right. by left.
Qed.

Lemma find_blank_text l lines body :
  good_line l -> Forall good_line lines ->
  find_str blank (text_of (l :: lines) ++ CRLF ++ body) = Some (List.length (text_of (l :: lines)) - 2)%nat.
Proof.
  intros Hl Hls. revert l Hl. induction Hls as [|k lines Hk _ IH]; intros l Hl.
  - unfold text_of. cbn [map concat]. rewrite app_nil_r, <- app_assoc.
    assert (find_str blank (l ++ CRLF ++ CRLF ++ body) = Some (List.length l)) as ->.
    { destruct Hl as [Hn _]. induction l as [|c l IH]; [done|]. cbn [app find_str].
      rewrite IH by (intros H; apply Hn; by right).
      destruct (starts_with blank _) eqn:Hs; [|done].
      apply starts_blank_inv in Hs as (-> & s' & Hs). destruct l as [|d l]; [done|].
      injection Hs as -> _. exfalso. apply Hn. right. by left. }
    rewrite length_app. simpl. f_equal. lia.
  - assert (2 <= List.length (text_of (k :: lines)))%nat as Hlen.
    { unfold text_of. cbn [map concat]. rewrite !length_app. simpl. lia. }
    change (text_of (l :: k :: lines)) with ((l ++ CRLF) ++ text_of (k :: lines)).
    rewrite <- !app_assoc, find_blank_line; [|apply Hl|by apply text_of_start].
    rewrite IH by done. cbn [fmap option_fmap option_map]. rewrite !length_app. simpl. f_equal. lia.
Qed.

Lemma request_head_text meth target headers :
  request_head meth target headers =
    text_of ((meth ++ lit " " ++ target ++ lit " HTTP/1.1") ::
             map (fun kv => fst kv ++ lit ": " ++ snd kv) headers) ++ CRLF.
Proof.
  unfold request_head, text_of. cbn [map concat]. rewrite <- !app_assoc. do 5 f_equal.
  f_equal. induction headers as [|kv headers IH]; [done|]. cbn [map concat]. rewrite IH.
  unfold header_line. by rewrite <- !app_assoc.
Qed.

Lemma header_good kv : header_ok kv -> good_line (fst kv ++ lit ": " ++ snd kv).
Proof.
  intros (_ & Hn & _). split; [|by destruct (fst kv)].
  unfold no_newline. rewrite elem_of_app in Hn. rewrite !elem_of_app. intros [H|[H|H]]; [tauto| |tauto].
  revert H. apply (bool_decide_unpack (LF ∉ lit ": ")). by vm_compute.
Qed.

Lemma request_line_good meth target :
  is_word meth -> is_word target -> good_line (meth ++ lit " " ++ target ++ lit " HTTP/1.1").
Proof.
  intros Hm Ht. split; [|by destruct meth].
  unfold no_newline. rewrite !elem_of_app. intros [H|[H|[H|H]]].
  - by apply (is_word_no_newline meth).
  - by apply list_elem_of_singleton in H.
  - by apply (is_word_no_newline target).
  - revert H. apply (bool_decide_unpack (LF ∉ lit " HTTP/1.1")). by vm_compute.
Qed.

(** The blank line ends the head *)
Lemma find_blank_head meth target headers body :
  is_word meth -> is_word target -> Forall header_ok headers ->
  exists n, find_str blank (request_head meth target headers ++ body) = Some n /\
    (n + 4)%nat = List.length (request_head meth target headers).
Proof.
  intros Hm Ht Hh. rewrite request_head_text, <- app_assoc.
  rewrite find_blank_text.
  - eexists. split; [reflexivity|]. rewrite length_app. unfold text_of. cbn [map concat].
    rewrite !length_app. simpl. lia.
  - by apply request_line_good.
  - rewrite Forall_map. eapply Forall_impl; [exact Hh|]. apply header_good.
Qed.

(** *** Receiving *)

Lemma data_of_got d turns : data_of (Got d :: turns) = d ++ data_of turns.
Proof. done. Qed.

Lemma receive_head_all raw turns n :
  only_data turns -> find_str blank (raw ++ data_of turns) = Some n -> find_str blank raw = None ->
  (List.length (raw ++ data_of turns) <= kMaxHeaderBytes)%nat ->
  exists raw' turns', receive_head raw turns = Some (raw', n, turns') /\ only_data turns' /\
    raw' ++ data_of turns' = raw ++ data_of turns /\ (n + 4 <= List.length raw')%nat.
Proof.
  intros Hd. revert raw. induction Hd as [|t turns Ht Hd IH]; intros raw Hf Hn Hl.
  { unfold data_of in Hf. cbn [map concat] in Hf. rewrite app_nil_r in Hf. congruence. }
  destruct t as [|d| |]; [done| |by apply IH|done].
  rewrite data_of_got in *. cbn [receive_head]. rewrite app_assoc in *.
  rewrite (proj2 (Nat.ltb_ge _ _)) by (rewrite (length_app (raw ++ d)) in Hl; lia).
  change (CRLF ++ CRLF) with blank.
  destruct (find_str blank (raw ++ d)) as [k|] eqn:Hk.
  - pose proof (find_str_app _ _ (data_of turns) _ Hk) as Hk'. rewrite Hf in Hk'. injection Hk' as ->.
    eexists _, _. split; [reflexivity|]. split_and!; [done|done|].
    apply find_str_Some in Hk as (Hp & _). apply prefix_length in Hp. rewrite length_drop in Hp.
    simpl in Hp. lia.
  - by apply IH.
Qed.

Lemma receive_body_all raw headerLen contentLen turns :
  only_data turns -> (headerLen <= List.length raw)%nat ->
  Z.of_nat (List.length (raw ++ data_of turns)) = Z.of_nat headerLen + contentLen ->
  receive_body raw headerLen contentLen turns = raw ++ data_of turns.
Proof.
  intros Hd. revert raw. induction Hd as [|t turns Ht _ IH]; intros raw Hh Hl; cbn [receive_body].
  { unfold data_of. cbn [map concat]. rewrite app_nil_r. by destruct (_ <? _). }
  destruct (Z.ltb_spec (Z.of_nat (List.length raw - headerLen)) contentLen) as [_|Hge].
  - unfold data_of in *. cbn [map concat] in *. destruct t as [|d| |]; [done| |by apply IH|done].
    rewrite app_assoc. apply IH; [rewrite length_app; lia|]. by rewrite <- app_assoc.
  - rewrite length_app in Hl. assert (List.length (data_of (t :: turns)) = 0%nat) as ->%nil_length_inv by lia.
    by rewrite app_nil_r.
Qed.

(** What the body's loop adds *)
Lemma receive_body_bound raw headerLen contentLen turns :
  Forall turn_fits turns ->
  let raw' := receive_body raw headerLen contentLen turns in
  raw `prefix_of` raw' /\
  (raw' = raw \/ Z.of_nat (List.length raw' - headerLen) < contentLen + Z.of_nat kRecvChunk).
Proof.
  revert raw. induction turns as [|t turns IH]; intros raw Hf; cbn [receive_body].
  { destruct (_ <? _); (split; [done|by left]). }
  apply Forall_cons in Hf as [Ht Hf].
  destruct (Z.ltb_spec (Z.of_nat (List.length raw - headerLen)) contentLen); [|split; [done|by left]].
  destruct t as [|d| |]; [split; [done|by left]| |by apply IH|split; [done|by left]].
  destruct (IH (raw ++ d) Hf) as [Hp Hor]. split.
  - etransitivity; [|exact Hp]. by apply prefix_app_r.
  - right. destruct Hor as [->|Hor]; [|done]. rewrite length_app. unfold turn_fits in Ht. lia.
Qed.

Lemma receive_head_bound raw turns raw' n turns' :
  receive_head raw turns = Some (raw', n, turns') ->
  Forall turn_fits turns ->
  (List.length raw' <= kMaxHeaderBytes)%nat /\ (n + 4 <= List.length raw')%nat /\
  find_str blank raw' = Some n /\
  Forall turn_fits turns'.
Proof.
  revert raw. induction turns as [|t turns IH]; intros raw; cbn [receive_head]; [done|].
  intros H Hf. apply Forall_cons in Hf as [_ Hf].
  destruct t as [|d| |]; [done| |by apply (IH raw)|done].
  destruct (Nat.ltb_spec kMaxHeaderBytes (List.length (raw ++ d))); [done|].
  change (CRLF ++ CRLF) with blank in H.
  destruct (find_str blank (raw ++ d)) as [j|] eqn:Hj; [|by apply (IH (raw ++ d))].
  injection H as <- <- <-. split_and!; [done| |done|done].
  apply find_str_Some in Hj as (Hp & Hj & _). apply prefix_length in Hp.
  rewrite length_drop in Hp. simpl in Hp. lia.
Qed.

Lemma declared_length_range headers n : declared_length headers = Some n -> 0 <= n <= kMaxBodyBytes.
Proof.
  unfold declared_length. destruct (headers !! _) as [v|]; [|intros [= <-]; unfold kMaxBodyBytes; lia].
  destruct (parseNumber _ _ _) as [m|] eqn:Hm; [|done].
  apply parseNumber_numeral in Hm as [_ Hm].
  destruct (Z.ltb_spec kMaxBodyBytes m); [done|]. intros [= <-].
  inversion Hm as [? ds _ _ Hr|]; [|done]. subst. apply in_range_spec in Hr. cbn in Hr. lia.
Qed.

(** *** Sending *)

Lemma sendAll_prefix data turns :
  let (ok, out) := sendAll data turns in
  out `prefix_of` data /\ (ok = true <-> out = data).
Proof.
  revert data. induction turns as [|t turns IH]; intros data; destruct data as [|c data]; cbn [sendAll];
    try (by split); try (by split; [apply prefix_nil|]).
  destruct t as [|n| |]; try (by split; [apply prefix_nil|]); [|apply IH].
  set (D := c :: data) in *. specialize (IH (drop n D)). destruct (sendAll (drop n D) turns) as [ok out].
  destruct IH as [Hp Hok]. rewrite Hok. split.
  - rewrite <- (take_drop n D) at 2. by apply prefix_app.
  - split; [intros ->; apply take_drop|]. intros H. rewrite <- (take_drop n D) in H at 2.
    by apply app_inv_head in H.
Qed.

(** A request that a client writes, received *)
Lemma receive_request_render (meth target : chars) (headers : list (chars * chars)) (body : chars) (turns : list turn)
    (Hm : is_word meth) (Ht : is_word target) (Hh : Forall header_ok headers)
    (Hb : declared_length (kept_headers headers) = Some (Z.of_nat (List.length body)))
    (Hd : only_data turns) (Hdata : data_of turns = request_head meth target headers ++ body)
    (Hl : (List.length (request_head meth target headers ++ body) <= kMaxHeaderBytes)%nat) :
  receive_request turns =
    Some {| method := meth; path := target; req_headers := kept_headers headers; req_body := body;
            contentLength := Z.of_nat (List.length body) |}.
Proof.
  destruct (find_blank_head meth target headers body Hm Ht Hh) as (n & Hn & Hlen).
  set (head := request_head meth target headers) in *. unfold receive_request.
  destruct (receive_head_all [] turns n) as (raw & turns' & -> & Hd' & Hraw & Hge);
    [done|by rewrite Hdata|done|by rewrite Hdata|].
  cbn [app] in Hraw. rewrite Hdata in Hraw. rewrite Hlen in *.
  assert (forall x, raw ++ x = head ++ body -> take (List.length head) raw = head) as Hhead.
  { intros x Hx. apply (f_equal (take (List.length head))) in Hx.
    by rewrite take_app_le, take_app_length in Hx by lia. }
  specialize (Hhead _ Hraw). rewrite Hhead.
  pose proof (parse_request_head meth target headers [] Hm Ht Hh) as Hp. rewrite app_nil_r in Hp.
  fold head in Hp. rewrite Hp. cbn [req_headers]. rewrite Hb.
  rewrite receive_body_all; [|done|done|rewrite Hraw, length_app; lia].
  rewrite Hraw, length_app. replace (_ + _ - _)%nat with (List.length body) by lia.
  rewrite Z.leb_refl. cbn [negb]. by rewrite take_app_length, Hp, drop_app_length.
Qed.

(** ** Properties *)

(** C34: a request that a client writes is the request that the handler
    gets, however its bytes arrive: when it's a well-formed request whose
    body has the declared length, and all of it fits in the receive cap,
    the handler sees the method, the path, the last header of each name in
    lower case, and the body, for every way to cut the bytes into pieces,
    with any interruptions. *)
Theorem request_received (meth target : chars) (headers : list (chars * chars)) (body : chars) (turns : list turn)
    (Hm : is_word meth) (Ht : is_word target) (Hh : Forall header_ok headers)
    (Hb : declared_length (kept_headers headers) = Some (Z.of_nat (List.length body)))
    (Hd : only_data turns) (Hdata : data_of turns = request_head meth target headers ++ body)
    (Hl : (List.length (request_head meth target headers ++ body) <= kMaxHeaderBytes)%nat) :
  receive_request turns =
    Some {| method := meth; path := target; req_headers := kept_headers headers; req_body := body;
            contentLength := Z.of_nat (List.length body) |}.
Proof. by apply receive_request_render. Qed.

(** A request that stores an object *)
Definition put_headers : list (chars * chars) := [(lit "Host", lit "s3"); (lit "Content-Length", lit "5")].
Definition put_head : chars := request_head (lit "PUT") (lit "/bucket/key") put_headers.

Lemma request_received_witness :
  receive_request [Got (take 20 put_head); Again; Got (drop 20 put_head ++ lit "he"); Got (lit "llo")] =
    Some {| method := lit "PUT"; path := lit "/bucket/key"; req_headers := kept_headers put_headers;
            req_body := lit "hello"; contentLength := 5 |}.
Proof.
  apply (request_received (lit "PUT") (lit "/bucket/key") put_headers (lit "hello"));
    try (apply (bool_decide_unpack _); vm_compute; reflexivity); try (vm_compute; reflexivity).
Defined.

(** The handler never gets more than the caps allow. A request that it
    gets has a head of at most 64 KiB, declares at most 1 MiB, and comes
    with all that it declares, and with less than one more read's worth. *)
Theorem received_within_caps (turns : list turn) (req : HttpRequest)
    (Hturns : Forall turn_fits turns)
    (H : receive_request turns = Some req) :
  0 <= contentLength req <= kMaxBodyBytes /\
  contentLength req <= Z.of_nat (List.length (req_body req)) < contentLength req + Z.of_nat kRecvChunk /\
  exists head, (List.length head <= kMaxHeaderBytes)%nat /\ find_str (CRLF ++ CRLF) head = Some (List.length head - 4)%nat /\
    req_headers req = req_headers (parseRequest head).
Proof.
  unfold receive_request in H. destruct (receive_head [] turns) as [[[raw n] turns']|] eqn:Hr; [|done].
  eapply receive_head_bound in Hr as (Hraw & Hn & Hf & Ht); [|exact Hturns].
  destruct (declared_length _) as [len|] eqn:Hd; [|done]. apply declared_length_range in Hd as Hlen.
  destruct (receive_body_bound raw (n + 4) len turns' Ht) as [Hpre Hor].
  set (raw' := receive_body raw (n + 4) len turns') in *.
  destruct (Z.leb_spec len (Z.of_nat (List.length raw' - (n + 4)))) as [Hge|]; [|done].
  injection H as <-. cbn [contentLength req_body req_headers set_field]. rewrite length_drop.
  split_and!; [lia|lia|done| |].
  - destruct Hor as [Heq|Hor]; [|done]. rewrite Heq in *. unfold kMaxHeaderBytes, kRecvChunk in *. lia.
  - exists (take (n + 4) raw'). apply prefix_length in Hpre as Hpl. rewrite length_take_le by lia.
    split_and!; [lia| |done].
    destruct Hpre as [x Hx]. rewrite Hx, take_app_le by lia.
    replace (n + 4 - 4)%nat with n by lia. apply find_str_Some in Hf as (Hp & _ & Hk).
    apply find_str_Some. split_and!; [|rewrite length_take_le; lia|].
    + rewrite <- (take_drop (n + 4) raw), drop_app_le in Hp by (rewrite length_take_le; lia).
      apply (prefix_of_app_short _ _ _ Hp). rewrite length_drop, length_take_le by lia. simpl. lia.
    + intros k Hlt Hp'. apply (Hk k Hlt). rewrite <- (take_drop (n + 4) raw), drop_app_le by (rewrite length_take_le; lia).
      by apply prefix_app_r.
Qed.

Lemma received_within_caps_witness :
  exists req, receive_request [Got put_head; Got (lit "hello, and more")] = Some req /\
    contentLength req = 5 /\ List.length (req_body req) = 15%nat /\ 0 <= contentLength req <= kMaxBodyBytes.
Proof.
  destruct (receive_request [Got put_head; Got (lit "hello, and more")]) as [req|] eqn:H;
    [|vm_compute in H; discriminate].
  assert (Forall turn_fits
            [Got put_head; Got (lit "hello, and more")]) as Ht.
  { apply (bool_decide_unpack _). vm_compute. reflexivity. }
  destruct (received_within_caps _ req Ht H) as (H1 & _).
  exists req. split; [reflexivity|]. vm_compute in H. injection H as <-.
  split; [reflexivity|]. split; [reflexivity|exact H1].
Defined.

(** The header's cap counts more than the header. The same bytes, a
    request whose head is far below the cap, are accepted when the head
    arrives by itself, and dropped without an answer when its last byte
    arrives with the body. *)
Theorem header_cap_counts_body :
  let headers := [(lit "Content-Length", lit "65536")] in
  let head := request_head (lit "PUT") (lit "/key") headers in
  let body := replicate kRecvChunk "x"%char in
  let late := [Got (take (List.length head - 1) head);
               Got (drop (List.length head - 1) head ++ take (kRecvChunk - 1) body);
               Got (drop (kRecvChunk - 1) body)] in
  (List.length head < 64)%nat /\ data_of late = head ++ body /\
  Forall turn_fits late /\
  (exists req, receive_request [Got head; Got body] = Some req /\ req_body req = body) /\
  receive_request late = None.
Proof.
  intros headers head body late. split; [vm_compute; lia|].
  split; [unfold late; rewrite !data_of_got; cbn [data_of map concat];
          by rewrite app_nil_r, <- app_assoc, take_drop, app_assoc, take_drop|].
  split; [apply (bool_decide_unpack _); vm_compute; reflexivity|].
  split; [|vm_compute; reflexivity].
  assert (match receive_request [Got head; Got body] with
          | Some req => bool_decide (req_body req = body) | None => false end = true) as H
    by (vm_compute; reflexivity).
  destruct (receive_request _) as [req|]; [|done]. apply bool_decide_eq_true in H. by exists req.
Qed.

(** A response is sent in order and from its start, whatever the socket
    does: what goes out is a prefix of the serialized response, and all of
    it just when the send loop says so. Without a request, nothing is sent,
    and the handler isn't called. *)
Theorem response_sent {S} (handler : HttpRequest -> M S HttpResponse) (turns : list turn)
    (sends : list send_turn) (s s' : S) (out : option chars)
    (H : handleConnection handler turns sends s = (inl out, s')) :
  match receive_request turns with
  | None => out = None /\ s' = s
  | Some req => exists resp sent, handler req s = (inl resp, s') /\ out = Some sent /\
      sent `prefix_of` serializeResponse resp /\
      (fst (sendAll (serializeResponse resp) sends) = true <-> sent = serializeResponse resp)
  end.
Proof.
  unfold handleConnection in H. destruct (receive_request turns) as [req|]; [|by injection H as <- <-].
  apply bind_returns in H as (resp & s1 & Hh & H). injection H as <- <-.
  exists resp, (snd (sendAll (serializeResponse resp) sends)).
  pose proof (sendAll_prefix (serializeResponse resp) sends) as Hs.
  destruct (sendAll _ sends) as [ok sent]. destruct Hs. by split_and!.
Qed.

Lemma response_sent_witness :
  exists sent, handleConnection (S := unit) (fun _ => mret (new_HttpResponse <| resp_status := 204 |>))
    [Got put_head; Got (lit "hello")] [Sent 10; SendAgain; Sent 7; SendExpired] tt = (inl (Some sent), tt) /\
    sent = lit "HTTP/1.1 204 No C" /\ sent `prefix_of` serializeResponse (new_HttpResponse <| resp_status := 204 |>).
Proof.
  set (h := fun _ : HttpRequest => (mret (new_HttpResponse <| resp_status := 204 |>) : M unit HttpResponse)).
  set (sends := [Sent 10; SendAgain; Sent 7; SendExpired]).
  assert (handleConnection h [Got put_head; Got (lit "hello")] sends tt = (inl (Some (lit "HTTP/1.1 204 No C")), tt)) as H
    by (vm_compute; reflexivity).
  pose proof (response_sent h _ sends tt tt _ H) as Hr.
  exists (lit "HTTP/1.1 204 No C"). split; [exact H|]. split; [reflexivity|].
  destruct (receive_request _) as [req|] eqn:Hq; [|vm_compute in Hq; discriminate].
  destruct Hr as (resp & sent & Hh & Ho & Hp & _). injection Hh as <-. injection Ho as <-. exact Hp.
Defined.

(** A socket's timeout is never set to zero, which would mean none at
    all: while time is left, it's the time left, rounded up to a
    microsecond, and at most five seconds; when none is left, the loop ends
    instead. *)
Theorem setTimeoutUntil_spec (left : Z) :
  match setTimeoutUntil left with
  | None => left <= 0
  | Some (secs, usecs) =>
      0 < left /\ 0 <= secs /\ 0 <= usecs < 1000000 /\ 0 < secs * 1000000 + usecs <= kMaxPerCall /\
      (left <= kMaxPerCall * 1000 -> left <= (secs * 1000000 + usecs) * 1000 < left + 1000)
  end.
Proof.
  unfold setTimeoutUntil, kMaxPerCall. set (remain := - (- left / 1000)).
  assert (left <= remain * 1000 < left + 1000) as Hr.
  { subst remain. pose proof (Z.div_mod (- left) 1000). pose proof (Z.mod_pos_bound (- left) 1000). lia. }
  destruct (Z.leb_spec remain 0); [lia|].
  set (r := if _ <? remain then _ else remain).
  assert (0 < r <= 5 * 1000000 /\ (r = remain \/ 5 * 1000000 < remain)) as [Hr1 Hr2].
  { subst r. destruct (Z.ltb_spec (5 * 1000000) remain); lia. }
  pose proof (Z.div_mod r 1000000). pose proof (Z.mod_pos_bound r 1000000).
  pose proof (Z.div_pos r 1000000). lia.
Qed.
