(* ===== verification/HttpThreads.v ===== *)
(** * The test server's threads
    ([test/integration/rdma-test-server/http_server.cpp])

    The accept loop, a detached worker for each connection, and [stop()], as
    a step relation: a step is what one thread does while it holds
    [workersMtx_], or one system call.  A connection has a number of its own
    in the model; its descriptor is reused once it's closed. *)

From stdpp Require Import base numbers list gmap sets relations.
From S2P Require Import Prelude.

(** ** Definitions *)

(** The members that [workersMtx_] guards *)
Record Registry := { activeFds : gset Z; liveWorkers : Z }.

Definition new_Registry : Registry := {| activeFds := ∅; liveWorkers := 0 |}.

(** [registerWorker()]: nothing, once stop is requested *)
Definition registerWorker (stop_requested : bool) (client : Z) (r : Registry) : option Registry :=
  if stop_requested then None
  else Some {| activeFds := {[ client ]} ∪ activeFds r; liveWorkers := liveWorkers r + 1 |}.

(** [~Worker()], up to the closing of the descriptor *)
Definition destroy_Worker (client : Z) (r : Registry) : Registry :=
  {| activeFds := activeFds r ∖ {[ client ]}; liveWorkers := liveWorkers r - 1 |}.

(** Where a connection is: the loop has accepted it; the loop has registered
    it, and has no thread for it yet; a worker thread serves it; it's
    unregistered, and about to be closed *)
Inductive phase := Accepted | Registered | Serving | Unregistered.

#[export] Instance phase_eq_dec : EqDecision phase.
Proof. solve_decision. Defined.

Definition is_registered (p : phase) : bool :=
  match p with Registered => true | Serving => true | _ => false end.

(** Where the accept loop is *)
Inductive loop_point := Waiting | Holding (c : nat) | LoopDone.

(** Where [stop()] is: not called yet; stop is requested; shutting down the
    duplicated descriptors of the listed connections; joining the loop;
    waiting for the workers; returned *)
Inductive stop_point := NotCalled | Requested | Shutting (cs : list nat) | Joining | Draining | Stopped.

Record server := {
  registry : Registry;
  stop_requested : bool;
  loop_at : loop_point;
  stop_at : stop_point;
  conns : gmap nat (Z * phase);   (* the open connections *)
  shut : gset nat;                (* the connections that [stop()] has shut down *)
}.

#[export] Instance eta_server : Eta server := fun r =>
  {| registry := registry r; stop_requested := stop_requested r; loop_at := loop_at r;
     stop_at := stop_at r; conns := conns r; shut := shut r |}.

Definition new_server : server :=
  {| registry := new_Registry; stop_requested := false; loop_at := Waiting; stop_at := NotCalled;
     conns := ∅; shut := ∅ |}.

(** The connections whose descriptors are registered *)
Definition registered_conns (s : server) : list nat :=
  fst <$> filter (fun x => bool_decide (fst (snd x) ∈ activeFds (registry s))) (map_to_list (conns s)).

Inductive step : server -> server -> Prop :=
(** [accept4()] returns a descriptor that isn't in use *)
| step_accept s c fd :
    loop_at s = Waiting -> conns s !! c = None ->
    (forall c' fd' p, conns s !! c' = Some (fd', p) -> fd' <> fd) ->
    step s (s <| conns := <[c := (fd, Accepted)]> (conns s) |> <| loop_at := Holding c |>)
(** a [setsockopt()] that fails closes it again *)
| step_refuse s c fd :
    loop_at s = Holding c -> conns s !! c = Some (fd, Accepted) ->
    step s (s <| conns := delete c (conns s) |> <| loop_at := Waiting |>)
| step_register s c fd r :
    loop_at s = Holding c -> conns s !! c = Some (fd, Accepted) ->
    registerWorker (stop_requested s) fd (registry s) = Some r ->
    step s (s <| registry := r |> <| conns := <[c := (fd, Registered)]> (conns s) |>)
| step_not_registered s c fd :
    loop_at s = Holding c -> conns s !! c = Some (fd, Accepted) ->
    registerWorker (stop_requested s) fd (registry s) = None ->
    step s (s <| conns := delete c (conns s) |> <| loop_at := LoopDone |>)
(** the worker's thread starts, or can't be created *)
| step_spawn s c fd :
    loop_at s = Holding c -> conns s !! c = Some (fd, Registered) ->
    step s (s <| conns := <[c := (fd, Serving)]> (conns s) |> <| loop_at := Waiting |>)
| step_no_thread s c fd :
    loop_at s = Holding c -> conns s !! c = Some (fd, Registered) ->
    step s (s <| registry := destroy_Worker fd (registry s) |>
              <| conns := <[c := (fd, Unregistered)]> (conns s) |> <| loop_at := Waiting |>)
(** a worker is done: its destructor, and then the descriptor's *)
| step_unregister s c fd :
    conns s !! c = Some (fd, Serving) ->
    step s (s <| registry := destroy_Worker fd (registry s) |>
              <| conns := <[c := (fd, Unregistered)]> (conns s) |>)
| step_close s c fd :
    conns s !! c = Some (fd, Unregistered) ->
    step s (s <| conns := delete c (conns s) |>)
| step_loop_done s :
    loop_at s = Waiting -> stop_requested s = true -> step s (s <| loop_at := LoopDone |>)
(** [stop()] *)
| step_request s :
    stop_at s = NotCalled -> step s (s <| stop_requested := true |> <| stop_at := Requested |>)
| step_collect s :
    stop_at s = Requested -> step s (s <| stop_at := Shutting (registered_conns s) |>)
| step_shut s c cs :
    stop_at s = Shutting (c :: cs) ->
    step s (s <| shut := {[ c ]} ∪ shut s |> <| stop_at := Shutting cs |>)
| step_all_shut s : stop_at s = Shutting [] -> step s (s <| stop_at := Joining |>)
| step_join s : stop_at s = Joining -> loop_at s = LoopDone -> step s (s <| stop_at := Draining |>)
| step_stopped s :
    stop_at s = Draining -> liveWorkers (registry s) = 0 -> step s (s <| stop_at := Stopped |>).

Definition reachable (s : server) : Prop := rtc step new_server s.

(** The connections that [stop()] has shut down, or is about to *)
Definition covered (s : server) (c : nat) : Prop :=
  match stop_at s with
  | NotCalled | Requested => True
  | Shutting cs => c ∈ shut s \/ c ∈ cs
  | _ => c ∈ shut s
  end.

(** What holds between steps *)
Record server_ok (s : server) : Prop := {
  ok_fds : forall fd, fd ∈ activeFds (registry s) <->
             exists c p, conns s !! c = Some (fd, p) /\ is_registered p = true;
  ok_live : liveWorkers (registry s) = Z.of_nat (size (activeFds (registry s)));
  ok_distinct : forall c c' fd p p',
    conns s !! c = Some (fd, p) -> conns s !! c' = Some (fd, p') -> c = c';
  ok_held : forall c fd p, conns s !! c = Some (fd, p) -> p = Accepted \/ p = Registered ->
    loop_at s = Holding c;
  ok_requested : stop_at s <> NotCalled -> stop_requested s = true;
  ok_covered : forall c fd p, conns s !! c = Some (fd, p) -> is_registered p = true -> covered s c;
  ok_joined : stop_at s = Draining \/ stop_at s = Stopped -> loop_at s = LoopDone;
  ok_stopped : stop_at s = Stopped -> liveWorkers (registry s) = 0;
}.

(** ** Lemmas *)

Lemma new_server_ok : server_ok new_server.
Proof.
  split; try done; cbn.
  - intros fd. rewrite elem_of_empty. split; [done|]. intros (c & p & H & _). by rewrite lookup_empty in H.
  - by intros [?|?].
Qed.

Lemma elem_of_registered_conns s c :
  c ∈ registered_conns s <-> exists fd p, conns s !! c = Some (fd, p) /\ fd ∈ activeFds (registry s).
Proof.
  unfold registered_conns. rewrite list_elem_of_fmap. split.
  - intros ([c' [fd p]] & -> & H). apply list_elem_of_filter in H as [H1 H2].
    apply elem_of_map_to_list in H2. exists fd, p. split; [done|]. by apply bool_decide_unpack in H1.
  - intros (fd & p & H & Hfd). exists (c, (fd, p)). split; [done|]. apply list_elem_of_filter.
    split; [by apply bool_decide_pack|]. by apply elem_of_map_to_list.
Qed.

(** *** Descriptors *)

Definition registered_fd (m : gmap nat (Z * phase)) (fd : Z) : Prop :=
  exists c p, m !! c = Some (fd, p) /\ is_registered p = true.

Definition distinct (m : gmap nat (Z * phase)) : Prop :=
  forall c c' fd p p', m !! c = Some (fd, p) -> m !! c' = Some (fd, p') -> c = c'.

Ltac conn_cases :=
  repeat match goal with
  | H : <[_ := _]> _ !! _ = Some _ |- _ => apply lookup_insert_Some in H as [[? ?]|[? H]]; simplify_eq
  | H : delete _ _ !! _ = Some _ |- _ => apply lookup_delete_Some in H as [? H]
  end.

Section fds.
Context (m : gmap nat (Z * phase)) (c : nat) (fd : Z).

Lemma registered_update p0 p fd' :
  distinct m -> m !! c = Some (fd, p0) ->
  registered_fd (<[c := (fd, p)]> m) fd' <->
    if decide (fd' = fd) then is_registered p = true else registered_fd m fd'.
Proof.
  intros Hd Hc. unfold registered_fd. case_decide as Hfd; [subst fd'|]; split.
  - intros (c' & p' & H & Hp). conn_cases; [done|]. by pose proof (Hd _ _ _ _ _ Hc H).
  - intros Hp. exists c, p. by rewrite lookup_insert_eq.
  - intros (c' & p' & H & Hp). conn_cases. by eauto.
  - intros (c' & p' & H & Hp). exists c', p'. rewrite lookup_insert_ne; [done|]. intros <-. congruence.
Qed.

Lemma registered_delete p0 fd' :
  distinct m -> m !! c = Some (fd, p0) -> is_registered p0 = false ->
  registered_fd (delete c m) fd' <-> registered_fd m fd'.
Proof.
  intros Hd Hc Hp0. unfold registered_fd. split; intros (c' & p' & H & Hp).
  - conn_cases. by eauto.
  - exists c', p'. rewrite lookup_delete_ne; [done|]. intros <-. congruence.
Qed.

Lemma registered_accept fd' :
  m !! c = None -> registered_fd (<[c := (fd, Accepted)]> m) fd' <-> registered_fd m fd'.
Proof.
  intros Hc. unfold registered_fd. split; intros (c' & p' & H & Hp).
  - conn_cases; by eauto.
  - exists c', p'. rewrite lookup_insert_ne; [done|]. intros <-. congruence.
Qed.

Lemma distinct_update p0 p : distinct m -> m !! c = Some (fd, p0) -> distinct (<[c := (fd, p)]> m).
Proof. intros Hd Hc c1 c2 fd' p1 p2 H1 H2. conn_cases; eauto using eq_sym. Qed.

Lemma distinct_accept p :
  distinct m -> (forall c' fd' p', m !! c' = Some (fd', p') -> fd' <> fd) -> distinct (<[c := (fd, p)]> m).
Proof.
  intros Hd Hn c1 c2 fd' p1 p2 H1 H2. conn_cases; eauto; exfalso;
    match goal with H : m !! _ = Some _ |- _ => by apply Hn in H end.
Qed.

Lemma distinct_delete : distinct m -> distinct (delete c m).
Proof. intros Hd c1 c2 fd' p1 p2 H1 H2. conn_cases. eauto. Qed.
End fds.

(** The count is the number of descriptors *)
Definition counted (r : Registry) : Prop := liveWorkers r = Z.of_nat (size (activeFds r)).

Lemma registerWorker_counted b fd r r' :
  registerWorker b fd r = Some r' -> fd ∉ activeFds r -> counted r ->
  counted r' /\ b = false /\ (forall fd', fd' ∈ activeFds r' <-> fd' = fd \/ fd' ∈ activeFds r).
Proof.
  unfold registerWorker, counted. destruct b; [done|]. intros [= <-] Hfd Hr. cbn. split_and!; [|done|set_solver].
  rewrite size_union by set_solver. rewrite size_singleton. lia.
Qed.

Lemma destroy_Worker_counted fd r :
  fd ∈ activeFds r -> counted r ->
  counted (destroy_Worker fd r) /\
  (forall fd', fd' ∈ activeFds (destroy_Worker fd r) <-> fd' <> fd /\ fd' ∈ activeFds r).
Proof.
  unfold counted, destroy_Worker. cbn. intros Hfd Hr.
  split; [|intros fd'; rewrite elem_of_difference, elem_of_singleton; tauto].
  rewrite size_difference by set_solver. rewrite size_singleton, Hr.
  assert (0 < size (activeFds r))%nat; [|lia].
  assert (size (activeFds r) <> 0%nat); [|lia]. intros H%size_empty_inv. by apply (H fd) in Hfd; apply not_elem_of_empty in Hfd.
Qed.

(** *** The invariant *)

(** What's said of the descriptors only looks at the registry and the
    connections *)
Definition fds_ok (r : Registry) (m : gmap nat (Z * phase)) : Prop :=
  (forall fd, fd ∈ activeFds r <-> registered_fd m fd) /\ counted r /\ distinct m.

Section fds_ok.
Context (r : Registry) (m : gmap nat (Z * phase)) (c : nat) (fd : Z).

Lemma fds_ok_same p0 p :
  fds_ok r m -> m !! c = Some (fd, p0) -> is_registered p0 = is_registered p ->
  fds_ok r (<[c := (fd, p)]> m).
Proof.
  intros (Hf & Hn & Hd) Hc Hp. split_and!; [|done|by eapply distinct_update].
  intros fd'. rewrite registered_update, Hf by done. case_decide as H; [subst|done].
  rewrite <- Hp. split; [|by intros; exists c, p0].
  intros (c' & p' & H' & Hp'). by assert (c' = c) as -> by (by eapply Hd); simplify_eq.
Qed.

Lemma fds_ok_accept :
  fds_ok r m -> m !! c = None -> (forall c' fd' p, m !! c' = Some (fd', p) -> fd' <> fd) ->
  fds_ok r (<[c := (fd, Accepted)]> m).
Proof.
  intros (Hf & Hn & Hd) Hc Hu. split_and!; [|done|by apply distinct_accept].
  intros fd'. by rewrite registered_accept.
Qed.

Lemma fds_ok_delete p0 :
  fds_ok r m -> m !! c = Some (fd, p0) -> is_registered p0 = false -> fds_ok r (delete c m).
Proof.
  intros (Hf & Hn & Hd) Hc Hp. split_and!; [|done|by apply distinct_delete].
  intros fd'. rewrite Hf. symmetry. by eapply registered_delete.
Qed.

Lemma fds_ok_register b r' :
  fds_ok r m -> m !! c = Some (fd, Accepted) -> registerWorker b fd r = Some r' ->
  b = false /\ fds_ok r' (<[c := (fd, Registered)]> m).
Proof.
  intros (Hf & Hn & Hd) Hc Hr. apply registerWorker_counted in Hr as (Hn' & -> & Hr); [|clear Hr|done].
  - split; [done|]. split_and!; [|done|by eapply distinct_update].
    intros fd'. rewrite Hr, Hf, registered_update by done. case_decide; [subst; intuition|intuition].
  - rewrite Hf. intros (c' & p' & H' & Hp'). assert (c' = c) as -> by (by eapply Hd). simplify_eq.
Qed.

Lemma fds_ok_unregister p0 :
  fds_ok r m -> m !! c = Some (fd, p0) -> is_registered p0 = true ->
  fds_ok (destroy_Worker fd r) (<[c := (fd, Unregistered)]> m).
Proof.
  intros (Hf & Hn & Hd) Hc Hp. destruct (destroy_Worker_counted fd r) as [Hn' Hr]; [|done|].
  - apply Hf. by exists c, p0.
  - split_and!; [|done|by eapply distinct_update].
    intros fd'. rewrite Hr, Hf, registered_update by done. case_decide; [subst; intuition; done|intuition].
Qed.
End fds_ok.

Lemma server_ok_fds s : server_ok s -> fds_ok (registry s) (conns s).
Proof. intros H. split_and!; [apply H|apply H|exact (ok_distinct s H)]. Qed.

(** A step of the loop or of a worker leaves [stop()] where it is *)
Lemma server_ok_conns s s' :
  server_ok s -> fds_ok (registry s') (conns s') ->
  stop_requested s' = stop_requested s -> stop_at s' = stop_at s -> shut s' = shut s ->
  (forall c fd p, conns s' !! c = Some (fd, p) -> p = Accepted \/ p = Registered -> loop_at s' = Holding c) ->
  (forall c fd p, conns s' !! c = Some (fd, p) -> is_registered p = true -> covered s c) ->
  (stop_at s = Draining \/ stop_at s = Stopped -> loop_at s' = LoopDone) ->
  (stop_at s = Stopped -> liveWorkers (registry s') = 0) ->
  server_ok s'.
Proof.
  intros H (Hf & Hn & Hd) Hr Hst Hsh Hh Hc Hj Hz. split; rewrite ?Hst, ?Hr; try done; [apply H|].
  unfold covered. rewrite Hst, Hsh. exact Hc.
Qed.

Lemma ok_not_joined s c fd p :
  server_ok s -> conns s !! c = Some (fd, p) -> p = Accepted \/ p = Registered ->
  ~ (stop_at s = Draining \/ stop_at s = Stopped).
Proof.
  intros H Hc Hp Hs. pose proof (ok_held s H _ _ _ Hc Hp) as Hl. by rewrite (ok_joined s H Hs) in Hl.
Qed.

Lemma ok_live_worker s c fd p :
  server_ok s -> conns s !! c = Some (fd, p) -> is_registered p = true -> stop_at s <> Stopped.
Proof.
  intros H Hc Hp Hs. pose proof (ok_stopped s H Hs) as Hz. rewrite (ok_live s H) in Hz.
  assert (fd ∈ activeFds (registry s)) as Hfd by (apply (ok_fds s H); by exists c, p).
  assert (size (activeFds (registry s)) = 0%nat) as Hsz%size_empty_inv by lia.
  by apply (Hsz fd) in Hfd; apply not_elem_of_empty in Hfd.
Qed.

Ltac conns_step H :=
  intros; cbn in *; conn_cases;
  repeat match goal with
  | Hp : _ = Accepted \/ _ = Registered |- _ => destruct Hp; simplify_eq
  end;
  try (match goal with
       | Hc : conns ?s !! _ = Some (_, _) |- loop_at _ = _ => pose proof (ok_held s H _ _ _ Hc ltac:(auto)); congruence
       | Hc : conns ?s !! _ = Some (_, _) |- Holding _ = _ => pose proof (ok_held s H _ _ _ Hc ltac:(auto)); congruence
       | Hc : conns ?s !! _ = Some (_, _) |- _ = Holding _ => pose proof (ok_held s H _ _ _ Hc ltac:(auto)); congruence
       end);
  eauto using ok_covered, ok_stopped, ok_joined; try done;
  try (by match goal with Hl : loop_at ?s = _ |- _ => rewrite (ok_joined s H) in Hl by auto end);
  try (exfalso; eapply ok_not_joined; by eauto);
  try (exfalso; eapply (ok_live_worker _ _ _ _ H); by eauto).

Ltac stop_step H :=
  cbn; try apply H; try done; try (intros _; apply (ok_requested _ H); congruence); try (by intros [?|?]).

Lemma covered_at s (H : server_ok s) c fd p :
  conns s !! c = Some (fd, p) -> is_registered p = true ->
  match stop_at s with
  | NotCalled | Requested => True
  | Shutting cs => c ∈ shut s \/ c ∈ cs
  | _ => c ∈ shut s
  end.
Proof. apply (ok_covered s H). Qed.

Lemma step_server_ok s s' : server_ok s -> step s s' -> server_ok s'.
Proof.
  intros H Hs. pose proof (server_ok_fds s H) as HF.
  destruct Hs as [s c fd Hl Hc Hu|s c fd Hl Hc|s c fd r Hl Hc Hr|s c fd Hl Hc Hr|s c fd Hl Hc
                 |s c fd Hl Hc|s c fd Hc|s c fd Hc|s Hl Hr|s Hst|s Hst|s c cs Hst|s Hst|s Hst Hl|s Hst Hn].
  - apply (server_ok_conns s); [done|by apply fds_ok_accept|done..| | | |]; conns_step H.
  - apply (server_ok_conns s); [done|by eapply fds_ok_delete|done..| | | |]; conns_step H.
  - destruct (fds_ok_register _ _ _ _ _ _ HF Hc Hr) as [Hb HF'].
    assert (stop_at s = NotCalled) as Hst.
    { destruct (stop_at s) eqn:Hst; [done|..]; rewrite (ok_requested s H) in Hb by (by rewrite Hst); done. }
    apply (server_ok_conns s); [done|done|done..| | | |]; conns_step H; try congruence.
    unfold covered. by rewrite Hst.
  - apply (server_ok_conns s); [done|by eapply fds_ok_delete|done..| | | |]; conns_step H.
  - apply (server_ok_conns s); [done|by eapply fds_ok_same|done..| | | |]; conns_step H.
  - apply (server_ok_conns s); [done|by eapply fds_ok_unregister|done..| | | |]; conns_step H.
  - apply (server_ok_conns s); [done|by eapply fds_ok_unregister|done..| | | |]; conns_step H.
  - apply (server_ok_conns s); [done|by eapply fds_ok_delete|done..| | | |]; conns_step H.
  - apply (server_ok_conns s); [done|done|done..| | | |]; conns_step H.
  - (* stop() *) split; stop_step H.
  - split; stop_step H. intros c fd p Hc Hp. right. apply elem_of_registered_conns. exists fd, p.
    split; [done|]. apply (ok_fds s H). by exists c, p.
  - split; stop_step H. intros c' fd p Hc Hp. apply (covered_at s H _ _ _ Hc) in Hp. rewrite Hst in Hp.
    unfold covered. cbn. rewrite elem_of_cons in Hp. rewrite elem_of_union, elem_of_singleton. tauto.
  - split; stop_step H. intros c fd p Hc Hp. apply (covered_at s H _ _ _ Hc) in Hp. rewrite Hst in Hp.
    by destruct Hp as [?|?%elem_of_nil].
  - split; stop_step H. intros c fd p Hc Hp. apply (covered_at s H _ _ _ Hc) in Hp. by rewrite Hst in Hp.
  - split; stop_step H.
    + intros c fd p Hc Hp. apply (covered_at s H _ _ _ Hc) in Hp. by rewrite Hst in Hp.
    + intros _. apply (ok_joined s H). by left.
Qed.

Lemma server_reachable_ok s : reachable s -> server_ok s.
Proof.
  intros Hr. apply (rtc_ind_r server_ok) with (x := new_server) in Hr; [done|apply new_server_ok|].
  intros a b _ Hs Ha. by eapply step_server_ok.
Qed.

Lemma stopped_steps s s' : rtc step s s' -> stop_at s = Stopped -> stop_at s' = Stopped.
Proof. induction 1 as [|a b c Hs _ IH]; [done|]. intros Ha. apply IH. by destruct Hs; cbn; try congruence. Qed.

Lemma reachable_step s s' : reachable s -> step s s' -> reachable s'.
Proof. intros Hr Hs. eapply rtc_r; eauto. Qed.

(** A run in which a connection is served while the server is stopped *)
Definition serving_server : server :=
  {| registry := {| activeFds := {[ 7 ]} ∪ ∅; liveWorkers := 0 + 1 |}; stop_requested := false;
     loop_at := Waiting; stop_at := NotCalled;
     conns := <[0%nat := (7, Serving)]> (<[0%nat := (7, Registered)]> (<[0%nat := (7, Accepted)]> ∅)); shut := ∅ |}.

Lemma serving_server_reachable : reachable serving_server.
Proof.
  eapply rtc_l; [apply (step_accept new_server 0 7); [done|done|by intros c' fd' p Hc; cbn in Hc; rewrite lookup_empty in Hc]|].
  eapply rtc_l; [eapply (step_register _ 0 7); [done|by cbn; rewrite lookup_insert_eq|done]|].
  eapply rtc_l; [eapply (step_spawn _ 0 7); [done|by cbn; rewrite lookup_insert_eq]|]. apply rtc_refl.
Qed.

Definition draining_server : server :=
  serving_server <| stop_requested := true |> <| shut := {[ 0%nat ]} ∪ ∅ |> <| loop_at := LoopDone |>
    <| stop_at := Draining |>.

Lemma draining_server_reachable : reachable draining_server.
Proof.
  unfold reachable. etransitivity; [exact serving_server_reachable|].
  eapply rtc_l; [by apply step_request|]. eapply rtc_l; [by apply step_collect|].
  assert (registered_conns (serving_server <| stop_requested := true |> <| stop_at := Requested |>) = [0%nat]) as -> by
    (vm_compute; reflexivity).
  eapply rtc_l; [by apply step_shut|]. eapply rtc_l; [by apply step_all_shut|].
  eapply rtc_l; [by apply step_loop_done|]. eapply rtc_l; [by apply step_join|]. apply rtc_refl.
Qed.

Definition stopped_server : server :=
  draining_server <| registry := destroy_Worker 7 (registry serving_server) |>
    <| conns := <[0%nat := (7, Unregistered)]> (conns serving_server) |> <| stop_at := Stopped |>.

Lemma stopped_server_reachable : reachable stopped_server.
Proof.
  unfold reachable. etransitivity; [exact draining_server_reachable|].
  eapply rtc_l; [apply (step_unregister draining_server 0 7); by cbn; rewrite lookup_insert_eq|].
  eapply rtc_l; [by apply step_stopped|]. apply rtc_refl.
Qed.

(** ** Properties *)

(** C26: [stop()] returns with no thread left that touches the server: once
    it has returned, and ever after, the accept loop is over, no descriptor
    is registered, the count is zero, and a connection that's still open is
    only about to be closed. *)
Theorem stop_leaves_no_worker (s s' : server) (Hr : reachable s) (Hst : stop_at s = Stopped)
    (Hs : rtc step s s') :
  loop_at s' = LoopDone /\ activeFds (registry s') = ∅ /\ liveWorkers (registry s') = 0 /\
  forall c fd p, conns s' !! c = Some (fd, p) -> p = Unregistered.
Proof.
  assert (server_ok s') as H by (apply server_reachable_ok; unfold reachable in *; by etransitivity).
  apply stopped_steps in Hs; [|done]. pose proof (ok_stopped s' H Hs) as Hz.
  assert (loop_at s' = LoopDone) as Hl by (apply (ok_joined s' H); by right).
  assert (activeFds (registry s') = ∅) as He.
  { pose proof (ok_live s' H). assert (size (activeFds (registry s')) = 0%nat) as Hsz%size_empty_inv by lia.
    by apply leibniz_equiv. }
  split_and!; [done|done|done|]. intros c fd p Hc. destruct p; [| | |done].
  - by rewrite (ok_held s' H _ _ _ Hc (or_introl eq_refl)) in Hl.
  - by rewrite (ok_held s' H _ _ _ Hc (or_intror eq_refl)) in Hl.
  - exfalso. by apply (ok_live_worker s' c fd Serving H Hc eq_refl).
Qed.

Lemma stop_leaves_no_worker_witness :
  reachable stopped_server /\ activeFds (registry stopped_server) = ∅ /\
  conns stopped_server !! 0%nat = Some (7, Unregistered).
Proof.
  split; [exact stopped_server_reachable|]. split; [|cbn; apply lookup_insert_eq].
  apply (stop_leaves_no_worker stopped_server stopped_server stopped_server_reachable eq_refl (rtc_refl _ _)).
Defined.

(** [stop()] doesn't wait for a worker that it hasn't woken: when it
    joins the loop, and when it waits for the workers, it has shut down the
    connection of every worker that's registered, no more can register, and
    while it has to wait there's a worker whose next call returns at once. *)
Theorem waiting_stop_has_woken_all (s : server) (Hr : reachable s)
    (Hst : stop_at s = Joining \/ stop_at s = Draining) :
  stop_requested s = true /\
  (forall fd, registerWorker (stop_requested s) fd (registry s) = None) /\
  (forall c fd p, conns s !! c = Some (fd, p) -> is_registered p = true -> c ∈ shut s) /\
  (stop_at s = Draining -> liveWorkers (registry s) <> 0 ->
     exists c fd, conns s !! c = Some (fd, Serving) /\ c ∈ shut s).
Proof.
  pose proof (server_reachable_ok s Hr) as H.
  assert (stop_requested s = true) as Hq by (apply (ok_requested s H); destruct Hst; congruence).
  assert (forall c fd p, conns s !! c = Some (fd, p) -> is_registered p = true -> c ∈ shut s) as Hc.
  { intros c fd p Hc Hp. apply (covered_at s H _ _ _ Hc) in Hp. by destruct Hst as [Hx|Hx]; rewrite Hx in Hp. }
  split_and!; [done|by intros fd; rewrite Hq|done|]. intros Hd Hz. rewrite (ok_live s H) in Hz.
  destruct (set_choose_or_empty (activeFds (registry s))) as [[fd Hfd]|He].
  - apply (ok_fds s H) in Hfd as (c & p & Hcp & Hp). exists c, fd. split; [|by eapply Hc].
    destruct p; try done. exfalso. eapply ok_not_joined; [exact H|exact Hcp|by right|by left].
  - apply leibniz_equiv in He. by rewrite He, size_empty in Hz.
Qed.

Lemma waiting_stop_has_woken_all_witness :
  reachable draining_server /\ exists c fd, conns draining_server !! c = Some (fd, Serving) /\ c ∈ shut draining_server.
Proof.
  split; [exact draining_server_reachable|].
  apply (waiting_stop_has_woken_all draining_server draining_server_reachable (or_intror eq_refl)); [reflexivity|discriminate].
Defined.

(** A registered descriptor is always the open connection of one worker
    that's alive, and the count is their number: no step closes a descriptor
    while it's registered, so [stop()] never shuts down one that's been
    reused for another connection. *)
Theorem registry_is_exact (s : server) (Hr : reachable s) :
  liveWorkers (registry s) = Z.of_nat (size (activeFds (registry s))) /\
  (forall fd, fd ∈ activeFds (registry s) ->
     exists c p, conns s !! c = Some (fd, p) /\ is_registered p = true /\
       forall c' p', conns s !! c' = Some (fd, p') -> c' = c) /\
  (forall s' c fd p, step s s' -> conns s !! c = Some (fd, p) -> conns s' !! c = None ->
     fd ∉ activeFds (registry s)).
Proof.
  pose proof (server_reachable_ok s Hr) as H. split_and!; [apply (ok_live s H)| |].
  - intros fd (c & p & Hc & Hp)%(ok_fds s H). exists c, p. split_and!; [done|done|].
    intros c' p' Hc'. by eapply (ok_distinct s H).
  - intros s' c fd p Hs Hc Hn (c' & p' & Hc' & Hp')%(ok_fds s H).
    assert (c' = c) as -> by (by eapply (ok_distinct s H)). rewrite Hc in Hc'. injection Hc' as ->.
    destruct Hs; cbn in Hn; try congruence;
      first [apply lookup_insert_None in Hn as [Hn ?]; congruence
            |apply lookup_delete_None in Hn as [->|Hn]; [|congruence];
             match goal with H1 : conns _ !! ?k = Some (_, ?q) |- _ => rewrite Hc in H1; injection H1 as -> ->; discriminate end].
Qed.

Lemma registry_is_exact_witness : reachable serving_server /\
  exists c p, conns serving_server !! c = Some (7, p) /\ is_registered p = true.
Proof.
  split; [exact serving_server_reachable|].
  destruct (proj1 (proj2 (registry_is_exact serving_server serving_server_reachable)) 7) as (c & p & H1 & H2 & _).
  - cbn. apply elem_of_union. left. apply elem_of_singleton. reflexivity.
  - exists c, p. split; [exact H1|exact H2].
Defined.
