(* ===== verification/IbvCore.v ===== *)
(** * The libibverbs ABI ([src/common/ibv-core.h])

    The enumerations and structures the library builds or reads.  An
    enumeration whose values are or'ed together is a group of constants; the
    others are inductive types with the value of each enumerator.  Integer
    fields are numbers of the width the header gives them; a pointer is its
    address.  Mutexes, condition variables, and the pointers to structures
    that the library neither builds nor reads are left out. *)

From stdpp Require Import base numbers list.
From S2P Require Import Prelude.
From S2P Require Import Gid.

(** ** Constants *)

(** [ibv_access_flags] *)
Definition IBV_ACCESS_LOCAL_WRITE : Z := 1.
Definition IBV_ACCESS_REMOTE_WRITE : Z := 2.
Definition IBV_ACCESS_REMOTE_READ : Z := 4.
Definition IBV_ACCESS_REMOTE_ATOMIC : Z := 8.
Definition IBV_ACCESS_MW_BIND : Z := 16.
Definition IBV_ACCESS_ZERO_BASED : Z := 32.
Definition IBV_ACCESS_ON_DEMAND : Z := 64.
Definition IBV_ACCESS_HUGETLB : Z := 128.
Definition IBV_ACCESS_FLUSH_GLOBAL : Z := 256.
Definition IBV_ACCESS_FLUSH_PERSISTENT : Z := 512.
Definition IBV_ACCESS_RELAXED_ORDERING : Z := 1048576.

(** [ibv_wc_flags] *)
Definition IBV_WC_GRH : Z := 1.
Definition IBV_WC_WITH_IMM : Z := 2.
Definition IBV_WC_IP_CSUM_OK : Z := 4.
Definition IBV_WC_WITH_INV : Z := 8.
Definition IBV_WC_TM_SYNC_REQ : Z := 16.
Definition IBV_WC_TM_MATCH : Z := 32.
Definition IBV_WC_TM_DATA_VALID : Z := 64.

(** [ibv_qp_attr_mask] *)
Definition IBV_QP_STATE : Z := 1.
Definition IBV_QP_CUR_STATE : Z := 2.
Definition IBV_QP_EN_SQD_ASYNC_NOTIFY : Z := 4.
Definition IBV_QP_ACCESS_FLAGS : Z := 8.
Definition IBV_QP_PKEY_INDEX : Z := 16.
Definition IBV_QP_PORT : Z := 32.
Definition IBV_QP_QKEY : Z := 64.
Definition IBV_QP_AV : Z := 128.
Definition IBV_QP_PATH_MTU : Z := 256.
Definition IBV_QP_TIMEOUT : Z := 512.
Definition IBV_QP_RETRY_CNT : Z := 1024.
Definition IBV_QP_RNR_RETRY : Z := 2048.
Definition IBV_QP_RQ_PSN : Z := 4096.
Definition IBV_QP_MAX_QP_RD_ATOMIC : Z := 8192.
Definition IBV_QP_ALT_PATH : Z := 16384.
Definition IBV_QP_MIN_RNR_TIMER : Z := 32768.
Definition IBV_QP_SQ_PSN : Z := 65536.
Definition IBV_QP_MAX_DEST_RD_ATOMIC : Z := 131072.
Definition IBV_QP_PATH_MIG_STATE : Z := 262144.
Definition IBV_QP_CAP : Z := 524288.
Definition IBV_QP_DEST_QPN : Z := 1048576.
Definition IBV_QP_RATE_LIMIT : Z := 33554432.

(** [ibv_send_flags] *)
Definition IBV_SEND_FENCE : Z := 1.
Definition IBV_SEND_SIGNALED : Z := 2.
Definition IBV_SEND_SOLICITED : Z := 4.
Definition IBV_SEND_INLINE : Z := 8.

(** The link layers of [ibv_port_attr] *)
Definition IBV_LINK_LAYER_UNSPECIFIED : Z := 0.
Definition IBV_LINK_LAYER_INFINIBAND : Z := 1.
Definition IBV_LINK_LAYER_ETHERNET : Z := 2.

(** ** Enumerations *)

(** The type of a GID table entry *)
Inductive ibv_gid_type :=
  | IBV_GID_TYPE_IB | IBV_GID_TYPE_ROCE_V1 | IBV_GID_TYPE_ROCE_V2.

#[export] Instance ibv_gid_type_eq_dec : EqDecision ibv_gid_type.
Proof. solve_decision. Defined.

(** The value of an enumerator, as [static_cast<int>] gives it *)
Definition ibv_gid_type_value (e : ibv_gid_type) : Z :=
  match e with
  | IBV_GID_TYPE_IB => 0 | IBV_GID_TYPE_ROCE_V1 => 1 | IBV_GID_TYPE_ROCE_V2 => 2
  end.

(** What a device is *)
Inductive ibv_node_type :=
  | IBV_NODE_UNKNOWN | IBV_NODE_CA | IBV_NODE_SWITCH | IBV_NODE_ROUTER | IBV_NODE_RNIC
  | IBV_NODE_USNIC | IBV_NODE_USNIC_UDP | IBV_NODE_UNSPECIFIED.

#[export] Instance ibv_node_type_eq_dec : EqDecision ibv_node_type.
Proof. solve_decision. Defined.

(** The value of an enumerator, as [static_cast<int>] gives it *)
Definition ibv_node_type_value (e : ibv_node_type) : Z :=
  match e with
  | IBV_NODE_UNKNOWN => (-1) | IBV_NODE_CA => 1 | IBV_NODE_SWITCH => 2 | IBV_NODE_ROUTER => 3
  | IBV_NODE_RNIC => 4 | IBV_NODE_USNIC => 5 | IBV_NODE_USNIC_UDP => 6
  | IBV_NODE_UNSPECIFIED => 7
  end.

(** What a device transports *)
Inductive ibv_transport_type :=
  | IBV_TRANSPORT_UNKNOWN | IBV_TRANSPORT_IB | IBV_TRANSPORT_IWARP | IBV_TRANSPORT_USNIC
  | IBV_TRANSPORT_USNIC_UDP | IBV_TRANSPORT_UNSPECIFIED.

#[export] Instance ibv_transport_type_eq_dec : EqDecision ibv_transport_type.
Proof. solve_decision. Defined.

(** The value of an enumerator, as [static_cast<int>] gives it *)
Definition ibv_transport_type_value (e : ibv_transport_type) : Z :=
  match e with
  | IBV_TRANSPORT_UNKNOWN => (-1) | IBV_TRANSPORT_IB => 0 | IBV_TRANSPORT_IWARP => 1
  | IBV_TRANSPORT_USNIC => 2 | IBV_TRANSPORT_USNIC_UDP => 3 | IBV_TRANSPORT_UNSPECIFIED => 4
  end.

(** The atomics a device has *)
Inductive ibv_atomic_cap :=
  | IBV_ATOMIC_NONE | IBV_ATOMIC_HCA | IBV_ATOMIC_GLOB.

#[export] Instance ibv_atomic_cap_eq_dec : EqDecision ibv_atomic_cap.
Proof. solve_decision. Defined.

(** The value of an enumerator, as [static_cast<int>] gives it *)
Definition ibv_atomic_cap_value (e : ibv_atomic_cap) : Z :=
  match e with
  | IBV_ATOMIC_NONE => 0 | IBV_ATOMIC_HCA => 1 | IBV_ATOMIC_GLOB => 2
  end.

(** MTUs *)
Inductive ibv_mtu :=
  | IBV_MTU_256 | IBV_MTU_512 | IBV_MTU_1024 | IBV_MTU_2048 | IBV_MTU_4096.

#[export] Instance ibv_mtu_eq_dec : EqDecision ibv_mtu.
Proof. solve_decision. Defined.

(** The value of an enumerator, as [static_cast<int>] gives it *)
Definition ibv_mtu_value (e : ibv_mtu) : Z :=
  match e with
  | IBV_MTU_256 => 1 | IBV_MTU_512 => 2 | IBV_MTU_1024 => 3 | IBV_MTU_2048 => 4
  | IBV_MTU_4096 => 5
  end.

(** Port states *)
Inductive ibv_port_state :=
  | IBV_PORT_NOP | IBV_PORT_DOWN | IBV_PORT_INIT | IBV_PORT_ARMED | IBV_PORT_ACTIVE
  | IBV_PORT_ACTIVE_DEFER.

#[export] Instance ibv_port_state_eq_dec : EqDecision ibv_port_state.
Proof. solve_decision. Defined.

(** The value of an enumerator, as [static_cast<int>] gives it *)
Definition ibv_port_state_value (e : ibv_port_state) : Z :=
  match e with
  | IBV_PORT_NOP => 0 | IBV_PORT_DOWN => 1 | IBV_PORT_INIT => 2 | IBV_PORT_ARMED => 3
  | IBV_PORT_ACTIVE => 4 | IBV_PORT_ACTIVE_DEFER => 5
  end.

(** What completed *)
Inductive ibv_wc_opcode :=
  | IBV_WC_SEND | IBV_WC_RDMA_WRITE | IBV_WC_RDMA_READ | IBV_WC_COMP_SWAP | IBV_WC_FETCH_ADD
  | IBV_WC_BIND_MW | IBV_WC_LOCAL_INV | IBV_WC_TSO | IBV_WC_FLUSH | IBV_WC_ATOMIC_WRITE
  | IBV_WC_RECV | IBV_WC_RECV_RDMA_WITH_IMM.

#[export] Instance ibv_wc_opcode_eq_dec : EqDecision ibv_wc_opcode.
Proof. solve_decision. Defined.

(** The value of an enumerator, as [static_cast<int>] gives it *)
Definition ibv_wc_opcode_value (e : ibv_wc_opcode) : Z :=
  match e with
  | IBV_WC_SEND => 0 | IBV_WC_RDMA_WRITE => 1 | IBV_WC_RDMA_READ => 2 | IBV_WC_COMP_SWAP => 3
  | IBV_WC_FETCH_ADD => 4 | IBV_WC_BIND_MW => 5 | IBV_WC_LOCAL_INV => 6 | IBV_WC_TSO => 7
  | IBV_WC_FLUSH => 8 | IBV_WC_ATOMIC_WRITE => 9 | IBV_WC_RECV => 128
  | IBV_WC_RECV_RDMA_WITH_IMM => 129
  end.

(** How it completed *)
Inductive ibv_wc_status :=
  | IBV_WC_SUCCESS | IBV_WC_LOC_LEN_ERR | IBV_WC_LOC_QP_OP_ERR | IBV_WC_LOC_EEC_OP_ERR
  | IBV_WC_LOC_PROT_ERR | IBV_WC_WR_FLUSH_ERR | IBV_WC_MW_BIND_ERR | IBV_WC_BAD_RESP_ERR
  | IBV_WC_LOC_ACCESS_ERR | IBV_WC_REM_INV_REQ_ERR | IBV_WC_REM_ACCESS_ERR | IBV_WC_REM_OP_ERR
  | IBV_WC_RETRY_EXC_ERR | IBV_WC_RNR_RETRY_EXC_ERR | IBV_WC_LOC_RDD_VIOL_ERR
  | IBV_WC_REM_INV_RD_REQ_ERR | IBV_WC_REM_ABORT_ERR | IBV_WC_INV_EECN_ERR
  | IBV_WC_INV_EEC_STATE_ERR | IBV_WC_FATAL_ERR | IBV_WC_RESP_TIMEOUT_ERR | IBV_WC_GENERAL_ERR
  | IBV_WC_TM_ERR | IBV_WC_TM_RNDV_INCOMPLETE.

#[export] Instance ibv_wc_status_eq_dec : EqDecision ibv_wc_status.
Proof. solve_decision. Defined.

(** The value of an enumerator, as [static_cast<int>] gives it *)
Definition ibv_wc_status_value (e : ibv_wc_status) : Z :=
  match e with
  | IBV_WC_SUCCESS => 0 | IBV_WC_LOC_LEN_ERR => 1 | IBV_WC_LOC_QP_OP_ERR => 2
  | IBV_WC_LOC_EEC_OP_ERR => 3 | IBV_WC_LOC_PROT_ERR => 4 | IBV_WC_WR_FLUSH_ERR => 5
  | IBV_WC_MW_BIND_ERR => 6 | IBV_WC_BAD_RESP_ERR => 7 | IBV_WC_LOC_ACCESS_ERR => 8
  | IBV_WC_REM_INV_REQ_ERR => 9 | IBV_WC_REM_ACCESS_ERR => 10 | IBV_WC_REM_OP_ERR => 11
  | IBV_WC_RETRY_EXC_ERR => 12 | IBV_WC_RNR_RETRY_EXC_ERR => 13 | IBV_WC_LOC_RDD_VIOL_ERR => 14
  | IBV_WC_REM_INV_RD_REQ_ERR => 15 | IBV_WC_REM_ABORT_ERR => 16 | IBV_WC_INV_EECN_ERR => 17
  | IBV_WC_INV_EEC_STATE_ERR => 18 | IBV_WC_FATAL_ERR => 19 | IBV_WC_RESP_TIMEOUT_ERR => 20
  | IBV_WC_GENERAL_ERR => 21 | IBV_WC_TM_ERR => 22 | IBV_WC_TM_RNDV_INCOMPLETE => 23
  end.

(** QP types *)
Inductive ibv_qp_type :=
  | IBV_QPT_RC | IBV_QPT_UC | IBV_QPT_UD | IBV_QPT_RAW_PACKET | IBV_QPT_XRC_SEND
  | IBV_QPT_XRC_RECV | IBV_QPT_DRIVER.

#[export] Instance ibv_qp_type_eq_dec : EqDecision ibv_qp_type.
Proof. solve_decision. Defined.

(** The value of an enumerator, as [static_cast<int>] gives it *)
Definition ibv_qp_type_value (e : ibv_qp_type) : Z :=
  match e with
  | IBV_QPT_RC => 2 | IBV_QPT_UC => 3 | IBV_QPT_UD => 4 | IBV_QPT_RAW_PACKET => 8
  | IBV_QPT_XRC_SEND => 9 | IBV_QPT_XRC_RECV => 10 | IBV_QPT_DRIVER => 255
  end.

(** QP states *)
Inductive ibv_qp_state :=
  | IBV_QPS_RESET | IBV_QPS_INIT | IBV_QPS_RTR | IBV_QPS_RTS | IBV_QPS_SQD | IBV_QPS_SQE
  | IBV_QPS_ERR | IBV_QPS_UNKNOWN.

#[export] Instance ibv_qp_state_eq_dec : EqDecision ibv_qp_state.
Proof. solve_decision. Defined.

(** The value of an enumerator, as [static_cast<int>] gives it *)
Definition ibv_qp_state_value (e : ibv_qp_state) : Z :=
  match e with
  | IBV_QPS_RESET => 0 | IBV_QPS_INIT => 1 | IBV_QPS_RTR => 2 | IBV_QPS_RTS => 3
  | IBV_QPS_SQD => 4 | IBV_QPS_SQE => 5 | IBV_QPS_ERR => 6 | IBV_QPS_UNKNOWN => 7
  end.

(** Path migration states *)
Inductive ibv_mig_state :=
  | IBV_MIG_MIGRATED | IBV_MIG_REARM | IBV_MIG_ARMED.

#[export] Instance ibv_mig_state_eq_dec : EqDecision ibv_mig_state.
Proof. solve_decision. Defined.

(** The value of an enumerator, as [static_cast<int>] gives it *)
Definition ibv_mig_state_value (e : ibv_mig_state) : Z :=
  match e with
  | IBV_MIG_MIGRATED => 0 | IBV_MIG_REARM => 1 | IBV_MIG_ARMED => 2
  end.

(** Work requests *)
Inductive ibv_wr_opcode :=
  | IBV_WR_RDMA_WRITE | IBV_WR_RDMA_WRITE_WITH_IMM | IBV_WR_SEND | IBV_WR_SEND_WITH_IMM
  | IBV_WR_RDMA_READ | IBV_WR_ATOMIC_CMP_AND_SWP | IBV_WR_ATOMIC_FETCH_AND_ADD
  | IBV_WR_LOCAL_INV | IBV_WR_BIND_MW | IBV_WR_SEND_WITH_INV | IBV_WR_TSO | IBV_WR_DRIVER1
  | IBV_WR_FLUSH | IBV_WR_ATOMIC_WRITE.

#[export] Instance ibv_wr_opcode_eq_dec : EqDecision ibv_wr_opcode.
Proof. solve_decision. Defined.

(** The value of an enumerator, as [static_cast<int>] gives it *)
Definition ibv_wr_opcode_value (e : ibv_wr_opcode) : Z :=
  match e with
  | IBV_WR_RDMA_WRITE => 0 | IBV_WR_RDMA_WRITE_WITH_IMM => 1 | IBV_WR_SEND => 2
  | IBV_WR_SEND_WITH_IMM => 3 | IBV_WR_RDMA_READ => 4 | IBV_WR_ATOMIC_CMP_AND_SWP => 5
  | IBV_WR_ATOMIC_FETCH_AND_ADD => 6 | IBV_WR_LOCAL_INV => 7 | IBV_WR_BIND_MW => 8
  | IBV_WR_SEND_WITH_INV => 9 | IBV_WR_TSO => 10 | IBV_WR_DRIVER1 => 11 | IBV_WR_FLUSH => 14
  | IBV_WR_ATOMIC_WRITE => 15
  end.

(** ** Structures *)

(** [struct ibv_device_attr]; [fw_ver] is its characters *)
Record ibv_device_attr := {
  fw_ver : chars;
  node_guid : Z;
  sys_image_guid : Z;
  max_mr_size : Z;
  page_size_cap : Z;
  vendor_id : Z;
  vendor_part_id : Z;
  hw_ver : Z;
  max_qp : Z;
  max_qp_wr : Z;
  device_cap_flags : Z;
  max_sge : Z;
  max_sge_rd : Z;
  max_cq : Z;
  max_cqe : Z;
  max_mr : Z;
  max_pd : Z;
  max_qp_rd_atom : Z;
  max_ee_rd_atom : Z;
  max_res_rd_atom : Z;
  max_qp_init_rd_atom : Z;
  max_ee_init_rd_atom : Z;
  atomic_cap : ibv_atomic_cap;
  max_ee : Z;
  max_rdd : Z;
  max_mw : Z;
  max_raw_ipv6_qp : Z;
  max_raw_ethy_qp : Z;
  max_mcast_grp : Z;
  max_mcast_qp_attach : Z;
  max_total_mcast_qp_attach : Z;
  max_ah : Z;
  max_fmr : Z;
  max_map_per_fmr : Z;
  max_srq : Z;
  max_srq_wr : Z;
  max_srq_sge : Z;
  max_pkeys : Z;
  local_ca_ack_delay : Z;
  phys_port_cnt : Z;
}.

#[export] Instance eta_ibv_device_attr : Eta ibv_device_attr := fun r =>
  {| fw_ver := fw_ver r; node_guid := node_guid r; sys_image_guid := sys_image_guid r;
     max_mr_size := max_mr_size r; page_size_cap := page_size_cap r; vendor_id := vendor_id r;
     vendor_part_id := vendor_part_id r; hw_ver := hw_ver r; max_qp := max_qp r;
     max_qp_wr := max_qp_wr r; device_cap_flags := device_cap_flags r; max_sge := max_sge r;
     max_sge_rd := max_sge_rd r; max_cq := max_cq r; max_cqe := max_cqe r; max_mr := max_mr r;
     max_pd := max_pd r; max_qp_rd_atom := max_qp_rd_atom r;
     max_ee_rd_atom := max_ee_rd_atom r; max_res_rd_atom := max_res_rd_atom r;
     max_qp_init_rd_atom := max_qp_init_rd_atom r;
     max_ee_init_rd_atom := max_ee_init_rd_atom r; atomic_cap := atomic_cap r;
     max_ee := max_ee r; max_rdd := max_rdd r; max_mw := max_mw r;
     max_raw_ipv6_qp := max_raw_ipv6_qp r; max_raw_ethy_qp := max_raw_ethy_qp r;
     max_mcast_grp := max_mcast_grp r; max_mcast_qp_attach := max_mcast_qp_attach r;
     max_total_mcast_qp_attach := max_total_mcast_qp_attach r; max_ah := max_ah r;
     max_fmr := max_fmr r; max_map_per_fmr := max_map_per_fmr r; max_srq := max_srq r;
     max_srq_wr := max_srq_wr r; max_srq_sge := max_srq_sge r; max_pkeys := max_pkeys r;
     local_ca_ack_delay := local_ca_ack_delay r; phys_port_cnt := phys_port_cnt r |}.

(** [struct ibv_port_attr] *)
Record ibv_port_attr := {
  port_state : ibv_port_state;
  max_mtu : ibv_mtu;
  active_mtu : ibv_mtu;
  gid_tbl_len : Z;
  port_cap_flags : Z;
  max_msg_sz : Z;
  bad_pkey_cntr : Z;
  qkey_viol_cntr : Z;
  pkey_tbl_len : Z;
  port_lid : Z;
  sm_lid : Z;
  lmc : Z;
  max_vl_num : Z;
  sm_sl : Z;
  subnet_timeout : Z;
  init_type_reply : Z;
  active_width : Z;
  active_speed : Z;
  phys_state : Z;
  link_layer : Z;
  port_flags : Z;
  port_cap_flags2 : Z;
  active_speed_ex : Z;
}.

#[export] Instance eta_ibv_port_attr : Eta ibv_port_attr := fun r =>
  {| port_state := port_state r; max_mtu := max_mtu r; active_mtu := active_mtu r;
     gid_tbl_len := gid_tbl_len r; port_cap_flags := port_cap_flags r;
     max_msg_sz := max_msg_sz r; bad_pkey_cntr := bad_pkey_cntr r;
     qkey_viol_cntr := qkey_viol_cntr r; pkey_tbl_len := pkey_tbl_len r;
     port_lid := port_lid r; sm_lid := sm_lid r; lmc := lmc r; max_vl_num := max_vl_num r;
     sm_sl := sm_sl r; subnet_timeout := subnet_timeout r;
     init_type_reply := init_type_reply r; active_width := active_width r;
     active_speed := active_speed r; phys_state := phys_state r; link_layer := link_layer r;
     port_flags := port_flags r; port_cap_flags2 := port_cap_flags2 r;
     active_speed_ex := active_speed_ex r |}.

(** [struct ibv_wc]; [wc_imm_data] is the union of [imm_data] and
    [invalidated_rkey] *)
Record ibv_wc := {
  wc_wr_id : Z;
  wc_status : ibv_wc_status;
  wc_opcode : ibv_wc_opcode;
  vendor_err : Z;
  byte_len : Z;
  wc_imm_data : Z;
  wc_qp_num : Z;
  src_qp : Z;
  wc_flags : Z;
  wc_pkey_index : Z;
  slid : Z;
  wc_sl : Z;
  dlid_path_bits : Z;
}.

#[export] Instance eta_ibv_wc : Eta ibv_wc := fun r =>
  {| wc_wr_id := wc_wr_id r; wc_status := wc_status r; wc_opcode := wc_opcode r;
     vendor_err := vendor_err r; byte_len := byte_len r; wc_imm_data := wc_imm_data r;
     wc_qp_num := wc_qp_num r; src_qp := src_qp r; wc_flags := wc_flags r;
     wc_pkey_index := wc_pkey_index r; slid := slid r; wc_sl := wc_sl r;
     dlid_path_bits := dlid_path_bits r |}.

(** [struct ibv_global_route] *)
Record ibv_global_route := {
  dgid : ibv_gid;
  flow_label : Z;
  sgid_index : Z;
  hop_limit : Z;
  traffic_class : Z;
}.

#[export] Instance eta_ibv_global_route : Eta ibv_global_route := fun r =>
  {| dgid := dgid r; flow_label := flow_label r; sgid_index := sgid_index r;
     hop_limit := hop_limit r; traffic_class := traffic_class r |}.

(** [struct ibv_ah_attr] *)
Record ibv_ah_attr := {
  grh : ibv_global_route;
  dlid : Z;
  ah_sl : Z;
  src_path_bits : Z;
  static_rate : Z;
  is_global : Z;
  ah_port_num : Z;
}.

#[export] Instance eta_ibv_ah_attr : Eta ibv_ah_attr := fun r =>
  {| grh := grh r; dlid := dlid r; ah_sl := ah_sl r; src_path_bits := src_path_bits r;
     static_rate := static_rate r; is_global := is_global r; ah_port_num := ah_port_num r |}.

(** [struct ibv_qp_cap] *)
Record ibv_qp_cap := {
  max_send_wr : Z;
  max_recv_wr : Z;
  max_send_sge : Z;
  max_recv_sge : Z;
  max_inline_data : Z;
}.

#[export] Instance eta_ibv_qp_cap : Eta ibv_qp_cap := fun r =>
  {| max_send_wr := max_send_wr r; max_recv_wr := max_recv_wr r;
     max_send_sge := max_send_sge r; max_recv_sge := max_recv_sge r;
     max_inline_data := max_inline_data r |}.

(** [struct ibv_qp_init_attr] *)
Record ibv_qp_init_attr := {
  qp_context : Z;
  send_cq : Z;
  recv_cq : Z;
  srq : Z;
  init_cap : ibv_qp_cap;
  qp_type : ibv_qp_type;
  sq_sig_all : Z;
}.

#[export] Instance eta_ibv_qp_init_attr : Eta ibv_qp_init_attr := fun r =>
  {| qp_context := qp_context r; send_cq := send_cq r; recv_cq := recv_cq r; srq := srq r;
     init_cap := init_cap r; qp_type := qp_type r; sq_sig_all := sq_sig_all r |}.

(** [struct ibv_qp_attr] *)
Record ibv_qp_attr := {
  qp_state : ibv_qp_state;
  cur_qp_state : ibv_qp_state;
  path_mtu : option ibv_mtu;
  path_mig_state : ibv_mig_state;
  qkey : Z;
  rq_psn : Z;
  sq_psn : Z;
  dest_qp_num : Z;
  qp_access_flags : Z;
  attr_cap : ibv_qp_cap;
  ah_attr : ibv_ah_attr;
  alt_ah_attr : ibv_ah_attr;
  pkey_index : Z;
  alt_pkey_index : Z;
  en_sqd_async_notify : Z;
  sq_draining : Z;
  max_rd_atomic : Z;
  max_dest_rd_atomic : Z;
  min_rnr_timer : Z;
  port_num : Z;
  timeout : Z;
  retry_cnt : Z;
  rnr_retry : Z;
  alt_port_num : Z;
  alt_timeout : Z;
  rate_limit : Z;
}.

#[export] Instance eta_ibv_qp_attr : Eta ibv_qp_attr := fun r =>
  {| qp_state := qp_state r; cur_qp_state := cur_qp_state r; path_mtu := path_mtu r;
     path_mig_state := path_mig_state r; qkey := qkey r; rq_psn := rq_psn r;
     sq_psn := sq_psn r; dest_qp_num := dest_qp_num r; qp_access_flags := qp_access_flags r;
     attr_cap := attr_cap r; ah_attr := ah_attr r; alt_ah_attr := alt_ah_attr r;
     pkey_index := pkey_index r; alt_pkey_index := alt_pkey_index r;
     en_sqd_async_notify := en_sqd_async_notify r; sq_draining := sq_draining r;
     max_rd_atomic := max_rd_atomic r; max_dest_rd_atomic := max_dest_rd_atomic r;
     min_rnr_timer := min_rnr_timer r; port_num := port_num r; timeout := timeout r;
     retry_cnt := retry_cnt r; rnr_retry := rnr_retry r; alt_port_num := alt_port_num r;
     alt_timeout := alt_timeout r; rate_limit := rate_limit r |}.

(** [struct ibv_sge] *)
Record ibv_sge := {
  sge_addr : Z;
  sge_length : Z;
  lkey : Z;
}.

#[export] Instance eta_ibv_sge : Eta ibv_sge := fun r =>
  {| sge_addr := sge_addr r; sge_length := sge_length r; lkey := lkey r |}.

(** [struct ibv_send_wr], of an RDMA read or write: [wr.rdma] is the member of
    its union that the test server uses *)
Record ibv_send_wr := {
  wr_id : Z;
  sg_list : list ibv_sge;
  num_sge : Z;
  wr_opcode : ibv_wr_opcode;
  send_flags : Z;
  rdma_remote_addr : Z;
  rdma_rkey : Z;
}.

#[export] Instance eta_ibv_send_wr : Eta ibv_send_wr := fun r =>
  {| wr_id := wr_id r; sg_list := sg_list r; num_sge := num_sge r; wr_opcode := wr_opcode r;
     send_flags := send_flags r; rdma_remote_addr := rdma_remote_addr r;
     rdma_rkey := rdma_rkey r |}.

(** [path_mtu] is [None] when it's 0, which no enumerator is: the attributes
    of a modify call start zeroed, and only some calls set it *)

(** ** Objects that libibverbs allocates

    What the library reads of them.  Each starts with its address. *)

(** An open device; [ctx_device_name] is the [name] array of [context->device],
    up to its first NUL or all of it *)
Record ibv_context := { ctx_addr : Z; ctx_device_name : chars }.

Record ibv_pd := { pd_addr : Z }.

(** [mr_buf] is its [addr] member, the start of the region *)
Record ibv_mr := { mr_addr : Z; mr_buf : Z; mr_rkey : Z; mr_lkey : Z }.

Record ibv_cq := { cq_addr : Z; cq_cqe : Z }.

Record ibv_qp := { qp_addr : Z; qp_num : Z }.

#[export] Instance ibv_qp_eq_dec : EqDecision ibv_qp.
Proof. solve_decision. Defined.

(** [zeroedObject<T>()] of the structures that the library builds *)
Definition zeroed_cap : ibv_qp_cap :=
  {| max_send_wr := 0; max_recv_wr := 0; max_send_sge := 0; max_recv_sge := 0;
     max_inline_data := 0 |}.

Definition zeroed_ah_attr : ibv_ah_attr :=
  {| grh := {| dgid := toIbvGid zero_gid; flow_label := 0; sgid_index := 0; hop_limit := 0;
               traffic_class := 0 |};
     dlid := 0; ah_sl := 0; src_path_bits := 0; static_rate := 0; is_global := 0;
     ah_port_num := 0 |}.

Definition zeroed_qp_attr : ibv_qp_attr :=
  {| qp_state := IBV_QPS_RESET; cur_qp_state := IBV_QPS_RESET; path_mtu := None;
     path_mig_state := IBV_MIG_MIGRATED; qkey := 0; rq_psn := 0; sq_psn := 0; dest_qp_num := 0;
     qp_access_flags := 0; attr_cap := zeroed_cap; ah_attr := zeroed_ah_attr;
     alt_ah_attr := zeroed_ah_attr; pkey_index := 0; alt_pkey_index := 0;
     en_sqd_async_notify := 0; sq_draining := 0; max_rd_atomic := 0; max_dest_rd_atomic := 0;
     min_rnr_timer := 0; port_num := 0; timeout := 0; retry_cnt := 0; rnr_retry := 0;
     alt_port_num := 0; alt_timeout := 0; rate_limit := 0 |}.
