(* ===== verification/World.v ===== *)
(** * The outside world ([src/common/ibv-wrapper.h], [src/common/hip-seam.h],
    [src/common/ibv-ptr.h])

    What the library calls and doesn't implement: libibverbs and the HIP
    runtime, behind the interfaces [Verbs] and [HipRuntime], the clock, the
    file system, the environment, and standard error.  A call is a value, a
    trace is the calls made so far with what each returned, and the world is
    any function that answers a call from the trace before it, so a theorem
    over every [World] covers every behaviour of the libraries and devices.

    The trace also accounts for what's open: [bal h t] is how often the
    object [h] has been created in [t], less how often it's been released. *)

From Stdlib Require Import String.
From stdpp Require Import base numbers list.
From S2P Require Import Prelude.
From S2P Require Import Gid.
From S2P Require Import IbvCore.

(** ** Definitions *)

(** [hipError_t], and the values of it the library compares with *)
Definition hipSuccess : Z := 0.
Definition hipErrorNoDevice : Z := 100.
Definition hipErrorNotReady : Z := 600.

Inductive hipMemcpyKind := hipMemcpyHostToDevice | hipMemcpyDeviceToHost.

(** [hipMemoryType], as far as the library tells them apart *)
Inductive hipMemoryType := hipMemoryTypeDevice | hipMemoryTypeOther.

#[export] Instance hipMemoryType_eq_dec : EqDecision hipMemoryType.
Proof. solve_decision. Defined.

(** The array [ibv_get_device_list()] returns: its address, and its devices *)
Record device_list := { dl_addr : Z; dl_devs : list Z }.

(** What's printed on standard error *)
Inductive diagnostic :=
| ExportDmabufFailed (status : Z)
| RegDmabufMrFailed (err : Z)
| GpuDirectRefused (size devPtr : Z)
| GpuDirectFallback (size devPtr : Z)
| CompletionFailed (status opcode vendorErr wrId : Z)
| NoCompletion (timeout : Z) (awaited : option Z)
| ConnectionDropped (left total : Z)
| StagingTimeout (kind : hipMemcpyKind) (size timeout : Z)
| StagingLeaked (leaked : Z)
| LibraryNotLoaded (err : chars)
| SymbolMissing (name err : chars)
| FunctionsMissing
| Message (text : chars).

(** *** What the programs around the library call *)

(** What a transfer of libcurl's ends with: whether it succeeded, the
    response's status, if it can be told, and the header lines, as the
    header callback gets them *)
Record curl_result := { curl_ok : bool; curl_code : option Z; curl_lines : list chars }.

(** minio-cpp's credentials, requests, and responses.  A multimap of headers
    is the list of what was added to it. *)
Record credentials := { access_key : chars; secret_key : chars; session_token : chars }.

Record http_request := {
  hr_method : chars;
  hr_url : chars;
  hr_headers : list (chars * chars);
  hr_connect_timeout : Z;
  hr_timeout : Z;
  hr_nic_interface : option chars;
}.

Record http_response := {
  res_error : chars;
  res_status_code : Z;
  res_headers : list (chars * chars);
}.

(** Where the data of a PUT comes from: a copy, or the buffer itself *)
Inductive put_stream := StreamOfCopy (content : chars) | StreamOfBuffer (buf size : Z).

(** What the client reads or sets of the arguments of an S3 call *)
Record s3_args := {
  a_bucket : chars;
  a_object : chars;
  a_region : chars;
  a_buf : Z;
  a_size : option Z;
  a_stream : option put_stream;
  a_object_size : Z;
  a_part_size : Z;
}.

(** An S3 response: its error, which is empty when it has none *)
Record s3_response := { s3_error : chars; s3_etag : chars }.

(** A call, with the type of what it returns: a status, and what the call
    stores through its pointer arguments *)
Inductive call : Type -> Type :=
(* Verbs *)
| get_device_list : call (option device_list * Z)
| free_device_list (devs : device_list) : call unit
| open_device (device : Z) : call (option ibv_context)
| close_device (context : ibv_context) : call Z
| get_device_name (device : Z) : call (option chars)
| query_device (context : ibv_context) : call (Z * ibv_device_attr)
| query_port (context : ibv_context) (port_num : Z) : call (Z * ibv_port_attr)
| query_gid (context : ibv_context) (port_num index : Z) : call (Z * ibv_gid)
| alloc_pd (context : ibv_context) : call (option ibv_pd)
| dealloc_pd (pd : ibv_pd) : call Z
| reg_mr (pd : ibv_pd) (addr length access : Z) : call (option ibv_mr)
| supportsDmabuf : call bool
| reg_dmabuf_mr (pd : ibv_pd) (offset length iova fd access : Z) : call (option ibv_mr)
| dereg_mr (mr : ibv_mr) : call Z
| create_cq (context : ibv_context) (cqe cq_context channel comp_vector : Z) : call (option ibv_cq)
| destroy_cq (cq : ibv_cq) : call Z
| create_qp (pd : ibv_pd) (init : ibv_qp_init_attr) : call (option ibv_qp)
| modify_qp (qp : ibv_qp) (attr : ibv_qp_attr) (mask : Z) : call Z
| destroy_qp (qp : ibv_qp) : call Z
| poll_cq (cq : ibv_cq) (num_entries : Z) : call (Z * ibv_wc)
| post_send (qp : ibv_qp) (wr : ibv_send_wr) : call Z
(* HipRuntime *)
| getDevice : call (Z * Z)
| getDeviceCount : call (Z * Z)
| deviceGetPCIBusId (len device : Z) : call (Z * chars)
| hostMalloc (size : Z) : call (Z * Z)
| hostFree (ptr : Z) : call Z
| deviceSynchronize : call Z
| memcpyAsync (dst src size : Z) (kind : hipMemcpyKind) : call Z
| eventCreate : call (Z * Z)
| eventRecord (event : Z) : call Z
| eventQuery (event : Z) : call Z
| eventDestroy (event : Z) : call Z
| pointerGetAttributes (ptr : Z) : call (Z * hipMemoryType)
| memGetAddressRange (ptr : Z) : call (Z * Z * Z)
| exportDmabuf (ptr size : Z) : call (Z * Z * Z)
| closeDmabuf (fd : Z) : call Z
(* The standard library and the operating system *)
| get_errno : call Z
| clock_now : call Z
| sleep_for (ms : Z) : call unit
| getenv (name : chars) : call (option chars)
| dlopen (name : chars) : call Z
| dlsym (library : Z) (name : chars) : call Z
| dlerror : call (option chars)
| dlclose (library : Z) : call Z
| fs_canonical (path : chars) : call (option chars)
| fs_read (path : chars) : call (option chars)
| print_stderr (d : diagnostic) : call unit
(* The application's own code, in a callback *)
| application (what : Z) : call Z
(* Memory that a NIC can read and write, by address *)
| new_buffer (size : Z) : call Z
| free_buffer (addr : Z) : call unit
| write_buffer (addr : Z) (data : chars) : call unit
| read_buffer (addr size : Z) : call chars
| hipMalloc (size : Z) : call (Z * Z)
| hipFree (ptr : Z) : call Z
| hipMemcpyTo (dst : Z) (data : chars) : call Z
| hipMemcpyFrom (src size : Z) : call (Z * chars)
| hipMemset (ptr value size : Z) : call Z
| aligned_new (size alignment : Z) : call Z
| aligned_delete (ptr alignment : Z) : call unit
| sysconf_pagesize : call Z
| getpid : call Z
| time_now : call Z
| print_stdout (text : chars) : call unit
| ofstream_open (name : chars) : call bool
| ofstream_write (data : chars) : call unit
(* Sockets *)
| socket_create : call Z
| set_reuseaddr (fd : Z) : call Z
| bind_port (fd port : Z) : call Z
| listen_on (fd backlog : Z) : call Z
| close_fd (fd : Z) : call Z
(* libcurl *)
| curl_global_init : call bool
| curl_global_cleanup : call unit
| curl_easy_init : call Z
| curl_slist_append (list : Z) (header : chars) : call Z
| curl_easy_perform (curl headers : Z) (url request : chars) : call curl_result
| curl_slist_free_all (list : Z) : call unit
| curl_easy_cleanup (curl : Z) : call unit
(* minio-cpp *)
| UtcTime_Now : call Z
| Fetch : call credentials
| Execute (req : http_request) : call http_response
| s3_PutObject (args : s3_args) : call s3_response
| s3_GetObject (args : s3_args) : call (s3_response * list chars)
| s3_GetRegion (bucket region : chars) : call (s3_response * chars).

Inductive event :=
| Ev {A : Type} (c : call A) (r : A).

(** The calls so far, the last one first *)
Abbreviation trace := (list event).

(** The world: what a call returns after a trace *)
Class World := respond : forall (t : trace) (A : Type), call A -> A.
Arguments respond {_} t {A} c.

(** Programs that make calls *)
Abbreviation W := (M trace).

Definition perform `{World} {A} (c : call A) : W A := fun t =>
  let r := respond t c in (inl r, Ev c r :: t).

(** The objects that have to be released, by address or descriptor *)
Inductive handle :=
| HList (addr : Z) | HContext (addr : Z) | HPd (addr : Z) | HCq (addr : Z) | HQp (addr : Z)
| HMr (addr : Z) | HHostBuf (addr : Z) | HEvent (addr : Z) | HDmabufFd (fd : Z)
| HLibrary (library : Z) | HBuffer (addr : Z) | HDevice (addr : Z) | HAligned (addr : Z)
| HSocket (fd : Z).

#[export] Instance handle_eq_dec : EqDecision handle.
Proof. solve_decision. Defined.

Definition one (h x : handle) : Z := if decide (h = x) then 1 else 0.

(** The object a pointer of HIP's owns: nothing, when it's null *)
Definition h_event (ev : Z) : list handle := if ev =? 0 then [] else [HEvent ev].
Definition h_hostbuf (p : Z) : list handle := if p =? 0 then [] else [HHostBuf p].
Definition h_library (p : Z) : list handle := if p =? 0 then [] else [HLibrary p].
Definition h_device (p : Z) : list handle := if p =? 0 then [] else [HDevice p].
Definition h_aligned (p : Z) : list handle := if p =? 0 then [] else [HAligned p].

(** A descriptor; nothing, when it's negative *)
Definition h_socket (fd : Z) : list handle := if 0 <=? fd then [HSocket fd] else [].

(** What an event creates, less what it releases, of [h] *)
Definition delta (h : handle) (e : event) : Z :=
  match e with
  | Ev get_device_list (Some l, _) => one h (HList (dl_addr l))
  | Ev (free_device_list l) _ => - one h (HList (dl_addr l))
  | Ev (open_device _) (Some c) => one h (HContext (ctx_addr c))
  | Ev (close_device c) _ => - one h (HContext (ctx_addr c))
  | Ev (alloc_pd _) (Some p) => one h (HPd (pd_addr p))
  | Ev (dealloc_pd p) _ => - one h (HPd (pd_addr p))
  | Ev (reg_mr _ _ _ _) (Some m) => one h (HMr (mr_addr m))
  | Ev (reg_dmabuf_mr _ _ _ _ _ _) (Some m) => one h (HMr (mr_addr m))
  | Ev (dereg_mr m) _ => - one h (HMr (mr_addr m))
  | Ev (create_cq _ _ _ _ _) (Some q) => one h (HCq (cq_addr q))
  | Ev (destroy_cq q) _ => - one h (HCq (cq_addr q))
  | Ev (create_qp _ _) (Some q) => one h (HQp (qp_addr q))
  | Ev (destroy_qp q) _ => - one h (HQp (qp_addr q))
  | Ev (hostMalloc _) (err, p) => if err =? hipSuccess then cnt h (h_hostbuf p) else 0
  | Ev (hostFree p) _ => - cnt h (h_hostbuf p)
  | Ev eventCreate (err, p) => if err =? hipSuccess then cnt h (h_event p) else 0
  | Ev (eventDestroy p) _ => - cnt h (h_event p)
  | Ev (exportDmabuf _ _) (st, fd, _) => if st =? 0 then one h (HDmabufFd fd) else 0
  | Ev (closeDmabuf fd) _ => - one h (HDmabufFd fd)
  | Ev (dlopen _) p => cnt h (h_library p)
  | Ev (dlclose p) _ => - cnt h (h_library p)
  | Ev (new_buffer _) p => one h (HBuffer p)
  | Ev (free_buffer p) _ => - one h (HBuffer p)
  | Ev (hipMalloc _) (err, p) => if err =? hipSuccess then cnt h (h_device p) else 0
  | Ev (hipFree p) _ => - cnt h (h_device p)
  | Ev (aligned_new _ _) p => cnt h (h_aligned p)
  | Ev (aligned_delete p _) _ => - cnt h (h_aligned p)
  | Ev socket_create fd => cnt h (h_socket fd)
  | Ev (close_fd fd) _ => - cnt h (h_socket fd)
  | _ => 0
  end.

Fixpoint bal (h : handle) (t : trace) : Z :=
  match t with
  | [] => 0
  | e :: t' => delta h e + bal h t'
  end.

(** The earliest the steady clock can show after a trace, in milliseconds
    since its epoch: what it showed last, and the time slept since *)
Fixpoint clock_low (t : trace) : Z :=
  match t with
  | [] => 0
  | Ev clock_now r :: t' => r
  | Ev (sleep_for ms) _ :: t' => clock_low t' + ms
  | _ :: t' => clock_low t'
  end.

(** What the C++ standard says of [std::chrono::steady_clock] and
    [std::this_thread::sleep_for]: the clock never goes back, and a sleep
    takes at least as long as it's asked to *)
Class SteadyClock (E : World) := {
  steady : forall t, clock_low t <= respond t clock_now;
}.

(** The operation that was posted last *)
Fixpoint last_posted (t : trace) : option ibv_wr_opcode :=
  match t with
  | [] => None
  | Ev (post_send _ wr) _ :: t' => Some (wr_opcode wr)
  | _ :: t' => last_posted t'
  end.

(** What a completion says of the operation it's of *)
Definition completion_of (op : ibv_wr_opcode) : ibv_wc_opcode :=
  match op with
  | IBV_WR_RDMA_WRITE | IBV_WR_RDMA_WRITE_WITH_IMM => IBV_WC_RDMA_WRITE
  | IBV_WR_RDMA_READ => IBV_WC_RDMA_READ
  | IBV_WR_ATOMIC_CMP_AND_SWP => IBV_WC_COMP_SWAP
  | IBV_WR_ATOMIC_FETCH_AND_ADD => IBV_WC_FETCH_ADD
  | IBV_WR_BIND_MW => IBV_WC_BIND_MW
  | IBV_WR_LOCAL_INV => IBV_WC_LOCAL_INV
  | IBV_WR_TSO => IBV_WC_TSO
  | _ => IBV_WC_SEND
  end.

(** A successful completion is of the operation that was posted last, as it
    is where each is waited for before the next is posted *)
Class OwnCompletions (E : World) := {
  own_completions : forall t cq op, last_posted t = Some op ->
    let (n, wc) := respond t (poll_cq cq 1) in
    0 < n -> wc_status wc = IBV_WC_SUCCESS -> wc_opcode wc = completion_of op;
}.

(** *** Owning pointers

    A [unique_ptr] is an option: [None] is null.  Its destructor releases
    what it owns. *)

(** The deleters, run by a pointer that isn't null *)
Definition IbvContextDeleter `{World} (p : option ibv_context) : W unit :=
  match p with Some ctx => _ ← perform (close_device ctx); mret tt | None => mret tt end.
Definition IbvPdDeleter `{World} (p : option ibv_pd) : W unit :=
  match p with Some pd => _ ← perform (dealloc_pd pd); mret tt | None => mret tt end.
Definition IbvCqDeleter `{World} (p : option ibv_cq) : W unit :=
  match p with Some cq => _ ← perform (destroy_cq cq); mret tt | None => mret tt end.
Definition IbvQpDeleter `{World} (p : option ibv_qp) : W unit :=
  match p with Some qp => _ ← perform (destroy_qp qp); mret tt | None => mret tt end.
Definition IbvMrDeleter `{World} (p : option ibv_mr) : W unit :=
  match p with Some mr => _ ← perform (dereg_mr mr); mret tt | None => mret tt end.
Definition IbvDeviceListDeleter `{World} (p : option device_list) : W unit :=
  match p with Some l => perform (free_device_list l) | None => mret tt end.

(** HIP's pointers are addresses, and 0 is null *)
Definition HipEventDeleter `{World} (event : Z) : W unit :=
  if event =? 0 then mret tt else _ ← perform (eventDestroy event); mret tt.
Definition HostBufDeleter `{World} (hostBuf : Z) : W unit :=
  if hostBuf =? 0 then mret tt else _ ← perform (hostFree hostBuf); mret tt.

(** [deviceSpan()]: the devices in a list that's said to hold [count] *)
Definition deviceSpan (devList : option device_list) (count : Z) : list Z :=
  match devList with
  | Some l => if count <=? 0 then [] else take (Z.to_nat count) (dl_devs l)
  | None => []
  end.

(** [m] leaves open exactly what was open before it, and what its result
    owns *)
Definition acquires {A} (bad : stop -> Prop) (own : A -> list handle) (m : W A) : Prop :=
  forall t, wp bad m (fun a t' => forall h, bal h t' = bal h t + cnt h (own a)) t.

(** [m] leaves open exactly what was open before it *)
Definition neutral {A} (bad : stop -> Prop) (m : W A) : Prop :=
  forall t, wp bad m (fun _ t' => forall h, bal h t' = bal h t) t.

(** *** Worlds to try things in *)

(** A world in which every call fails, or returns nothing *)
Definition zero_device_attr : ibv_device_attr :=
  ltac:(constructor; first [exact [] | exact IBV_ATOMIC_NONE | exact 0]).
Definition zero_port_attr : ibv_port_attr :=
  ltac:(constructor; first [exact IBV_PORT_NOP | exact IBV_MTU_256 | exact 0]).
Definition zero_wc : ibv_wc :=
  ltac:(constructor; first [exact IBV_WC_SUCCESS | exact IBV_WC_SEND | exact 0]).

Definition failing_world : World := fun _ A c =>
  match c with
  | get_device_list => (None, 0) | free_device_list _ => tt | open_device _ => None
  | close_device _ => 0 | get_device_name _ => None | query_device _ => (1, zero_device_attr)
  | query_port _ _ => (1, zero_port_attr) | query_gid _ _ _ => (1, toIbvGid zero_gid)
  | alloc_pd _ => None | dealloc_pd _ => 0 | reg_mr _ _ _ _ => None | supportsDmabuf => false
  | reg_dmabuf_mr _ _ _ _ _ _ => None | dereg_mr _ => 0 | create_cq _ _ _ _ _ => None
  | destroy_cq _ => 0 | create_qp _ _ => None | modify_qp _ _ _ => 1 | destroy_qp _ => 0
  | poll_cq _ _ => (-1, zero_wc) | post_send _ _ => 1 | getDevice => (1, 0)
  | getDeviceCount => (1, 0) | deviceGetPCIBusId _ _ => (1, []) | hostMalloc _ => (1, 0)
  | hostFree _ => 0 | deviceSynchronize => 1 | memcpyAsync _ _ _ _ => 1 | eventCreate => (1, 0)
  | eventRecord _ => 1 | eventQuery _ => 1 | eventDestroy _ => 0
  | pointerGetAttributes _ => (1, hipMemoryTypeOther) | memGetAddressRange _ => (1, 0, 0)
  | exportDmabuf _ _ => (1, 0, 0) | closeDmabuf _ => 0 | get_errno => 0 | clock_now => 0
  | sleep_for _ => tt | getenv _ => None | dlopen _ => 0 | dlsym _ _ => 0 | dlerror => None
  | dlclose _ => 0 | fs_canonical _ => None | fs_read _ => None
  | print_stderr _ => tt | application _ => 0
  | new_buffer _ => 0 | free_buffer _ => tt | write_buffer _ _ => tt | read_buffer _ _ => []
  | hipMalloc _ => (1, 0) | hipFree _ => 0 | hipMemcpyTo _ _ => 1 | hipMemcpyFrom _ _ => (1, [])
  | hipMemset _ _ _ => 1 | aligned_new _ _ => 0 | aligned_delete _ _ => tt | sysconf_pagesize => -1
  | getpid => 1 | time_now => -1 | print_stdout _ => tt | ofstream_open _ => false | ofstream_write _ => tt
  | socket_create => -1 | set_reuseaddr _ => -1 | bind_port _ _ => -1 | listen_on _ _ => -1 | close_fd _ => -1
  | curl_global_init => false | curl_global_cleanup => tt | curl_easy_init => 0
  | curl_slist_append _ _ => 0
  | curl_easy_perform _ _ _ _ => {| curl_ok := false; curl_code := None; curl_lines := [] |}
  | curl_slist_free_all _ => tt | curl_easy_cleanup _ => tt
  | UtcTime_Now => 0 | Fetch => {| access_key := []; secret_key := []; session_token := [] |}
  | Execute _ => {| res_error := lit "failed"; res_status_code := 0; res_headers := [] |}
  | s3_PutObject _ => {| s3_error := lit "failed"; s3_etag := [] |}
  | s3_GetObject _ => ({| s3_error := lit "failed"; s3_etag := [] |}, [])
  | s3_GetRegion _ _ => ({| s3_error := lit "failed"; s3_etag := [] |}, [])
  end.

(** A world in which everything works, except what the settings say: the
    addresses it hands out are new, since they count the calls *)
Record settings := {
  set_poll : Z;        (* what polling returns *)
  set_query : Z;       (* what querying an event returns *)
  set_record : Z;      (* what recording an event returns *)
  set_dmabuf : bool;   (* whether dma-buf and plain registration of device memory work *)
  set_modify : Z;      (* what modifying a QP returns *)
  set_memory : hipMemoryType;
  set_reply : chars;   (* the reply header of a server *)
}.

Definition working : settings :=
  {| set_poll := 1; set_query := hipSuccess; set_record := hipSuccess; set_dmabuf := true;
     set_modify := 0; set_memory := hipMemoryTypeDevice; set_reply := lit "200" |}.

#[export] Instance eta_settings : Eta settings := fun r =>
  {| set_poll := set_poll r; set_query := set_query r; set_record := set_record r;
     set_dmabuf := set_dmabuf r; set_modify := set_modify r; set_memory := set_memory r; set_reply := set_reply r |}.

(** The GID ::ffff:10.0.0.1 *)
Definition lab_gid : Gid := kIpv4MappedPrefix ++ [10; 0; 0; 1].

(** What was written last at an address *)
Fixpoint last_written (addr : Z) (t : trace) : chars :=
  match t with
  | [] => []
  | Ev (write_buffer a d) _ :: t' => if a =? addr then d else last_written addr t'
  | _ :: t' => last_written addr t'
  end.

Definition lab (k : settings) : World := fun t A c =>
  let new := 4096 + Z.of_nat (List.length t) in
  match c with
  | get_device_list => (Some {| dl_addr := new; dl_devs := [16] |}, 1) | free_device_list _ => tt
  | open_device _ => Some {| ctx_addr := new; ctx_device_name := lit "mlx5_0" |}
  | close_device _ => 0 | get_device_name _ => Some (lit "mlx5_0")
  | query_device _ => (0, zero_device_attr <| phys_port_cnt := 1 |> <| vendor_id := 0x14E4 |>)
  | query_port _ _ => (0, zero_port_attr <| gid_tbl_len := 1 |> <| port_state := IBV_PORT_ACTIVE |>)
  | query_gid _ _ _ => (0, toIbvGid lab_gid)
  | alloc_pd _ => Some {| pd_addr := new |} | dealloc_pd _ => 0
  | reg_mr _ a _ _ =>
      if set_dmabuf k || (4096 <=? a)
      then Some {| mr_addr := new; mr_buf := a; mr_rkey := new; mr_lkey := new |} else None
  | supportsDmabuf => set_dmabuf k
  | reg_dmabuf_mr _ _ _ iova _ _ => Some {| mr_addr := new; mr_buf := iova; mr_rkey := new; mr_lkey := new |}
  | dereg_mr _ => 0
  | create_cq _ n _ _ _ => Some {| cq_addr := new; cq_cqe := n |} | destroy_cq _ => 0
  | create_qp _ _ => Some {| qp_addr := new; qp_num := new |}
  | modify_qp _ _ _ => set_modify k | destroy_qp _ => 0
  | poll_cq _ _ => (set_poll k, zero_wc <| wc_opcode := default IBV_WC_SEND (completion_of <$> last_posted t) |>) | post_send _ _ => 0
  | getDevice => (0, 0) | getDeviceCount => (0, 1)
  | deviceGetPCIBusId _ _ => (0, lit "0000:42:00.0")
  | hostMalloc _ => (0, new) | hostFree _ => 0 | deviceSynchronize => 0
  | memcpyAsync _ _ _ _ => 0 | eventCreate => (0, new) | eventRecord _ => set_record k
  | eventQuery _ => set_query k | eventDestroy _ => 0
  | pointerGetAttributes _ => (0, set_memory k) | memGetAddressRange _ => (0, 0, 2 ^ 48)
  | exportDmabuf _ _ => (0, new, 0) | closeDmabuf _ => 0 | get_errno => 0
  | clock_now => clock_low t
  | sleep_for _ => tt | getenv _ => None | dlopen _ => new | dlsym _ _ => new | dlerror => None
  | dlclose _ => 0
  | fs_canonical _ => Some (lit "/sys/devices/pci0000:40/0000:42:00.1") | fs_read _ => None
  | print_stderr _ => tt | application _ => 0
  | new_buffer _ => new | free_buffer _ => tt | write_buffer _ _ => tt
  | read_buffer a n => take (Z.to_nat n) (last_written a t)
  | hipMalloc _ => (0, 64) | hipFree _ => 0 | hipMemcpyTo _ _ => 0
  | hipMemcpyFrom a n => (0, take (Z.to_nat n) (last_written a t))
  | hipMemset _ _ _ => 0 | aligned_new _ _ => new | aligned_delete _ _ => tt | sysconf_pagesize => 4096
  | getpid => 1 | time_now => 0 | print_stdout _ => tt | ofstream_open _ => true | ofstream_write _ => tt
  | socket_create => new | set_reuseaddr _ => 0 | bind_port _ _ => 0 | listen_on _ _ => 0 | close_fd _ => 0
  | curl_global_init => true | curl_global_cleanup => tt | curl_easy_init => new
  | curl_slist_append l _ => if l =? 0 then new else l
  | curl_easy_perform _ _ _ _ =>
      {| curl_ok := true; curl_code := Some 200;
         curl_lines := [lit "HTTP/1.1 200 OK"; lit "X-Amz-Rdma-Reply: " ++ set_reply k] |}
  | curl_slist_free_all _ => tt | curl_easy_cleanup _ => tt
  | UtcTime_Now => 0 | Fetch => {| access_key := lit "me"; secret_key := lit "x"; session_token := [] |}
  | Execute _ =>
      {| res_error := []; res_status_code := 200; res_headers := [(lit "x-amz-rdma-reply", set_reply k)] |}
  | s3_PutObject _ => {| s3_error := []; s3_etag := lit "tag" |}
  | s3_GetObject _ => ({| s3_error := []; s3_etag := lit "tag" |}, [lit "hello, "; lit "world"])
  | s3_GetRegion _ _ => ({| s3_error := []; s3_etag := [] |}, lit "us-east-1")
  end.

#[export] Instance lab_steady k : SteadyClock (lab k).
Proof. split. intros t. apply Z.le_refl. Qed.

#[export] Instance lab_completions k : OwnCompletions (lab k).
Proof. split. intros t cq op Ht. unfold respond, lab. by rewrite Ht. Qed.

(** ** Lemmas *)

Section world.
Context `{E : World} (bad : stop -> Prop).

Lemma wp_perform {A} (c : call A) Q t :
  (forall r, Q r (Ev c r :: t)) -> wp bad (perform c) Q t.
Proof. intros H. apply H. Qed.

Lemma wp_perform_eq {A} (c : call A) Q t :
  Q (respond t c) (Ev c (respond t c) :: t) -> wp bad (perform c) Q t.
Proof. done. Qed.

(** Running a program that's known to be neutral, or to acquire something *)
Lemma wp_neutral {A} (m : W A) (Q : A -> trace -> Prop) t :
  neutral bad m -> (forall a t', (forall h, bal h t' = bal h t) -> Q a t') -> wp bad m Q t.
Proof. intros Hm HQ. eapply wp_mono; [apply Hm|]. exact HQ. Qed.

Lemma wp_acquires {A} own (m : W A) (Q : A -> trace -> Prop) t :
  acquires bad own m ->
  (forall a t', (forall h, bal h t' = bal h t + cnt h (own a)) -> Q a t') -> wp bad m Q t.
Proof. intros Hm HQ. eapply wp_mono; [apply Hm|]. exact HQ. Qed.
End world.

(** [wstep] runs a program one step; [wrun] as far as it can *)
Ltac wstep :=
  match goal with
  | |- wp _ (mbind _ _) _ _ => apply wp_bind
  | |- wp _ (mret _) _ _ => apply wp_ret
  | |- wp _ (perform _) _ _ => apply wp_perform; intros ?
  | |- wp _ (if ?b then _ else _) _ _ => destruct b eqn:?
  | |- wp _ (match ?x with _ => _ end) _ _ => destruct x eqn:?
  end; simplify_eq; cbn [fst snd].
Ltac wrun := repeat wstep.

(** Solves an equation between balances; a file that defines what an object
    owns adds the definition to [bal_unfold] *)
Ltac bal_unfold := idtac.
Ltac bal_solve :=
  intros; bal_unfold;
  repeat (progress cbn [bal delta] ||
          match goal with H : forall h, bal h _ = _ |- _ => rewrite H end);
  rewrite ?Z.eqb_refl; cbn [bal delta app cnt foldr] in *; rewrite ?cnt_app; cbn [cnt foldr]; unfold one in *; lia.

(** What the deleters release *)
Ltac run_deleter :=
  intros H;
  unfold IbvContextDeleter, IbvPdDeleter, IbvCqDeleter, IbvQpDeleter, IbvMrDeleter,
    IbvDeviceListDeleter;
  wrun; repeat match goal with u : unit |- _ => destruct u end; apply H; bal_solve.

Section deleters.
Context `{E : World} (bad : stop -> Prop).
Implicit Types (Q : unit -> trace -> Prop) (t : trace).

Lemma wp_IbvContextDeleter p Q t :
  (forall t', (forall h, bal h t' = bal h t -
     cnt h (match p with Some c => [HContext (ctx_addr c)] | None => [] end)) -> Q tt t') ->
  wp bad (IbvContextDeleter p) Q t.
Proof. run_deleter. Qed.

Lemma wp_IbvPdDeleter p Q t :
  (forall t', (forall h, bal h t' = bal h t -
     cnt h (match p with Some c => [HPd (pd_addr c)] | None => [] end)) -> Q tt t') ->
  wp bad (IbvPdDeleter p) Q t.
Proof. run_deleter. Qed.

Lemma wp_IbvCqDeleter p Q t :
  (forall t', (forall h, bal h t' = bal h t -
     cnt h (match p with Some c => [HCq (cq_addr c)] | None => [] end)) -> Q tt t') ->
  wp bad (IbvCqDeleter p) Q t.
Proof. run_deleter. Qed.

Lemma wp_IbvQpDeleter p Q t :
  (forall t', (forall h, bal h t' = bal h t -
     cnt h (match p with Some c => [HQp (qp_addr c)] | None => [] end)) -> Q tt t') ->
  wp bad (IbvQpDeleter p) Q t.
Proof. run_deleter. Qed.

Lemma wp_IbvMrDeleter p Q t :
  (forall t', (forall h, bal h t' = bal h t -
     cnt h (match p with Some c => [HMr (mr_addr c)] | None => [] end)) -> Q tt t') ->
  wp bad (IbvMrDeleter p) Q t.
Proof. run_deleter. Qed.

Lemma wp_IbvDeviceListDeleter p Q t :
  (forall t', (forall h, bal h t' = bal h t -
     cnt h (match p with Some c => [HList (dl_addr c)] | None => [] end)) -> Q tt t') ->
  wp bad (IbvDeviceListDeleter p) Q t.
Proof. run_deleter. Qed.

Lemma wp_HipEventDeleter p Q t :
  (forall t', (forall h, bal h t' = bal h t - cnt h (h_event p)) -> Q tt t') ->
  wp bad (HipEventDeleter p) Q t.
Proof.
  intros H. unfold HipEventDeleter. destruct (p =? 0) eqn:Hp; wrun; apply H;
    intros; cbn [bal delta]; unfold h_event; rewrite ?Hp; bal_solve.
Qed.

Lemma wp_HostBufDeleter p Q t :
  (forall t', (forall h, bal h t' = bal h t - cnt h (h_hostbuf p)) -> Q tt t') ->
  wp bad (HostBufDeleter p) Q t.
Proof.
  intros H. unfold HostBufDeleter. destruct (p =? 0) eqn:Hp; wrun; apply H;
    intros; cbn [bal delta]; unfold h_hostbuf; rewrite ?Hp; bal_solve.
Qed.
End deleters.
