(* ===== verification/Verbs.v ===== *)
(** * Loading libibverbs ([src/common/ibv-wrapper.cpp], [src/common/dl-handle.h])

    [LoadedVerbs] calls libibverbs through the functions that
    [loadLibibverbs()] finds in it.  The functions themselves are the
    [World]'s verbs; what's modelled is which functions have to be there,
    what happens when one isn't, and which one each method calls. *)

From Stdlib Require Import Ascii String.
From stdpp Require Import base numbers list.
From S2P Require Import Prelude.
From S2P Require Import IbvCore.
From S2P Require Import World.

(** ** Definitions *)

(** [LoadedVerbs::Funcs]: addresses, 0 for null. The functions that have to
    be there are by name. *)
Record Funcs := {
  fn_reg_dmabuf_mr : Z;
  fn_poll_cq : Z;
  fn_post_send : Z;
  fn_required : list (chars * Z);
}.

Definition no_funcs : Funcs :=
  {| fn_reg_dmabuf_mr := 0; fn_poll_cq := 0; fn_post_send := 0; fn_required := [] |}.

(** [~DlHandle()] *)
Definition DlCloseDeleter `{World} (library : Z) : W unit :=
  if library =? 0 then mret tt else _ ← perform (dlclose library); mret tt.

Definition dlsym_load_optional `{World} (handle : Z) (name : chars) : W Z :=
  perform (dlsym handle name).

Definition dlsym_load `{World} (handle : Z) (name : chars) : W (option Z) :=
  out ← dlsym_load_optional handle name;
  if out =? 0 then
    err ← perform dlerror;
    _ ← perform (print_stderr (SymbolMissing name (default (lit "symbol is NULL") err)));
    mret None
  else mret (Some out).

Definition open_libibverbs `{World} : W Z := perform (dlopen (lit "libibverbs.so.1")).

Definition required_functions : list chars :=
  [lit "ibv_get_device_list"; lit "ibv_free_device_list"; lit "ibv_open_device";
   lit "ibv_close_device"; lit "ibv_get_device_name"; lit "ibv_query_device";
   lit "ibv_query_port"; lit "ibv_query_gid"; lit "ibv_alloc_pd"; lit "ibv_dealloc_pd";
   lit "ibv_reg_mr_iova2"; lit "ibv_dereg_mr"; lit "ibv_create_cq"; lit "ibv_destroy_cq";
   lit "ibv_create_qp"; lit "ibv_modify_qp"; lit "ibv_destroy_qp"].

(** [&&] stops at the first symbol that's missing *)
Fixpoint load_required `{World} (handle : Z) (names : list chars) : W (option (list (chars * Z))) :=
  match names with
  | [] => mret (Some [])
  | name :: names' =>
      out ← dlsym_load handle name;
      match out with
      | None => mret None
      | Some fn =>
          rest ← load_required handle names';
          mret (match rest with Some fs => Some ((name, fn) :: fs) | None => None end)
      end
  end.

Definition load_functions `{World} (handle : Z) : W (option Funcs) :=
  reg ← dlsym_load_optional handle (lit "ibv_reg_dmabuf_mr");
  poll ← dlsym_load_optional handle (lit "ibv_poll_cq");
  post ← dlsym_load_optional handle (lit "ibv_post_send");
  required ← load_required handle required_functions;
  mret (match required with
        | Some fs => Some {| fn_reg_dmabuf_mr := reg; fn_poll_cq := poll; fn_post_send := post;
                             fn_required := fs |}
        | None => None
        end).

(** [LoadedVerbs]: the library, and its functions *)
Record LoadedVerbs := { library_ : Z; funcs_ : Funcs }.

Definition loadLibibverbs `{World} : W (option LoadedVerbs) :=
  library ← open_libibverbs;
  if library =? 0 then
    err ← perform dlerror;
    _ ← perform (print_stderr (LibraryNotLoaded (default (lit "unknown error") err)));
    mret None
  else
    funcs ← load_functions library;
    match funcs with
    | None =>
        _ ← perform (print_stderr FunctionsMissing);
        _ ← DlCloseDeleter library;
        mret None
    | Some funcs => mret (Some {| library_ := library; funcs_ := funcs |})
    end.

Definition own_verbs (v : option LoadedVerbs) : list handle :=
  match v with Some v => h_library (library_ v) | None => [] end.

(** The method whose function is there for old versions only: what the call
    is made to, or nothing, when it fails with [EOPNOTSUPP] *)
Definition LoadedVerbs_supportsDmabuf (v : LoadedVerbs) : bool :=
  negb (fn_reg_dmabuf_mr (funcs_ v) =? 0).
Definition LoadedVerbs_reg_dmabuf_mr (v : LoadedVerbs) : option Z :=
  if fn_reg_dmabuf_mr (funcs_ v) =? 0 then None else Some (fn_reg_dmabuf_mr (funcs_ v)).

(** The functions that verbs.h has inline: the symbol, when there is one, or
    the entry [op] of the context's operations *)
Definition LoadedVerbs_poll_cq (v : LoadedVerbs) (op : Z) : Z :=
  if negb (fn_poll_cq (funcs_ v) =? 0) then fn_poll_cq (funcs_ v) else op.
Definition LoadedVerbs_post_send (v : LoadedVerbs) (op : Z) : Z :=
  if negb (fn_post_send (funcs_ v) =? 0) then fn_post_send (funcs_ v) else op.

(** What [reg_mr(pd, addr, length, access)] passes to [ibv_reg_mr_iova2()]:
    the address is also the IOVA *)
Definition LoadedVerbs_reg_mr (pd : ibv_pd) (addr length access : Z) : ibv_pd * Z * Z * Z * Z :=
  (pd, addr, length, addr, access).

(** What a method of [LoadedVerbs] calls: a function that was loaded, the
    entry of the context's operations, or nothing, when it fails with
    [EOPNOTSUPP] *)
Inductive callee := Loaded (fn : Z) | ContextOp | Unsupported.

(** The functions that the methods call, but for the three that don't have to
    be there *)
Definition symbol_of {A} (c : call A) : option chars :=
  match c with
  | get_device_list => Some (lit "ibv_get_device_list")
  | free_device_list _ => Some (lit "ibv_free_device_list")
  | open_device _ => Some (lit "ibv_open_device")
  | close_device _ => Some (lit "ibv_close_device")
  | get_device_name _ => Some (lit "ibv_get_device_name")
  | query_device _ => Some (lit "ibv_query_device")
  | query_port _ _ => Some (lit "ibv_query_port")
  | query_gid _ _ _ => Some (lit "ibv_query_gid")
  | alloc_pd _ => Some (lit "ibv_alloc_pd")
  | dealloc_pd _ => Some (lit "ibv_dealloc_pd")
  | reg_mr _ _ _ _ => Some (lit "ibv_reg_mr_iova2")
  | dereg_mr _ => Some (lit "ibv_dereg_mr")
  | create_cq _ _ _ _ _ => Some (lit "ibv_create_cq")
  | destroy_cq _ => Some (lit "ibv_destroy_cq")
  | create_qp _ _ => Some (lit "ibv_create_qp")
  | modify_qp _ _ _ => Some (lit "ibv_modify_qp")
  | destroy_qp _ => Some (lit "ibv_destroy_qp")
  | _ => None
  end.

Fixpoint find_function (name : chars) (fns : list (chars * Z)) : option Z :=
  match fns with
  | [] => None
  | (n, fn) :: fns => if bool_decide (n = name) then Some fn else find_function name fns
  end.

(** The methods: nothing, for a call that isn't a verb *)
Definition LoadedVerbs_callee (v : LoadedVerbs) {A} (c : call A) : option callee :=
  match c with
  | reg_dmabuf_mr _ _ _ _ _ _ =>
      Some (match LoadedVerbs_reg_dmabuf_mr v with Some fn => Loaded fn | None => Unsupported end)
  | poll_cq _ _ => Some (if fn_poll_cq (funcs_ v) =? 0 then ContextOp else Loaded (fn_poll_cq (funcs_ v)))
  | post_send _ _ => Some (if fn_post_send (funcs_ v) =? 0 then ContextOp else Loaded (fn_post_send (funcs_ v)))
  | c => name ← symbol_of c; fn ← find_function name (fn_required (funcs_ v)); Some (Loaded fn)
  end.

(** What a method of [SystemHip] calls: a function of HIP, or of HSA *)
Definition SystemHip_callee {A} (c : call A) : option chars :=
  match c with
  | getDevice => Some (lit "hipGetDevice")
  | getDeviceCount => Some (lit "hipGetDeviceCount")
  | deviceGetPCIBusId _ _ => Some (lit "hipDeviceGetPCIBusId")
  | hostMalloc _ => Some (lit "hipHostMalloc")
  | hostFree _ => Some (lit "hipHostFree")
  | deviceSynchronize => Some (lit "hipDeviceSynchronize")
  | memcpyAsync _ _ _ _ => Some (lit "hipMemcpyAsync")
  | eventCreate => Some (lit "hipEventCreate")
  | eventRecord _ => Some (lit "hipEventRecord")
  | eventQuery _ => Some (lit "hipEventQuery")
  | eventDestroy _ => Some (lit "hipEventDestroy")
  | pointerGetAttributes _ => Some (lit "hipPointerGetAttributes")
  | memGetAddressRange _ => Some (lit "hipMemGetAddressRange")
  | exportDmabuf _ _ => Some (lit "hsa_amd_portable_export_dmabuf")
  | closeDmabuf _ => Some (lit "hsa_amd_portable_close_dmabuf")
  | _ => None
  end.

(** ** Lemmas *)

Section verbs.
Context `{E : World} (bad : stop -> Prop).

Lemma dlsym_load_spec handle name t :
  wp bad (dlsym_load handle name)
     (fun o t' => (forall h, bal h t' = bal h t) /\ match o with Some fn => fn <> 0 | None => True end) t.
Proof.
  unfold dlsym_load, dlsym_load_optional. wrun; (split; [bal_solve|]); [done|by bools].
Qed.

Lemma load_required_spec handle names t :
  wp bad (load_required handle names)
     (fun o t' => (forall h, bal h t' = bal h t) /\
        match o with
        | Some fs => fst <$> fs = names /\ Forall (fun f => snd f <> 0) fs
        | None => True
        end) t.
Proof.
  revert t. induction names as [|name names IH]; intros t; cbn [load_required].
  { wstep. split; [done|]. split; [done|constructor]. }
  wstep. eapply wp_mono; [apply dlsym_load_spec|]. cbv beta. intros [fn|] t1 [H1 Hfn].
  2:{ wstep. by split. }
  wstep. eapply wp_mono; [apply IH|]. cbv beta. intros [fs|] t2 [H2 Hfs]; wstep.
  - split; [bal_solve|]. destruct Hfs as [<- Hfs]. split; [done|by constructor].
  - split; [bal_solve|done].
Qed.

Lemma loadLibibverbs_spec t :
  wp bad loadLibibverbs
     (fun v t' => (forall h, bal h t' = bal h t + cnt h (own_verbs v)) /\
        match v with
        | Some v => library_ v <> 0 /\ fst <$> fn_required (funcs_ v) = required_functions /\
                    Forall (fun f => snd f <> 0) (fn_required (funcs_ v))
        | None => True
        end) t.
Proof.
  unfold loadLibibverbs, open_libibverbs. wstep. wstep. destruct (r =? 0) eqn:Hr.
  { wstep. wstep. wstep. wstep. wstep. split; [|done]. intros h. cbn [bal delta own_verbs].
    unfold h_library. rewrite Hr. cbn. lia. }
  unfold load_functions, dlsym_load_optional. wstep. wstep. wstep. wstep. wstep. wstep. wstep.
  wstep. eapply wp_mono; [apply load_required_spec|]. cbv beta. intros [fs|] t1 [H1 Hfs]; wstep.
  - wstep. split; [|cbn [library_ funcs_ fn_required]; bools; destruct Hfs; done].
    intros h. rewrite H1. cbn [bal delta own_verbs library_]. lia.
  - wstep. unfold DlCloseDeleter. rewrite Hr. wrun.
    split; [|done]. intros h. cbn [bal delta]. rewrite H1. cbn [bal delta own_verbs cnt foldr]. lia.
Qed.

(** *** What the methods call *)

(** The functions, with the calls that found them *)
Definition found (handle : Z) (t : trace) (fns : list (chars * Z)) : Prop :=
  Forall (fun f => Ev (dlsym handle (fst f)) (snd f) ∈ t) fns.

Lemma dlsym_load_found handle name t :
  wp bad (dlsym_load handle name) (fun o t' =>
    t `suffix_of` t' /\ match o with Some fn => Ev (dlsym handle name) fn ∈ t' | None => True end) t.
Proof.
  unfold dlsym_load, dlsym_load_optional. wrun; (split; [by repeat apply suffix_cons_r|]); [done|left].
Qed.

Lemma load_required_found handle names t :
  wp bad (load_required handle names) (fun o t' =>
    t `suffix_of` t' /\ match o with Some fs => found handle t' fs | None => True end) t.
Proof.
  revert t. induction names as [|name names IH]; intros t; cbn [load_required].
  { wstep. split; [done|constructor]. }
  wstep. eapply wp_mono; [apply dlsym_load_found|]. cbv beta. intros [fn|] t1 [H1 Hfn].
  2:{ wstep. by split. }
  wstep. eapply wp_mono; [apply IH|]. cbv beta. intros o t' [Hs Ho]. wstep.
  split; [by etransitivity|]. destruct o as [fs|]; [|done].
  constructor; [|done]. destruct Hs as [t2 ->]. apply elem_of_app. by right.
Qed.

Lemma loadLibibverbs_found t :
  wp bad loadLibibverbs (fun v t' => forall v', v = Some v' -> found (library_ v') t' (fn_required (funcs_ v'))) t.
Proof.
  unfold loadLibibverbs, open_libibverbs. wstep. wstep. destruct (r =? 0); [by repeat wstep|].
  unfold load_functions, dlsym_load_optional. wstep. wstep. wstep. wstep. wstep. wstep. wstep.
  wstep. eapply wp_mono; [apply load_required_found|]. cbv beta. intros [fs|] t1 [_ Hfs]; wstep.
  - wstep. by intros v' [= <-].
  - unfold DlCloseDeleter. by repeat wstep.
Qed.

Lemma find_function_found name fns :
  name ∈ fst <$> fns -> exists fn, find_function name fns = Some fn /\ (name, fn) ∈ fns.
Proof.
  induction fns as [|[n fn] fns IH]; cbn [fmap list_fmap find_function]; [by intros ?%elem_of_nil|].
  intros [Hn|Hn]%elem_of_cons; case_bool_decide as Hd.
  - exists fn. split; [done|]. rewrite Hd. left.
  - by destruct Hd.
  - exists fn. split; [done|]. rewrite Hd. left.
  - destruct (IH Hn) as (f & Hf & Hin). exists f. split; [done|by right].
Qed.

Lemma symbol_required {A} (c : call A) name : symbol_of c = Some name -> name ∈ required_functions.
Proof. destruct c; cbn; intros [= <-]; unfold required_functions; repeat first [left|right]. Qed.
End verbs.

(** ** Properties *)

(** Every method calls the function of its name: when [loadLibibverbs()] has
    returned functions, a call to a verb that has to be there goes to what
    [dlsym()] found for the verb's name in the library, which isn't null. *)
Theorem LoadedVerbs_calls_its_function `{E : World} (bad : stop -> Prop) (t : trace) :
  wp bad loadLibibverbs (fun v t' => forall v', v = Some v' ->
    forall A (c : call A) name, symbol_of c = Some name ->
      exists fn, fn <> 0 /\ LoadedVerbs_callee v' c = Some (Loaded fn) /\ Ev (dlsym (library_ v') name) fn ∈ t') t.
Proof.
  eapply wp_mono; [apply wp_conj; [apply (loadLibibverbs_spec bad t)|apply (loadLibibverbs_found bad t)]|].
  cbv beta. intros v t' [[_ Hv] Hf] v' -> A c name Hname. destruct Hv as (_ & Hnames & Hnz).
  pose proof (symbol_required c name Hname) as Hin. rewrite <- Hnames in Hin.
  destruct (find_function_found _ _ Hin) as (fn & Hfind & Hfn). exists fn.
  rewrite Forall_forall in Hnz. split; [by apply (Hnz (name, fn))|]. split.
  - destruct c; cbn in Hname |- *; try done; injection Hname as <-; by rewrite Hfind.
  - specialize (Hf v' eq_refl). unfold found in Hf. rewrite Forall_forall in Hf. by apply (Hf (name, fn)).
Qed.

(** libibverbs is used only when it's complete: [loadLibibverbs()]
    returns functions only when the library loaded and has all those it
    needs, none of them null, and otherwise leaves no library open. *)
Theorem loadLibibverbs_complete `{E : World} (bad : stop -> Prop) (t : trace) :
  wp bad loadLibibverbs (fun v t' =>
    (forall h, bal h t' = bal h t + cnt h (own_verbs v)) /\
    match v with
    | Some v => library_ v <> 0 /\ fst <$> fn_required (funcs_ v) = required_functions /\
                Forall (fun f => snd f <> 0) (fn_required (funcs_ v))
    | None => True
    end) t.
Proof. apply loadLibibverbs_spec. Qed.
