(* ===== verification/Topology.v ===== *)
(** * NIC topology ([src/common/rdma-topology.cpp], [src/common/nic-seam.h])

    Which NIC is closest to a GPU, and which GID a port's connections use.
    [NicTopology] is the interface the rest of the library sees;
    [SysfsTopology] is the implementation over libibverbs and sysfs. *)

From Stdlib Require Import Ascii String.
From stdpp Require Import base numbers list.
From S2P Require Import Prelude.
From S2P Require Import Parse.
From S2P Require Import Gid.
From S2P Require Import IbvCore.
From S2P Require Import World.

(** ** Definitions *)

Record NicInfo := {
  dev_name : chars;
  pcie_bus_id : chars;
  numa_node : Z;
  nic_port_num : Z;
}.

#[export] Instance eta_NicInfo : Eta NicInfo := fun r =>
  {| dev_name := dev_name r; pcie_bus_id := pcie_bus_id r; numa_node := numa_node r;
     nic_port_num := nic_port_num r |}.

Inductive RoceVersion := RoceVersion_Unknown | RoceVersion_V1 | RoceVersion_V2.

(** The interface: [enumerate(hcaList)], and [roceVersion(devName, portNum,
    gidIndex)] *)
Class NicTopology := {
  enumerate : chars -> W (list NicInfo);
  roceVersion : chars -> Z -> Z -> W RoceVersion;
}.

Inductive GidPriority :=
| GidPriority_Unknown | RoceV1LinkLocal | RoceV1Global | RoceV2LinkLocal | RoceV2Global
| RoceV2Ipv4.

Definition GidPriority_value (p : GidPriority) : Z :=
  match p with
  | GidPriority_Unknown => -1 | RoceV1LinkLocal => 0 | RoceV1Global => 1
  | RoceV2LinkLocal => 2 | RoceV2Global => 3 | RoceV2Ipv4 => 5
  end.

Record GidCandidate := { cand_index : Z; cand_gid : Gid; cand_roceVersion : RoceVersion }.

Record RdmaNic := { nic_index : Z; nic_name : chars }.

Definition kPciBusIdBufLen : Z := 32.

Definition IsConfiguredGid (gid : Gid) : bool := negb (bool_decide (gid = zero_gid)).

Definition kLinkLocalPrefix : list Z := [0xfe; 0x80].

Definition LinkLocalGid (gid : Gid) : bool :=
  bool_decide (take (List.length kLinkLocalPrefix) gid = kLinkLocalPrefix).

Definition ClassifyGid (gid : Gid) (roce_ver : RoceVersion) : GidPriority :=
  match roce_ver with
  | RoceVersion_V2 =>
      if isIpv4MappedGid gid then RoceV2Ipv4
      else if LinkLocalGid gid then RoceV2LinkLocal
      else RoceV2Global
  | RoceVersion_V1 => if LinkLocalGid gid then RoceV1LinkLocal else RoceV1Global
  | RoceVersion_Unknown => GidPriority_Unknown
  end.

(** One turn of [PickBestGid()]'s loop, on [best_idx] and [best_prio] *)
Definition pick_step (best : option Z * GidPriority) (c : GidCandidate) : option Z * GidPriority :=
  let (best_idx, best_prio) := best in
  if negb (IsConfiguredGid (cand_gid c)) then best
  else
    let prio := ClassifyGid (cand_gid c) (cand_roceVersion c) in
    if negb (GidPriority_value prio =? GidPriority_value GidPriority_Unknown) &&
       (negb (bool_decide (is_Some best_idx)) ||
        (GidPriority_value best_prio <? GidPriority_value prio))
    then (Some (cand_index c), prio)
    else best.

Definition PickBestGid (candidates : list GidCandidate) : option Z :=
  fst (foldl pick_step (None, GidPriority_Unknown) candidates).

(** [AutoSelectGidIndex()]'s loop, over the indexes left *)
Fixpoint gid_candidates `{World} `{NicTopology} (ctx : ibv_context) (port_num : Z) (indexes : list Z)
    : W (list GidCandidate) :=
  match indexes with
  | [] => mret []
  | i :: indexes' =>
      '(st, gid) ← perform (query_gid ctx port_num i);
      if negb (st =? 0) then gid_candidates ctx port_num indexes'
      else if negb (IsConfiguredGid (toGid gid)) then gid_candidates ctx port_num indexes'
      else
        v ← roceVersion (cStringView (ctx_device_name ctx)) port_num i;
        cs ← gid_candidates ctx port_num indexes';
        mret ({| cand_index := i; cand_gid := toGid gid; cand_roceVersion := v |} :: cs)
  end.

Definition AutoSelectGidIndex `{World} `{NicTopology} (ctx : ibv_context) (port_num : Z)
    : W (option Z) :=
  '(st, port_attr) ← perform (query_port ctx port_num);
  if negb (st =? 0) then mret None
  else
    candidates ← gid_candidates ctx port_num (seqZ 0 (gid_tbl_len port_attr));
    mret (PickBestGid candidates).

Definition SelectBestGid `{World} `{NicTopology} (ctx : ibv_context) (port_num : Z) : W (option Z) :=
  AutoSelectGidIndex ctx port_num.

(** [s.rfind(c)] *)
Fixpoint rfind_char (c : ascii) (s : chars) : option nat :=
  match s with
  | [] => None
  | d :: s' =>
      match rfind_char c s' with
      | Some n => Some (S n)
      | None => if decide (d = c) then Some 0%nat else None
      end
  end.

Definition ExtractBusNumber (pcie_bus_id : chars) : chars :=
  match rfind_char ":"%char pcie_bus_id with
  | None => pcie_bus_id
  | Some last_colon => take last_colon pcie_bus_id
  end.

(** How long a prefix [a] and [b] share *)
Fixpoint common_prefix (a b : chars) : nat :=
  match a, b with
  | x :: a', y :: b' => if decide (x = y) then S (common_prefix a' b') else O
  | _, _ => O
  end.

(** [std::numeric_limits<int>::max()] *)
Definition INT_MAX : Z := ity_max int32_t.

(** Bus ids are file names, so the casts to [int] lose nothing *)
Definition GetBusIdDistance (bus_a bus_b : chars) : Z :=
  if bool_decide (bus_a = []) || bool_decide (bus_b = []) then INT_MAX
  else
    let a := ExtractBusNumber bus_a in
    let b := ExtractBusNumber bus_b in
    if bool_decide (a = b) then 0
    else
      let i := common_prefix a b in
      Z.of_nat (List.length a - i) + Z.of_nat (List.length b - i).

(** Whether a character is a space or a tab *)
Definition is_blank (c : ascii) : bool := (code c =? 32) || (code c =? 9).

(** [hca] without the blanks it starts with, unless it's all blanks *)
Fixpoint drop_blanks (s : chars) : chars :=
  match s with
  | [] => []
  | c :: s' => if is_blank c then drop_blanks s' else s
  end.
Definition trim_hca (hca : chars) : chars :=
  match drop_blanks hca with [] => hca | s => s end.

(** The characters in front of the first comma, and those after it *)
Fixpoint cut_comma (s : chars) : chars * option chars :=
  match s with
  | [] => ([], None)
  | c :: s' =>
      if decide (c = ","%char) then ([], Some s')
      else let (hca, rest) := cut_comma s' in (c :: hca, rest)
  end.

(** The loop: each turn takes a name, and the comma after it, off the list *)
Fixpoint hca_loop (fuel : nat) (hcaList devName : chars) : bool :=
  match fuel with
  | O => false
  | S fuel' =>
      let (hca, rest) := cut_comma hcaList in
      if decide (trim_hca hca = devName) then true
      else match rest with
           | None => false
           | Some hcaList' => hca_loop fuel' hcaList' devName
           end
  end.

Definition HcaListIncludes (hcaList devName : chars) : bool :=
  hca_loop (S (List.length hcaList)) hcaList devName.

(** [std::ranges::min_element(devices, {}, distance)]: the index of the
    first of the least, and the element *)
Fixpoint min_element {A} (key : A -> Z) (l : list A) : option (nat * A) :=
  match l with
  | [] => None
  | x :: l' =>
      match min_element key l' with
      | Some (n, y) => if key y <? key x then Some (S n, y) else Some (0%nat, x)
      | None => Some (0%nat, x)
      end
  end.

(** What [GetClosestNicToGpu()] does with the devices and the GPU's bus id *)
Definition closestNic (devices : list NicInfo) (gpu_bus : chars) : option RdmaNic :=
  let distance nic := GetBusIdDistance (pcie_bus_id nic) gpu_bus in
  match min_element distance devices with
  | None => None
  | Some (i, best) =>
      if distance best =? INT_MAX then None
      else Some {| nic_index := Z.of_nat i; nic_name := dev_name best |}
  end.

Definition GetClosestNicToGpu `{World} `{NicTopology} (gpuIndex : Z) (hcaList : chars)
    : W (option RdmaNic) :=
  '(err, gpu_bus_id) ← perform (deviceGetPCIBusId kPciBusIdBufLen gpuIndex);
  if negb (err =? hipSuccess) then mret None
  else
    let gpu_bus := cStringViewN gpu_bus_id (Z.to_nat kPciBusIdBufLen) in
    devices ← enumerate hcaList;
    mret (closestNic devices gpu_bus).

(** *** Sysfs *)

(** [a / b] of [std::filesystem::path] *)
Definition path_append (a b : chars) : chars :=
  if bool_decide (head b = Some "/"%char) then b
  else if bool_decide (a = []) || bool_decide (last a = Some "/"%char) then a ++ b
  else a ++ "/"%char :: b.

(** [filename()]: what follows the last slash *)
Definition path_filename (p : chars) : chars :=
  match rfind_char "/"%char p with
  | None => p
  | Some n => drop (S n) p
  end.

Definition is_space (c : ascii) : bool :=
  (code c =? 32) || ((9 <=? code c) && (code c <=? 13)).

Fixpoint skip_space (s : chars) : chars :=
  match s with
  | [] => []
  | c :: s' => if is_space c then skip_space s' else s
  end.

(** [stream >> n] for an [int], when the stream holds [s]: what [n] is
    afterwards, or [None] if it's left as it was *)
Definition istream_int (s : chars) : option Z :=
  match skip_space s with
  | [] => None
  | c :: s' =>
      let neg := code c =? 45 in
      let ds := digit_prefix 10 (if neg || (code c =? 43) then s' else c :: s') in
      let n := if neg then - digits_value 10 ds else digits_value 10 ds in
      Some (Z.max (ity_min int32_t) (Z.min (ity_max int32_t) n))
  end.

(** What's in front of the first newline *)
Fixpoint until_newline (s : chars) : chars :=
  match s with
  | [] => []
  | c :: s' => if code c =? 10 then [] else c :: until_newline s'
  end.

(** [std::getline()], when the stream holds [s]: it fails when there's
    nothing to read *)
Definition getline (s : chars) : option chars :=
  match s with
  | [] => None
  | _ :: _ => Some (until_newline s)
  end.

(** [line.find(text) != npos] *)
Fixpoint contains_text (text line : chars) : bool :=
  bool_decide (text `prefix_of` line) ||
  match line with
  | [] => false
  | _ :: line' => contains_text text line'
  end.

Definition sysfs_infiniband : chars := lit "/sys/class/infiniband".

(** The [NicInfo] of an active port *)
Definition nic_info `{World} (name : chars) (p : Z) : W NicInfo :=
  let device_path := path_append (path_append sysfs_infiniband name) (lit "device") in
  resolved ← perform (fs_canonical device_path);
  numa_file ← perform (fs_read (path_append device_path (lit "numa_node")));
  mret {| dev_name := name;
          pcie_bus_id := match resolved with Some path => path_filename path | None => [] end;
          numa_node := match numa_file with
                       | Some s => Z.max (default (-1) (istream_int s)) 0
                       | None => -1
                       end;
          nic_port_num := p |}.

(** The loop over a device's ports, from [p]; [p] is a [uint8_t] *)
Fixpoint active_port `{World} (fuel : nat) (ctx : ibv_context) (name : chars) (phys_port_cnt p : Z)
    : W (option NicInfo) :=
  match fuel with
  | O => halt OutOfFuel
  | S fuel' =>
      if negb (p <=? phys_port_cnt) then mret None
      else
        '(st, port_attr) ← perform (query_port ctx p);
        if negb (st =? 0) then active_port fuel' ctx name phys_port_cnt (wrapu 8 (p + 1))
        else if negb (bool_decide (port_state port_attr = IBV_PORT_ACTIVE)) &&
                negb (bool_decide (port_state port_attr = IBV_PORT_ACTIVE_DEFER))
        then active_port fuel' ctx name phys_port_cnt (wrapu 8 (p + 1))
        else info ← nic_info name p; mret (Some info)
  end.

(** A [uint8_t] has 256 values, so a loop that ends takes fewer turns *)
Definition port_fuel : nat := 256.

(** The loop over the devices *)
Fixpoint enumerate_devices `{World} (hcaList : chars) (devs : list Z) : W (list NicInfo) :=
  match devs with
  | [] => mret []
  | dev :: devs' =>
      if dev =? 0 then mret []
      else
        name ← perform (get_device_name dev);
        match name with
        | None => enumerate_devices hcaList devs'
        | Some name =>
            if negb (bool_decide (hcaList = [])) && negb (HcaListIncludes hcaList name)
            then enumerate_devices hcaList devs'
            else
              ctx ← perform (open_device dev);
              match ctx with
              | None => enumerate_devices hcaList devs'
              | Some ctx =>
                  '(st, attr) ← perform (query_device ctx);
                  info ← (if negb (st =? 0) then mret None
                          else active_port port_fuel ctx name (phys_port_cnt attr) 1);
                  _ ← IbvContextDeleter (Some ctx);
                  rest ← enumerate_devices hcaList devs';
                  mret (option_list info ++ rest)
              end
        end
  end.

Definition sysfs_enumerate `{World} (hcaList : chars) : W (list NicInfo) :=
  '(dev_list, num_devs) ← perform get_device_list;
  match dev_list with
  | None => mret []
  | Some l =>
      result ← (if num_devs <=? 0 then mret []
                else enumerate_devices hcaList (deviceSpan dev_list num_devs));
      _ ← IbvDeviceListDeleter dev_list;
      mret result
  end.

Definition sysfs_roceVersion `{World} (devName : chars) (portNum gidIndex : Z) : W RoceVersion :=
  let path := path_append (path_append (path_append (path_append (path_append
                sysfs_infiniband devName) (lit "ports")) (to_string portNum))
                (lit "gid_attrs/types")) (to_string gidIndex) in
  f ← perform (fs_read path);
  match f with
  | None => mret RoceVersion_Unknown
  | Some contents =>
      match getline contents with
      | None => mret RoceVersion_Unknown
      | Some line =>
          if contains_text (lit "RoCE v2") line then mret RoceVersion_V2
          else if contains_text (lit "IB/RoCE v1") line || contains_text (lit "RoCE v1") line
          then mret RoceVersion_V1
          else mret RoceVersion_Unknown
      end
  end.

Definition SysfsTopology `{World} : NicTopology :=
  {| enumerate := sysfs_enumerate; roceVersion := sysfs_roceVersion |}.

(** What the rest of the library relies on: whatever a topology opens to
    answer, it closes *)
Class TopologyOk `{World} (bad : stop -> Prop) (T : NicTopology) := {
  enumerate_neutral : forall hcaList, neutral bad (enumerate hcaList);
  roceVersion_neutral : forall devName portNum gidIndex,
      neutral bad (roceVersion devName portNum gidIndex);
}.

(** The port loop's [uint8_t] can count past a device's ports *)
Class PortsFit (E : World) := {
  ports_fit : forall t ctx, phys_port_cnt (snd (respond t (query_device ctx))) < 255;
}.

#[export] Instance lab_ports k : PortsFit (lab k).
Proof. split. intros t ctx. reflexivity. Qed.

(** *** Specifications *)

(** Whether a GID table entry can be picked, and its preference *)
Definition qualifies (c : GidCandidate) : bool :=
  IsConfiguredGid (cand_gid c) &&
  (0 <=? GidPriority_value (ClassifyGid (cand_gid c) (cand_roceVersion c))).
Definition preference (c : GidCandidate) : Z :=
  GidPriority_value (ClassifyGid (cand_gid c) (cand_roceVersion c)).

(** The names of a comma-separated list *)
Fixpoint split_commas (s : chars) : list chars :=
  match s with
  | [] => [[]]
  | c :: s' =>
      if decide (c = ","%char) then [] :: split_commas s'
      else match split_commas s' with
           | hca :: rest => (c :: hca) :: rest
           | [] => [[c]]
           end
  end.

(** ** Lemmas *)

(** *** GIDs *)

Lemma GidPriority_value_cases c :
  qualifies c = negb (negb (IsConfiguredGid (cand_gid c))) &&
                negb (preference c =? GidPriority_value GidPriority_Unknown).
Proof.
  unfold qualifies, preference. rewrite negb_involutive. f_equal.
  destruct (ClassifyGid _ _); done.
Qed.

(** The loop's state after the candidates [l]: nothing if none qualifies,
    or the first of the best *)
Definition best_of (l : list GidCandidate) (best : option Z * GidPriority) : Prop :=
  match fst best with
  | None => Forall (fun c => qualifies c = false) l /\ snd best = GidPriority_Unknown
  | Some i => exists l1 c l2, l = l1 ++ c :: l2 /\ cand_index c = i /\ qualifies c = true /\
      GidPriority_value (snd best) = preference c /\
      Forall (fun d => qualifies d = true -> preference d < preference c) l1 /\
      Forall (fun d => qualifies d = true -> preference d <= preference c) l2
  end.

Lemma pick_step_skip best c :
  qualifies c = false -> pick_step best c = best.
Proof.
  rewrite GidPriority_value_cases. unfold pick_step, preference. destruct best as [bi bp].
  destruct (IsConfiguredGid (cand_gid c)); cbn [negb andb]; [|done].
  intros H. by rewrite H.
Qed.

Lemma pick_step_take best c :
  qualifies c = true ->
  pick_step best c =
    if negb (bool_decide (is_Some (fst best))) || (GidPriority_value (snd best) <? preference c)
    then (Some (cand_index c), ClassifyGid (cand_gid c) (cand_roceVersion c)) else best.
Proof.
  rewrite GidPriority_value_cases. unfold pick_step, preference. destruct best as [bi bp].
  destruct (IsConfiguredGid (cand_gid c)); cbn [negb andb]; [|done].
  intros H. rewrite H. done.
Qed.

Lemma pick_step_best l best c : best_of l best -> best_of (l ++ [c]) (pick_step best c).
Proof.
  destruct (qualifies c) eqn:Hq; intros Hb; [rewrite pick_step_take by done
                                            |rewrite pick_step_skip by done].
  - destruct best as [[i|] bp]; cbn [fst snd] in *.
    + rewrite bool_decide_eq_true_2 by done. cbn [negb orb].
      destruct Hb as (l1 & c' & l2 & -> & Hi & Hq' & Hp & H1 & H2). cbn [snd] in Hp. rewrite Hp.
      destruct (Z.ltb_spec (preference c') (preference c)) as [Hlt|Hle].
      * exists (l1 ++ c' :: l2), c, []. split_and!; [done..| |constructor].
        rewrite Forall_app, Forall_cons. split_and!; [|done|];
          (eapply Forall_impl; [eassumption|]); cbn; intros d Hd ?; specialize (Hd ltac:(done)); lia.
      * exists l1, c', (l2 ++ [c]). rewrite <- app_assoc. split_and!; [done..|].
        rewrite Forall_app, Forall_singleton. done.
    + cbn. destruct Hb as [Hb _]. exists l, c, []. split_and!; [done..| |constructor].
      eapply Forall_impl; [exact Hb|]. cbn. congruence.
  - destruct best as [[i|] bp]; cbn in *.
    + destruct Hb as (l1 & c' & l2 & -> & Hi & Hq' & Hp & H1 & H2).
      exists l1, c', (l2 ++ [c]). rewrite <- app_assoc. split_and!; [done..|].
      rewrite Forall_app, Forall_singleton. split; [done|congruence].
    + destruct Hb as [Hb ->]. split; [|done]. by rewrite Forall_app, Forall_singleton.
Qed.

Lemma PickBestGid_best l : best_of l (foldl pick_step (None, GidPriority_Unknown) l).
Proof.
  induction l as [|c l IH] using rev_ind; [done|]. rewrite foldl_app. by apply pick_step_best.
Qed.

(** *** Bus ids *)

Lemma common_prefix_sym a b : common_prefix a b = common_prefix b a.
Proof.
  revert b. induction a as [|x a IH]; intros [|y b]; try done. cbn.
  repeat case_decide; subst; try done. by rewrite IH.
Qed.

Lemma common_prefix_le a b : (common_prefix a b <= List.length a)%nat.
Proof. revert b. induction a as [|x a IH]; intros [|y b]; cbn; try lia. case_decide; [|lia].
  specialize (IH b). lia. Qed.

Lemma common_prefix_full a b :
  common_prefix a b = List.length a -> common_prefix a b = List.length b -> a = b.
Proof.
  revert b. induction a as [|x a IH]; intros [|y b]; cbn; try done.
  case_decide; [|done]. subst. intros H1 H2. f_equal. apply IH; lia.
Qed.

(** *** NIC lists *)

Lemma cut_comma_split s :
  split_commas s = match cut_comma s with
                   | (hca, Some rest) => hca :: split_commas rest
                   | (hca, None) => [hca]
                   end.
Proof.
  induction s as [|c s IH]; [done|]. cbn. case_decide; [done|].
  rewrite IH. by destruct (cut_comma s) as [hca [rest|]].
Qed.

Lemma cut_comma_length s hca rest :
  cut_comma s = (hca, Some rest) -> (List.length rest < List.length s)%nat.
Proof.
  revert hca rest. induction s as [|c s IH]; intros hca rest; [done|]. cbn.
  case_decide; [intros [= <- <-]; lia|].
  destruct (cut_comma s) as [hca' [rest'|]]; intros [= <- <-].
  specialize (IH _ _ eq_refl). lia.
Qed.

Lemma hca_loop_split fuel s d :
  (List.length s < fuel)%nat ->
  hca_loop fuel s d = existsb (fun hca => bool_decide (trim_hca hca = d)) (split_commas s).
Proof.
  revert s. induction fuel as [|fuel IH]; intros s Hl; [lia|]. cbn [hca_loop].
  rewrite cut_comma_split. destruct (cut_comma s) as [hca [rest|]] eqn:Hc; cbn [existsb].
  - case_decide as Hd; [by rewrite bool_decide_eq_true_2|]. rewrite bool_decide_eq_false_2 by done.
    cbn [orb]. apply IH. apply cut_comma_length in Hc. lia.
  - case_decide; [by rewrite bool_decide_eq_true_2|by rewrite bool_decide_eq_false_2].
Qed.

(** *** The closest *)

Lemma min_element_None {A} (key : A -> Z) l : min_element key l = None <-> l = [].
Proof. destruct l as [|x l]; cbn; [done|]. by destruct (min_element key l) as [[n y]|]; case_all. Qed.

(** The first of the least *)
Lemma min_element_Some {A} (key : A -> Z) l n x :
  min_element key l = Some (n, x) ->
  l !! n = Some x /\ Forall (fun y => key x < key y) (take n l) /\ Forall (fun y => key x <= key y) l.
Proof.
  revert n x. induction l as [|y l IH]; intros n x; [done|]. cbn [min_element].
  destruct (min_element key l) as [[m z]|] eqn:Hm.
  - destruct (IH _ _ eq_refl) as (Hz & Hlt & Hle).
    destruct (Z.ltb_spec (key z) (key y)); intros [= <- <-].
    + cbn. split_and!; [done|by constructor|]. constructor; [lia|done].
    + cbn. split_and!; [done|constructor|]. constructor; [lia|].
      eapply Forall_impl; [exact Hle|]. cbn. lia.
  - apply min_element_None in Hm as ->. intros [= <- <-]. cbn.
    split_and!; [done|constructor|]. by constructor.
Qed.

(** *** What a topology opens, it closes *)

Section neutral.
Context `{E : World} (bad : stop -> Prop).

Lemma gid_candidates_spec `{T : NicTopology} `{!TopologyOk bad T} ctx port indexes t :
  wp bad (gid_candidates ctx port indexes)
     (fun cs t' => (forall h, bal h t' = bal h t) /\
                   Forall (fun c => cand_index c ∈ indexes /\
                                    IsConfiguredGid (cand_gid c) = true) cs) t.
Proof.
  revert t. induction indexes as [|i indexes IH]; intros t; cbn [gid_candidates].
  - wrun. split; [done|constructor].
  - assert (forall t' : trace, (forall h, bal h t' = bal h t) ->
            wp bad (gid_candidates ctx port indexes)
              (fun cs t' => (forall h, bal h t' = bal h t) /\
                   Forall (fun c => cand_index c ∈ i :: indexes /\
                                    IsConfiguredGid (cand_gid c) = true) cs) t') as Hskip.
    { intros t' Ht'. eapply wp_mono; [apply IH|]. cbv beta. intros cs t'' [Hb Hf]. split.
      - intros h. by rewrite Hb, Ht'.
      - eapply Forall_impl; [exact Hf|]. cbn. intros c [? ?]. split; [by right|done]. }
    wstep. wstep. destruct r as [st gid].
    destruct (negb (st =? 0)); [by apply Hskip|].
    destruct (IsConfiguredGid (toGid gid)) eqn:Hc; cbn [negb]; [|by apply Hskip].
    apply wp_bind. eapply wp_neutral; [apply roceVersion_neutral|]. intros v t1 H1.
    apply wp_bind. eapply wp_mono; [apply IH|]. cbv beta. intros cs t2 [H2 Hf]. wstep. split.
    + intros h. rewrite H2, H1. done.
    + constructor; [split; [by left|done]|].
      eapply Forall_impl; [exact Hf|]. cbn. intros c [? ?]. split; [by right|done].
Qed.

Lemma SelectBestGid_neutral `{T : NicTopology} `{!TopologyOk bad T} ctx port :
  neutral bad (SelectBestGid ctx port).
Proof.
  intros t. unfold SelectBestGid, AutoSelectGidIndex. wstep. wstep. destruct r as [st attr].
  wstep; [by wstep|]. wstep. eapply wp_mono; [apply gid_candidates_spec|]. cbv beta.
  intros cs t' [Hb _]. wstep. intros h. by rewrite Hb.
Qed.

Lemma nic_info_neutral name p : neutral bad (nic_info name p).
Proof. intros t. unfold nic_info. wrun. bal_solve. Qed.

(** The port loop ends when the ports fit its counter *)
Lemma active_port_neutral fuel ctx name cnt p :
  bad OutOfFuel \/ (0 <= p /\ cnt < 255 /\ Z.max 0 (cnt + 1 - p) < Z.of_nat fuel) ->
  neutral bad (active_port fuel ctx name cnt p).
Proof.
  revert p. induction fuel as [|fuel IH]; intros p Hf t; cbn [active_port].
  - apply wp_halt. destruct Hf; [done|lia].
  - destruct (Z.leb_spec p cnt) as [Hp|Hp]; cbn [negb]; [|by wstep].
    assert (forall t' : trace, (forall h, bal h t' = bal h t) ->
            wp bad (active_port fuel ctx name cnt (wrapu 8 (p + 1)))
               (fun _ t' => forall h, bal h t' = bal h t) t') as Hnext.
    { intros t' Ht'. eapply wp_neutral; [apply IH|intros ? ? H h; by rewrite H, Ht'].
      destruct Hf as [|(Hp0 & Hc & Hm)]; [by left|right]. rewrite wrapu_small by (change (2 ^ 8) with 256; lia). lia. }
    wstep. wstep. destruct r as [st attr].
    destruct (negb (st =? 0)); [by apply Hnext|].
    destruct (negb _ && negb _); [by apply Hnext|].
    wstep. eapply wp_neutral; [apply nic_info_neutral|]. intros info t1 H1. wstep.
    intros h. by rewrite H1.
Qed.

Hypothesis Hports : bad OutOfFuel \/ PortsFit E.

Lemma enumerate_devices_neutral hcaList devs : neutral bad (enumerate_devices hcaList devs).
Proof.
  induction devs as [|dev devs IH]; intros t; cbn [enumerate_devices]; [by wstep|].
  wstep; [by wstep|]. wstep. wstep.
  assert (forall t' : trace, (forall h, bal h t' = bal h t) ->
          wp bad (enumerate_devices hcaList devs)
             (fun _ t' => forall h, bal h t' = bal h t) t') as Hnext.
  { intros t' Ht'. eapply wp_neutral; [apply IH|]. intros ? ? H h. by rewrite H, Ht'. }
  destruct r as [name|]; [|by apply Hnext].
  destruct (negb _ && negb _); [by apply Hnext|].
  wstep. wstep. destruct r as [ctx|]; [|by apply Hnext].
  wstep. apply wp_perform_eq. destruct (respond _ (query_device ctx)) as [st attr] eqn:Hq.
  wstep. eapply (wp_neutral _ (if negb (st =? 0) then mret None
      else active_port port_fuel ctx name (phys_port_cnt attr) 1)).
  { destruct (negb (st =? 0)); [by intros ?; wstep|]. apply active_port_neutral.
    destruct Hports as [|Hp]; [by left|right].
    pose proof (ports_fit (Ev (open_device dev) (Some ctx) :: Ev (get_device_name dev) (Some name) :: t) ctx) as Hf.
    rewrite Hq in Hf. cbn [snd] in Hf. unfold port_fuel. lia. }
  intros info t1 H1. wstep. apply wp_IbvContextDeleter. intros t2 H2.
  wstep. eapply wp_neutral; [apply IH|]. intros rest t3 H3. wstep.
  bal_solve.
Qed.

#[export] Instance SysfsTopology_ok : TopologyOk bad SysfsTopology.
Proof.
  split.
  - intros hca t. cbn [enumerate SysfsTopology]. unfold sysfs_enumerate.
    wstep. wstep. destruct r as [[l|] num]; [|by wstep].
    wstep. eapply (wp_neutral _ (if num <=? 0 then mret []
      else enumerate_devices hca (deviceSpan (Some l) num))).
    { destruct (num <=? 0); [by intros ?; wstep|]. apply enumerate_devices_neutral. }
    intros result t1 H1. wstep. apply wp_IbvDeviceListDeleter. intros t2 H2. wstep. bal_solve.
  - intros dev port gid t. cbn [roceVersion SysfsTopology]. unfold sysfs_roceVersion.
    wrun; bal_solve.
Qed.

Lemma GetClosestNicToGpu_neutral `{T : NicTopology} `{!TopologyOk bad T} gpu hca :
  neutral bad (GetClosestNicToGpu gpu hca).
Proof.
  intros t. unfold GetClosestNicToGpu. wstep. wstep. destruct r as [err id]. wstep; [by wstep|].
  wstep. eapply wp_neutral; [apply enumerate_neutral|]. intros devs t1 H1. wstep. bal_solve.
Qed.
End neutral.

Lemma GetBusIdDistance_zero a b :
  a <> [] -> b <> [] ->
  GetBusIdDistance a b = 0 <-> ExtractBusNumber a = ExtractBusNumber b.
Proof.
  intros Ha Hb. unfold GetBusIdDistance. rewrite !bool_decide_eq_false_2 by done. cbn [orb].
  case_bool_decide as He; [done|]. split; [|done]. intros Hz.
  pose proof (common_prefix_le (ExtractBusNumber a) (ExtractBusNumber b)).
  pose proof (common_prefix_le (ExtractBusNumber b) (ExtractBusNumber a)) as Hle.
  rewrite common_prefix_sym in Hle. destruct He. apply common_prefix_full; lia.
Qed.

(** ** Properties *)

(** C29: [PickBestGid()] returns the index of the best GID: the first of the
    configured, known-type candidates with the highest priority, and nothing
    only when no candidate qualifies. *)
Theorem PickBestGid_spec (candidates : list GidCandidate) :
  match PickBestGid candidates with
  | Some i => exists before c after,
      candidates = before ++ c :: after /\ cand_index c = i /\ qualifies c = true /\
      Forall (fun d => qualifies d = true -> preference d < preference c) before /\
      Forall (fun d => qualifies d = true -> preference d <= preference c) after
  | None => Forall (fun d => qualifies d = false) candidates
  end.
Proof.
  unfold PickBestGid. pose proof (PickBestGid_best candidates) as H. unfold best_of in H.
  destruct (foldl _ _ _) as [[i|] prio]; cbn [fst] in *; [|apply H].
  destruct H as (l1 & c & l2 & ? & ? & ? & _ & ? & ?). by exists l1, c, l2.
Qed.

(** The NIC that [GetClosestNicToGpu()] chooses is one of the enumerated
    NICs, at its own index, with a known bus id, the first of those nearest
    to the GPU; nothing is chosen only when no NIC's distance is known. *)
Theorem closestNic_spec (devices : list NicInfo) (gpu_bus : chars) :
  match closestNic devices gpu_bus with
  | Some nic => exists i best, nic_index nic = Z.of_nat i /\ devices !! i = Some best /\
      nic_name nic = dev_name best /\ GetBusIdDistance (pcie_bus_id best) gpu_bus <> INT_MAX /\
      Forall (fun d => GetBusIdDistance (pcie_bus_id best) gpu_bus <
                       GetBusIdDistance (pcie_bus_id d) gpu_bus) (take i devices) /\
      Forall (fun d => GetBusIdDistance (pcie_bus_id best) gpu_bus <=
                       GetBusIdDistance (pcie_bus_id d) gpu_bus) devices
  | None => Forall (fun d => INT_MAX <= GetBusIdDistance (pcie_bus_id d) gpu_bus) devices
  end.
Proof.
  unfold closestNic. destruct (min_element _ devices) as [[i best]|] eqn:Hm.
  - apply min_element_Some in Hm as (Hi & Hlt & Hle).
    destruct (Z.eqb_spec (GetBusIdDistance (pcie_bus_id best) gpu_bus) INT_MAX) as [He|Hne].
    + by rewrite He in Hle.
    + by exists i, best.
  - apply min_element_None in Hm as ->. constructor.
Qed.

(** The distance between bus ids is symmetric and never negative, an
    unknown id is as far as can be from every other, and known ids are at
    distance 0 exactly when they agree up to their last colon, that is, when
    they differ in nothing but the device and the function. *)
Theorem GetBusIdDistance_laws (a b : chars) :
  GetBusIdDistance a b = GetBusIdDistance b a /\ 0 <= GetBusIdDistance a b /\
  GetBusIdDistance [] b = INT_MAX /\
  (a = [] \/ b = [] \/
   (GetBusIdDistance a b = 0 <-> ExtractBusNumber a = ExtractBusNumber b)).
Proof.
  split_and!.
  - unfold GetBusIdDistance. rewrite orb_comm, (common_prefix_sym (ExtractBusNumber b)).
    case_match; [done|]. repeat case_bool_decide; congruence || lia.
  - unfold GetBusIdDistance. repeat case_match; try done; lia.
  - done.
  - destruct (decide (a = [])) as [|Ha]; [by left|].
    destruct (decide (b = [])) as [|Hb]; [by right; left|].
    right; right. by apply GetBusIdDistance_zero.
Qed.

(** C38: [HcaListIncludes()] finds a name exactly when splitting the list at
    its commas gives it, without the spaces and tabs in front of it. *)
Theorem HcaListIncludes_spec (hcaList devName : chars) :
  HcaListIncludes hcaList devName = true <->
  exists hca, hca ∈ split_commas hcaList /\ trim_hca hca = devName.
Proof.
  unfold HcaListIncludes. rewrite hca_loop_split by lia. rewrite existsb_exists.
  split; intros (hca & Hin & Hd); exists hca; rewrite list_elem_of_In, bool_decide_eq_true in *;
    done.
Qed.

(** A device whose ports are all down, and which reports 255 of them *)
Definition ports_down (E : World) (ctx : ibv_context) : Prop :=
  forall t p, fst (respond t (query_port ctx p)) <> 0.

(** C40: [SysfsTopology::enumerate()]'s port loop counts in a [uint8_t], so it
    never ends on a device that reports 255 ports, none of them usable: the
    counter wraps from 255 to 0, whatever number of turns it's given. *)
Theorem active_port_255_diverges (E : World) (ctx : ibv_context) (name : chars) (fuel : nat)
    (p : Z) (t : trace) (Hdown : ports_down E ctx) (Hp : 0 <= p < 256) :
  fst (active_port fuel ctx name 255 p t) = inr OutOfFuel.
Proof.
  revert p t Hp. induction fuel as [|fuel IH]; intros p t Hp; [done|]. cbn [active_port].
  rewrite (proj2 (Z.leb_le p 255)) by lia. cbn [negb].
  unfold mbind, M_bind, perform. specialize (Hdown t p).
  destruct (respond t (query_port ctx p)) as [st attr]. cbn [fst] in Hdown.
  rewrite (proj2 (Z.eqb_neq st 0)) by done. cbn [negb].
  apply IH. apply (wrapu_range 8). lia.
Qed.

Definition some_context : ibv_context := {| ctx_addr := 1; ctx_device_name := lit "mlx5_0" |}.

Lemma active_port_255_diverges_witness :
  ports_down failing_world some_context /\
  fst (@active_port failing_world port_fuel some_context (lit "mlx5_0") 255 1 []) = inr OutOfFuel.
Proof.
  assert (ports_down failing_world some_context) as H by (intros t p; discriminate).
  split; [exact H|]. apply (active_port_255_diverges failing_world); [exact H|lia].
Defined.
