(* ===== verification/Transport.v ===== *)
(** * Devices and connections ([src/rdma/transport.h], [src/rdma/transport.cpp],
    [src/rdma/vendor-ops.h] and the vendors' backends)

    Opening a device and choosing its GID, creating a reliable-connected QP,
    its state transitions, and waiting for a completion. *)

From Stdlib Require Import String.
From stdpp Require Import base numbers list.
From S2P Require Import Prelude.
From S2P Require Import Gid.
From S2P Require Import Token.
From S2P Require Import IbvCore.
From S2P Require Import World.
From S2P Require Import Topology.

(** ** Definitions *)

(** Which vendor backends are built *)
Class BuildConfig := { HIPOBJ_BNXT : bool; HIPOBJ_IONIC : bool }.

Definition kVendorIdBroadcom : Z := 0x14E4.
Definition kVendorIdPensando : Z := 0x1DD8.
Definition kQpTimeout : Z := 14.
Definition kQpRetryCount : Z := 7.
Definition kQpRnrRetry : Z := 7.

Definition isBnxtDevice (vendorId : Z) : bool := vendorId =? kVendorIdBroadcom.
Definition isIonicDevice (vendorId : Z) : bool := vendorId =? kVendorIdPensando.

Definition configureBnxtQp (attr : ibv_qp_attr) : ibv_qp_attr :=
  attr <| path_mtu := Some IBV_MTU_4096 |> <| timeout := kQpTimeout |>
       <| retry_cnt := kQpRetryCount |> <| rnr_retry := kQpRnrRetry |>.

Definition configureIonicQp (attr : ibv_qp_attr) : ibv_qp_attr :=
  attr <| path_mtu := Some IBV_MTU_4096 |> <| timeout := kQpTimeout |>
       <| retry_cnt := kQpRetryCount |> <| rnr_retry := kQpRnrRetry |>.

(** The [Verbs] it came from is the [World]'s *)
Record RdmaDevice := {
  dev_context : ibv_context;
  dev_pd : ibv_pd;
  dev_portNum : Z;
  dev_gidIndex : Z;
  dev_localGid : ibv_gid;
  dev_vendorId : option Z;
}.

(** The device it's on never changes, so the connection holds its value *)
Record RcConnection := { rc_device : RdmaDevice; rc_cq : ibv_cq; rc_qp : ibv_qp }.

Definition kPortNum : Z := 1.
Definition kMinRnrTimer : Z := 12.
Definition kHopLimit : Z := 64.

(** [pd_] is destroyed before [ctx_], and [qp_] before [cq_] *)
Definition destroy_device_parts `{World} (pd : option ibv_pd) (ctx : ibv_context) : W unit :=
  _ ← IbvPdDeleter pd; IbvContextDeleter (Some ctx).

Definition destroy_RdmaDevice `{World} (device : RdmaDevice) : W unit :=
  destroy_device_parts (Some (dev_pd device)) (dev_context device).

Definition destroy_RcConnection `{World} (conn : RcConnection) : W unit :=
  _ ← IbvQpDeleter (Some (rc_qp conn)); IbvCqDeleter (Some (rc_cq conn)).

Definition openRdmaDevice `{World} `{NicTopology} (nicIndex : Z) : W (option RdmaDevice) :=
  '(devList, numDevs) ← perform get_device_list;
  if bool_decide (devList = None) || (numDevs <=? 0) || (nicIndex <? 0) || (numDevs <=? nicIndex)
  then _ ← IbvDeviceListDeleter devList; mret None
  else
    let dev := nth (Z.to_nat nicIndex) (deviceSpan devList numDevs) 0 in
    if dev =? 0 then _ ← IbvDeviceListDeleter devList; mret None
    else
      ctx ← perform (open_device dev);
      _ ← IbvDeviceListDeleter devList;
      match ctx with
      | None => mret None
      | Some ctx =>
          pd ← perform (alloc_pd ctx);
          match pd with
          | None => _ ← destroy_device_parts None ctx; mret None
          | Some pd =>
              '(st, portAttr) ← perform (query_port ctx kPortNum);
              if negb (st =? 0) then _ ← destroy_device_parts (Some pd) ctx; mret None
              else
                best ← SelectBestGid ctx kPortNum;
                let gidIndex := default 0 best in
                '(st, localGid) ← perform (query_gid ctx kPortNum gidIndex);
                if negb (st =? 0) then _ ← destroy_device_parts (Some pd) ctx; mret None
                else
                  '(st, devAttr) ← perform (query_device ctx);
                  let vendorId := if st =? 0 then Some (vendor_id devAttr) else None in
                  mret (Some {| dev_context := ctx; dev_pd := pd; dev_portNum := kPortNum;
                                dev_gidIndex := gidIndex; dev_localGid := localGid;
                                dev_vendorId := vendorId |})
          end
      end.

(** The loop that looks for a device's name, from index [i] *)
Fixpoint find_device `{World} (devs : list Z) (devName : chars) (i : Z) : W Z :=
  match devs with
  | [] => mret (-1)
  | dev :: devs' =>
      name ← perform (get_device_name dev);
      if bool_decide (name = Some devName) then mret i else find_device devs' devName (i + 1)
  end.

(** [devList] is released when the function returns, so after
    [openRdmaDevice()] *)
Definition openRdmaDeviceByName `{World} `{NicTopology} (devName : chars) : W (option RdmaDevice) :=
  if bool_decide (devName = []) then mret None
  else
    '(devList, numDevs) ← perform get_device_list;
    if bool_decide (devList = None) || (numDevs <=? 0)
    then _ ← IbvDeviceListDeleter devList; mret None
    else
      nicIndex ← find_device (deviceSpan devList numDevs) devName 0;
      if nicIndex <? 0 then _ ← IbvDeviceListDeleter devList; mret None
      else
        opened ← openRdmaDevice nicIndex;
        _ ← IbvDeviceListDeleter devList;
        mret opened.

Definition init_attr (device : RdmaDevice) : ibv_qp_attr :=
  zeroed_qp_attr <| qp_state := IBV_QPS_INIT |> <| pkey_index := 0 |>
                 <| port_num := dev_portNum device |>
                 <| qp_access_flags := Z.lor IBV_ACCESS_REMOTE_READ IBV_ACCESS_REMOTE_WRITE |>.
Definition init_mask : Z :=
  foldl Z.lor IBV_QP_STATE [IBV_QP_PKEY_INDEX; IBV_QP_PORT; IBV_QP_ACCESS_FLAGS].

Definition transitionQpToInit `{World} (conn : RcConnection) : W bool :=
  st ← perform (modify_qp (rc_qp conn) (init_attr (rc_device conn)) init_mask);
  mret (st =? 0).

Definition applyVendorQpAttrs `{BuildConfig} (device : RdmaDevice) (attr : ibv_qp_attr) : ibv_qp_attr :=
  match dev_vendorId device with
  | None => attr
  | Some vendorId =>
      let attr := if HIPOBJ_BNXT && isBnxtDevice vendorId then configureBnxtQp attr else attr in
      if HIPOBJ_IONIC && isIonicDevice vendorId then configureIonicQp attr else attr
  end.

Definition createRcConnection `{World} (device : RdmaDevice) (cqSize maxSendWr maxRecvWr : Z)
    : W (option RcConnection) :=
  cq ← perform (create_cq (dev_context device) cqSize 0 0 0);
  match cq with
  | None => mret None
  | Some cq =>
      let initAttr := {| qp_context := 0; send_cq := cq_addr cq; recv_cq := cq_addr cq; srq := 0;
                         init_cap := {| max_send_wr := maxSendWr; max_recv_wr := maxRecvWr;
                                        max_send_sge := 1; max_recv_sge := 1;
                                        max_inline_data := 0 |};
                         qp_type := IBV_QPT_RC; sq_sig_all := 0 |} in
      qp ← perform (create_qp (dev_pd device) initAttr);
      match qp with
      | None => _ ← IbvCqDeleter (Some cq); mret None
      | Some qp =>
          let conn := {| rc_device := device; rc_cq := cq; rc_qp := qp |} in
          ok ← transitionQpToInit conn;
          if negb ok then _ ← destroy_RcConnection conn; mret None
          else mret (Some conn)
      end
  end.

(** [transitionQpToRtr()]'s attributes *)
Definition rtr_attr `{BuildConfig} (device : RdmaDevice) (destQpNum destLid : Z) (destGid : ibv_gid)
    : ibv_qp_attr :=
  let attr := zeroed_qp_attr <| qp_state := IBV_QPS_RTR |> <| path_mtu := Some IBV_MTU_4096 |> in
  let attr := applyVendorQpAttrs device attr in
  let ah := (ah_attr attr) <| is_global := 1 |> <| dlid := destLid |> <| ah_sl := 0 |>
              <| src_path_bits := 0 |> <| ah_port_num := dev_portNum device |> in
  let route := (grh ah) <| dgid := destGid |> <| flow_label := 0 |> <| hop_limit := kHopLimit |>
                 <| sgid_index := wrapu 8 (dev_gidIndex device) |> <| traffic_class := 0 |> in
  let ah := ah <| grh := route |> in
  attr <| dest_qp_num := destQpNum |> <| rq_psn := 0 |> <| max_dest_rd_atomic := 1 |>
       <| min_rnr_timer := kMinRnrTimer |> <| ah_attr := ah |>.
Definition rtr_mask : Z :=
  foldl Z.lor IBV_QP_STATE [IBV_QP_AV; IBV_QP_PATH_MTU; IBV_QP_DEST_QPN; IBV_QP_RQ_PSN;
                            IBV_QP_MAX_DEST_RD_ATOMIC; IBV_QP_MIN_RNR_TIMER].

Definition transitionQpToRtr `{World} `{BuildConfig} (conn : RcConnection) (destQpNum destLid : Z)
    (destGid : ibv_gid) : W bool :=
  let device := rc_device conn in
  if negb (in_range uint8_t (dev_gidIndex device)) then mret false
  else
    st ← perform (modify_qp (rc_qp conn) (rtr_attr device destQpNum destLid destGid) rtr_mask);
    mret (st =? 0).

(** [transitionQpToRts()]'s attributes *)
Definition rts_attr `{BuildConfig} (device : RdmaDevice) : ibv_qp_attr :=
  let attr := zeroed_qp_attr <| qp_state := IBV_QPS_RTS |> in
  let attr := applyVendorQpAttrs device attr in
  attr <| timeout := kQpTimeout |> <| retry_cnt := kQpRetryCount |> <| rnr_retry := kQpRnrRetry |>
       <| sq_psn := 0 |> <| max_rd_atomic := 1 |>.
Definition rts_mask : Z :=
  foldl Z.lor IBV_QP_STATE [IBV_QP_TIMEOUT; IBV_QP_RETRY_CNT; IBV_QP_RNR_RETRY; IBV_QP_SQ_PSN;
                            IBV_QP_MAX_QP_RD_ATOMIC].

Definition transitionQpToRts `{World} `{BuildConfig} (conn : RcConnection) : W bool :=
  st ← perform (modify_qp (rc_qp conn) (rts_attr (rc_device conn)) rts_mask);
  mret (st =? 0).

Definition connectRcPeer `{World} `{BuildConfig} (conn : RcConnection) (peerToken : RdmaToken) : W bool :=
  if negb (bool_decide (tok_transport peerToken = RC)) then mret false
  else
    ok ← transitionQpToRtr conn (tok_qpNum peerToken) (tok_lid peerToken) (toIbvGid (tok_gid peerToken));
    if negb ok then mret false else transitionQpToRts conn.

Definition reset_attr : ibv_qp_attr := zeroed_qp_attr <| qp_state := IBV_QPS_RESET |>.

Definition transitionQpToReset `{World} (conn : RcConnection) : W bool :=
  st ← perform (modify_qp (rc_qp conn) reset_attr IBV_QP_STATE);
  mret (st =? 0).

(** [drainCompletions()]'s loop, with [left] polls to go *)
Fixpoint drain_loop `{World} (conn : RcConnection) (left : nat) : W bool :=
  match left with
  | O => mret true
  | S left' =>
      '(n, wc) ← perform (poll_cq (rc_cq conn) 1);
      if n <? 0 then mret false
      else if n =? 0 then mret true
      else drain_loop conn left'
  end.

Definition drainCompletions `{World} (conn : RcConnection) : W bool :=
  drain_loop conn (Z.to_nat (cq_cqe (rc_cq conn))).

Definition resetRcConnection `{World} (conn : RcConnection) : W bool :=
  ok ← transitionQpToReset conn;
  if negb ok then mret false
  else
    ok ← drainCompletions conn;
    if negb ok then mret false else transitionQpToInit conn.

(** [pollCompletion()]'s loop *)
Fixpoint poll_loop `{World} (fuel : nat) (conn : RcConnection) (expectedOpcode : option ibv_wc_opcode)
    (ms deadline : Z) : W bool :=
  match fuel with
  | O => halt OutOfFuel
  | S fuel' =>
      now ← perform clock_now;
      if negb (now <? deadline) then
        _ ← perform (print_stderr (NoCompletion ms (ibv_wc_opcode_value <$> expectedOpcode)));
        mret false
      else
        '(n, wc) ← perform (poll_cq (rc_cq conn) 1);
        if n <? 0 then mret false
        else if n =? 0 then
          _ ← perform (sleep_for 1);
          poll_loop fuel' conn expectedOpcode ms deadline
        else if negb (bool_decide (wc_status wc = IBV_WC_SUCCESS)) then
          _ ← perform (print_stderr (CompletionFailed (ibv_wc_status_value (wc_status wc))
                 (ibv_wc_opcode_value (wc_opcode wc)) (vendor_err wc) (wc_wr_id wc)));
          mret false
        else
          match expectedOpcode with
          | None => mret true
          | Some op =>
              if bool_decide (wc_opcode wc = op) then mret true
              else poll_loop fuel' conn expectedOpcode ms deadline
          end
  end.

(** [fuel] is one more than the turns the loop can take *)
Definition pollCompletion `{World} (fuel : nat) (conn : RcConnection)
    (expectedOpcode : option ibv_wc_opcode) (ms : Z) : W bool :=
  now ← perform clock_now;
  poll_loop fuel conn expectedOpcode ms (now + ms).

(** A turn that finds no completion takes at least a millisecond *)
Definition poll_fuel (ms : Z) : nat := S (Z.to_nat ms).

(** What a device and a connection own *)
Definition own_device (d : RdmaDevice) : list handle :=
  [HPd (pd_addr (dev_pd d)); HContext (ctx_addr (dev_context d))].
Definition own_conn (c : RcConnection) : list handle :=
  [HQp (qp_addr (rc_qp c)); HCq (cq_addr (rc_cq c))].
Definition own_opt {A} (own : A -> list handle) (o : option A) : list handle :=
  match o with Some a => own a | None => [] end.

Ltac bal_unfold ::= unfold own_opt, own_device, own_conn in *;
  cbn [dev_pd dev_context rc_qp rc_cq] in *.

(** *** The QP state machine of the InfiniBand specification

    The transitions the library makes: where a QP has to be, and which
    attributes the call has to carry. *)
Definition has_flags (mask flags : Z) : bool := Z.land mask flags =? flags.

Definition legal_transition (from to : ibv_qp_state) (mask : Z) : bool :=
  has_flags mask IBV_QP_STATE &&
  match from, to with
  | _, IBV_QPS_RESET => true
  | IBV_QPS_RESET, IBV_QPS_INIT =>
      has_flags mask (foldl Z.lor 0 [IBV_QP_PKEY_INDEX; IBV_QP_PORT; IBV_QP_ACCESS_FLAGS])
  | IBV_QPS_INIT, IBV_QPS_RTR =>
      has_flags mask (foldl Z.lor 0 [IBV_QP_AV; IBV_QP_PATH_MTU; IBV_QP_DEST_QPN; IBV_QP_RQ_PSN;
                                     IBV_QP_MAX_DEST_RD_ATOMIC; IBV_QP_MIN_RNR_TIMER])
  | IBV_QPS_RTR, IBV_QPS_RTS =>
      has_flags mask (foldl Z.lor 0 [IBV_QP_TIMEOUT; IBV_QP_RETRY_CNT; IBV_QP_RNR_RETRY;
                                     IBV_QP_SQ_PSN; IBV_QP_MAX_QP_RD_ATOMIC])
  | _, _ => false
  end.

(** The state of [qp] after a trace: RESET when it's created, and what each
    modification that succeeds sets. [None] once a modification is asked of
    it that its state doesn't allow. *)
Definition qp_next (qp : ibv_qp) (e : event) (st : option ibv_qp_state) : option ibv_qp_state :=
  match e with
  | Ev (create_qp _ _) (Some q) => if decide (q = qp) then Some IBV_QPS_RESET else st
  | Ev (modify_qp q attr mask) r =>
      if decide (q = qp) then
        st ← st;
        if legal_transition st (qp_state attr) mask
        then Some (if r =? 0 then qp_state attr else st)
        else None
      else st
  | _ => st
  end.

Fixpoint qp_track (qp : ibv_qp) (t : trace) : option ibv_qp_state :=
  match t with
  | [] => None
  | e :: t' => qp_next qp e (qp_track qp t')
  end.

(** *** The attributes a modification reads

    [masked mask a] is [a] with every field that [mask] doesn't name at its
    zero, so two calls of [ibv_modify_qp()] with one mask ask for the same
    thing exactly when the masked attributes are equal. *)
Definition keep {A} (mask flag : Z) (v zero : A) : A := if has_flags mask flag then v else zero.

Definition masked (mask : Z) (a : ibv_qp_attr) : ibv_qp_attr :=
  let z := zeroed_qp_attr in
  {| qp_state := keep mask IBV_QP_STATE (qp_state a) (qp_state z);
     cur_qp_state := keep mask IBV_QP_CUR_STATE (cur_qp_state a) (cur_qp_state z);
     path_mtu := keep mask IBV_QP_PATH_MTU (path_mtu a) (path_mtu z);
     path_mig_state := keep mask IBV_QP_PATH_MIG_STATE (path_mig_state a) (path_mig_state z);
     qkey := keep mask IBV_QP_QKEY (qkey a) 0;
     rq_psn := keep mask IBV_QP_RQ_PSN (rq_psn a) 0;
     sq_psn := keep mask IBV_QP_SQ_PSN (sq_psn a) 0;
     dest_qp_num := keep mask IBV_QP_DEST_QPN (dest_qp_num a) 0;
     qp_access_flags := keep mask IBV_QP_ACCESS_FLAGS (qp_access_flags a) 0;
     attr_cap := keep mask IBV_QP_CAP (attr_cap a) (attr_cap z);
     ah_attr := keep mask IBV_QP_AV (ah_attr a) (ah_attr z);
     alt_ah_attr := keep mask IBV_QP_ALT_PATH (alt_ah_attr a) (alt_ah_attr z);
     pkey_index := keep mask IBV_QP_PKEY_INDEX (pkey_index a) 0;
     alt_pkey_index := keep mask IBV_QP_ALT_PATH (alt_pkey_index a) 0;
     en_sqd_async_notify := keep mask IBV_QP_EN_SQD_ASYNC_NOTIFY (en_sqd_async_notify a) 0;
     sq_draining := 0;
     max_rd_atomic := keep mask IBV_QP_MAX_QP_RD_ATOMIC (max_rd_atomic a) 0;
     max_dest_rd_atomic := keep mask IBV_QP_MAX_DEST_RD_ATOMIC (max_dest_rd_atomic a) 0;
     min_rnr_timer := keep mask IBV_QP_MIN_RNR_TIMER (min_rnr_timer a) 0;
     port_num := keep mask IBV_QP_PORT (port_num a) 0;
     timeout := keep mask IBV_QP_TIMEOUT (timeout a) 0;
     retry_cnt := keep mask IBV_QP_RETRY_CNT (retry_cnt a) 0;
     rnr_retry := keep mask IBV_QP_RNR_RETRY (rnr_retry a) 0;
     alt_port_num := keep mask IBV_QP_ALT_PATH (alt_port_num a) 0;
     alt_timeout := keep mask IBV_QP_ALT_PATH (alt_timeout a) 0;
     rate_limit := keep mask IBV_QP_RATE_LIMIT (rate_limit a) 0 |}.

Definition without_vendor (d : RdmaDevice) : RdmaDevice :=
  {| dev_context := dev_context d; dev_pd := dev_pd d; dev_portNum := dev_portNum d;
     dev_gidIndex := dev_gidIndex d; dev_localGid := dev_localGid d; dev_vendorId := None |}.

(** ** Lemmas *)

Section transport.
Context `{E : World} `{B : BuildConfig} (bad : stop -> Prop).

Lemma wp_destroy_RcConnection c Q t :
  (forall t', (forall h, bal h t' = bal h t - cnt h (own_conn c)) -> Q tt t') ->
  wp bad (destroy_RcConnection c) Q t.
Proof.
  intros H. unfold destroy_RcConnection. wstep. apply wp_IbvQpDeleter. intros t1 H1.
  apply wp_IbvCqDeleter. intros t2 H2. apply H. unfold own_conn. bal_solve.
Qed.

Lemma wp_destroy_device_parts pd ctx Q t :
  (forall t', (forall h, bal h t' = bal h t -
      cnt h (match pd with Some p => [HPd (pd_addr p)] | None => [] end ++
             [HContext (ctx_addr ctx)])) -> Q tt t') ->
  wp bad (destroy_device_parts pd ctx) Q t.
Proof.
  intros H. unfold destroy_device_parts. wstep. apply wp_IbvPdDeleter. intros t1 H1.
  apply wp_IbvContextDeleter. intros t2 H2. apply H. bal_solve.
Qed.

Lemma wp_destroy_RdmaDevice d Q t :
  (forall t', (forall h, bal h t' = bal h t - cnt h (own_device d)) -> Q tt t') ->
  wp bad (destroy_RdmaDevice d) Q t.
Proof.
  intros H. apply wp_destroy_device_parts. intros t' Ht. apply H. unfold own_device.
  bal_solve.
Qed.

Lemma transitionQpToInit_neutral c : neutral bad (transitionQpToInit c).
Proof. intros t. unfold transitionQpToInit. wrun. bal_solve. Qed.

Lemma openRdmaDevice_acquires `{T : NicTopology} `{!TopologyOk bad T} n :
  acquires bad (own_opt own_device) (openRdmaDevice n).
Proof.
  intros t. unfold openRdmaDevice. wstep. wstep. destruct r as [devs num]. wstep.
  { wstep. apply wp_IbvDeviceListDeleter. intros t1 H1. wstep. destruct devs; bal_solve. }
  destruct devs as [l|]; [|done]. wstep.
  { wstep. apply wp_IbvDeviceListDeleter. intros t1 H1. wstep. bal_solve. }
  wstep. wstep. wstep. apply wp_IbvDeviceListDeleter. intros t1 H1.
  destruct r as [ctx|]; [|wstep; bal_solve].
  wstep. wstep. destruct r as [pd|].
  2:{ wstep. apply wp_destroy_device_parts. intros t2 H2. wstep. bal_solve. }
  wstep. wstep. destruct r as [st attr]. wstep.
  { wstep. apply wp_destroy_device_parts. intros t2 H2. wstep. bal_solve. }
  wstep. eapply wp_neutral; [apply SelectBestGid_neutral; apply _|]. intros best t2 H2.
  wstep. wstep. destruct r as [st' gid]. wstep.
  { wstep. apply wp_destroy_device_parts. intros t3 H3. wstep. bal_solve. }
  wstep. wstep. destruct r as [st3 dattr]. wstep. cbn [own_opt]. unfold own_device.
  cbn [dev_pd dev_context]. bal_solve.
Qed.

Lemma find_device_neutral devs name i : neutral bad (find_device devs name i).
Proof.
  revert i. induction devs as [|d devs IH]; intros i t; cbn [find_device]; [by wstep|].
  wstep. wstep. wstep; [wstep; bal_solve|].
  eapply wp_neutral; [apply IH|]. bal_solve.
Qed.

Lemma openRdmaDeviceByName_acquires `{T : NicTopology} `{!TopologyOk bad T} name :
  acquires bad (own_opt own_device) (openRdmaDeviceByName name).
Proof.
  intros t. unfold openRdmaDeviceByName. wstep; [wstep; bal_solve|].
  wstep. wstep. destruct r as [devs num]. wstep.
  { wstep. apply wp_IbvDeviceListDeleter. intros t1 H1. wstep. destruct devs; bal_solve. }
  destruct devs as [l|]; [|done].
  wstep. eapply wp_neutral; [apply find_device_neutral|]. intros n t1 H1. wstep.
  { wstep. apply wp_IbvDeviceListDeleter. intros t2 H2. wstep. bal_solve. }
  wstep. eapply wp_acquires; [apply openRdmaDevice_acquires; apply _|]. intros d t2 H2.
  wstep. apply wp_IbvDeviceListDeleter. intros t3 H3. wstep. bal_solve.
Qed.

Lemma createRcConnection_acquires d n s r :
  acquires bad (own_opt own_conn) (createRcConnection d n s r).
Proof.
  intros t. unfold createRcConnection. wstep. wstep. destruct r0 as [cq|]; [|wstep; bal_solve].
  wstep. wstep. destruct r0 as [qp|].
  2:{ wstep. apply wp_IbvCqDeleter. intros t1 H1. wstep. bal_solve. }
  wstep. eapply wp_neutral; [apply transitionQpToInit_neutral|]. intros ok t1 H1. wstep.
  { wstep. apply wp_destroy_RcConnection. intros t2 H2. wstep. unfold own_conn in *.
    cbn [rc_qp rc_cq] in *. bal_solve. }
  wstep. cbn [own_opt]. unfold own_conn. cbn [rc_qp rc_cq]. bal_solve.
Qed.

Lemma connectRcPeer_neutral c peer : neutral bad (connectRcPeer c peer).
Proof.
  intros t. unfold connectRcPeer, transitionQpToRtr, transitionQpToRts. wrun; bal_solve.
Qed.

Lemma drain_loop_neutral c n : neutral bad (drain_loop c n).
Proof.
  induction n as [|n IH]; intros t; cbn [drain_loop]; [by wstep|].
  wstep. wstep. destruct r as [k wc]. wstep; [wstep; bal_solve|].
  wstep; [wstep; bal_solve|]. eapply wp_neutral; [apply IH|]. bal_solve.
Qed.

Lemma resetRcConnection_neutral c : neutral bad (resetRcConnection c).
Proof.
  intros t. unfold resetRcConnection, transitionQpToReset. wstep. wstep. wstep. wstep.
  wstep; [wstep; bal_solve|]. wstep. eapply wp_neutral; [apply drain_loop_neutral|].
  intros ok t1 H1. wstep; [wstep; bal_solve|].
  eapply wp_neutral; [apply transitionQpToInit_neutral|]. bal_solve.
Qed.

(** A loop that never sees a completion it isn't waiting for ends: each
    turn takes a millisecond *)
Lemma poll_loop_neutral fuel c ms deadline t :
  bad OutOfFuel \/ (SteadyClock E /\ deadline - clock_low t < Z.of_nat fuel) ->
  (0 < fuel)%nat ->
  wp bad (poll_loop fuel c None ms deadline) (fun _ t' => forall h, bal h t' = bal h t) t.
Proof.
  revert t. induction fuel as [|fuel IH]; intros t Hf Hpos; [lia|]. cbn [poll_loop].
  wstep. apply wp_perform_eq. set (now := respond t clock_now). wstep.
  { wrun; bal_solve. }
  assert (now < deadline) as Hnow by (by destruct (Z.ltb_spec now deadline)).
  wstep. wstep. destruct r as [n wc]. wstep; [wstep; bal_solve|].
  wstep; [|wrun; bal_solve]. wstep. wstep.
  set (t' := Ev _ _ :: _). destruct (decide (fuel = O)) as [->|Hne].
  { destruct Hf as [Hf|[Hs Hf]]; [by apply wp_halt|]. pose proof (steady t) as Hst.
    fold now in Hst. lia. }
  eapply wp_mono; [apply IH; [|lia]|].
  - destruct Hf as [Hf|[Hs Hf]]; [by left|right]. split; [done|].
    pose proof (steady t) as Hst. fold now in Hst. cbn [t' clock_low]. lia.
  - cbv beta. subst t'. bal_solve.
Qed.

Lemma pollCompletion_neutral c ms :
  bad OutOfFuel \/ SteadyClock E -> neutral bad (pollCompletion (poll_fuel ms) c None ms).
Proof.
  intros Hf t. unfold pollCompletion. wstep. apply wp_perform_eq.
  eapply wp_mono; [apply poll_loop_neutral|].
  - destruct Hf as [Hf|Hs]; [by left|right]. split; [done|]. cbn [clock_low].
    unfold poll_fuel. lia.
  - unfold poll_fuel. lia.
  - bal_solve.
Qed.
End transport.

Section states.
Context `{E : World} `{B : BuildConfig} (bad : stop -> Prop).

(** Only a QP's own creation and modifications change its state *)
Definition off_track (e : event) : bool :=
  match e with
  | Ev (create_qp _ _) _ | Ev (modify_qp _ _ _) _ => false
  | _ => true
  end.

Lemma qp_next_off qp e st : off_track e = true -> qp_next qp e st = st.
Proof. destruct e as [A [] r]; done. Qed.

Lemma createRcConnection_state d n s r t :
  wp bad (createRcConnection d n s r)
     (fun c t' => forall conn, c = Some conn -> rc_device conn = d /\
        qp_track (rc_qp conn) t' = Some IBV_QPS_INIT) t.
Proof.
  unfold createRcConnection. wstep. wstep. destruct r0 as [cq|]; [|by wstep].
  wstep. wstep. destruct r0 as [qp|].
  2:{ wstep. apply wp_IbvCqDeleter. intros. by wstep. }
  wstep. unfold transitionQpToInit. wstep. wstep. wstep. wstep.
  { wstep. apply wp_destroy_RcConnection. intros. by wstep. }
  wstep. intros conn [= <-]. split; [done|]. cbn. rewrite decide_True by done. cbn.
  rewrite decide_True by done. bools. by rewrite Heqb.
Qed.

Lemma connectRcPeer_state c peer t :
  qp_track (rc_qp c) t = Some IBV_QPS_INIT ->
  wp bad (connectRcPeer c peer)
     (fun ok t' => exists s, qp_track (rc_qp c) t' = Some s /\
        s ∈ [IBV_QPS_INIT; IBV_QPS_RTR; IBV_QPS_RTS] /\ (ok = true -> s = IBV_QPS_RTS)) t.
Proof.
  intros Ht. unfold connectRcPeer, transitionQpToRtr, transitionQpToRts.
  wstep. { wstep. exists IBV_QPS_INIT. split_and!; [done|left|done]. }
  wstep. wstep. { wstep. wstep. exists IBV_QPS_INIT. split_and!; [done|left|done]. }
  wstep. wstep. wstep.
  assert (qp_track (rc_qp c) (Ev (modify_qp (rc_qp c) (rtr_attr (rc_device c) (tok_qpNum peer)
    (tok_lid peer) (toIbvGid (tok_gid peer))) rtr_mask) r :: t) =
    Some (if r =? 0 then IBV_QPS_RTR else IBV_QPS_INIT)) as H1.
  { cbn. rewrite decide_True, Ht by done. cbn. unfold rtr_attr, applyVendorQpAttrs.
    repeat case_match; done. }
  destruct (r =? 0) eqn:Hr; cbn [negb].
  2:{ wstep. exists IBV_QPS_INIT. split_and!; [done|left|done]. }
  wstep. wstep. wstep. cbn [qp_track qp_next]. rewrite decide_True by done.
  cbn [qp_track qp_next] in H1. rewrite H1.
  exists (if r0 =? 0 then IBV_QPS_RTS else IBV_QPS_RTR). split_and!.
  - cbn. unfold rts_attr, applyVendorQpAttrs. repeat case_match; done.
  - destruct (r0 =? 0); [by do 2 right; left|by right; left].
  - by destruct (r0 =? 0).
Qed.

Lemma drain_loop_track c n qp t :
  wp bad (drain_loop c n) (fun _ t' => qp_track qp t' = qp_track qp t) t.
Proof.
  revert t. induction n as [|n IH]; intros t; cbn [drain_loop]; [by wstep|].
  wstep. wstep. destruct r as [k wc]. wstep; [by wstep|]. wstep; [by wstep|]. (eapply wp_mono; [apply IH|done]).
Qed.

Lemma resetRcConnection_state c s t :
  qp_track (rc_qp c) t = Some s ->
  wp bad (resetRcConnection c)
     (fun ok t' => exists s', qp_track (rc_qp c) t' = Some s' /\
        (ok = true -> s' = IBV_QPS_INIT)) t.
Proof.
  intros Ht. unfold resetRcConnection, transitionQpToReset, transitionQpToInit.
  wstep. wstep. wstep. wstep.
  assert (qp_track (rc_qp c) (Ev (modify_qp (rc_qp c) reset_attr IBV_QP_STATE) r :: t) =
          Some (if r =? 0 then IBV_QPS_RESET else s)) as H1.
  { cbn. rewrite decide_True, Ht by done. cbn. by destruct s. }
  wstep; [wstep; by eexists|]. wstep. eapply wp_mono; [apply drain_loop_track|].
  cbv beta. intros ok t1 H2. wstep; [wstep; rewrite H2; by eexists|].
  wstep. wstep. wstep. cbn [qp_track qp_next]. rewrite decide_True, H2, H1 by done. bools.
  rewrite Heqb. cbn. exists (if r0 =? 0 then IBV_QPS_INIT else IBV_QPS_RESET).
  split; [done|]. by destruct (r0 =? 0).
Qed.

Lemma drain_loop_spec c n t :
  wp bad (drain_loop c n) (fun ok t' => exists polls,
    t' = map (fun p => Ev (poll_cq (rc_cq c) 1) p) polls ++ t /\ (List.length polls <= n)%nat /\
    Forall (fun p => 0 < fst p) (tail polls) /\
    match head polls with
    | Some (k, _) => if ok then k = 0 \/ (0 < k /\ List.length polls = n) else k < 0
    | None => ok = true /\ n = 0%nat
    end) t.
Proof.
  revert t. induction n as [|n IH]; intros t; cbn [drain_loop].
  { wstep. by exists []. }
  wstep. wstep. destruct r as [k wc]. wstep.
  { wstep. exists [(k, wc)]. cbn. bools. split_and!; [done|lia|constructor|done]. }
  wstep. { wstep. exists [(k, wc)]. cbn. bools. split_and!; [done|lia|constructor|by left]. }
  eapply wp_mono; [apply IH|]. cbv beta. intros ok t' (polls & -> & Hl & Hf & Hh).
  exists (polls ++ [(k, wc)]). rewrite map_app, <- app_assoc, length_app.
  split; [done|]. split; [cbn; lia|]. bools. destruct polls as [|[k' wc'] polls].
  - cbn in *. destruct Hh as [-> ->]. split; [constructor|]. right. lia.
  - cbn [app tail head List.length] in *. split.
    + rewrite Forall_app, Forall_singleton. cbn. split; [done|lia].
    + destruct ok; [|done]. destruct Hh as [|[? Hn]]; [by left|right]. split; [done|]. cbn. lia.
Qed.

(** What the end of a wait says, from the last call it made *)
Definition poll_outcome (c : RcConnection) (ms deadline : Z) (ok : bool) (t : trace) : Prop :=
  if ok then exists n wc t', t = Ev (poll_cq (rc_cq c) 1) (n, wc) :: t' /\ 0 < n /\
                             wc_status wc = IBV_WC_SUCCESS
  else (exists n wc t', t = Ev (poll_cq (rc_cq c) 1) (n, wc) :: t' /\ n < 0) \/
       (exists n wc d u t', t = Ev (print_stderr d) u :: Ev (poll_cq (rc_cq c) 1) (n, wc) :: t' /\
          0 < n /\ wc_status wc <> IBV_WC_SUCCESS) \/
       (exists u now t', t = Ev (print_stderr (NoCompletion ms None)) u :: Ev clock_now now :: t' /\
          deadline <= now).

Lemma poll_loop_outcome fuel c ms deadline t :
  bad OutOfFuel \/ (SteadyClock E /\ deadline - clock_low t < Z.of_nat fuel) ->
  (0 < fuel)%nat ->
  wp bad (poll_loop fuel c None ms deadline) (poll_outcome c ms deadline) t.
Proof.
  revert t. induction fuel as [|fuel IH]; intros t Hf Hpos; [lia|]. cbn [poll_loop].
  wstep. apply wp_perform_eq. set (now := respond t clock_now). wstep.
  { wstep. wstep. wstep. right; right. bools. by exists r, now, t. }
  assert (now < deadline) as Hnow by (by destruct (Z.ltb_spec now deadline)).
  wstep. wstep. destruct r as [n wc]. wstep; [wstep; left; bools; by exists n, wc, (Ev clock_now now :: t)|].
  wstep; [|wstep; bools].
  2:{ wstep. wstep. wstep. right; left. exists n, wc. do 3 eexists. split_and!; [done|lia|done]. }
  2:{ wstep. exists n, wc. eexists. split_and!; [done|lia|done]. }
  wstep. wstep.
  destruct (decide (fuel = O)) as [->|Hne].
  { destruct Hf as [Hf|[Hs Hf]]; [by apply wp_halt|]. pose proof (steady t) as Hst.
    fold now in Hst. lia. }
  apply IH; [|lia]. destruct Hf as [Hf|[Hs Hf]]; [by left|right]. split; [done|].
  pose proof (steady t) as Hst. fold now in Hst. cbn [clock_low]. lia.
Qed.
End states.

(** The vendors set nothing that the calls read and that isn't set anyway *)
Lemma rtr_attr_masked B1 B2 d q lid gid :
  masked rtr_mask (@rtr_attr B1 d q lid gid) = masked rtr_mask (@rtr_attr B2 (without_vendor d) q lid gid).
Proof.
  unfold rtr_attr, applyVendorQpAttrs. destruct (dev_vendorId d); cbn [without_vendor dev_vendorId];
    repeat case_match; reflexivity.
Qed.

Lemma rts_attr_masked B1 B2 d :
  masked rts_mask (@rts_attr B1 d) = masked rts_mask (@rts_attr B2 (without_vendor d)).
Proof.
  unfold rts_attr, applyVendorQpAttrs. destruct (dev_vendorId d); cbn [without_vendor dev_vendorId];
    repeat case_match; reflexivity.
Qed.

(** ** Properties *)


(** The vendor backends never change what [ibv_modify_qp()] is asked
    for: on any device, with any backends built, the attributes that the
    call's mask selects are those of a device with no vendor. *)
Theorem vendor_attrs_unobservable (B1 B2 : BuildConfig) (d : RdmaDevice) (destQpNum destLid : Z)
    (destGid : ibv_gid) :
  masked rtr_mask (@rtr_attr B1 d destQpNum destLid destGid) =
    masked rtr_mask (@rtr_attr B2 (without_vendor d) destQpNum destLid destGid) /\
  masked rts_mask (@rts_attr B1 d) = masked rts_mask (@rts_attr B2 (without_vendor d)).
Proof. split; [apply rtr_attr_masked|apply rts_attr_masked]. Qed.

(** The move to RTR addresses exactly the peer it's given, through the
    device's own GID index: an index that doesn't fit the address handle's
    [uint8_t] fails without a call to libibverbs, and is never truncated. *)
Theorem transitionQpToRtr_addresses `{E : World} `{B : BuildConfig} (bad : stop -> Prop)
    (c : RcConnection) (destQpNum destLid : Z) (destGid : ibv_gid) (t : trace) :
  wp bad (transitionQpToRtr c destQpNum destLid destGid) (fun ok t' =>
    if (0 <=? dev_gidIndex (rc_device c)) && (dev_gidIndex (rc_device c) <=? 255) then
      exists attr st, t' = Ev (modify_qp (rc_qp c) attr rtr_mask) st :: t /\ ok = (st =? 0) /\
        qp_state attr = IBV_QPS_RTR /\ dest_qp_num attr = destQpNum /\ dlid (ah_attr attr) = destLid /\
        dgid (grh (ah_attr attr)) = destGid /\ is_global (ah_attr attr) = 1 /\
        ah_port_num (ah_attr attr) = dev_portNum (rc_device c) /\
        sgid_index (grh (ah_attr attr)) = dev_gidIndex (rc_device c)
    else ok = false /\ t' = t) t.
Proof.
  unfold transitionQpToRtr. change (in_range uint8_t ?z) with ((0 <=? z) && (z <=? 255)).
  destruct ((0 <=? dev_gidIndex (rc_device c)) && (dev_gidIndex (rc_device c) <=? 255)) eqn:Hr;
    cbn [negb]; [|by wstep].
  wstep. wstep. wstep. do 2 eexists. split; [done|]. split; [done|]. bools.
  assert (wrapu 8 (dev_gidIndex (rc_device c)) = dev_gidIndex (rc_device c)) as Hw
    by (apply wrapu_small; change (2 ^ 8) with 256; lia).
  split_and!; try exact Hw; unfold rtr_attr, applyVendorQpAttrs; repeat case_match; done.
Qed.

(** Waiting for any completion always ends, within the fuel the model
    gives it, on a clock that's steady; it reports success only when the
    last poll found a successful completion, and failure only when polling
    failed, the completion was an error, or the deadline had passed. *)
Theorem pollCompletion_ends `{E : World} (HE : SteadyClock E) (c : RcConnection) (ms : Z) (t : trace) :
  wp (fun _ => False) (pollCompletion (poll_fuel ms) c None ms)
     (fun ok t' => exists start, poll_outcome c ms (start + ms) ok t') t.
Proof.
  unfold pollCompletion. wstep. apply wp_perform_eq. set (start := respond t clock_now).
  eapply wp_mono; [apply poll_loop_outcome|].
  - right. split; [done|]. cbn [clock_low]. unfold poll_fuel. lia.
  - unfold poll_fuel. lia.
  - cbv beta. intros ok t' H. by exists start.
Qed.

Definition some_device : RdmaDevice :=
  {| dev_context := {| ctx_addr := 1; ctx_device_name := [] |}; dev_pd := {| pd_addr := 2 |};
     dev_portNum := 1; dev_gidIndex := 0; dev_localGid := toIbvGid lab_gid; dev_vendorId := None |}.
Definition some_conn : RcConnection :=
  {| rc_device := some_device; rc_cq := {| cq_addr := 3; cq_cqe := 16 |};
     rc_qp := {| qp_addr := 4; qp_num := 5 |} |}.

(** With nothing to poll for, a wait of 3 ms ends with failure *)
Lemma pollCompletion_ends_witness :
  let E := lab (working <| set_poll := 0 |>) in
  wp (fun _ => False) (@pollCompletion E (poll_fuel 3) some_conn None 3)
     (fun ok t' => exists start, poll_outcome some_conn 3 (start + 3) ok t') [] /\
  fst (@pollCompletion E (poll_fuel 3) some_conn None 3 []) = inl false.
Proof.
  split; [|reflexivity]. exact (@pollCompletion_ends _ (lab_steady _) some_conn 3 []).
Defined.

(** Draining a connection's CQ takes at most as many polls as the CQ has
    entries: it stops at the first poll that finds nothing, which is success,
    or that fails, which is failure. *)
Theorem drainCompletions_spec `{E : World} (bad : stop -> Prop) (c : RcConnection) (t : trace) :
  wp bad (drainCompletions c) (fun ok t' => exists polls,
    t' = map (fun p => Ev (poll_cq (rc_cq c) 1) p) polls ++ t /\
    Z.of_nat (List.length polls) <= Z.max 0 (cq_cqe (rc_cq c)) /\
    Forall (fun p => 0 < fst p) (tail polls) /\
    match head polls with
    | Some (n, _) => if ok then n = 0 \/ (0 < n /\ Z.of_nat (List.length polls) = cq_cqe (rc_cq c))
                     else n < 0
    | None => ok = true /\ cq_cqe (rc_cq c) <= 0
    end) t.
Proof.
  eapply wp_mono; [apply drain_loop_spec|]. cbv beta. intros ok t' (polls & -> & Hl & Hf & Hh).
  exists polls. split_and!; [done|lia|done|]. destruct polls as [|[n wc] polls]; cbn [head] in *.
  - destruct Hh as [-> Hn]. split; [done|]. lia.
  - destruct ok; [|done]. destruct Hh as [|[? Hn]]; [by left|right]. split; [done|].
    cbn [List.length] in *. lia.
Qed.

(** Opening a device by name, and creating a connection, leave nothing
    open when they fail, and exactly what they return open when they
    succeed: the device's context and protection domain, and the
    connection's QP and CQ. *)
Theorem open_device_no_leak `{E : World} `{T : NicTopology} (bad : stop -> Prop)
    (HT : TopologyOk bad T) (devName : chars) (d : RdmaDevice) (cqSize maxSendWr maxRecvWr : Z)
    (t : trace) :
  wp bad (openRdmaDeviceByName devName)
     (fun o t' => forall h, bal h t' = bal h t + cnt h (own_opt own_device o)) t /\
  wp bad (createRcConnection d cqSize maxSendWr maxRecvWr)
     (fun o t' => forall h, bal h t' = bal h t + cnt h (own_opt own_conn o)) t.
Proof. split; [apply openRdmaDeviceByName_acquires; exact HT|apply createRcConnection_acquires]. Qed.

Lemma open_device_no_leak_witness :
  let E := lab working in let bad := fun s => s = OutOfFuel in
  TopologyOk bad (@SysfsTopology E) /\
  wp bad (@openRdmaDeviceByName E (@SysfsTopology E) (lit "mlx5_0"))
     (fun o t' => forall h, bal h t' = bal h [] + cnt h (own_opt own_device o)) [].
Proof.
  assert (@TopologyOk (lab working) (fun s => s = OutOfFuel) (@SysfsTopology (lab working))) as HT
    by (apply SysfsTopology_ok; by left).
  split; [exact HT|].
  exact (proj1 (@open_device_no_leak (lab working) (@SysfsTopology (lab working)) _ HT (lit "mlx5_0")
                  some_device 16 8 8 [])).
Defined.
