(* ===== verification/Pool.v ===== *)
(** * The connection pool ([src/rdma/connection-pool.h],
    [src/rdma/connection-pool.cpp])

    The pool's state and its operations.  [acquire] and [release] are what
    the C++ functions do while they hold the pool's mutex; a call that has to
    wait is [MustWait].  The file [Api] gives them to one thread, and the
    file [PoolThreads] to several. *)

From stdpp Require Import base numbers list.
From S2P Require Import Prelude.
From S2P Require Import Token.
From S2P Require Import IbvCore.
From S2P Require Import World.
From S2P Require Import Topology.
From S2P Require Import Transport.

(** ** Definitions *)

Definition kCqSize : Z := 16.
Definition kMaxSendWr : Z := 8.
Definition kMaxRecvWr : Z := 8.

Record ConnectionPool := {
  pool_device : RdmaDevice;
  slots_ : list (option RcConnection);
  free_ : list nat;
  live_ : Z;
  closed_ : bool;
}.

#[export] Instance eta_ConnectionPool : Eta ConnectionPool := fun r =>
  {| pool_device := pool_device r; slots_ := slots_ r; free_ := free_ r; live_ := live_ r;
     closed_ := closed_ r |}.

(** The constructor's loop, with [left] connections to create *)
Fixpoint create_slots `{World} (device : RdmaDevice) (left : nat) : W (list RcConnection) :=
  match left with
  | O => mret []
  | S left' =>
      conn ← createRcConnection device kCqSize kMaxSendWr kMaxRecvWr;
      match conn with
      | None => mret []
      | Some conn => rest ← create_slots device left'; mret (conn :: rest)
      end
  end.

Definition new_ConnectionPool `{World} (device : RdmaDevice) (count : Z) : W ConnectionPool :=
  conns ← create_slots device (Z.to_nat count);
  mret {| pool_device := device; slots_ := Some <$> conns; free_ := seq 0 (List.length conns);
          live_ := Z.of_nat (List.length conns); closed_ := false |}.

(** [~ConnectionPool()]: the connections its slots still hold *)
Fixpoint destroy_slots `{World} (slots : list (option RcConnection)) : W unit :=
  match slots with
  | [] => mret tt
  | None :: slots' => destroy_slots slots'
  | Some conn :: slots' => _ ← destroy_RcConnection conn; destroy_slots slots'
  end.

Inductive AcquireError := Closed | NoConnections | Busy.

#[export] Instance AcquireError_eq_dec : EqDecision AcquireError.
Proof. solve_decision. Defined.

(** What [acquire()] does once it has the mutex: it leases the connection at
    an index, fails, or waits *)
Inductive Acquired := Leased (index : nat) | NotLeased (err : AcquireError) | MustWait.

Definition acquire (leasesHeld : Z) (p : ConnectionPool) : Acquired * ConnectionPool :=
  if (leasesHeld =? 0) &&
     negb (closed_ p) && bool_decide (free_ p = []) && negb (live_ p =? 0) then (MustWait, p)
  else if closed_ p then (NotLeased Closed, p)
  else
    match last (free_ p) with
    | None => (NotLeased (if live_ p =? 0 then NoConnections else Busy), p)
    | Some index => (Leased index, p <| free_ := removelast (free_ p) |>)
    end.

Definition close (p : ConnectionPool) : ConnectionPool := p <| closed_ := true |>.

Definition pool_size (p : ConnectionPool) : Z := live_ p.
Definition available (p : ConnectionPool) : Z := Z.of_nat (List.length (free_ p)).

(** [connection()]: dereferencing an empty slot is undefined *)
Definition lease_connection (p : ConnectionPool) (index : nat) : option RcConnection :=
  mjoin (slots_ p !! index).

(** [restore(conn)]: whether it worked, and [conn] after it *)
Definition restore `{World} (device : RdmaDevice) (conn : option RcConnection)
    : W (bool * option RcConnection) :=
  ok ← match conn with Some c => resetRcConnection c | None => mret false end;
  if ok : bool then mret (true, conn)
  else
    _ ← match conn with Some c => destroy_RcConnection c | None => mret tt end;
    fresh ← createRcConnection device kCqSize kMaxSendWr kMaxRecvWr;
    match fresh with
    | Some c => mret (true, Some c)
    | None => mret (false, None)
    end.

(** What [release()] does with the mutex: the index goes back to the free
    list, or the connection is no longer counted *)
Definition give_back (index : nat) (usable : bool) (p : ConnectionPool) : ConnectionPool :=
  if usable then p <| free_ := free_ p ++ [index] |>
  else p <| live_ := wrapu 64 (live_ p - 1) |>.

Definition release `{World} (index : nat) (connected : bool) (p : ConnectionPool) : W ConnectionPool :=
  '(usable, conn) ← (if negb connected then mret (true, lease_connection p index)
                     else restore (pool_device p) (lease_connection p index));
  let p := give_back index usable (p <| slots_ := <[index := conn]> (slots_ p) |>) in
  if usable then mret p
  else
    _ ← perform (print_stderr (ConnectionDropped (live_ p) (Z.of_nat (List.length (slots_ p)))));
    mret p.

(** What the pool owns *)
Definition own_slots (slots : list (option RcConnection)) : list handle :=
  flat_map (own_opt own_conn) slots.

(** *** The pool's invariant

    [pool_ok leased p]: every connection is either free or leased, and only
    once; [leased] lists the indexes of the leases that are held. *)
Record pool_ok (leased : list nat) (p : ConnectionPool) : Prop := {
  pool_nodup : NoDup (free_ p ++ leased);
  pool_slots : forall i, i ∈ free_ p ++ leased <-> is_Some (lease_connection p i);
  pool_live : live_ p = Z.of_nat (List.length (free_ p ++ leased));
  pool_small : Z.of_nat (List.length (slots_ p)) < 2 ^ 64;
}.

(** ** Lemmas *)

Lemma last_removelast {A} (l : list A) x : last l = Some x -> l = removelast l ++ [x].
Proof.
  intros H. destruct l as [|y l _] using rev_ind; [done|].
  rewrite last_snoc in H. injection H as ->. by rewrite removelast_last.
Qed.

Lemma own_slots_insert h slots i c :
  (i < List.length slots)%nat ->
  cnt h (own_slots (<[i := c]> slots)) =
    cnt h (own_slots slots) - cnt h (own_opt own_conn (mjoin (slots !! i))) + cnt h (own_opt own_conn c).
Proof.
  unfold own_slots. revert i. induction slots as [|s slots IH]; intros i Hi; [simpl in Hi; lia|].
  destruct i as [|i]; simpl; rewrite !cnt_app.
  - destruct s; simpl; lia.
  - rewrite IH by (simpl in Hi; lia). lia.
Qed.

Section pool.
Context `{E : World} `{B : BuildConfig} (bad : stop -> Prop).

Lemma create_slots_acquires d n :
  acquires bad (flat_map own_conn) (create_slots d n).
Proof.
  induction n as [|n IH]; intros t; cbn [create_slots].
  { wstep. intros h. cbn. lia. }
  wstep. eapply wp_acquires; [apply createRcConnection_acquires|]. intros c t1 H1.
  destruct c as [c|]; [|wstep; exact H1].
  wstep. eapply wp_acquires; [apply IH|]. intros cs t2 H2. wstep.
  intros h. rewrite H2, H1. cbn [flat_map own_opt]. rewrite cnt_app. lia.
Qed.

Lemma create_slots_length d n t :
  wp bad (create_slots d n) (fun cs _ => (List.length cs <= n)%nat) t.
Proof.
  revert t. induction n as [|n IH]; intros t; cbn [create_slots]; [by wstep|].
  wstep. eapply wp_acquires; [apply createRcConnection_acquires|]. intros c t1 _.
  destruct c as [c|]; [|wstep; cbn; lia].
  wstep. eapply wp_mono; [apply IH|]. cbv beta. intros cs t2 H2. wstep. cbn. lia.
Qed.

Lemma own_slots_Some cs : own_slots (Some <$> cs) = flat_map own_conn cs.
Proof. unfold own_slots. induction cs as [|c cs IH]; [done|]. simpl. by rewrite <- IH. Qed.

Lemma new_pool_spec d n t :
  n < 2 ^ 64 ->
  wp bad (new_ConnectionPool d n) (fun p t' =>
    (forall h, bal h t' = bal h t + cnt h (own_slots (slots_ p))) /\
    pool_ok [] p /\ closed_ p = false /\ pool_device p = d /\
    (live_ p = n -> free_ p = seq 0 (Z.to_nat n))) t.
Proof.
  intros Hn. unfold new_ConnectionPool. wstep.
  eapply wp_mono; [apply (wp_conj _ _ _ _ _ (create_slots_acquires _ _ t) (create_slots_length _ _ t))|].
  cbv beta. intros cs t' [Hb Hl]. wstep. cbn. split_and!; [|split|done|done|].
  - intros h. rewrite own_slots_Some. apply Hb.
  - cbn. rewrite app_nil_r. apply NoDup_seq.
  - cbn. intros i. rewrite app_nil_r, elem_of_seq. unfold lease_connection. cbn.
    rewrite list_lookup_fmap. destruct (cs !! i) as [c|] eqn:Hi; cbn.
    + apply lookup_lt_Some in Hi. split; [by eexists|lia].
    + apply lookup_ge_None in Hi. split; [lia|]. by intros [? ?].
  - cbn. by rewrite app_nil_r, length_seq.
  - cbn. rewrite length_fmap. lia.
  - intros <-. by rewrite Nat2Z.id.
Qed.

Lemma wp_destroy_slots slots Q t :
  (forall t', (forall h, bal h t' = bal h t - cnt h (own_slots slots)) -> Q tt t') ->
  wp bad (destroy_slots slots) Q t.
Proof.
  revert t. induction slots as [|[c|] slots IH]; intros t HQ; cbn [destroy_slots].
  - wstep. apply HQ. intros h. cbn. lia.
  - wstep. apply wp_destroy_RcConnection. intros t1 H1. apply IH. intros t2 H2. apply HQ.
    intros h. rewrite H2, H1. cbn [own_slots flat_map own_opt]. rewrite cnt_app.
    fold (own_slots slots). lia.
  - apply IH. intros t2 H2. apply HQ. intros h. rewrite H2. done.
Qed.

(** A lease takes the last free connection *)
Lemma acquire_ok leased n p i p' :
  pool_ok leased p -> acquire n p = (Leased i, p') -> pool_ok (i :: leased) p' /\
  (exists free, free_ p = free ++ [i] /\ free_ p' = free) /\ slots_ p' = slots_ p /\
  pool_device p' = pool_device p /\ closed_ p' = false.
Proof.
  intros [Hn Hs Hl Hsm]. unfold acquire. case_match; [done|].
  destruct (closed_ p) eqn:Hcl; [done|]. destruct (last (free_ p)) as [j|] eqn:Hj; [|done].
  intros [= -> <-]. apply last_removelast in Hj. set (free := removelast (free_ p)) in *.
  rewrite Hj, <- app_assoc in *. cbn [app] in *. split; [split|]; cbn.
  - done.
  - intros k. change (lease_connection _ k) with (lease_connection p k). apply Hs.
  - done.
  - done.
  - split_and!; [by exists free|done..].
Qed.

Lemma acquire_not_leased n p err p' : acquire n p = (NotLeased err, p') -> p' = p.
Proof. unfold acquire. repeat case_match; congruence. Qed.

(** A thread that holds no lease only waits while another holds one *)
Lemma acquire_waits leased n p p' :
  pool_ok leased p -> acquire n p = (MustWait, p') -> n = 0 /\ leased <> [].
Proof.
  intros [Hn Hs Hl Hsm]. unfold acquire. destruct (_ && _) eqn:Hw; [|repeat case_match; congruence].
  intros _. bools. split; [done|]. intros ->. rewrite H1 in Hl. cbn in Hl. lia.
Qed.

Lemma restore_spec d c t :
  wp bad (restore d c) (fun r t' =>
    (fst r = true <-> is_Some (snd r)) /\
    (forall h, bal h t' = bal h t - cnt h (own_opt own_conn c) + cnt h (own_opt own_conn (snd r)))) t.
Proof.
  assert (forall t1 : trace, (forall h, bal h t1 = bal h t) ->
    wp bad (_ ← match c with Some c => destroy_RcConnection c | None => mret tt end;
            fresh ← createRcConnection d kCqSize kMaxSendWr kMaxRecvWr;
            match fresh with Some c => mret (true, Some c) | None => mret (false, None) end)
      (fun r t' => (fst r = true <-> is_Some (snd r)) /\
        (forall h, bal h t' = bal h t - cnt h (own_opt own_conn c) +
                             cnt h (own_opt own_conn (snd r)))) t1) as Hfresh.
  { intros t1 H1. wstep.
    enough (forall t2 : trace, (forall h, bal h t2 = bal h t - cnt h (own_opt own_conn c)) ->
      wp bad (fresh ← createRcConnection d kCqSize kMaxSendWr kMaxRecvWr;
              match fresh with Some c => mret (true, Some c) | None => mret (false, None) end)
        (fun r t' => (fst r = true <-> is_Some (snd r)) /\
          (forall h, bal h t' = bal h t - cnt h (own_opt own_conn c) +
                               cnt h (own_opt own_conn (snd r)))) t2) as Hnew.
    { destruct c as [c|].
      - apply wp_destroy_RcConnection. intros t2 H2. apply Hnew. intros h. rewrite H2, H1. done.
      - wstep. apply Hnew. intros h. rewrite H1. cbn. lia. }
    intros t2 H2. wstep. eapply wp_acquires; [apply createRcConnection_acquires|].
    intros [f|] t3 H3; wstep; (split; [by split; [eauto|intros [? ?]]|]); intros h; rewrite H3, H2;
      done. }
  unfold restore. wstep. destruct c as [c|].
  - eapply wp_neutral; [apply resetRcConnection_neutral|]. intros ok t1 H1.
    destruct ok; [|by apply Hfresh]. wstep. split; [by split; eauto|].
    intros h. rewrite H1. cbn [snd]. lia.
  - wstep. by apply Hfresh.
Qed.

(** Returning a leased connection: to the free list, or, if it could
    neither be reset nor replaced, to nothing *)
Lemma give_back_ok leased1 i leased2 p c usable :
  pool_ok (leased1 ++ i :: leased2) p -> (usable = true <-> is_Some c) ->
  pool_ok (leased1 ++ leased2) (give_back i usable (p <| slots_ := <[i := c]> (slots_ p) |>)).
Proof.
  intros [Hn Hs Hl Hsm] Hu.
  assert (free_ p ++ leased1 ++ i :: leased2 ≡ₚ i :: free_ p ++ leased1 ++ leased2) as Hp.
  { rewrite !app_assoc. symmetry. apply Permutation_middle. }
  rewrite Hp in Hn, Hl. setoid_rewrite Hp in Hs. apply NoDup_cons in Hn as [Hi Hn].
  assert (i < List.length (slots_ p))%nat as Hlt.
  { destruct (proj1 (Hs i)) as [c' Hc']; [by left|]. unfold lease_connection in Hc'.
    destruct (slots_ p !! i) eqn:E'; [by eapply lookup_lt_Some|done]. }
  assert (forall k, k <> i -> is_Some (mjoin (<[i := c]> (slots_ p) !! k)) <->
                             k ∈ free_ p ++ leased1 ++ leased2) as Hk.
  { intros k Hki. rewrite list_lookup_insert_ne by done. fold (lease_connection p k).
    rewrite <- Hs, elem_of_cons. intuition. }
  destruct usable; cbn [give_back].
  - assert ((free_ p ++ [i]) ++ leased1 ++ leased2 ≡ₚ i :: free_ p ++ leased1 ++ leased2) as Hp'.
    { rewrite <- app_assoc. symmetry. apply Permutation_middle. }
    split; cbn.
    + rewrite Hp'. by constructor.
    + intros k. rewrite Hp'. unfold lease_connection. cbn. destruct (decide (k = i)) as [->|Hki].
      * rewrite list_lookup_insert_eq by done. cbn. rewrite <- Hu. split; [done|by left].
      * rewrite Hk by done. rewrite elem_of_cons. intuition.
    + by rewrite Hp'.
    + by rewrite length_insert.
  - split; cbn.
    + done.
    + intros k. unfold lease_connection. cbn. destruct (decide (k = i)) as [->|Hki].
      * rewrite list_lookup_insert_eq by done. cbn. rewrite <- Hu. done.
      * by rewrite Hk.
    + assert (List.length (i :: free_ p ++ leased1 ++ leased2) <= List.length (slots_ p))%nat as Hle.
      { rewrite <- (length_seq (List.length (slots_ p)) 0). apply submseteq_length, NoDup_submseteq.
        - by constructor.
        - intros k Hkin. apply Hs in Hkin as [c' Hc']. unfold lease_connection in Hc'.
          destruct (slots_ p !! k) eqn:E'; [|done]. apply lookup_lt_Some in E'.
          apply elem_of_seq. lia. }
      rewrite Hl. cbn [List.length] in *. rewrite wrapu_small; lia.
    + by rewrite length_insert.
Qed.

Lemma release_spec leased1 i leased2 p connected t :
  pool_ok (leased1 ++ i :: leased2) p ->
  wp bad (release i connected p) (fun p' t' =>
    (forall h, bal h t' = bal h t - cnt h (own_slots (slots_ p)) + cnt h (own_slots (slots_ p'))) /\
    pool_ok (leased1 ++ leased2) p' /\ closed_ p' = closed_ p /\
    pool_device p' = pool_device p) t.
Proof.
  intros Hok.
  assert (is_Some (lease_connection p i)) as Hc.
  { apply (pool_slots _ _ Hok). rewrite !elem_of_app, elem_of_cons. tauto. }
  assert (i < List.length (slots_ p))%nat as Hlt.
  { destruct Hc as [c' Hc']. unfold lease_connection in Hc'.
    destruct (slots_ p !! i) eqn:E'; [by eapply lookup_lt_Some|done]. }
  unfold release. wstep.
  eapply (wp_mono _ _ (fun r t' => (fst r = true <-> is_Some (snd r)) /\
    (forall h, bal h t' = bal h t - cnt h (own_opt own_conn (lease_connection p i)) +
                          cnt h (own_opt own_conn (snd r))))).
  { destruct connected; cbn [negb]; [apply restore_spec|]. wstep. split; [by split; eauto|].
    intros h. lia. }
  cbv beta. intros [usable c] t1 [Hu Hb]. cbn [fst snd] in *.
  pose proof (give_back_ok _ _ _ _ _ _ Hok Hu) as Hok'.
  assert (forall h, cnt h (own_slots (<[i := c]> (slots_ p))) = cnt h (own_slots (slots_ p)) -
    cnt h (own_opt own_conn (lease_connection p i)) + cnt h (own_opt own_conn c)) as Hins
    by (intros h; by apply own_slots_insert).
  destruct usable; cbn [give_back] in *.
  - wstep. split_and!; [|done|done|done]. intros h. rewrite Hb.
    match goal with |- _ = _ + ?x => change x with (cnt h (own_slots (<[i := c]> (slots_ p)))) end.
    rewrite Hins. lia.
  - wstep. wstep. wstep. split_and!; [|done|done|done]. intros h. cbn [bal delta]. rewrite Hb.
    match goal with |- _ = _ + ?x => change x with (cnt h (own_slots (<[i := c]> (slots_ p)))) end.
    rewrite Hins. lia.
Qed.
End pool.
