(* ===== verification/PoolThreads.v ===== *)
(** * The connection pool, with many threads ([src/rdma/connection-pool.cpp])

    The pool's monitor as a step relation: each thread is at a point of
    [acquire()], [release()] or [close()], or outside them, and a step is
    what one thread does while it holds the mutex, or the condition
    variable's waking a thread.  Threads wake up for no reason, too. *)

From stdpp Require Import base numbers list gmap relations.
From S2P Require Import Prelude.
From S2P Require Import IbvCore.
From S2P Require Import World.
From S2P Require Import Topology.
From S2P Require Import Transport.
From S2P Require Import Pool.

(** ** Definitions *)

(** Where a thread is: outside the pool's functions, or holding an unused
    lease, which is the same; about to take the mutex in [acquire()]; in
    [returned_.wait()]; about to call [notify_one()], or [notify_all()] *)
Inductive point := Running | Trying | Waiting | NotifyOne | NotifyAll.

#[export] Instance point_eq_dec : EqDecision point.
Proof. solve_decision. Defined.

(** [held] lists the leases on this pool, and [elsewhere] counts those on
    others; [t_leasesHeld] counts both *)
Record thread := { at_point : point; held : list nat; elsewhere : nat }.

#[export] Instance eta_thread : Eta thread := fun r =>
  {| at_point := at_point r; held := held r; elsewhere := elsewhere r |}.

Definition leases_held (th : thread) : Z := Z.of_nat (List.length (held th) + elsewhere th).

Record system := { s_pool : ConnectionPool; s_threads : gmap nat thread }.

(** What [acquire()] makes of a thread that has the mutex *)
Definition after_acquire (r : Acquired) (th : thread) : thread :=
  match r with
  | Leased index => th <| at_point := Running |> <| held := index :: held th |>
  | NotLeased _ => th <| at_point := Running |>
  | MustWait => th <| at_point := Waiting |>
  end.

(** Whom [release()] notifies: one thread that it returned a connection; all
    of them that none is left *)
Definition after_release (usable : bool) (p : ConnectionPool) : point :=
  if usable then NotifyOne else if live_ p =? 0 then NotifyAll else Running.

Definition wake (th : thread) : thread :=
  if decide (at_point th = Waiting) then th <| at_point := Trying |> else th.

(** The pool after a lease on [index] ends, with [conn] in its slot *)
Definition returned (index : nat) (conn : option RcConnection) (p : ConnectionPool) : ConnectionPool :=
  give_back index (bool_decide (is_Some conn)) (p <| slots_ := <[index := conn]> (slots_ p) |>).

Inductive step : system -> system -> Prop :=
| step_call p ths t th :
    ths !! t = Some th -> at_point th = Running ->
    step {| s_pool := p; s_threads := ths |}
         {| s_pool := p; s_threads := <[t := th <| at_point := Trying |>]> ths |}
| step_acquire p ths t th r p' :
    ths !! t = Some th -> at_point th = Trying -> acquire (leases_held th) p = (r, p') ->
    step {| s_pool := p; s_threads := ths |}
         {| s_pool := p'; s_threads := <[t := after_acquire r th]> ths |}
| step_release p ths t th h1 index h2 conn :
    ths !! t = Some th -> at_point th = Running -> held th = h1 ++ index :: h2 ->
    let p' := returned index conn p in
    step {| s_pool := p; s_threads := ths |}
         {| s_pool := p';
            s_threads := <[t := th <| at_point := after_release (bool_decide (is_Some conn)) p' |>
                                   <| held := h1 ++ h2 |>]> ths |}
| step_close p ths t th :
    ths !! t = Some th -> at_point th = Running ->
    step {| s_pool := p; s_threads := ths |}
         {| s_pool := close p; s_threads := <[t := th <| at_point := NotifyAll |>]> ths |}
| step_notify_one p ths t th w thw :
    ths !! t = Some th -> at_point th = NotifyOne -> ths !! w = Some thw -> at_point thw = Waiting ->
    step {| s_pool := p; s_threads := ths |}
         {| s_pool := p;
            s_threads := <[t := th <| at_point := Running |>]> (<[w := thw <| at_point := Trying |>]> ths) |}
| step_notify_none p ths t th :
    ths !! t = Some th -> at_point th = NotifyOne ->
    (forall w thw, ths !! w = Some thw -> at_point thw <> Waiting) ->
    step {| s_pool := p; s_threads := ths |}
         {| s_pool := p; s_threads := <[t := th <| at_point := Running |>]> ths |}
| step_notify_all p ths t th :
    ths !! t = Some th -> at_point th = NotifyAll ->
    step {| s_pool := p; s_threads := ths |}
         {| s_pool := p; s_threads := <[t := th <| at_point := Running |>]> (wake <$> ths) |}
| step_spurious p ths w thw :
    ths !! w = Some thw -> at_point thw = Waiting ->
    step {| s_pool := p; s_threads := ths |}
         {| s_pool := p; s_threads := <[w := thw <| at_point := Trying |>]> ths |}
| step_elsewhere p ths t th n :
    ths !! t = Some th -> at_point th = Running ->
    step {| s_pool := p; s_threads := ths |}
         {| s_pool := p; s_threads := <[t := th <| elsewhere := n |>]> ths |}.

(** A new pool, and any threads *)
Definition initial (s : system) : Prop :=
  pool_ok [] (s_pool s) /\ closed_ (s_pool s) = false /\
  forall t th, s_threads s !! t = Some th -> at_point th = Running /\ held th = [].

Definition reachable (s : system) : Prop := exists s0, initial s0 /\ rtc step s0 s.

(** The leases of all the threads *)
Definition all_held (ths : gmap nat thread) : list nat :=
  flat_map (fun x => held (snd x)) (map_to_list ths).

(** How many threads are at a point *)
Definition at_count (x : point) (ths : gmap nat thread) : Z :=
  msum (fun _ th => if decide (at_point th = x) then 1 else 0) ths.

(** Whether [acquire()] has a reason to stop waiting *)
Definition may_stop (p : ConnectionPool) : Prop := closed_ p = true \/ free_ p <> [] \/ live_ p = 0.

(** That a waiting thread hasn't been forgotten: every thread is about to be
    woken, or there's no reason to stop but free connections, each of which
    some thread has been woken for, or is about to be, or is trying to get *)
Definition told (p : ConnectionPool) (ths : gmap nat thread) : Prop :=
  (exists t th, ths !! t = Some th /\ at_point th = NotifyAll) \/
  (closed_ p = false /\ live_ p <> 0 /\
   Z.of_nat (List.length (free_ p)) <= at_count Trying ths + at_count NotifyOne ths).

Record system_ok (s : system) : Prop := {
  sys_pool : pool_ok (all_held (s_threads s)) (s_pool s);
  sys_waiters : forall t th, s_threads s !! t = Some th -> at_point th = Waiting ->
                  held th = [] /\ elsewhere th = O;
  sys_told : forall t th, s_threads s !! t = Some th -> at_point th = Waiting ->
               told (s_pool s) (s_threads s);
}.

(** *** A system to try things in: one connection, and two threads that want
    it *)
Definition some_device : RdmaDevice :=
  {| dev_context := {| ctx_addr := 1; ctx_device_name := [] |}; dev_pd := {| pd_addr := 2 |};
     dev_portNum := 1; dev_gidIndex := 0; dev_localGid := Gid.toIbvGid lab_gid; dev_vendorId := None |}.
Definition some_connection : RcConnection :=
  {| rc_device := some_device; rc_cq := {| cq_addr := 3; cq_cqe := 16 |};
     rc_qp := {| qp_addr := 4; qp_num := 5 |} |}.
Definition one_connection (free : list nat) : ConnectionPool :=
  {| pool_device := some_device; slots_ := [Some some_connection]; free_ := free; live_ := 1;
     closed_ := false |}.
Definition some_thread (x : point) (held : list nat) : thread :=
  {| at_point := x; held := held; elsewhere := 0 |}.

Definition two_threads : system :=
  {| s_pool := one_connection [0%nat];
     s_threads := {[ 0%nat := some_thread Running []; 1%nat := some_thread Running [] ]} |}.
Definition one_waits : system :=
  {| s_pool := one_connection [];
     s_threads := {[ 0%nat := some_thread Running [0%nat]; 1%nat := some_thread Waiting [] ]} |}.

(** ** Lemmas *)

(** *** The threads' leases, and their counts *)

Lemma all_held_delete ths t th :
  ths !! t = Some th -> all_held ths ≡ₚ held th ++ all_held (delete t ths).
Proof.
  intros Ht. unfold all_held. rewrite <- (map_to_list_delete ths t th Ht). done.
Qed.

Lemma all_held_insert ths t th :
  all_held (<[t := th]> ths) ≡ₚ held th ++ all_held (delete t ths).
Proof.
  rewrite (all_held_delete _ t th) by apply lookup_insert_eq. by rewrite delete_insert_eq.
Qed.

(** A thread that moves keeps its leases *)
Lemma all_held_move ths t th th' :
  ths !! t = Some th -> held th' = held th -> all_held (<[t := th']> ths) ≡ₚ all_held ths.
Proof. intros Ht Hh. by rewrite all_held_insert, Hh, <- (all_held_delete ths t th). Qed.

Lemma all_held_wake ths : all_held (wake <$> ths) = all_held ths.
Proof.
  unfold all_held. rewrite map_to_list_fmap. induction (map_to_list ths) as [|[t th] l IH]; [done|].
  cbn. rewrite IH. unfold wake. by case_decide.
Qed.

Lemma all_held_in ths t th i : ths !! t = Some th -> i ∈ held th -> i ∈ all_held ths.
Proof. intros Ht Hi. rewrite (all_held_delete _ _ _ Ht). apply elem_of_app. by left. Qed.

(** The invariant doesn't depend on the order of the leases *)
#[export] Instance pool_ok_proper : Proper ((≡ₚ) ==> (=) ==> iff) pool_ok.
Proof.
  assert (forall l l' p, l ≡ₚ l' -> pool_ok l p -> pool_ok l' p) as Himp.
  { intros l l' p Hp [Hn Hs Hl Hsm]. split; [by rewrite <- Hp| |by rewrite <- Hp|done].
    intros i. by rewrite <- Hp. }
  intros l l' Hp p p' <-. split; apply Himp; [done|by symmetry].
Qed.

Lemma at_count_nonneg x ths : 0 <= at_count x ths.
Proof. apply msum_nonneg. intros t th _. case_decide; lia. Qed.

Lemma at_count_move x ths t th th' :
  ths !! t = Some th ->
  at_count x (<[t := th']> ths) = at_count x ths - (if decide (at_point th = x) then 1 else 0) +
    (if decide (at_point th' = x) then 1 else 0).
Proof. intros Ht. unfold at_count. by rewrite (msum_update _ _ _ _ _ Ht). Qed.

Lemma acquire_cases n p r p' :
  acquire n p = (r, p') ->
  match r with
  | Leased i => closed_ p = false /\ closed_ p' = false /\ live_ p' = live_ p /\
                (List.length (free_ p) = S (List.length (free_ p')))
  | NotLeased err => p' = p /\ (closed_ p = true \/ free_ p = [])
  | MustWait => p' = p /\ n = 0 /\ closed_ p = false /\ free_ p = [] /\ live_ p <> 0
  end.
Proof.
  unfold acquire. destruct (_ && _) eqn:Hw.
  { intros [= <- <-]. bools. done. }
  destruct (closed_ p) eqn:Hc; [intros [= <- <-]; by split; [|left]|].
  destruct (last (free_ p)) as [i|] eqn:Hl; intros [= <- <-].
  - split_and!; [done..|]. apply last_removelast in Hl. rewrite Hl at 1.
    rewrite length_app. cbn. lia.
  - split; [done|]. right. by apply last_None.
Qed.

(** *** The invariant *)

(** A thread that moves, and isn't about to notify all, doesn't change
    whether all are about to be notified *)
Lemma notify_all_other (ths : gmap nat thread) (t : nat) th th' :
  ths !! t = Some th -> at_point th <> NotifyAll ->
  (exists t0 th0, ths !! t0 = Some th0 /\ at_point th0 = NotifyAll) ->
  exists t0 th0, <[t := th']> ths !! t0 = Some th0 /\ at_point th0 = NotifyAll.
Proof.
  intros Ht Hne (t0 & th0 & H0 & Hp). exists t0, th0. split; [|done].
  rewrite lookup_insert_ne; [done|]. intros ->. congruence.
Qed.

(** The leases after a step *)
Lemma step_pool s s' :
  pool_ok (all_held (s_threads s)) (s_pool s) -> step s s' -> pool_ok (all_held (s_threads s')) (s_pool s').
Proof.
  intros Hok. destruct 1 as [p ths t th Ht Hp|p ths t th r p' Ht Hp Ha|p ths t th h1 i h2 c Ht Hp Hh p'
    |p ths t th Ht Hp|p ths t th w thw Ht Hp Hw Hwp|p ths t th Ht Hp Hnone|p ths t th Ht Hp
    |p ths w thw Hw Hwp|p ths t th n Ht Hp]; cbn [s_pool s_threads] in *.
  - by erewrite all_held_move.
  - rewrite (all_held_delete _ _ _ Ht) in Hok.
    destruct r as [i|err|]; cbn [after_acquire].
    + destruct (acquire_ok _ _ _ _ _ Hok Ha) as [Hok' _].
      by rewrite all_held_insert.
    + apply acquire_cases in Ha as [-> _]. by rewrite all_held_insert.
    + apply acquire_cases in Ha as [-> _]. by rewrite all_held_insert.
  - rewrite (all_held_delete _ _ _ Ht), Hh, <- app_assoc in Hok.
    assert (pool_ok (h1 ++ h2 ++ all_held (delete t ths)) p') as Hok'.
    { apply (give_back_ok h1 i _ p c (bool_decide (is_Some c)) Hok). apply bool_decide_eq_true. }
    rewrite all_held_insert. cbn [set_field held]. by rewrite <- app_assoc.
  - erewrite all_held_move by done. by destruct Hok; split.
  - assert (<[w := thw <| at_point := Trying |>]> ths !! t = Some th) as Ht'
      by (rewrite lookup_insert_ne; [done|intros ->; congruence]).
    by do 2 (erewrite all_held_move by done).
  - by erewrite all_held_move.
  - rewrite (all_held_move _ t (wake th)), all_held_wake; [done|by rewrite lookup_fmap, Ht|].
    unfold wake. by case_decide.
  - by erewrite all_held_move.
  - by erewrite all_held_move.
Qed.

Lemma step_waiters s s' :
  (forall t th, s_threads s !! t = Some th -> at_point th = Waiting -> held th = [] /\ elsewhere th = O) ->
  step s s' ->
  forall t th, s_threads s' !! t = Some th -> at_point th = Waiting -> held th = [] /\ elsewhere th = O.
Proof.
  intros HI Hs t0 th0.
  assert (forall (ths : gmap nat thread) t (th : thread),
    (forall t th, ths !! t = Some th -> at_point th = Waiting -> held th = [] /\ elsewhere th = O) ->
    (at_point th = Waiting -> held th = [] /\ elsewhere th = O) ->
    <[t := th]> ths !! t0 = Some th0 -> at_point th0 = Waiting -> held th0 = [] /\ elsewhere th0 = O) as Hins.
  { intros ths t th H1 H2. destruct (decide (t0 = t)) as [->|Hne].
    - rewrite lookup_insert_eq. intros [= <-]. done.
    - rewrite lookup_insert_ne by done. apply H1. }
  destruct Hs as [p ths t th Ht Hp|p ths t th r p' Ht Hp Ha|p ths t th h1 i h2 c Ht Hp Hh p'
    |p ths t th Ht Hp|p ths t th w thw Ht Hp Hw Hwp|p ths t th Ht Hp Hnone|p ths t th Ht Hp
    |p ths w thw Hw Hwp|p ths t th n Ht Hp]; cbn [s_pool s_threads] in *; try (apply Hins; [done|by cbn]).
  - apply Hins; [done|]. destruct r as [i|err|]; cbn; try done. intros _.
    apply acquire_cases in Ha as (_ & Hn & _). unfold leases_held in Hn.
    destruct (held th); cbn in Hn; [|lia]. split; [done|lia].
  - apply Hins; [done|]. cbn. unfold after_release. repeat case_match; done.
  - apply Hins; [|by cbn]. intros t1 th1. destruct (decide (t1 = w)) as [->|Hne].
    + rewrite lookup_insert_eq. by intros [= <-].
    + rewrite lookup_insert_ne by done. apply HI.
  - apply Hins; [|by cbn]. intros t1 th1. rewrite lookup_fmap.
    destruct (ths !! t1) as [th2|] eqn:H2; [|done]. intros [= <-]. unfold wake.
    case_decide; [done|by apply HI with t1].
  - apply Hins; [done|]. cbn. congruence.
Qed.

(** A thread's move, as the counts see it *)
Lemma told_move p p' (ths : gmap nat thread) t th th' :
  ths !! t = Some th -> at_point th <> NotifyAll ->
  told p ths ->
  (closed_ p = false -> live_ p <> 0 -> closed_ p' = false /\ live_ p' <> 0 /\
   Z.of_nat (List.length (free_ p')) - Z.of_nat (List.length (free_ p)) <=
     (if decide (at_point th' = Trying) then 1 else 0) + (if decide (at_point th' = NotifyOne) then 1 else 0) -
     (if decide (at_point th = Trying) then 1 else 0) - (if decide (at_point th = NotifyOne) then 1 else 0)) ->
  told p' (<[t := th']> ths).
Proof.
  intros Ht Hne [Hall|(Hc & Hl & Hf)] Hp; [left; by eapply notify_all_other|right].
  destruct (Hp Hc Hl) as (Hc' & Hl' & Hd). split_and!; [done..|].
  rewrite !(at_count_move _ _ _ _ _ Ht). lia.
Qed.

Lemma told_now p (ths : gmap nat thread) t th :
  at_point th = NotifyAll -> told p (<[t := th]> ths).
Proof. intros Hp. left. exists t, th. by rewrite lookup_insert_eq. Qed.

Lemma told_nothing_free p (ths : gmap nat thread) :
  closed_ p = false -> live_ p <> 0 -> free_ p = [] -> told p ths.
Proof.
  intros Hc Hl Hf. right. split_and!; [done..|]. rewrite Hf. cbn.
  pose proof (at_count_nonneg Trying ths). pose proof (at_count_nonneg NotifyOne ths). lia.
Qed.

(** A thread that waits after another's move was waiting before *)
Lemma waiting_before (ths : gmap nat thread) t th w thw :
  at_point th <> Waiting -> <[t := th]> ths !! w = Some thw -> at_point thw = Waiting ->
  ths !! w = Some thw.
Proof.
  intros Hne Hw Hp. destruct (decide (w = t)) as [->|Hwt].
  - rewrite lookup_insert_eq in Hw. congruence.
  - by rewrite lookup_insert_ne in Hw.
Qed.

(** Decides which point each thread is at *)
Ltac points := repeat case_decide; try done; try lia.

Lemma step_told s s' :
  (forall t th, s_threads s !! t = Some th -> at_point th = Waiting -> told (s_pool s) (s_threads s)) ->
  step s s' ->
  forall t th, s_threads s' !! t = Some th -> at_point th = Waiting -> told (s_pool s') (s_threads s').
Proof.
  intros HI Hs t0 th0.
  destruct Hs as [p ths t th Ht Hp|p ths t th r p' Ht Hp Ha|p ths t th h1 i h2 c Ht Hp Hh p'
    |p ths t th Ht Hp|p ths t th w thw Ht Hp Hw Hwp|p ths t th Ht Hp Hnone|p ths t th Ht Hp
    |p ths w thw Hw Hwp|p ths t th n Ht Hp]; cbn [s_pool s_threads] in *; intros H0 H0p.
  - apply waiting_before in H0; [|done..]. apply (told_move p p _ _ th); [done|congruence|eauto|].
    rewrite Hp. cbn. intros. split_and!; [done..|points].
  - pose proof (acquire_cases _ _ _ _ Ha) as Hc. destruct r as [i|err|]; cbn [after_acquire] in *.
    + apply waiting_before in H0; [|done..]. apply (told_move p p' _ _ th); [done|congruence|eauto|].
      rewrite Hp. cbn. intros. destruct Hc as (Hc1 & Hc2 & Hc3 & Hc4). split_and!; [done|lia|points].
    + apply waiting_before in H0; [|done..]. destruct Hc as [-> Hc].
      destruct (HI _ _ H0 H0p) as [Hall|(H1 & H2 & H3)].
      * left. eapply notify_all_other; [done|congruence|done].
      * destruct Hc as [Hc|Hc]; [congruence|]. by apply told_nothing_free.
    + destruct Hc as (-> & _ & Hc1 & Hc2 & Hc3). by apply told_nothing_free.
  - subst p'. set (p1 := returned i c p) in *.
    apply waiting_before in H0; [| |done].
    2:{ cbn. unfold after_release. repeat case_match; done. }
    unfold after_release. destruct (bool_decide (is_Some c)) eqn:Hc.
    + apply (told_move p p1 _ _ th); [done|congruence|eauto|]. rewrite Hp.
      subst p1. unfold returned. rewrite Hc. cbn. intros. rewrite length_app. cbn.
      split_and!; [done..|points].
    + destruct (Z.eqb_spec (live_ p1) 0) as [Hl|Hl]; [by apply told_now|].
      apply (told_move p p1 _ _ th); [done|congruence|eauto|]. rewrite Hp.
      intros H1 H2. subst p1. unfold returned in *. rewrite Hc in *. cbn in *.
      split_and!; [done..|points].
  - by apply told_now.
  - assert (t <> w) as Htw by (intros ->; congruence).
    apply waiting_before in H0; [|done..]. apply waiting_before in H0; [|done..].
    assert (<[w := thw <| at_point := Trying |>]> ths !! t = Some th) as Ht'
      by by rewrite lookup_insert_ne.
    destruct (HI _ _ H0 H0p) as [Hall|(H1 & H2 & H3)].
    + left. eapply notify_all_other; [done|congruence|]. eapply notify_all_other; [done|congruence|done].
    + right. split_and!; [done..|]. rewrite !(at_count_move _ _ _ _ _ Ht'), !(at_count_move _ _ _ _ _ Hw).
      rewrite Hp, Hwp. cbn. points.
  - apply waiting_before in H0; [|done..]. by destruct (Hnone _ _ H0).
  - apply waiting_before in H0; [|done..]. rewrite lookup_fmap in H0.
    destruct (ths !! t0) as [th1|] eqn:H1; [|done]. cbn in H0. injection H0 as <-.
    unfold wake in H0p. by case_decide.
  - apply waiting_before in H0; [|done..]. apply (told_move p p _ _ thw); [done|congruence|eauto|].
    rewrite Hwp. cbn. intros. split_and!; [done..|points].
  - apply waiting_before in H0; [|cbn; congruence|done]. apply (told_move p p _ _ th); [done|congruence|eauto|].
    intros. cbn. rewrite Hp. cbn. split_and!; [done..|points].
Qed.

Lemma initial_ok s : initial s -> system_ok s.
Proof.
  intros (Hp & Hc & Ht). split.
  - assert (all_held (s_threads s) = []) as ->; [|done]. unfold all_held.
    assert (forall x, x ∈ map_to_list (s_threads s) -> held (snd x) = []) as Hnil.
    { intros [t th] Hx. apply elem_of_map_to_list in Hx. by apply Ht with t. }
    induction (map_to_list (s_threads s)) as [|x l IH]; [done|]. cbn. rewrite Hnil by by left.
    apply IH. intros y Hy. apply Hnil. by right.
  - intros t th H1 H2. destruct (Ht _ _ H1). congruence.
  - intros t th H1 H2. destruct (Ht _ _ H1). congruence.
Qed.

Lemma reachable_ok s : reachable s -> system_ok s.
Proof.
  intros (s0 & H0 & Hs). apply initial_ok in H0. induction Hs as [s|s s1 s2 Hstep _ IH]; [done|].
  apply IH. destruct H0 as [A1 A2 A3]. split.
  - by eapply step_pool.
  - by eapply step_waiters.
  - by eapply step_told.
Qed.

(** A count that isn't zero has a thread *)
Lemma at_count_pos x ths : 0 < at_count x ths -> exists t th, ths !! t = Some th /\ at_point th = x.
Proof.
  intros Hpos. destruct (decide (map_Exists (fun _ th => at_point th = x) ths)) as [(t & th & H1 & H2)|Hn].
  - by exists t, th.
  - unfold at_count in Hpos. rewrite msum_zero in Hpos; [lia|]. intros t th Ht.
    rewrite decide_False; [done|]. intros Hx. apply Hn. by exists t, th.
Qed.

Lemma all_held_from ths i : i ∈ all_held ths -> exists t th, ths !! t = Some th /\ i ∈ held th.
Proof.
  unfold all_held. intros Hi. apply list_elem_of_In, in_flat_map in Hi as ([t th] & H1 & H2).
  apply list_elem_of_In in H1, H2. exists t, th. split; [by apply elem_of_map_to_list|done].
Qed.

Lemma one_waits_reachable : reachable one_waits.
Proof.
  exists two_threads. split.
  - split; [|split; [done|]].
    + split; cbn; [repeat constructor; by intros ?%elem_of_nil| |done|done].
      intros i. rewrite list_elem_of_singleton. unfold lease_connection. split.
      * intros ->. by eexists.
      * destruct i as [|i]; [done|]. cbn. by intros [? ?].
    + cbn [two_threads s_threads]. intros t th H. apply lookup_insert_Some in H as [[_ <-]|[_ H]]; [done|].
      by apply lookup_singleton_Some in H as [_ <-].
  - unfold two_threads, one_waits.
    eapply rtc_l; [by eapply (step_call _ _ 0%nat)|].
    eapply rtc_l; [by eapply (step_acquire _ _ 0%nat)|].
    eapply rtc_l; [by eapply (step_call _ _ 1%nat)|].
    eapply rtc_l; [by eapply (step_acquire _ _ 1%nat)|].
    match goal with |- rtc _ ?a ?b => assert (a = b) as ->; [vm_compute; reflexivity|done] end.
Qed.

(** Whom a waiting thread is told by *)
Lemma waiter_woken (s : system) (Hs : reachable s) (w : nat) (thw : thread)
    (Hw : s_threads s !! w = Some thw) (Hp : at_point thw = Waiting) :
  (may_stop (s_pool s) ->
     exists t th, s_threads s !! t = Some th /\ at_point th ∈ [Trying; NotifyOne; NotifyAll]) /\
  (~ may_stop (s_pool s) ->
     exists t th, s_threads s !! t = Some th /\ held th <> [] /\ at_point th <> Waiting).
Proof.
  destruct (reachable_ok _ Hs) as [Hpool Hwait Htold]. split.
  - intros Hstop. destruct (Htold _ _ Hw Hp) as [(t & th & H1 & H2)|(Hc & Hl & Hf)].
    + exists t, th. split; [done|]. rewrite H2. set_unfold. tauto.
    + destruct Hstop as [?|[Hfree|?]]; [congruence| |done].
      assert (0 < Z.of_nat (List.length (free_ (s_pool s)))) by (destruct (free_ (s_pool s)); [done|cbn; lia]).
      pose proof (at_count_nonneg Trying (s_threads s)).
      pose proof (at_count_nonneg NotifyOne (s_threads s)).
      destruct (decide (0 < at_count Trying (s_threads s))) as [Hpos|Hz].
      * apply at_count_pos in Hpos as (t & th & H3 & H4). exists t, th. rewrite H4. split; [done|by left].
      * destruct (at_count_pos NotifyOne (s_threads s)) as (t & th & H3 & H4); [lia|].
        exists t, th. rewrite H4. split; [done|]. right. by left.
  - intros Hstop. destruct Hpool as [_ _ Hl _].
    assert (free_ (s_pool s) = []) as Hf.
    { destruct (free_ (s_pool s)) eqn:E; [done|]. destruct Hstop. right. left. congruence. }
    rewrite Hf in Hl. cbn in Hl. destruct (all_held (s_threads s)) as [|i l] eqn:Ha.
    + destruct Hstop. right. by right.
    + destruct (all_held_from (s_threads s) i) as (t & th & Ht & Hi); [rewrite Ha; by left|].
      exists t, th. split; [done|]. assert (held th <> []) by (intros E; rewrite E in Hi; by apply elem_of_nil in Hi).
      split; [done|]. intros Hpt. by destruct (Hwait _ _ Ht Hpt).
Qed.

(** ** Properties *)

(** The pool's leases exclude each other, whatever the threads do and in
    whatever order: no connection has two leases, a leased connection isn't
    free, and the connections that are counted are those that are free and
    those that are leased. *)
Theorem leases_exclusive (s : system) (Hs : reachable s) :
  NoDup (free_ (s_pool s) ++ all_held (s_threads s)) /\
  live_ (s_pool s) = Z.of_nat (List.length (free_ (s_pool s)) + List.length (all_held (s_threads s))) /\
  forall t th i, s_threads s !! t = Some th -> i ∈ held th ->
    is_Some (lease_connection (s_pool s) i) /\ (i ∉ free_ (s_pool s)) /\
    (forall t' th', s_threads s !! t' = Some th' -> i ∈ held th' -> t' = t).
Proof.
  destruct (sys_pool _ (reachable_ok _ Hs)) as [Hn Hsl Hl _].
  split_and!; [done|by rewrite Hl, length_app|]. intros t th i Ht Hi.
  pose proof (all_held_in _ _ _ _ Ht Hi) as Hin. apply NoDup_app in Hn as (_ & Hd & Hn).
  split_and!.
  - apply Hsl, elem_of_app. by right.
  - intros Hf. by apply (Hd i).
  - intros t' th' Ht' Hi'. destruct (decide (t' = t)) as [|Hne]; [done|].
    rewrite (all_held_delete _ _ _ Ht) in Hn. apply NoDup_app in Hn as (_ & Hn & _).
    destruct (Hn i Hi). apply (all_held_in _ t' th'); [|done]. by rewrite lookup_delete_ne.
Qed.

Lemma leases_exclusive_witness :
  all_held (s_threads one_waits) = [0%nat] /\
  NoDup (free_ (s_pool one_waits) ++ all_held (s_threads one_waits)).
Proof.
  split; [vm_compute; reflexivity|]. apply (proj1 (leases_exclusive one_waits one_waits_reachable)).
Defined.

(** No thread waits for ever. A thread that waits holds no lease, of any
    pool. While there's a reason for it to stop (a free connection, or none
    left, or a closed pool), some thread is about to notify or is already
    awake to take the mutex; and while there's none, another thread holds a
    lease and isn't waiting, so its release will notify. *)
Theorem waiters_are_woken (s : system) (Hs : reachable s) (w : nat) (thw : thread)
    (Hw : s_threads s !! w = Some thw) (Hp : at_point thw = Waiting) :
  leases_held thw = 0 /\
  (may_stop (s_pool s) ->
     exists t th, s_threads s !! t = Some th /\ at_point th ∈ [Trying; NotifyOne; NotifyAll]) /\
  (~ may_stop (s_pool s) ->
     exists t th, s_threads s !! t = Some th /\ held th <> [] /\ at_point th <> Waiting).
Proof.
  split; [|by apply (waiter_woken s Hs w thw)]. destruct (reachable_ok _ Hs) as [_ Hwait _].
  unfold leases_held. by destruct (Hwait _ _ Hw Hp) as [-> ->].
Qed.

Lemma waiters_are_woken_witness :
  (at_point <$> (s_threads one_waits !! 1%nat)) = Some Waiting /\
  leases_held (some_thread Waiting []) = 0.
Proof.
  split; [reflexivity|].
  apply (proj1 (waiters_are_woken one_waits one_waits_reachable 1 (some_thread Waiting []) eq_refl eq_refl)).
Defined.

(** The steps are the library's: what [release()] does to the pool,
    whatever the device answers, is the step of a thread that ends a lease.
    A lease that wasn't connected goes back as it is, without a call. *)
Theorem release_refines `{E : World} `{B : BuildConfig} (bad : stop -> Prop) (index : nat)
    (connected : bool) (p : ConnectionPool) (t : trace)
    (Hp : is_Some (lease_connection p index)) :
  wp bad (release index connected p) (fun p' t' =>
    exists conn, p' = returned index conn p /\
      (connected = false -> conn = lease_connection p index /\ t' = t)) t.
Proof.
  unfold release, returned. apply wp_bind. destruct connected; cbn [negb].
  - eapply wp_mono; [apply restore_spec|]. cbv beta. intros [usable c] t1 [Hu _]. cbn [fst snd] in Hu.
    assert (bool_decide (is_Some c) = usable) as Hb.
    { destruct usable; [by apply bool_decide_eq_true, Hu|].
      apply bool_decide_eq_false. intros Hs. by apply Hu in Hs. }
    destruct usable; [apply wp_ret|apply wp_bind, wp_perform; intros r; apply wp_ret];
      (exists c; rewrite Hb; split; [done|discriminate]).
  - apply wp_ret, wp_ret. exists (lease_connection p index).
    by rewrite bool_decide_eq_true_2.
Qed.

Lemma release_refines_witness :
  is_Some (lease_connection (one_connection []) 0) /\
  wp (fun _ => False) (@release failing_world 0 true (one_connection [])) (fun p' t' =>
    exists conn, p' = returned 0 conn (one_connection []) /\
      (true = false -> conn = lease_connection (one_connection []) 0 /\ t' = [])) [].
Proof.
  split; [by eexists|].
  apply (@release_refines failing_world {| HIPOBJ_BNXT := true; HIPOBJ_IONIC := true |}).
  by eexists.
Defined.
