(* ===== verification/Locks.v ===== *)
(** * Mutexes and condition variables ([src/common/thread-safety.h])

    Functions of several threads, statement by statement: the statements that
    take a [Mutex] or a [SharedMutex] and give it back ([ScopedLock],
    [SharedLock]), the two steps of
    [ConditionVariable::wait()], and the statements between them, which are a
    parameter.  Any other thread may run between two statements.  [Programs]
    has the coarser view, in which a section is one action. *)

From stdpp Require Import base numbers list gmap relations.
From S2P Require Import Prelude.

(** ** Definitions *)

(** The statements of functions that share one mutex and one condition
    variable.  [op] are those that do neither. *)
Inductive code (op : Type -> Type) (A : Type) : Type :=
| Return (a : A)
| Do {X : Type} (o : op X) (k : X -> code op A)
| While (cond : code op bool) (body : code op unit) (k : code op A)
| MutexLock (k : code op A)
| MutexUnlock (k : code op A)
| MutexLockShared (k : code op A)
| MutexUnlockShared (k : code op A)
| CvWait (k : code op A)
| CvNotifyOne (k : code op A)
| CvNotifyAll (k : code op A).
Arguments Return {_ _} a.
Arguments Do {_ _ _} o k.
Arguments While {_ _} cond body k.
Arguments MutexLock {_ _} k.
Arguments MutexUnlock {_ _} k.
Arguments MutexLockShared {_ _} k.
Arguments MutexUnlockShared {_ _} k.
Arguments CvWait {_ _} k.
Arguments CvNotifyOne {_ _} k.
Arguments CvNotifyAll {_ _} k.

Fixpoint bind_code {op A B} (k : A -> code op B) (c : code op A) : code op B :=
  match c with
  | Return a => k a
  | Do o next => Do o (fun x => bind_code k (next x))
  | While cond body next => While cond body (bind_code k next)
  | MutexLock next => MutexLock (bind_code k next)
  | MutexUnlock next => MutexUnlock (bind_code k next)
  | MutexLockShared next => MutexLockShared (bind_code k next)
  | MutexUnlockShared next => MutexUnlockShared (bind_code k next)
  | CvWait next => CvWait (bind_code k next)
  | CvNotifyOne next => CvNotifyOne (bind_code k next)
  | CvNotifyAll next => CvNotifyAll (bind_code k next)
  end.

#[export] Instance code_ret {op} : MRet (code op) := @Return op.
#[export] Instance code_bind {op} : MBind (code op) := @bind_code op.

Definition stmt {op X} (o : op X) : code op X := Do o Return.
Definition Mutex_lock {op} : code op unit := MutexLock (Return tt).
Definition Mutex_unlock {op} : code op unit := MutexUnlock (Return tt).
Definition SharedMutex_lock_shared {op} : code op unit := MutexLockShared (Return tt).
Definition SharedMutex_unlock_shared {op} : code op unit := MutexUnlockShared (Return tt).
Definition ConditionVariable_wait {op} : code op unit := CvWait (Return tt).
Definition ConditionVariable_notify_one {op} : code op unit := CvNotifyOne (Return tt).
Definition ConditionVariable_notify_all {op} : code op unit := CvNotifyAll (Return tt).

(** A block with a [ScopedLock]: whatever the block's value, the lock's
    destructor gives the mutex back *)
Definition ScopedLock {op A} (block : code op A) : code op A :=
  _ ← Mutex_lock; r ← block; _ ← Mutex_unlock; mret r.

Definition SharedLock {op A} (block : code op A) : code op A :=
  _ ← SharedMutex_lock_shared; r ← block; _ ← SharedMutex_unlock_shared; mret r.

Definition while {op} (cond : code op bool) (body : code op unit) : code op unit :=
  While cond body (Return tt).

(** One turn of a loop, and the rest of it *)
Definition unfold_while {op A} (cond : code op bool) (body : code op unit) (k : code op A) : code op A :=
  b ← cond; if b : bool then (_ ← body; While cond body k) else k.

(** *** The mutex

    A [SharedMutex]; a [Mutex] is one that's never shared. *)
Inductive lock_state := Unlocked | Exclusive (t : nat) | Shared (ts : gset nat).

#[export] Instance lock_state_eq_dec : EqDecision lock_state.
Proof. solve_decision. Defined.

Definition share (t : nat) (o : lock_state) : option lock_state :=
  match o with
  | Unlocked => Some (Shared {[ t ]})
  | Exclusive _ => None
  | Shared ts => Some (Shared ({[ t ]} ∪ ts))
  end.

Definition unshare (t : nat) (o : lock_state) : option lock_state :=
  match o with
  | Shared ts =>
      if decide (t ∈ ts) then
        if decide (ts ∖ {[ t ]} = ∅) then Some Unlocked else Some (Shared (ts ∖ {[ t ]}))
      else None
  | _ => None
  end.

(** *** The threads

    A thread in [wait()] has released the mutex and is asleep, or has been
    woken and wants the mutex back. *)
Inductive wakefulness := Awake | Asleep | Woken.

#[export] Instance wakefulness_eq_dec : EqDecision wakefulness.
Proof. solve_decision. Defined.

Section machine.
Context {D L : Type} {op : Type -> Type}.
(** What a statement does to the shared data and the thread's own: its value,
    and both afterwards.  [choice] is what it can't know. *)
Context {C : Type} (exec : forall X, op X -> C -> D -> L -> option (X * D * L)).
(** What a thread may call when it's in none of the functions *)
Variable calls : L -> code op unit -> L -> Prop.

Record cthread := { t_code : code op unit; t_wakes : wakefulness; t_local : L }.

Record machine := { m_data : D; m_owner : lock_state; m_threads : gmap nat cthread }.

Definition sleeping (m : machine) (w : nat) (k : code op unit) (l : L) : Prop :=
  m_threads m !! w = Some {| t_code := CvWait k; t_wakes := Asleep; t_local := l |}.

Definition wake_up (th : cthread) : cthread :=
  if decide (t_wakes th = Asleep) then {| t_code := t_code th; t_wakes := Woken; t_local := t_local th |} else th.

Definition at_code (m : machine) (t : nat) (c : code op unit) (l : L) : Prop :=
  m_threads m !! t = Some {| t_code := c; t_wakes := Awake; t_local := l |}.

Definition goes_on (m : machine) (t : nat) (d : D) (owner : lock_state) (c : code op unit) (l : L) : machine :=
  {| m_data := d; m_owner := owner;
     m_threads := <[t := {| t_code := c; t_wakes := Awake; t_local := l |}]> (m_threads m) |}.

(** A statement of thread [t].  The threads that call nothing, and those that
    wake for no reason, are in [mstep]. *)
Inductive runs (t : nat) : machine -> machine -> Prop :=
| runs_op m X (o : op X) k l ch x d' l' :
    at_code m t (Do o k) l -> exec X o ch (m_data m) l = Some (x, d', l') ->
    runs t m (goes_on m t d' (m_owner m) (k x) l')
| runs_while m cond body k l :
    at_code m t (While cond body k) l ->
    runs t m (goes_on m t (m_data m) (m_owner m) (unfold_while cond body k) l)
| runs_lock m k l :
    at_code m t (MutexLock k) l -> m_owner m = Unlocked ->
    runs t m (goes_on m t (m_data m) (Exclusive t) k l)
| runs_unlock m k l :
    at_code m t (MutexUnlock k) l -> m_owner m = Exclusive t ->
    runs t m (goes_on m t (m_data m) Unlocked k l)
| runs_lock_shared m k l o' :
    at_code m t (MutexLockShared k) l -> share t (m_owner m) = Some o' ->
    runs t m (goes_on m t (m_data m) o' k l)
| runs_unlock_shared m k l o' :
    at_code m t (MutexUnlockShared k) l -> unshare t (m_owner m) = Some o' ->
    runs t m (goes_on m t (m_data m) o' k l)
| runs_wait m k l :
    at_code m t (CvWait k) l -> m_owner m = Exclusive t ->
    runs t m {| m_data := m_data m; m_owner := Unlocked;
                m_threads := <[t := {| t_code := CvWait k; t_wakes := Asleep; t_local := l |}]> (m_threads m) |}
| runs_relock m k l :
    m_threads m !! t = Some {| t_code := CvWait k; t_wakes := Woken; t_local := l |} -> m_owner m = Unlocked ->
    runs t m (goes_on m t (m_data m) (Exclusive t) k l)
| runs_notify_one m k l w kw lw :
    at_code m t (CvNotifyOne k) l -> sleeping m w kw lw ->
    runs t m (goes_on {| m_data := m_data m; m_owner := m_owner m;
                         m_threads := <[w := {| t_code := CvWait kw; t_wakes := Woken; t_local := lw |}]> (m_threads m) |}
                t (m_data m) (m_owner m) k l)
| runs_notify_none m k l :
    at_code m t (CvNotifyOne k) l -> (forall w th, m_threads m !! w = Some th -> t_wakes th <> Asleep) ->
    runs t m (goes_on m t (m_data m) (m_owner m) k l)
| runs_notify_all m k l :
    at_code m t (CvNotifyAll k) l ->
    runs t m (goes_on {| m_data := m_data m; m_owner := m_owner m; m_threads := wake_up <$> m_threads m |}
                t (m_data m) (m_owner m) k l).

Inductive mstep : machine -> machine -> Prop :=
| mstep_runs t m m' : runs t m m' -> mstep m m'
| mstep_call m t l c l' :
    at_code m t (Return tt) l -> calls l c l' ->
    mstep m (goes_on m t (m_data m) (m_owner m) c l')
| mstep_spurious m t k l :
    sleeping m t k l ->
    mstep m {| m_data := m_data m; m_owner := m_owner m;
               m_threads := <[t := {| t_code := CvWait k; t_wakes := Woken; t_local := l |}]> (m_threads m) |}.

(** The threads take turns, in a given order; one that can't go on misses its
    turn, and [notify_one()] wakes the first *)
Definition sleepers (m : machine) : list (nat * cthread) :=
  filter (fun x => t_wakes (snd x) = Asleep) (map_to_list (m_threads m)).

Definition turn (ch : C) (t : nat) (m : machine) : option machine :=
  th ← m_threads m !! t;
  let on := goes_on m t in
  match t_wakes th, t_code th with
  | Awake, Do o k => '(x, d', l') ← exec _ o ch (m_data m) (t_local th); Some (on d' (m_owner m) (k x) l')
  | Awake, While cond body k => Some (on (m_data m) (m_owner m) (unfold_while cond body k) (t_local th))
  | Awake, MutexLock k => if decide (m_owner m = Unlocked) then Some (on (m_data m) (Exclusive t) k (t_local th)) else None
  | Awake, MutexUnlock k => if decide (m_owner m = Exclusive t) then Some (on (m_data m) Unlocked k (t_local th)) else None
  | Awake, MutexLockShared k => o' ← share t (m_owner m); Some (on (m_data m) o' k (t_local th))
  | Awake, MutexUnlockShared k => o' ← unshare t (m_owner m); Some (on (m_data m) o' k (t_local th))
  | Awake, CvWait k =>
      if decide (m_owner m = Exclusive t) then
        Some {| m_data := m_data m; m_owner := Unlocked;
                m_threads := <[t := {| t_code := CvWait k; t_wakes := Asleep; t_local := t_local th |}]> (m_threads m) |}
      else None
  | Woken, CvWait k => if decide (m_owner m = Unlocked) then Some (on (m_data m) (Exclusive t) k (t_local th)) else None
  | Awake, CvNotifyOne k =>
      match sleepers m with
      | [] => Some (on (m_data m) (m_owner m) k (t_local th))
      | (w, {| t_code := CvWait kw; t_local := lw |}) :: _ =>
          Some (goes_on {| m_data := m_data m; m_owner := m_owner m;
                           m_threads := <[w := {| t_code := CvWait kw; t_wakes := Woken; t_local := lw |}]> (m_threads m) |}
                  t (m_data m) (m_owner m) k (t_local th))
      | _ => None
      end
  | Awake, CvNotifyAll k =>
      Some (goes_on {| m_data := m_data m; m_owner := m_owner m; m_threads := wake_up <$> m_threads m |}
              t (m_data m) (m_owner m) k (t_local th))
  | _, _ => None
  end.

Fixpoint turns (ch : C) (ts : list nat) (m : machine) : machine :=
  match ts with [] => m | t :: ts => turns ch ts (default m (turn ch t m)) end.
End machine.
Arguments cthread : clear implicits.
Arguments machine : clear implicits.

(** *** Reasoning about one thread

    [wpc c Q v]: the statements of [c], from what the thread knows, [v], lead
    to [Q], whatever the other threads do in between.  The rules of the single
    statements are parameters; a loop has an invariant. *)
Section wpc.
Context {V : Type} {op : Type -> Type}.
Context (rule : forall X, op X -> (X -> V -> Prop) -> V -> Prop).
Context (rule_lock rule_unlock rule_lock_shared rule_unlock_shared rule_wait rule_notify_one rule_notify_all : (V -> Prop) -> V -> Prop).

Fixpoint wpc {A : Type} (c : code op A) (Q : A -> V -> Prop) (v : V) : Prop :=
  match c with
  | Return a => Q a v
  | Do o k => rule _ o (fun x => wpc (k x) Q) v
  | While cond body k =>
      exists I : V -> Prop, I v /\
        forall v', I v' -> wpc cond (fun (b : bool) v2 => if b then wpc body (fun _ => I) v2 else wpc k Q v2) v'
  | MutexLock k => rule_lock (wpc k Q) v
  | MutexUnlock k => rule_unlock (wpc k Q) v
  | MutexLockShared k => rule_lock_shared (wpc k Q) v
  | MutexUnlockShared k => rule_unlock_shared (wpc k Q) v
  | CvWait k => rule_wait (wpc k Q) v
  | CvNotifyOne k => rule_notify_one (wpc k Q) v
  | CvNotifyAll k => rule_notify_all (wpc k Q) v
  end.

End wpc.

Definition monotone {V} (r : (V -> Prop) -> V -> Prop) : Prop :=
  forall (P Q : V -> Prop) v, (forall v', P v' -> Q v') -> r P v -> r Q v.

(** ** Lemmas *)

Section wpc_lemmas.
Context {V : Type} {op : Type -> Type}.
Context (rule : forall X, op X -> (X -> V -> Prop) -> V -> Prop).
Context (rule_lock rule_unlock rule_lock_shared rule_unlock_shared rule_wait rule_notify_one rule_notify_all : (V -> Prop) -> V -> Prop).
Abbreviation wpc := (wpc rule rule_lock rule_unlock rule_lock_shared rule_unlock_shared rule_wait rule_notify_one rule_notify_all).

Hypothesis rule_mono : forall X (o : op X) (P Q : X -> V -> Prop) v,
  (forall x v', P x v' -> Q x v') -> rule X o P v -> rule X o Q v.
Hypothesis rules_mono : Forall monotone
  [rule_lock; rule_unlock; rule_lock_shared; rule_unlock_shared; rule_wait; rule_notify_one; rule_notify_all].

Lemma wpc_mono {A} (c : code op A) (P Q : A -> V -> Prop) v :
  (forall a v', P a v' -> Q a v') -> wpc c P v -> wpc c Q v.
Proof.
  pose proof rules_mono as Hr. rewrite !Forall_cons in Hr. destruct Hr as (Hl & Hu & Hls & Hus & Hw & H1 & Ha & _).
  revert P Q v. induction c as [A a|A X o k IH|A cond IHc body IHb k IH|A k IH|A k IH|A k IH|A k IH|A k IH|A k IH|A k IH]; intros P Q v HPQ; cbn.
  - apply HPQ.
  - apply rule_mono. intros x v'. by apply IH.
  - intros (I & Hi & Hturn). exists I. split; [done|]. intros v' Hv'. eapply IHc; [|by apply Hturn].
    cbv beta. intros [|] v2; [done|]. by apply IH.
  - apply Hl. intros v'. by apply IH.
  - apply Hu. intros v'. by apply IH.
  - apply Hls. intros v'. by apply IH.
  - apply Hus. intros v'. by apply IH.
  - apply Hw. intros v'. by apply IH.
  - apply H1. intros v'. by apply IH.
  - apply Ha. intros v'. by apply IH.
Qed.

Lemma wpc_bind {A B} (c : code op A) (k : A -> code op B) Q v :
  wpc c (fun a => wpc (k a) Q) v -> wpc (c ≫= k) Q v.
Proof.
  pose proof rules_mono as Hr. rewrite !Forall_cons in Hr. destruct Hr as (Hl & Hu & Hls & Hus & Hw & H1 & Ha & _).
  revert v. induction c as [A a|A X o next IH|A cond _ body _ next IH|A next IH|A next IH|A next IH|A next IH|A next IH|A next IH|A next IH]; intros v; cbn.
  - done.
  - apply rule_mono. intros x v'. apply IH.
  - intros (I & Hi & Hturn). exists I. split; [done|]. intros v' Hv'. eapply wpc_mono; [|by apply Hturn].
    cbv beta. intros [|] v2; [done|]. apply IH.
  - apply Hl. intros v'. apply IH.
  - apply Hu. intros v'. apply IH.
  - apply Hls. intros v'. apply IH.
  - apply Hus. intros v'. apply IH.
  - apply Hw. intros v'. apply IH.
  - apply H1. intros v'. apply IH.
  - apply Ha. intros v'. apply IH.
Qed.

Lemma wpc_unfold_while {A} cond body (k : code op A) Q v :
  wpc (While cond body k) Q v -> wpc (unfold_while cond body k) Q v.
Proof.
  intros (I & Hi & Hturn). apply wpc_bind. eapply wpc_mono; [|by apply Hturn]. cbv beta.
  intros [|] v2; [|done]. intros Hbody. apply wpc_bind. eapply wpc_mono; [|exact Hbody].
  cbv beta. intros _ v3 Hv3. by exists I.
Qed.
End wpc_lemmas.

Section turns.
Context {D L : Type} {op : Type -> Type} {C : Type}.
Context (exec : forall X, op X -> C -> D -> L -> option (X * D * L)).
Variable calls : L -> code op unit -> L -> Prop.
Implicit Types m : machine D L op.

Lemma turn_runs ch t m m' : turn exec ch t m = Some m' -> runs exec t m m'.
Proof.
  unfold turn. destruct (m_threads m !! t) as [[c a l]|] eqn:Ht; [|done]. cbn.
  destruct a; [|done|].
  2:{ destruct c; try done. case_decide; [|done]. intros [= <-]. by eapply runs_relock. }
  destruct c as [u|X o k|cond body k|k|k|k|k|k|k|k]; [done|..].
  - destruct (exec X o ch (m_data m) l) as [[[x d'] l']|] eqn:Hx; [|done]. intros [= <-]. by eapply runs_op.
  - intros [= <-]. by eapply runs_while.
  - case_decide; [|done]. intros [= <-]. by eapply runs_lock.
  - case_decide; [|done]. intros [= <-]. by eapply runs_unlock.
  - destruct (share t (m_owner m)) as [o'|] eqn:Ho; [|done]. intros [= <-]. by eapply runs_lock_shared.
  - destruct (unshare t (m_owner m)) as [o'|] eqn:Ho; [|done]. intros [= <-]. by eapply runs_unlock_shared.
  - case_decide; [|done]. intros [= <-]. by eapply runs_wait.
  - destruct (sleepers m) as [|[w [cw aw lw]] ws] eqn:Hs.
    + intros [= <-]. eapply runs_notify_none; [done|]. intros w th Hw Ha. apply (not_elem_of_nil (w, th)). rewrite <- Hs.
      apply list_elem_of_filter. split; [done|]. by apply elem_of_map_to_list.
    + destruct cw; try done. intros [= <-]. eapply runs_notify_one; [done|]. unfold sleeping.
      assert ((w, {| t_code := CvWait cw; t_wakes := aw; t_local := lw |}) ∈ sleepers m) as Hin by (rewrite Hs; left).
      apply list_elem_of_filter in Hin as [Ha Hin%elem_of_map_to_list]. cbn in Ha. by subst aw.
  - intros [= <-]. by eapply runs_notify_all.
Qed.

Lemma turns_mstep ch ts m : rtc (mstep exec calls) m (turns exec ch ts m).
Proof.
  revert m. induction ts as [|t ts IH]; intros m; [done|]. cbn. etransitivity; [|apply IH].
  destruct (turn exec ch t m) as [m'|] eqn:Ht; [|done]. eapply rtc_once, mstep_runs. by eapply turn_runs.
Qed.
End turns.
