(* ===== verification/PoolCode.v ===== *)
(** * The connection pool, statement by statement
      ([src/rdma/connection-pool.cpp])

    The functions of [ConnectionPool] as sequences of statements, between any
    two of which other threads run, with its mutex and its condition variable
    from [Locks].  What's shown is that [PoolThreads]' steps are all that can
    be seen of them: the statements refine the monitor.  A thread's program is
    taken apart with [wpc], the weakest precondition of its statements beside
    the other threads', which says which of them is the monitor's step. *)

From stdpp Require Import base numbers list gmap relations.
From S2P Require Import Prelude.
From S2P Require Import IbvCore.
From S2P Require Import World.
From S2P Require Import Topology.
From S2P Require Import Transport.
From S2P Require Import Pool.
From S2P Require Import PoolThreads.
From S2P Require Import Locks.

(** ** Definitions *)

(** What a thread has of its own: the leases it holds on this pool, with
    their [connected_], and [t_leasesHeld], which counts those on others too *)
Record locals := { leases : list (nat * bool); t_leasesHeld : Z }.

#[export] Instance eta_locals : Eta locals := fun r =>
  {| leases := leases r; t_leasesHeld := t_leasesHeld r |}.

(** The statements: reading and writing the members that the mutex guards;
    the slots, each of which only its lease uses; and the thread's own data *)
Inductive op : Type -> Type :=
| closed_get : op bool
| closed_set : op unit
| live_get : op Z
| live_decrement : op unit
| free_empty : op bool
| free_size : op Z
| free_back : op nat
| free_pop_back : op unit
| free_push_back (index : nat) : op unit
| slots_size : op Z
| restore_slot (index : nat) : op bool
| use_connection (index : nat) : op unit
| leasesHeld_get : op Z
| leasesHeld_increment : op unit
| leasesHeld_decrement : op unit
| keep_lease (index : nat) : op unit
| print_dropped (left total : Z) : op unit.

(** Nothing, when what it does is undefined: [back()] and [pop_back()] of an
    empty vector, and an empty slot's connection. [restore()] leaves any
    connection in the slot, or none: [choice]. *)
Definition exec (X : Type) (o : op X) (choice : option RcConnection) (p : ConnectionPool) (l : locals)
    : option (X * ConnectionPool * locals) :=
  match o in op X return option (X * ConnectionPool * locals) with
  | closed_get => Some (closed_ p, p, l)
  | closed_set => Some (tt, p <| closed_ := true |>, l)
  | live_get => Some (live_ p, p, l)
  | live_decrement => Some (tt, p <| live_ := wrapu 64 (live_ p - 1) |>, l)
  | free_empty => Some (bool_decide (free_ p = []), p, l)
  | free_size => Some (Z.of_nat (List.length (free_ p)), p, l)
  | free_back => index ← last (free_ p); Some (index, p, l)
  | free_pop_back => _ ← last (free_ p); Some (tt, p <| free_ := removelast (free_ p) |>, l)
  | free_push_back index => Some (tt, p <| free_ := free_ p ++ [index] |>, l)
  | slots_size => Some (Z.of_nat (List.length (slots_ p)), p, l)
  | restore_slot index =>
      Some (bool_decide (is_Some choice), p <| slots_ := <[index := choice]> (slots_ p) |>, l)
  | use_connection index => _ ← lease_connection p index; Some (tt, p, l)
  | leasesHeld_get => Some (t_leasesHeld l, p, l)
  | leasesHeld_increment => Some (tt, p, l <| t_leasesHeld := t_leasesHeld l + 1 |>)
  | leasesHeld_decrement => Some (tt, p, l <| t_leasesHeld := t_leasesHeld l - 1 |>)
  | keep_lease index => Some (tt, p, l <| leases := (index, false) :: leases l |>)
  | print_dropped _ _ => Some (tt, p, l)
  end.

Definition acquire_code : code op (nat + AcquireError) :=
  ScopedLock (
    n ← stmt leasesHeld_get;
    _ ← (if n =? 0 then
           while (closed ← stmt closed_get;
                  if closed : bool then mret false
                  else
                    empty ← stmt free_empty;
                    if negb empty then mret false
                    else live ← stmt live_get; mret (negb (live =? 0)))
                 ConditionVariable_wait
         else mret tt);
    closed ← stmt closed_get;
    if closed : bool then mret (inr Closed)
    else
      empty ← stmt free_empty;
      if empty : bool then
        live ← stmt live_get;
        mret (inr (if live =? 0 then NoConnections else Busy))
      else
        index ← stmt free_back;
        _ ← stmt free_pop_back;
        (* the lease's constructor *)
        _ ← stmt leasesHeld_increment;
        mret (inl index)).

Definition release_code (index : nat) (connected : bool) : code op unit :=
  usable ← (if negb connected then mret true else stmt (restore_slot index) : code op bool);
  left ← ScopedLock (
    _ ← (if usable then stmt (free_push_back index) else stmt live_decrement);
    stmt live_get);
  if usable : bool then ConditionVariable_notify_one
  else
    _ ← (if left =? 0 then ConditionVariable_notify_all else mret tt : code op unit);
    total ← stmt slots_size;
    stmt (print_dropped left total).

(** [~Lease()], of a lease that hasn't been moved from *)
Definition destroy_Lease (index : nat) (connected : bool) : code op unit :=
  _ ← release_code index connected;
  stmt leasesHeld_decrement.

Definition close_code : code op unit :=
  _ ← ScopedLock (stmt closed_set);
  ConditionVariable_notify_all.

Definition size_code : code op Z := ScopedLock (stmt live_get).
Definition available_code : code op Z := ScopedLock (stmt free_size).

(** What a thread does with the pool.  Its leases on other pools come and go. *)
Inductive pool_calls : locals -> code op unit -> locals -> Prop :=
| call_acquire l :
    pool_calls l (r ← acquire_code; match r with inl index => stmt (keep_lease index) | inr _ => mret tt end) l
| call_connect l l1 index connected l2 :
    leases l = l1 ++ (index, connected) :: l2 ->
    pool_calls l (stmt (use_connection index)) (l <| leases := l1 ++ (index, true) :: l2 |>)
| call_destroy_Lease l l1 index connected l2 :
    leases l = l1 ++ (index, connected) :: l2 ->
    pool_calls l (destroy_Lease index connected) (l <| leases := l1 ++ l2 |>)
| call_close l : pool_calls l close_code l
| call_size l : pool_calls l (_ ← size_code; mret tt) l
| call_available l : pool_calls l (_ ← available_code; mret tt) l
| call_elsewhere l n :
    pool_calls l (mret tt) (l <| t_leasesHeld := Z.of_nat (List.length (leases l) + n) |>).

Abbreviation pool_thread := (cthread locals op).
Abbreviation pool_machine := (machine ConnectionPool locals op).
Definition pool_runs : nat -> pool_machine -> pool_machine -> Prop := runs exec.
Definition pool_mstep : pool_machine -> pool_machine -> Prop := mstep exec pool_calls.

(** A new pool, and threads that are in none of its functions *)
Definition initial_machine (m : pool_machine) : Prop :=
  pool_ok [] (m_data m) /\ closed_ (m_data m) = false /\ m_owner m = Unlocked /\
  forall t th, m_threads m !! t = Some th ->
    t_code th = Return tt /\ t_wakes th = Awake /\ leases (t_local th) = [] /\
    exists n : nat, t_leasesHeld (t_local th) = Z.of_nat n.

Definition machine_reachable (m : pool_machine) : Prop :=
  exists m0, initial_machine m0 /\ rtc pool_mstep m0 m.

(** *** What a thread knows

    [v_sec] is the monitor's pool, while the thread has the mutex; [v_th] the
    monitor's thread; and [v_pend] the slot of a lease that's ending, once
    [restore()] has been at it, with whether it holds a connection. *)
Record view := {
  v_sec : option ConnectionPool;
  v_th : thread;
  v_local : locals;
  v_pend : option (nat * bool);
}.

#[export] Instance eta_view : Eta view := fun r =>
  {| v_sec := v_sec r; v_th := v_th r; v_local := v_local r; v_pend := v_pend r |}.

Definition moves_to (p : ConnectionPool) (th : thread) (v : view) : view :=
  v <| v_sec := Some p |> <| v_th := th |>.
Definition at_ (x : point) (v : view) : view := v <| v_th := (v_th v) <| at_point := x |> |>.

(** The monitor's step of a thread that gives its lease on [index] back *)
Definition gives_back (index : nat) (usable : bool) (K : view -> Prop) (v : view) : Prop :=
  exists p h1 h2,
    v_sec v = Some p /\ at_point (v_th v) = Running /\ held (v_th v) = h1 ++ index :: h2 /\
    (v_pend v = Some (index, usable) \/ v_pend v = None /\ usable = true) /\
    forall conn, bool_decide (is_Some conn) = usable ->
      let p' := returned index conn p in
      K (moves_to p' ((v_th v) <| at_point := after_release usable p' |> <| held := h1 ++ h2 |>) v <| v_pend := None |>).

Definition op_rule (X : Type) (o : op X) (K : X -> view -> Prop) (v : view) : Prop :=
  match o in op X return (X -> view -> Prop) -> Prop with
  | closed_get => fun K => exists p, v_sec v = Some p /\ K (closed_ p) v
  | closed_set => fun K => exists p, v_sec v = Some p /\ at_point (v_th v) = Running /\
                             K tt (at_ NotifyAll (v <| v_sec := Some (close p) |>))
  | live_get => fun K => exists p, v_sec v = Some p /\ K (live_ p) v
  | live_decrement => fun K => exists index, gives_back index false (K tt) v
  | free_empty => fun K => exists p, v_sec v = Some p /\ K (bool_decide (free_ p = [])) v
  | free_size => fun K => exists p, v_sec v = Some p /\ K (Z.of_nat (List.length (free_ p))) v
  | free_back => fun K => exists p index, v_sec v = Some p /\ last (free_ p) = Some index /\ K index v
  | free_pop_back => fun K => exists p p' index,
      v_sec v = Some p /\ at_point (v_th v) = Trying /\ v_pend v = None /\
      acquire (leases_held (v_th v)) p = (Leased index, p') /\
      K tt (moves_to p' (after_acquire (Leased index) (v_th v)) v)
  | free_push_back index => fun K => gives_back index true (K tt) v
  | slots_size => fun K => forall n, K n v
  | restore_slot index => fun K => v_pend v = None /\ index ∈ held (v_th v) /\
                                   forall usable, K usable (v <| v_pend := Some (index, usable) |>)
  | use_connection index => fun K => v_pend v = None /\ index ∈ held (v_th v) /\ K tt v
  | leasesHeld_get => fun K => K (t_leasesHeld (v_local v)) v
  | leasesHeld_increment => fun K =>
      K tt (v <| v_local := (v_local v) <| t_leasesHeld := t_leasesHeld (v_local v) + 1 |> |>)
  | leasesHeld_decrement => fun K =>
      K tt (v <| v_local := (v_local v) <| t_leasesHeld := t_leasesHeld (v_local v) - 1 |> |>)
  | keep_lease index => fun K =>
      K tt (v <| v_local := (v_local v) <| leases := (index, false) :: leases (v_local v) |> |>)
  | print_dropped _ _ => fun K => K tt v
  end K.

Definition lock_rule (K : view -> Prop) (v : view) : Prop :=
  v_sec v = None /\ forall p, K (v <| v_sec := Some p |>).

(** A call that fails does so when it gives the mutex back *)
Definition unlock_rule (K : view -> Prop) (v : view) : Prop :=
  exists p, v_sec v = Some p /\
    (K (v <| v_sec := None |>) \/
     exists err, at_point (v_th v) = Trying /\ acquire (leases_held (v_th v)) p = (NotLeased err, p) /\
       K (at_ Running (v <| v_sec := None |>))).

Definition wait_rule (K : view -> Prop) (v : view) : Prop :=
  exists p, v_sec v = Some p /\ at_point (v_th v) = Trying /\
    acquire (leases_held (v_th v)) p = (MustWait, p) /\ forall p', K (v <| v_sec := Some p' |>).

(** The pool's mutex isn't shared *)
Definition no_rule (K : view -> Prop) (v : view) : Prop := False.

Definition notify_rule (x : point) (K : view -> Prop) (v : view) : Prop :=
  at_point (v_th v) = x /\ K (at_ Running v).

Definition pool_wpc {A} : code op A -> (A -> view -> Prop) -> view -> Prop :=
  wpc op_rule lock_rule unlock_rule no_rule no_rule wait_rule (notify_rule NotifyOne) (notify_rule NotifyAll).

(** In none of the functions *)
Definition outside (v : view) : Prop :=
  v_sec v = None /\ at_point (v_th v) = Running /\ v_pend v = None /\
  held (v_th v) = fst <$> leases (v_local v) /\ t_leasesHeld (v_local v) = leases_held (v_th v).

(** ** Lemmas *)

Ltac take_apart :=
  repeat match goal with
  | H : exists _, _ |- _ => destruct H
  | H : _ /\ _ |- _ => destruct H
  end.

Lemma op_rule_mono X (o : op X) (P Q : X -> view -> Prop) v :
  (forall x v', P x v' -> Q x v') -> op_rule X o P v -> op_rule X o Q v.
Proof. intros HPQ. destruct o; cbn; unfold gives_back; intros HP; take_apart; eauto 15. Qed.

Lemma pool_rules_mono :
  Forall monotone [lock_rule; unlock_rule; no_rule; no_rule; wait_rule; notify_rule NotifyOne; notify_rule NotifyAll].
Proof.
  rewrite !Forall_cons, Forall_nil. split_and!; [..|done]; intros P Q v HPQ;
    unfold lock_rule, unlock_rule, no_rule, wait_rule, notify_rule; intros HP; take_apart; eauto 15.
  destruct H0; take_apart; eauto 15.
Qed.

Lemma pool_wpc_mono {A} (c : code op A) (P Q : A -> view -> Prop) v :
  (forall a v', P a v' -> Q a v') -> pool_wpc c P v -> pool_wpc c Q v.
Proof. apply wpc_mono; [apply op_rule_mono|apply pool_rules_mono]. Qed.

Lemma pool_wpc_bind {A B} (c : code op A) (k : A -> code op B) Q v :
  pool_wpc c (fun a => pool_wpc (k a) Q) v -> pool_wpc (c ≫= k) Q v.
Proof. apply wpc_bind; [apply op_rule_mono|apply pool_rules_mono]. Qed.

(** *** The functions *)

Definition must_wait (n : Z) (p : ConnectionPool) : bool :=
  (n =? 0) && negb (closed_ p) && bool_decide (free_ p = []) && negb (live_ p =? 0).

Lemma acquire_goes_on n p :
  must_wait n p = false ->
  acquire n p =
    if closed_ p then (NotLeased Closed, p)
    else match last (free_ p) with
         | None => (NotLeased (if live_ p =? 0 then NoConnections else Busy), p)
         | Some index => (Leased index, p <| free_ := removelast (free_ p) |>)
         end.
Proof. unfold must_wait, acquire. by intros ->. Qed.

Lemma acquire_code_ok v :
  v_sec v = None -> at_point (v_th v) = Trying -> v_pend v = None ->
  held (v_th v) = fst <$> leases (v_local v) -> t_leasesHeld (v_local v) = leases_held (v_th v) ->
  pool_wpc (r ← acquire_code; match r with inl index => stmt (keep_lease index) | inr _ => mret tt end)
    (fun _ => outside) v.
Proof.
  destruct v as [sec th [ls n] pend]. cbn. intros -> Hth -> Hheld ->. unfold pool_wpc, acquire_code. cbn.
  split; [done|]. intros p. set (at_p := fun p => {| v_sec := Some p; v_th := th;
    v_local := {| leases := ls; t_leasesHeld := leases_held th |}; v_pend := None |}).
  do 3 apply pool_wpc_bind.
  apply pool_wpc_mono with (P := fun _ v' => exists p, v' = at_p p /\ must_wait (leases_held th) p = false).
  - intros _ v' (p' & -> & Hgo). cbn. exists p'. split; [done|].
    destruct (closed_ p') eqn:Hc; cbn.
    { exists p'. split; [done|]. right. exists Closed. rewrite acquire_goes_on, Hc by done. by split_and!. }
    exists p'. split; [done|]. case_bool_decide as Hf; cbn.
    + exists p'. split; [done|]. exists p'. split; [done|]. right. eexists. rewrite acquire_goes_on, Hc, Hf by done. by split_and!.
    + destruct (last (free_ p')) as [index|] eqn:Hl; [|by apply last_None in Hl].
      exists p', index. split_and!; [done|done|]. do 3 eexists. split_and!; [done|done|done| |].
      { by rewrite acquire_goes_on, Hc, Hl by done. }
      eexists. split; [done|]. left. cbn. split_and!; [done|done|done| |].
      * cbn. by rewrite Hheld.
      * unfold leases_held. cbn. lia.
  - unfold must_wait, pool_wpc. cbn. destruct (leases_held th =? 0) eqn:Hn; cbn; [|by exists p].
    exists (fun v' => exists p, v' = at_p p). split; [by exists p|]. intros v' [p' ->]. cbn.
    exists p'. split; [done|]. destruct (closed_ p') eqn:Hc; cbn; [by exists p'; rewrite Hc, ?andb_false_r|].
    exists p'. split; [done|]. case_bool_decide as Hf; cbn; [|by exists p'; rewrite Hc, bool_decide_eq_false_2].
    exists p'. split; [done|]. destruct (live_ p' =? 0) eqn:Hl; cbn.
    + exists p'. by rewrite Hl, !andb_false_r.
    + exists p'. split_and!; [done|done| |].
      * change (v_th (at_p p')) with th. unfold acquire. by rewrite Hn, Hc, Hl, bool_decide_eq_true_2.
      * intros p2. by exists p2.
Qed.

Lemma destroy_Lease_ok v h1 index connected h2 :
  v_sec v = None -> at_point (v_th v) = Running -> v_pend v = None ->
  held (v_th v) = h1 ++ index :: h2 -> fst <$> leases (v_local v) = h1 ++ h2 ->
  t_leasesHeld (v_local v) = leases_held (v_th v) ->
  pool_wpc (destroy_Lease index connected) (fun _ => outside) v.
Proof.
  destruct v as [sec th [ls n] pend]. cbn. intros -> Hth -> Hheld Hls ->. unfold destroy_Lease, release_code.
  do 2 apply pool_wpc_bind.
  apply pool_wpc_mono with (P := fun usable v' => v_sec v' = None /\ v_th v' = th /\
    v_local v' = {| leases := ls; t_leasesHeld := leases_held th |} /\
    (v_pend v' = Some (index, usable) \/ v_pend v' = None /\ usable = true)).
  2:{ unfold pool_wpc. destruct connected; cbn.
      - split_and!; [done|rewrite Hheld; set_solver|]. intros usable. by split_and!; [..|left].
      - by split_and!; [..|right]. }
  intros usable [sec' th' l' pend'] (Hsec & Ht & Hl & Hpend). cbn in *. subst sec' th' l'.
  unfold pool_wpc. cbn. split; [done|]. intros p. destruct usable; cbn.
  all: assert (forall x, outside {| v_sec := None; v_th := (th <| at_point := x |> <| held := h1 ++ h2 |>) <| at_point := Running |>;
    v_local := {| leases := ls; t_leasesHeld := leases_held th - 1 |}; v_pend := None |}) as Hout
    by (intros x; split_and!; [done|done|done|done|]; unfold leases_held; cbn; rewrite Hheld, !length_app; cbn; lia).
  - exists p, h1, h2. split_and!; [done|done|done|done|]. intros conn Hconn. eexists. split; [done|].
    eexists. split; [done|]. left. split; [done|]. apply (Hout NotifyOne).
  - exists index, p, h1, h2. split_and!; [done|done|done|done|]. intros conn Hconn. eexists. split; [done|].
    eexists. split; [done|]. left. cbn -[returned]. destruct (live_ (returned index conn p) =? 0) eqn:Hl; cbn -[returned].
    + split; [done|]. intros n. apply (Hout NotifyAll).
    + intros n. apply (Hout Running).
Qed.

Lemma close_code_ok v : outside v -> pool_wpc close_code (fun _ => outside) v.
Proof.
  destruct v as [sec th [ls n] pend]. intros (Hsec & Hth & Hpend & Hheld & Hn). cbn in *. subst sec pend n.
  split; [done|]. intros p. exists p. split_and!; [done|done|]. eexists. split; [done|]. left. by split_and!.
Qed.


Lemma size_code_ok v : outside v -> pool_wpc (_ ← size_code; mret tt) (fun _ => outside) v.
Proof.
  destruct v as [sec th l pend]. intros (Hsec & Hout). cbn in Hsec. subst sec.
  split; [done|]. intros p. exists p. split; [done|]. exists p. split; [done|]. by left.
Qed.

Lemma available_code_ok v : outside v -> pool_wpc (_ ← available_code; mret tt) (fun _ => outside) v.
Proof.
  destruct v as [sec th l pend]. intros (Hsec & Hout). cbn in Hsec. subst sec.
  split; [done|]. intros p. exists p. split; [done|]. exists p. split; [done|]. by left.
Qed.

(** A thread that calls a function is the monitor's thread that does *)
Lemma pool_calls_ok l c l' th p ths t :
  pool_calls l c l' -> ths !! t = Some th ->
  outside {| v_sec := None; v_th := th; v_local := l; v_pend := None |} ->
  exists th', held th' = held th /\ at_point th' <> Waiting /\
    rtc step {| s_pool := p; s_threads := ths |} {| s_pool := p; s_threads := <[t := th']> ths |} /\
    pool_wpc c (fun _ => outside) {| v_sec := None; v_th := th'; v_local := l'; v_pend := None |}.
Proof.
  intros Hcall Ht Hout. pose proof Hout as (_ & Hp & _ & Hh & Hn). cbn in Hp, Hh, Hn.
  assert (rtc step {| s_pool := p; s_threads := ths |} {| s_pool := p; s_threads := <[t := th]> ths |}) as Hstay
    by (by rewrite insert_id).
  destruct Hcall as [l|l l1 i con l2 Hl|l l1 i con l2 Hl|l|l|l|l n].
  - exists (th <| at_point := Trying |>). split_and!; [done|done|by apply rtc_once, step_call|].
    by apply acquire_code_ok.
  - exists th. split_and!; [done|congruence|done|]. rewrite Hl in Hh. split_and!; [done| |].
    + cbn. rewrite Hh, fmap_app. cbn. set_solver.
    + split_and!; cbn; [done|done|done| |done]. by rewrite Hh, !fmap_app.
  - exists th. split_and!; [done|congruence|done|]. rewrite Hl, fmap_app in Hh.
    eapply destroy_Lease_ok; [done|done|done|exact Hh| |done]. cbn. by rewrite fmap_app.
  - exists th. split_and!; [done|congruence|done|]. by apply close_code_ok.
  - exists th. split_and!; [done|congruence|done|]. by apply size_code_ok.
  - exists th. split_and!; [done|congruence|done|]. by apply available_code_ok.
  - exists (th <| elsewhere := n |>). split_and!; [done|cbn; congruence|by apply rtc_once, step_elsewhere|].
    split_and!; cbn; [done|done|done|done|]. unfold leases_held. cbn. rewrite Hh, length_fmap. lia.
Qed.
