(* ===== verification/PoolRefines.v ===== *)
(** * The pool's statements refine its monitor ([src/rdma/connection-pool.cpp])

    A simulation: what the statements of [PoolCode] do, in any interleaving,
    are [PoolThreads]' steps.  So what was shown of the steps holds of the
    statements; and no two threads ever use the same data at once. *)

From stdpp Require Import base numbers list gmap relations.
From S2P Require Import Prelude.
From S2P Require Import IbvCore.
From S2P Require Import World.
From S2P Require Import Topology.
From S2P Require Import Transport.
From S2P Require Import Pool.
From S2P Require Import PoolThreads.
From S2P Require Import Locks.
From S2P Require Import PoolCode.

(** ** Definitions *)

(** The pool of the statements and that of the monitor: they differ in slots
    that are leased, since [restore()] runs without the mutex *)
Record same_members (p sp : ConnectionPool) (leased : list nat) : Prop := {
  same_closed : closed_ p = closed_ sp;
  same_live : live_ p = live_ sp;
  same_free : free_ p = free_ sp;
  same_length : List.length (slots_ p) = List.length (slots_ sp);
  same_slots : forall i, i ∉ leased -> slots_ p !! i = slots_ sp !! i;
}.

(** A leased slot holds a connection, unless [restore()] has left none *)
Definition slot_ok (p : ConnectionPool) (pend : option (nat * bool)) (i : nat) : Prop :=
  bool_decide (is_Some (lease_connection p i)) =
    match pend with Some (j, usable) => if decide (i = j) then usable else true | None => true end.

Definition section (owner : lock_state) (t : nat) (sp : ConnectionPool) : option ConnectionPool :=
  if decide (owner = Exclusive t) then Some sp else None.

Definition in_wait (x : point) (sec : option ConnectionPool) (ct : pool_thread) (th : thread)
    (pend : option (nat * bool)) : Prop :=
  sec = None /\ at_point th = x /\ exists k, t_code ct = CvWait k /\
    forall p, pool_wpc k (fun _ => outside)
      {| v_sec := Some p; v_th := th <| at_point := Trying |>; v_local := t_local ct; v_pend := pend |}.

Definition thread_ok (sec : option ConnectionPool) (ct : pool_thread) (th : thread)
    (pend : option (nat * bool)) : Prop :=
  match t_wakes ct with
  | Awake => at_point th <> Waiting /\
      pool_wpc (t_code ct) (fun _ => outside) {| v_sec := sec; v_th := th; v_local := t_local ct; v_pend := pend |}
  | Asleep => in_wait Waiting sec ct th pend
  | Woken => in_wait Trying sec ct th pend
  end.

Definition thread_rel (owner : lock_state) (p sp : ConnectionPool) (t : nat) (ct : option pool_thread)
    (th : option thread) (pend : option (nat * bool)) : Prop :=
  match ct, th with
  | Some ct, Some th =>
      thread_ok (section owner t sp) ct th pend /\ forall i, i ∈ held th -> slot_ok p pend i
  | None, None => owner <> Exclusive t
  | _, _ => False
  end.

Record rel (m : pool_machine) (s : system) (pends : nat -> option (nat * bool)) : Prop := {
  rel_lock : forall ts, m_owner m <> Shared ts;
  rel_members : same_members (m_data m) (s_pool s) (all_held (s_threads s));
  rel_threads : forall t, thread_rel (m_owner m) (m_data m) (s_pool s) t (m_threads m !! t) (s_threads s !! t) (pends t);
}.

Definition sim (m : pool_machine) (s : system) (pends : nat -> option (nat * bool)) : Prop :=
  reachable s /\ rel m s pends.

(** What a statement uses that other threads could use: the size of the
    slots' vector never changes, and what's a thread's own is no other's *)
Inductive place := Closed_ | Live_ | Free_ | Slot (index : nat).

Definition uses {X} (o : op X) : list place :=
  match o with
  | closed_get | closed_set => [Closed_]
  | live_get | live_decrement => [Live_]
  | free_empty | free_size | free_back | free_pop_back | free_push_back _ => [Free_]
  | restore_slot index | use_connection index => [Slot index]
  | slots_size | leasesHeld_get | leasesHeld_increment | leasesHeld_decrement | keep_lease _ | print_dropped _ _ => []
  end.

(** The members that are [HIPOBJ_GUARDED_BY(mutex_)] *)
Definition guarded (x : place) : Prop := match x with Slot _ => False | _ => True end.

(** In one of the pool's functions *)
Definition in_call (th : pool_thread) : Prop := t_code th <> Return tt \/ t_wakes th <> Awake.

(** ** Lemmas *)

Lemma elem_middle {A} (x : A) l1 l2 : x ∈ l1 ++ x :: l2.
Proof. apply elem_of_app. right. left. Qed.

Lemma elem_around {A} (x y : A) l1 l2 : x ∈ l1 ++ l2 -> x ∈ l1 ++ y :: l2.
Proof. intros [Hx|Hx]%elem_of_app; apply elem_of_app; [by left|by do 2 right]. Qed.

Lemma reachable_rtc s s' : reachable s -> rtc step s s' -> reachable s'.
Proof. intros (s0 & Hinit & Hs0) Hs. exists s0. split; [done|]. by etransitivity. Qed.

Lemma section_Some owner t sp p : section owner t sp = Some p -> owner = Exclusive t /\ p = sp.
Proof. unfold section. case_decide; [|done]. by intros [= <-]. Qed.

Lemma section_owner t sp : section (Exclusive t) t sp = Some sp.
Proof. unfold section. by rewrite decide_True. Qed.

Lemma section_none t sp : section Unlocked t sp = None.
Proof. done. Qed.

Lemma sim_thread m s pends t ct :
  sim m s pends -> m_threads m !! t = Some ct ->
  exists th, s_threads s !! t = Some th /\ thread_ok (section (m_owner m) t (s_pool s)) ct th (pends t) /\
    forall i, i ∈ held th -> slot_ok (m_data m) (pends t) i.
Proof.
  intros [_ [_ _ Hts]] Ht. specialize (Hts t). rewrite Ht in Hts. unfold thread_rel in Hts.
  destruct (s_threads s !! t) as [th|]; [|done]. by exists th.
Qed.

(** A thread that isn't the one that moves *)
Lemma thread_rel_frame owner owner' p p' sp sp' t ct th pend :
  section owner' t sp' = section owner t sp ->
  (forall i th', th = Some th' -> i ∈ held th' -> lease_connection p' i = lease_connection p i) ->
  thread_rel owner p sp t ct th pend -> thread_rel owner' p' sp' t ct th pend.
Proof.
  intros Hsec Hslot. unfold thread_rel. destruct ct as [ct|], th as [th|]; try done.
  - rewrite Hsec. intros [Hok Hheld]. split; [done|]. intros i Hi. unfold slot_ok.
    rewrite (Hslot i th eq_refl Hi). by apply Hheld.
  - intros Hne Howner. revert Hsec. unfold section. rewrite decide_True, decide_False by done. done.
Qed.

Definition set_pend (t : nat) (pend : option (nat * bool)) (pends : nat -> option (nat * bool)) : nat -> option (nat * bool) :=
  fun x => if decide (x = t) then pend else pends x.

(** Thread [t] moves *)
Lemma sim_update m s pends t ct th p' sp' ct1 th1 pend1 :
  sim m s pends -> m_threads m !! t = Some ct -> s_threads s !! t = Some th ->
  (forall t', t' <> t -> section (m_owner m) t' sp' = section (m_owner m) t' (s_pool s)) ->
  (forall t' th' i, t' <> t -> s_threads s !! t' = Some th' -> i ∈ held th' ->
     lease_connection p' i = lease_connection (m_data m) i) ->
  same_members p' sp' (all_held (<[t := th1]> (s_threads s))) ->
  thread_rel (m_owner m) p' sp' t (Some ct1) (Some th1) pend1 ->
  rtc step s {| s_pool := sp'; s_threads := <[t := th1]> (s_threads s) |} ->
  sim {| m_data := p'; m_owner := m_owner m; m_threads := <[t := ct1]> (m_threads m) |}
      {| s_pool := sp'; s_threads := <[t := th1]> (s_threads s) |} (set_pend t pend1 pends).
Proof.
  intros [Hreach [Hlock Hmem Hts]] Hct Hth Hsec Hslot Hmem' Hrel Hsteps.
  split; [by eapply reachable_rtc|]. split; cbn; [done|..].
  - done.
  - intros t'. unfold set_pend. destruct (decide (t' = t)) as [->|Hne].
    + by rewrite !lookup_insert_eq.
    + rewrite !lookup_insert_ne by done. eapply thread_rel_frame; [by apply Hsec| |apply Hts].
      intros i th' Ht' Hi. by eapply Hslot.
Qed.

Lemma section_same owner t t' sp sp' :
  t' <> t -> owner = Exclusive t -> section owner t' sp' = section owner t' sp.
Proof. intros Hne ->. unfold section. by rewrite !decide_False by congruence. Qed.

Definition follows (m' : pool_machine) (s : system) : Prop :=
  exists s' pends', rtc step s s' /\ sim m' s' pends'.

(** A move that changes no member, and keeps the leases *)
Definition quiet (owner owner' : lock_state) (t : nat) : Prop :=
  owner' = owner \/ owner = Exclusive t /\ owner' = Unlocked \/ owner = Unlocked /\ owner' = Exclusive t.

Lemma rel_quiet m s pends t ct th owner' ct1 th1 :
  rel m s pends -> m_threads m !! t = Some ct -> s_threads s !! t = Some th -> held th1 = held th ->
  quiet (m_owner m) owner' t -> thread_ok (section owner' t (s_pool s)) ct1 th1 (pends t) ->
  rel {| m_data := m_data m; m_owner := owner'; m_threads := <[t := ct1]> (m_threads m) |}
      {| s_pool := s_pool s; s_threads := <[t := th1]> (s_threads s) |} pends.
Proof.
  intros [Hlock [H1 H2 H3 H4 H5] Hts] Hct Hth Hheld Howner Hok. split; cbn.
  - intros ts. destruct Howner as [->|[[_ ->]|[_ ->]]]; [apply Hlock|done..].
  - split; [done..|]. intros i Hi. apply H5. by rewrite <- (all_held_move _ _ _ _ Hth Hheld).
  - intros t'. destruct (decide (t' = t)) as [->|Hne].
    + rewrite !lookup_insert_eq. split; [exact Hok|]. specialize (Hts t). rewrite Hct, Hth in Hts. rewrite Hheld. apply Hts.
    + rewrite !lookup_insert_ne by done. eapply thread_rel_frame; [|done|apply Hts]. unfold section.
      destruct Howner as [->|[[-> ->]|[-> ->]]]; repeat case_decide; congruence.
Qed.

Lemma sim_quiet m s pends t ct th owner' ct1 th1 :
  sim m s pends -> m_threads m !! t = Some ct -> s_threads s !! t = Some th -> held th1 = held th ->
  quiet (m_owner m) owner' t -> thread_ok (section owner' t (s_pool s)) ct1 th1 (pends t) ->
  rtc step s {| s_pool := s_pool s; s_threads := <[t := th1]> (s_threads s) |} ->
  follows {| m_data := m_data m; m_owner := owner'; m_threads := <[t := ct1]> (m_threads m) |} s.
Proof.
  intros [Hreach Hrel] Hct Hth Hheld Howner Hok Hsteps. eexists _, _. split; [exact Hsteps|].
  split; [by eapply reachable_rtc|by eapply rel_quiet].
Qed.

Lemma sim_awake m s pends t c l th :
  sim m s pends -> at_code m t c l -> s_threads s !! t = Some th -> at_point th <> Waiting.
Proof.
  intros [_ [_ _ Hts]] Hct Hth. specialize (Hts t). rewrite Hct, Hth in Hts. by destruct Hts as [[? _] _].
Qed.

Lemma sim_stays m s pends t c0 l0 th c l :
  sim m s pends -> at_code m t c0 l0 -> s_threads s !! t = Some th ->
  pool_wpc c (fun _ => outside)
    {| v_sec := section (m_owner m) t (s_pool s); v_th := th; v_local := l; v_pend := pends t |} ->
  follows (goes_on m t (m_data m) (m_owner m) c l) s.
Proof.
  intros Hsim Hct Hth Hok. unfold goes_on. eapply (sim_quiet m s pends t _ th _ _ th); [exact Hsim|exact Hct|exact Hth|done|by left| |].
  { split; [by eapply sim_awake|exact Hok]. }
  rewrite insert_id by done. by destruct s.
Qed.

(** The lease on [index] ends *)
Lemma sim_gives_back m s pends t c0 l0 th index usable c l :
  sim m s pends -> at_code m t c0 l0 -> s_threads s !! t = Some th ->
  gives_back index usable (pool_wpc c (fun _ => outside))
    {| v_sec := section (m_owner m) t (s_pool s); v_th := th; v_local := l; v_pend := pends t |} ->
  follows (goes_on m t (give_back index usable (m_data m)) (m_owner m) c l) s.
Proof.
  intros Hsim Hct Hth (p & h1 & h2 & Hsec & Hrun & Hheld & Hpend & Hk). cbn in Hsec, Hrun, Hheld, Hpend.
  apply section_Some in Hsec as [Howner ->].
  pose proof Hsim as [Hreach [Hlock [E1 E2 E3 E4 E5] Hts]]. pose proof (Hts t) as Hrel. rewrite Hct, Hth in Hrel.
  destruct Hrel as [_ Hslots]. pose proof (reachable_ok _ Hreach) as [[Hnd Hin _ _] _ _].
  set (conn := lease_connection (m_data m) index).
  assert (bool_decide (is_Some conn) = usable) as Hconn.
  { unfold conn. rewrite (Hslots index) by (rewrite Hheld; apply elem_middle).
    destruct Hpend as [->|[-> ->]]; [by rewrite decide_True|done]. }
  assert (index ∈ all_held (s_threads s)) as Hleased by (eapply all_held_in; [exact Hth|rewrite Hheld; apply elem_middle]).
  assert (exists so, slots_ (m_data m) !! index = Some so /\ conn = so) as (so & Hso & Hco).
  { assert (is_Some (lease_connection (s_pool s) index)) as [c' Hc'] by (apply Hin, elem_of_app; by right).
    unfold lease_connection in Hc'. destruct (slots_ (s_pool s) !! index) as [so|] eqn:Hl; [|done].
    destruct (slots_ (m_data m) !! index) as [so'|] eqn:Hl'.
    - exists so'. unfold conn, lease_connection. rewrite Hl'. by destruct so'.
    - apply lookup_lt_Some in Hl. apply lookup_ge_None in Hl'. lia. }
  specialize (Hk conn Hconn). cbn zeta in Hk. set (sp' := returned index conn (s_pool s)) in *.
  set (th1 := th <| at_point := after_release usable sp' |> <| held := h1 ++ h2 |>) in *.
  assert (rtc step s {| s_pool := sp'; s_threads := <[t := th1]> (s_threads s) |}) as Hsteps.
  { apply rtc_once. destruct s as [sp ths]. unfold th1. rewrite <- Hconn. by eapply step_release. }
  pose proof (all_held_delete _ _ _ Hth) as Hperm. rewrite Hheld in Hperm.
  rewrite Hperm in Hnd. apply NoDup_app in Hnd as (_ & _ & Hnd).
  exists {| s_pool := sp'; s_threads := <[t := th1]> (s_threads s) |}, (set_pend t None pends). split; [exact Hsteps|].
  eapply sim_update; [exact Hsim|exact Hct|exact Hth| | | | |exact Hsteps].
  - intros t' Hne. eapply section_same; [exact Hne|exact Howner].
  - intros t' th' i Hne Ht' Hi. by destruct usable.
  - assert (forall b, slots_ (give_back index b (m_data m)) = slots_ (m_data m)) as Hs by by intros [].
    unfold sp', returned. rewrite Hconn.
    split; [by destruct usable|destruct usable; cbn; congruence|destruct usable; cbn; congruence| |].
    + rewrite Hs. destruct usable; cbn; by rewrite length_insert.
    + intros i Hi. rewrite Hs. assert (forall b p, slots_ (give_back index b p) = slots_ p) as -> by by intros [].
      cbn. rewrite all_held_insert in Hi. destruct (decide (i = index)) as [->|Hne].
      * rewrite list_lookup_insert_eq; [by rewrite Hso, Hco|]. rewrite <- E4. by apply lookup_lt_Some in Hso.
      * rewrite list_lookup_insert_ne by done. apply E5. rewrite Hperm. intros Hi'. apply Hi.
        cbn. apply elem_of_app in Hi' as [Hi'|Hi']; apply elem_of_app; [left|by right].
        apply elem_of_app in Hi' as [Hi'|[->|Hi']%elem_of_cons]; apply elem_of_app; [by left|done|by right].
  - split.
    + rewrite Howner, section_owner. split; [|exact Hk]. cbn. unfold after_release. by repeat case_match.
    + intros i Hi. cbn in Hi. assert (i <> index) as Hne.
      { intros ->. apply NoDup_app in Hnd as (Hnd & _ & _). rewrite <- Permutation_middle in Hnd.
        apply NoDup_cons in Hnd as [Hni _]. done. }
      unfold slot_ok. assert (lease_connection (give_back index usable (m_data m)) i = lease_connection (m_data m) i) as ->
        by by destruct usable.
      rewrite (Hslots i) by (rewrite Hheld; by apply elem_around). destruct Hpend as [->|[-> ->]]; [by rewrite decide_False|done].
Qed.

(** A lease on a connection that's free *)
Lemma sim_leases m s pends t c0 l0 th index sp' c l :
  sim m s pends -> at_code m t c0 l0 -> s_threads s !! t = Some th ->
  m_owner m = Exclusive t -> at_point th = Trying -> pends t = None ->
  acquire (leases_held th) (s_pool s) = (Leased index, sp') ->
  pool_wpc c (fun _ => outside)
    {| v_sec := Some sp'; v_th := after_acquire (Leased index) th; v_local := l; v_pend := None |} ->
  follows (goes_on m t ((m_data m) <| free_ := removelast (free_ (m_data m)) |>) (m_owner m) c l) s.
Proof.
  intros Hsim Hct Hth Howner Hat Hpend Hacq Hk.
  pose proof Hsim as [Hreach [Hlock [E1 E2 E3 E4 E5] Hts]]. pose proof (Hts t) as Hrel. rewrite Hct, Hth in Hrel.
  destruct Hrel as [_ Hslots]. pose proof (reachable_ok _ Hreach) as [[Hnd Hin _ _] _ _].
  assert (last (free_ (s_pool s)) = Some index /\ sp' = (s_pool s) <| free_ := removelast (free_ (s_pool s)) |>) as [Hlast ->].
  { revert Hacq. unfold acquire. destruct (_ && _); [done|]. destruct (closed_ (s_pool s)); [done|].
    destruct (last _); [|done]. by intros [= -> <-]. }
  assert (index ∈ free_ (s_pool s)) as Hfree.
  { apply last_removelast in Hlast. rewrite Hlast. apply elem_of_app. right. left. }
  assert (index ∉ all_held (s_threads s)) as Hnew by (apply NoDup_app in Hnd as (_ & Hnd & _); by apply Hnd).
  assert (rtc step s {| s_pool := (s_pool s) <| free_ := removelast (free_ (s_pool s)) |>;
                        s_threads := <[t := after_acquire (Leased index) th]> (s_threads s) |}) as Hsteps
    by (apply rtc_once; destruct s as [sp ths]; by eapply step_acquire).
  eexists _, _. split; [exact Hsteps|eapply sim_update with (pend1 := None); [exact Hsim|exact Hct|exact Hth| | | | |exact Hsteps]].
  - intros t' Hne. eapply section_same; [exact Hne|exact Howner].
  - done.
  - split; [done|done|cbn; by rewrite E3|done|]. intros i Hi. apply E5. intros Hi'. apply Hi.
    rewrite all_held_insert. cbn. right. by rewrite (all_held_delete _ _ _ Hth) in Hi'.
  - split; [by rewrite Howner, section_owner; split|]. intros i Hi. cbn in Hi. unfold slot_ok.
    change (lease_connection ((m_data m) <| free_ := removelast (free_ (m_data m)) |>) i) with (lease_connection (m_data m) i).
    apply elem_of_cons in Hi as [->|Hi].
    + apply bool_decide_eq_true_2. unfold lease_connection. rewrite (E5 index Hnew). apply Hin, elem_of_app. by left.
    + rewrite (Hslots i Hi). by rewrite Hpend.
Qed.

Lemma sim_closes m s pends t c0 l0 th c l :
  sim m s pends -> at_code m t c0 l0 -> s_threads s !! t = Some th ->
  m_owner m = Exclusive t -> at_point th = Running ->
  pool_wpc c (fun _ => outside)
    {| v_sec := Some (close (s_pool s)); v_th := th <| at_point := NotifyAll |>; v_local := l; v_pend := pends t |} ->
  follows (goes_on m t (close (m_data m)) (m_owner m) c l) s.
Proof.
  intros Hsim Hct Hth Howner Hat Hk. pose proof Hsim as [Hreach [Hlock [E1 E2 E3 E4 E5] Hts]].
  pose proof (Hts t) as Hrel. rewrite Hct, Hth in Hrel. destruct Hrel as [_ Hslots].
  assert (rtc step s {| s_pool := close (s_pool s);
                        s_threads := <[t := th <| at_point := NotifyAll |>]> (s_threads s) |}) as Hsteps
    by (apply rtc_once; destruct s as [sp ths]; by eapply step_close).
  eexists _, _. split; [exact Hsteps|eapply sim_update with (pend1 := pends t); [exact Hsim|exact Hct|exact Hth| | | | |exact Hsteps]].
  - intros t' Hne. eapply section_same; [exact Hne|exact Howner].
  - done.
  - split; [done..|]. intros i Hi. apply E5.
    intros Hi'. apply Hi. by rewrite (all_held_move _ _ _ _ Hth).
  - split; [by rewrite Howner, section_owner; split|exact Hslots].
Qed.

(** [restore()] changes a slot that no other thread has a lease on *)
Lemma sim_restores m s pends t c0 l0 th index choice c l :
  sim m s pends -> at_code m t c0 l0 -> s_threads s !! t = Some th ->
  pends t = None -> index ∈ held th ->
  pool_wpc c (fun _ => outside)
    {| v_sec := section (m_owner m) t (s_pool s); v_th := th; v_local := l;
       v_pend := Some (index, bool_decide (is_Some choice)) |} ->
  follows (goes_on m t ((m_data m) <| slots_ := <[index := choice]> (slots_ (m_data m)) |>) (m_owner m) c l) s.
Proof.
  intros Hsim Hct Hth Hpend Hidx Hk. pose proof Hsim as [Hreach [Hlock [E1 E2 E3 E4 E5] Hts]].
  pose proof (Hts t) as Hrel. rewrite Hct, Hth in Hrel. destruct Hrel as [_ Hslots].
  pose proof (reachable_ok _ Hreach) as [[Hnd Hin _ _] _ _].
  pose proof (all_held_in _ _ _ _ Hth Hidx) as Hleased.
  assert (index < List.length (slots_ (m_data m)))%nat as Hlt.
  { rewrite E4. assert (is_Some (lease_connection (s_pool s) index)) as [c' Hc'] by (apply Hin, elem_of_app; by right).
    unfold lease_connection in Hc'. destruct (slots_ (s_pool s) !! index) eqn:Hl; [|done]. by apply lookup_lt_Some in Hl. }
  assert (rtc step s {| s_pool := s_pool s; s_threads := <[t := th]> (s_threads s) |}) as Hsteps
    by (rewrite insert_id by done; by destruct s).
  eexists _, _. split; [exact Hsteps|].
  eapply sim_update; [exact Hsim|exact Hct|exact Hth|done| | | |exact Hsteps].
  - intros t' th' i Hne Ht' Hi. unfold lease_connection. cbn. rewrite list_lookup_insert_ne; [done|]. intros ->.
    apply NoDup_app in Hnd as (_ & _ & Hnd). rewrite (all_held_delete _ _ _ Hth) in Hnd.
    apply NoDup_app in Hnd as (_ & Hnd & _). apply (Hnd i Hidx). apply (all_held_in _ t' th'); [|done].
    by rewrite lookup_delete_ne.
  - split; [done..| |].
    + cbn. by rewrite length_insert.
    + intros i Hi. cbn. rewrite (insert_id _ t th Hth) in Hi. rewrite list_lookup_insert_ne; [by apply E5|]. by intros ->.
  - split; [by split; [eapply sim_awake|]|]. intros i Hi. unfold slot_ok, lease_connection. cbn. case_decide as Hd.
    + subst i. by rewrite list_lookup_insert_eq.
    + rewrite list_lookup_insert_ne by done. specialize (Hslots i Hi). unfold slot_ok in Hslots. by rewrite Hpend in Hslots.
Qed.

Lemma sim_op m s pends t X (o : op X) k l choice x p' l' :
  sim m s pends -> at_code m t (Do o k) l -> exec X o choice (m_data m) l = Some (x, p', l') ->
  follows (goes_on m t p' (m_owner m) (k x) l') s.
Proof.
  intros Hsim Hcode Hx. pose proof Hsim as [_ [_ [E1 E2 E3 E4 E5] _]].
  destruct (sim_thread _ _ _ _ _ Hsim Hcode) as (th & Hth & Hok & _). destruct Hok as [_ Hok]. cbn in Hok.
  destruct o; cbn in Hx, Hok.
  - destruct Hok as (p & [Howner ->]%section_Some & Hk). injection Hx as <- <- <-. rewrite E1. by eapply sim_stays.
  - destruct Hok as (p & [Howner ->]%section_Some & Hrun & Hk). injection Hx as <- <- <-. by eapply sim_closes.
  - destruct Hok as (p & [Howner ->]%section_Some & Hk). injection Hx as <- <- <-. rewrite E2. by eapply sim_stays.
  - destruct Hok as (index & Hk). injection Hx as <- <- <-. by eapply (sim_gives_back _ _ _ _ _ _ _ index false).
  - destruct Hok as (p & [Howner ->]%section_Some & Hk). injection Hx as <- <- <-. rewrite E3. by eapply sim_stays.
  - destruct Hok as (p & [Howner ->]%section_Some & Hk). injection Hx as <- <- <-. rewrite E3. by eapply sim_stays.
  - destruct Hok as (p & index & [Howner ->]%section_Some & Hlast & Hk). rewrite E3, Hlast in Hx. injection Hx as <- <- <-.
    by eapply sim_stays.
  - destruct Hok as (p & sp' & index & [Howner ->]%section_Some & Hat & Hpend & Hacq & Hk). cbn in Hat, Hpend, Hacq.
    destruct (last (free_ (m_data m))); [|done]. injection Hx as <- <- <-. eapply sim_leases; [done..|]. by rewrite <- Hpend.
  - injection Hx as <- <- <-. by eapply (sim_gives_back _ _ _ _ _ _ _ index true).
  - injection Hx as <- <- <-. by eapply sim_stays.
  - destruct Hok as (Hpend & Hin & Hk). injection Hx as <- <- <-. by eapply sim_restores.
  - destruct Hok as (Hpend & Hin & Hk). destruct (lease_connection (m_data m) index); [|done]. injection Hx as <- <- <-.
    by eapply sim_stays.
  - injection Hx as <- <- <-. by eapply sim_stays.
  - injection Hx as <- <- <-. by eapply sim_stays.
  - injection Hx as <- <- <-. by eapply sim_stays.
  - injection Hx as <- <- <-. by eapply sim_stays.
  - injection Hx as <- <- <-. by eapply sim_stays.
Qed.

(** A thread that's awake, and what's left of its function *)
Lemma sim_code m s pends t c l :
  sim m s pends -> at_code m t c l ->
  exists th, s_threads s !! t = Some th /\ at_point th <> Waiting /\
    pool_wpc c (fun _ => outside)
      {| v_sec := section (m_owner m) t (s_pool s); v_th := th; v_local := l; v_pend := pends t |}.
Proof. intros Hsim Hcode. destruct (sim_thread _ _ _ _ _ Hsim Hcode) as (th & Hth & [Hat Hok] & _). by exists th. Qed.

Lemma at_point_same th x : at_point th = x -> th <| at_point := x |> = th.
Proof. destruct th. cbn. by intros ->. Qed.

Lemma at_point_twice th x y : th <| at_point := x |> <| at_point := y |> = th <| at_point := y |>.
Proof. done. Qed.

Lemma sim_lock m s pends t k l :
  sim m s pends -> at_code m t (MutexLock k) l -> m_owner m = Unlocked ->
  follows (goes_on m t (m_data m) (Exclusive t) k l) s.
Proof.
  intros Hsim Hcode Hfree. destruct (sim_code _ _ _ _ _ _ Hsim Hcode) as (th & Hth & Hat & _ & Hk). cbn in Hk.
  eapply (sim_quiet m s pends t _ th _ _ th); [done|exact Hcode|exact Hth|done|by do 2 right| |].
  - split; [done|]. rewrite section_owner. apply Hk.
  - rewrite insert_id by done. by destruct s.
Qed.

Lemma sim_unlock m s pends t k l :
  sim m s pends -> at_code m t (MutexUnlock k) l ->
  follows (goes_on m t (m_data m) Unlocked k l) s.
Proof.
  intros Hsim Hcode. destruct (sim_code _ _ _ _ _ _ Hsim Hcode) as (th & Hth & Hat & p & [Howner ->]%section_Some & Hk).
  destruct Hk as [Hk|(err & Htry & Hacq & Hk)].
  - eapply (sim_quiet m s pends t _ th _ _ th); [done|exact Hcode|exact Hth|done|right; by left|by split|].
    rewrite insert_id by done. by destruct s.
  - eapply (sim_quiet m s pends t _ th _ _ (th <| at_point := Running |>)); [done|exact Hcode|exact Hth|done|right; by left|by split|].
    destruct s as [sp ths]. by eapply rtc_once, (step_acquire _ _ _ _ (NotLeased err)).
Qed.

Lemma sim_wait m s pends t k l :
  sim m s pends -> at_code m t (CvWait k) l -> m_owner m = Exclusive t ->
  follows {| m_data := m_data m; m_owner := Unlocked;
             m_threads := <[t := {| t_code := CvWait k; t_wakes := Asleep; t_local := l |}]> (m_threads m) |} s.
Proof.
  intros Hsim Hcode _. destruct (sim_code _ _ _ _ _ _ Hsim Hcode) as (th & Hth & Hat & p & [Howner ->]%section_Some & Htry & Hacq & Hk).
  cbn in Htry, Hacq.
  eapply (sim_quiet m s pends t _ th _ _ (th <| at_point := Waiting |>)); [done|exact Hcode|exact Hth|done|right; by left| |].
  - split_and!; [done|done|]. exists k. split; [done|]. intros p. rewrite at_point_twice, (at_point_same th) by done. apply Hk.
  - destruct s as [sp ths]. by eapply rtc_once, (step_acquire _ _ _ _ MustWait).
Qed.

Lemma sim_relock m s pends t k l :
  sim m s pends -> m_threads m !! t = Some {| t_code := CvWait k; t_wakes := Woken; t_local := l |} -> m_owner m = Unlocked ->
  follows (goes_on m t (m_data m) (Exclusive t) k l) s.
Proof.
  intros Hsim Hcode Hfree.
  destruct (sim_thread _ _ _ _ _ Hsim Hcode) as (th & Hth & (_ & Htry & k' & [= <-] & Hk) & _).
  eapply (sim_quiet m s pends t _ th _ _ th); [done|exact Hcode|exact Hth|done|by do 2 right| |].
  - split; [by rewrite Htry|]. rewrite section_owner. rewrite (at_point_same th) in Hk by done. apply Hk.
  - rewrite insert_id by done. by destruct s.
Qed.

(** A sleeping thread is woken *)
Lemma woken_ok sec ct th pend k l :
  ct = {| t_code := CvWait k; t_wakes := Asleep; t_local := l |} -> thread_ok sec ct th pend ->
  at_point th = Waiting /\
  thread_ok sec {| t_code := CvWait k; t_wakes := Woken; t_local := l |} (th <| at_point := Trying |>) pend.
Proof.
  intros -> (Hsec & Hwait & k' & [= <-] & Hk). split; [done|]. split_and!; [done|done|]. by exists k.
Qed.

Lemma sim_spurious m s pends t k l :
  sim m s pends -> sleeping m t k l ->
  follows {| m_data := m_data m; m_owner := m_owner m;
             m_threads := <[t := {| t_code := CvWait k; t_wakes := Woken; t_local := l |}]> (m_threads m) |} s.
Proof.
  intros Hsim Hcode. destruct (sim_thread _ _ _ _ _ Hsim Hcode) as (th & Hth & Hok & _).
  destruct (woken_ok _ _ _ _ _ _ eq_refl Hok) as [Hwait Hok'].
  eapply (sim_quiet m s pends t _ th _ _ (th <| at_point := Trying |>)); [done|exact Hcode|exact Hth|done|by left|exact Hok'|].
  destruct s as [sp ths]. by eapply rtc_once, step_spurious.
Qed.

Lemma sim_notify_none m s pends t k l :
  sim m s pends -> at_code m t (CvNotifyOne k) l ->
  (forall w th, m_threads m !! w = Some th -> t_wakes th <> Asleep) ->
  follows (goes_on m t (m_data m) (m_owner m) k l) s.
Proof.
  intros Hsim Hcode Hnone. destruct (sim_code _ _ _ _ _ _ Hsim Hcode) as (th & Hth & _ & Hat & Hk). cbn in Hat.
  eapply (sim_quiet m s pends t _ th _ _ (th <| at_point := Running |>)); [done|exact Hcode|exact Hth|done|by left|by split|].
  destruct s as [sp ths]. eapply rtc_once, step_notify_none; [exact Hth|exact Hat|]. intros w thw Hw Hwait.
  destruct Hsim as [_ [_ _ Hts]]. specialize (Hts w). cbn in Hw, Hts. rewrite Hw in Hts.
  destruct (m_threads m !! w) as [[cw aw lw]|] eqn:Hmw; [|done]. destruct Hts as [Hok _]. destruct aw.
  - by destruct Hok.
  - by apply (Hnone _ _ Hmw).
  - destruct Hok as (_ & Htry & _). congruence.
Qed.

Lemma sim_notify_one m s pends t k l w kw lw :
  sim m s pends -> at_code m t (CvNotifyOne k) l -> sleeping m w kw lw ->
  follows (goes_on {| m_data := m_data m; m_owner := m_owner m;
                      m_threads := <[w := {| t_code := CvWait kw; t_wakes := Woken; t_local := lw |}]> (m_threads m) |}
             t (m_data m) (m_owner m) k l) s.
Proof.
  intros Hsim Hcode Hsleep. destruct (sim_code _ _ _ _ _ _ Hsim Hcode) as (th & Hth & _ & Hat & Hk). cbn in Hat.
  destruct (sim_thread _ _ _ _ _ Hsim Hsleep) as (thw & Hthw & Hokw & _).
  destruct (woken_ok _ _ _ _ _ _ eq_refl Hokw) as [Hwait Hokw'].
  assert (w <> t) as Hne by (intros ->; unfold at_code, sleeping in *; congruence).
  set (thw1 := thw <| at_point := Trying |>) in *.
  destruct Hsim as [Hreach Hrel]. pose proof (rel_quiet m s pends w _ thw _ _ thw1 Hrel Hsleep Hthw eq_refl (or_introl eq_refl) Hokw') as Hrel1.
  assert (rtc step s {| s_pool := s_pool s; s_threads := <[t := th <| at_point := Running |>]> (<[w := thw1]> (s_threads s)) |})
    as Hsteps by (destruct s as [sp ths]; by eapply rtc_once, step_notify_one).
  eexists _, _. split; [exact Hsteps|]. split; [by eapply reachable_rtc|].
  eapply (rel_quiet _ _ _ t _ th _ _ _ Hrel1); [by cbn; rewrite lookup_insert_ne by done|by cbn; rewrite lookup_insert_ne by done|done|by left|].
  by split.
Qed.

Lemma rel_wake_all m s pends :
  rel m s pends ->
  rel {| m_data := m_data m; m_owner := m_owner m; m_threads := wake_up <$> m_threads m |}
      {| s_pool := s_pool s; s_threads := wake <$> s_threads s |} pends.
Proof.
  intros [Hlock [H1 H2 H3 H4 H5] Hts]. split; cbn; [done|..].
  - split; [done..|]. intros i. rewrite all_held_wake. apply H5.
  - intros w. specialize (Hts w). rewrite !lookup_fmap. unfold thread_rel in *.
    destruct (m_threads m !! w) as [[cw aw lw]|], (s_threads s !! w) as [thw|]; cbn; try done.
    destruct Hts as [Hok Hslots]. split; [|intros i Hi; apply Hslots; revert Hi; unfold wake; by case_decide].
    unfold wake_up, wake. cbn. destruct aw.
    + destruct Hok as [Hat Hok]. by rewrite decide_False, decide_False.
    + destruct Hok as (Hsec & Hwait & k & Hcode & Hk). cbn in Hcode. subst cw.
      rewrite decide_True, decide_True by done. split_and!; [done|done|]. by exists k.
    + pose proof Hok as (_ & Htry & _). by rewrite decide_False, decide_False by congruence.
Qed.

Lemma sim_notify_all m s pends t k l :
  sim m s pends -> at_code m t (CvNotifyAll k) l ->
  follows (goes_on {| m_data := m_data m; m_owner := m_owner m; m_threads := wake_up <$> m_threads m |}
             t (m_data m) (m_owner m) k l) s.
Proof.
  intros Hsim Hcode. destruct (sim_code _ _ _ _ _ _ Hsim Hcode) as (th & Hth & Hne & Hat & Hk). cbn in Hat.
  destruct Hsim as [Hreach Hrel]. apply rel_wake_all in Hrel.
  assert (rtc step s {| s_pool := s_pool s; s_threads := <[t := th <| at_point := Running |>]> (wake <$> s_threads s) |})
    as Hsteps by (destruct s as [sp ths]; by eapply rtc_once, step_notify_all).
  eexists _, _. split; [exact Hsteps|]. split; [by eapply reachable_rtc|].
  eapply (rel_quiet _ _ _ t {| t_code := CvNotifyAll k; t_wakes := Awake; t_local := l |} th _ _ _ Hrel); cbn;
    [by rewrite lookup_fmap, Hcode| |done|by left|by split].
  rewrite lookup_fmap, Hth. cbn. unfold wake. by rewrite decide_False by congruence.
Qed.

(** *** The simulation *)

Lemma sim_runs m m' t s pends : sim m s pends -> pool_runs t m m' -> follows m' s.
Proof.
  intros Hsim Hruns. destruct Hruns.
  - by eapply sim_op.
  - destruct (sim_code _ _ _ _ _ _ Hsim H) as (th & Hth & _ & Hk). eapply sim_stays; [exact Hsim|exact H|exact Hth|].
    apply wpc_unfold_while; [apply op_rule_mono|apply pool_rules_mono|exact Hk].
  - by eapply sim_lock.
  - by eapply sim_unlock.
  - destruct (sim_code _ _ _ _ _ _ Hsim H) as (th & _ & _ & []).
  - destruct (sim_code _ _ _ _ _ _ Hsim H) as (th & _ & _ & []).
  - by eapply sim_wait.
  - by eapply sim_relock.
  - by eapply sim_notify_one.
  - by eapply sim_notify_none.
  - by eapply sim_notify_all.
Qed.

Lemma sim_mstep m m' s pends : sim m s pends -> pool_mstep m m' -> follows m' s.
Proof.
  intros Hsim Hstep. destruct Hstep as [t m m' Hruns|m t l c l' Hcode Hcall|m t k l Hsleep].
  - by eapply sim_runs.
  - destruct (sim_code _ _ _ _ _ _ Hsim Hcode) as (th & Hth & Hne & Hout).
    pose proof Hout as (Hsec & Hrun & Hpend & _). cbn in Hsec, Hrun, Hpend. rewrite Hsec, Hpend in Hout.
    destruct (pool_calls_ok _ _ _ _ (s_pool s) (s_threads s) t Hcall Hth Hout) as (th' & Hheld & Hat & Hsteps & Hok).
    eapply (sim_quiet m s pends t _ th _ _ th'); [done|exact Hcode|exact Hth|done|by left| |by destruct s].
    split; [done|]. by rewrite Hsec, Hpend.
  - by eapply sim_spurious.
Qed.

Lemma initial_sim m : initial_machine m -> exists s pends, sim m s pends.
Proof.
  intros (Hpool & Hclosed & Howner & Hths).
  set (th_of := fun ct : pool_thread => {| at_point := Running; held := []; elsewhere := Z.to_nat (t_leasesHeld (t_local ct)) |}).
  exists {| s_pool := m_data m; s_threads := th_of <$> m_threads m |}, (fun _ => None). split; [|split; [by rewrite Howner|..]].
  - eexists. split; [|done]. split_and!; [done|done|]. intros t th Ht. cbn in Ht.
    apply lookup_fmap_Some in Ht as (ct & <- & _). by split.
  - by split.
  - intros t. cbn. rewrite lookup_fmap. destruct (m_threads m !! t) as [ct|] eqn:Ht; cbn; [|by rewrite Howner].
    destruct (Hths _ _ Ht) as (Hcode & Hwake & Hl & n & Hn). split; [|by intros i ?%elem_of_nil].
    unfold thread_ok. rewrite Hwake, Hcode. split; [done|]. split_and!; [by unfold section; rewrite Howner|done|done|by cbn; rewrite Hl|].
    unfold leases_held. cbn. rewrite Hn. lia.
Qed.

Lemma machine_sim m : machine_reachable m -> exists s pends, sim m s pends.
Proof.
  intros (m0 & Hinit & Hsteps). apply initial_sim in Hinit as (s & pends & Hsim). revert s pends Hsim.
  induction Hsteps as [m|m m1 m2 Hstep _ IH]; intros s pends Hsim; [by exists s, pends|].
  destruct (sim_mstep _ _ _ _ Hsim Hstep) as (s' & pends' & _ & Hsim'). by eapply IH.
Qed.

(** *** What a statement needs *)

(** The wpc of a statement says whose the places are that it uses *)
Lemma op_rule_uses X (o : op X) K v x :
  op_rule X o K v -> x ∈ uses o ->
  (guarded x -> is_Some (v_sec v)) /\ (forall i, x = Slot i -> i ∈ held (v_th v) /\ v_pend v = None).
Proof.
  intros Hrule Hx. destruct o; cbn in Hrule, Hx; unfold gives_back in Hrule; take_apart;
    try (by apply elem_of_nil in Hx); apply list_elem_of_singleton in Hx; subst x;
    (split; [try done; intros _; eexists; eassumption|try (by intros ? [=])]).
  - intros i [= ->]. by split.
  - intros i [= ->]. by split.
Qed.

Lemma exec_defined m s pends t X (o : op X) k l choice :
  sim m s pends -> at_code m t (Do o k) l -> is_Some (exec X o choice (m_data m) l).
Proof.
  intros Hsim Hcode. destruct (sim_thread _ _ _ _ _ Hsim Hcode) as (th & Hth & [_ Hok] & Hslots). cbn in Hok.
  destruct Hsim as [_ [_ [_ _ E3 _ _] _]]. destruct o; cbn in Hok |- *; try by eexists.
  - destruct Hok as (p & index & [_ ->]%section_Some & Hlast & _). rewrite E3, Hlast. by eexists.
  - destruct Hok as (p & sp' & index & [_ ->]%section_Some & _ & _ & Hacq & _). revert Hacq. unfold acquire.
    destruct (_ && _); [done|]. destruct (closed_ (s_pool s)); [done|]. rewrite E3. destruct (last _); [|done]. by eexists.
  - destruct Hok as (Hpend & Hin & _). specialize (Hslots _ Hin). unfold slot_ok in Hslots. cbn in Hpend. rewrite Hpend in Hslots.
    apply bool_decide_eq_true in Hslots as [c ->]. by eexists.
Qed.

Lemma can_run m s pends t c l :
  sim m s pends -> at_code m t c l -> c <> Return tt -> (forall k, c = MutexLock k -> m_owner m = Unlocked) ->
  exists m', pool_runs t m m'.
Proof.
  intros Hsim Hcode Hret Hlock. destruct (sim_code _ _ _ _ _ _ Hsim Hcode) as (th & Hth & _ & Hok).
  destruct c as [[]|X o k|cond body k|k|k|k|k|k|k|k]; [done|..].
  - destruct (exec_defined _ _ _ _ _ _ _ _ None Hsim Hcode) as [[[x p'] l'] Hx]. eexists. by eapply runs_op.
  - eexists. by eapply runs_while.
  - eexists. eapply runs_lock; [done|by eapply Hlock].
  - destruct Hok as (p & [Howner _]%section_Some & _). eexists. by eapply runs_unlock.
  - destruct Hok.
  - destruct Hok.
  - destruct Hok as (p & [Howner _]%section_Some & _). eexists. by eapply runs_wait.
  - destruct (decide (map_Exists (fun _ th => t_wakes th = Asleep) (m_threads m))) as [(w & [cw aw lw] & Hw & Hs)|Hn].
    + cbn in Hs. subst aw. destruct (sim_thread _ _ _ _ _ Hsim Hw) as (thw & _ & (_ & _ & kw & Hkw & _) & _). cbn in Hkw. subst cw.
      eexists. by eapply runs_notify_one.
    + eexists. eapply runs_notify_none; [done|]. intros w thw Hw Hs. apply Hn. by exists w, thw.
  - eexists. by eapply runs_notify_all.
Qed.

(** The thread that has the mutex can go on *)
Lemma owner_runs m s pends t : sim m s pends -> m_owner m = Exclusive t -> exists m', pool_runs t m m'.
Proof.
  intros Hsim Howner. destruct (m_threads m !! t) as [[c a l]|] eqn:Ht.
  2:{ destruct Hsim as [_ [_ _ Hts]]. specialize (Hts t). rewrite Ht in Hts. by destruct (s_threads s !! t). }
  destruct (sim_thread _ _ _ _ _ Hsim Ht) as (th & Hth & Hok & _). rewrite Howner, section_owner in Hok.
  destruct a; [|by destruct Hok..]. destruct Hok as [_ Hok].
  eapply can_run; [exact Hsim|exact Ht| |].
  - intros ->. by destruct Hok.
  - intros k ->. by destruct Hok.
Qed.

Lemma in_call_runs m s pends t ct :
  sim m s pends -> m_threads m !! t = Some ct -> in_call ct -> t_wakes ct <> Asleep ->
  exists t' m', pool_runs t' m m'.
Proof.
  intros Hsim Ht Hcall Hawake. destruct (m_owner m) as [|t'|ts] eqn:Howner; [|exists t'; by eapply owner_runs|].
  2:{ destruct Hsim as [_ [Hlock _ _]]. by destruct (Hlock ts). }
  exists t. destruct ct as [c a l]. cbn in *. destruct a; [|done|].
  - eapply can_run; [exact Hsim|exact Ht| |done]. intros ->. by destruct Hcall.
  - destruct (sim_thread _ _ _ _ _ Hsim Ht) as (th & _ & (_ & _ & k & Hk & _) & _). cbn in Hk. subst c.
    eexists. by eapply runs_relock.
Qed.

#[export] Instance may_stop_dec p : Decision (may_stop p).
Proof. unfold may_stop. apply _. Defined.

#[export] Instance code_done_dec (c : code op unit) : Decision (c = Return tt).
Proof. destruct c as [[]|X o k|cond body k|k|k|k|k|k|k|k]; (by left) || (by right). Defined.

#[export] Instance in_call_dec ct : Decision (in_call ct).
Proof. unfold in_call. apply _. Defined.

(** *** A machine to try things in: thread 1 has the lease on the one
    connection, and is about to use it; thread 0 is in [acquire()], with the
    mutex *)
Definition idle : pool_thread :=
  {| t_code := Return tt; t_wakes := Awake; t_local := {| leases := []; t_leasesHeld := 0 |} |}.
Definition new_machine : pool_machine :=
  {| m_data := one_connection [0%nat]; m_owner := Unlocked; m_threads := {[ 0%nat := idle; 1%nat := idle ]} |}.

Definition starts (t : nat) (c : code op unit) (l : locals) (m : pool_machine) : pool_machine :=
  goes_on m t (m_data m) (m_owner m) c l.

Definition acquire_call : code op unit :=
  r ← acquire_code; match r with inl index => stmt (keep_lease index) | inr _ => mret tt end.

Definition run_turns (ts : list nat) (m : pool_machine) : pool_machine := turns exec (Some some_connection) ts m.

Definition leasing_machine : pool_machine :=
  run_turns (replicate 20 1%nat) (starts 1 acquire_call (t_local idle) new_machine).
Definition one_lease : locals := {| leases := [(0%nat, false)]; t_leasesHeld := 1 |}.
Definition using_machine : pool_machine :=
  run_turns [0%nat] (starts 0 acquire_call (t_local idle)
    (starts 1 (stmt (use_connection 0)) {| leases := [(0%nat, true)]; t_leasesHeld := 1 |} leasing_machine)).

(** The same with thread 0 asleep in [acquire()] *)
Definition waiting_machine : pool_machine :=
  run_turns (replicate 20 0%nat) (starts 0 acquire_call (t_local idle) leasing_machine).

Lemma starts_step t c l l' m : at_code m t (Return tt) l -> pool_calls l c l' -> pool_mstep m (starts t c l' m).
Proof. intros Hcode Hcall. by eapply mstep_call. Qed.

Lemma turns_step ts m : rtc pool_mstep m (run_turns ts m).
Proof. apply turns_mstep. Qed.

Lemma reachable_more m m' : machine_reachable m -> rtc pool_mstep m m' -> machine_reachable m'.
Proof. intros (m0 & Hinit & Hm) Hm'. exists m0. split; [done|]. by etransitivity. Qed.

Lemma leasing_machine_reachable : machine_reachable leasing_machine.
Proof.
  exists new_machine. split.
  - split_and!; [|done|done|].
    + split; [apply (bool_decide_unpack _); by vm_compute| |done|done].
      intros i. cbn. rewrite list_elem_of_singleton. unfold lease_connection. cbn.
      destruct i as [|i]; cbn; [split; [by eexists|done]|]. split; [done|]. by intros [? ?].
    + intros t th Ht. assert (th = idle) as ->; [|split_and!; [done..|by exists 0%nat]].
      unfold new_machine in Ht. cbn in Ht. apply lookup_insert_Some in Ht as [[_ <-]|[_ Ht]]; [done|].
      by apply lookup_singleton_Some in Ht as [_ <-].
  - etransitivity; [|apply turns_step]. apply rtc_once. apply (starts_step _ _ (t_local idle)); [done|]. apply call_acquire.
Qed.

Lemma using_machine_reachable : machine_reachable using_machine.
Proof.
  eapply reachable_more; [apply leasing_machine_reachable|]. etransitivity; [|apply turns_step].
  eapply rtc_l; [apply (starts_step 1 (stmt (use_connection 0)) one_lease); [by vm_compute|]|].
  { by apply (call_connect one_lease [] 0%nat false []). }
  apply rtc_once. apply (starts_step _ _ (t_local idle)); [by vm_compute|]. apply call_acquire.
Qed.

Lemma waiting_machine_reachable : machine_reachable waiting_machine.
Proof.
  eapply reachable_more; [apply leasing_machine_reachable|]. etransitivity; [|apply turns_step].
  apply rtc_once. apply (starts_step _ _ (t_local idle)); [by vm_compute|]. apply call_acquire.
Qed.

(** ** Properties *)

(** C21: the pool's functions are the monitor's steps, though other threads
    run between any two of their statements: whatever the threads have done,
    statement by statement, some steps of the monitor have led to the same
    members, the same leases of the threads that are in none of the
    functions, and the same sleeping threads. *)
Theorem statements_refine_monitor (m : pool_machine) (Hm : machine_reachable m) :
  exists s, reachable s /\ same_members (m_data m) (s_pool s) (all_held (s_threads s)) /\
    forall t,
      match m_threads m !! t, s_threads s !! t with
      | Some ct, Some th =>
          (t_wakes ct = Asleep <-> at_point th = Waiting) /\
          (~ in_call ct -> at_point th = Running /\ held th = fst <$> leases (t_local ct) /\
                           t_leasesHeld (t_local ct) = leases_held th)
      | None, None => True
      | _, _ => False
      end.
Proof.
  destruct (machine_sim m Hm) as (s & pends & Hreach & [_ Hmem Hts]). exists s. split_and!; [done|done|].
  intros t. specialize (Hts t). destruct (m_threads m !! t) as [[c a l]|], (s_threads s !! t) as [th|]; try done.
  destruct Hts as [Hok _]. unfold in_call. cbn. split.
  - destruct a; [destruct Hok as [Hat _]|destruct Hok as (_ & Hat & _)..]; split; done || congruence.
  - intros Hnot. destruct (decide (c = Return tt)) as [->|Hc]; [|by destruct Hnot; left].
    destruct (decide (a = Awake)) as [->|Ha]; [|by destruct Hnot; right].
    destruct Hok as (_ & _ & Hrun & _ & Hheld & Hn). by split_and!.
Qed.

Lemma statements_refine_monitor_witness :
  (t_wakes <$> m_threads waiting_machine !! 0%nat) = Some Asleep /\
  (t_local <$> m_threads waiting_machine !! 1%nat) = Some one_lease /\
  exists s, reachable s /\ same_members (m_data waiting_machine) (s_pool s) (all_held (s_threads s)).
Proof.
  split; [by vm_compute|]. split; [by vm_compute|].
  destruct (statements_refine_monitor waiting_machine waiting_machine_reachable) as (s & Hs & Hmem & _).
  by exists s.
Defined.

(** C22: the pool has no data race: every statement is defined whatever the
    others have done; the members that the mutex guards are only used by the
    thread that has it; and no two threads are ever about to use the same
    member, or the same slot, though slots are used without the mutex. *)
Theorem statements_never_race (m : pool_machine) (Hm : machine_reachable m) (t : nat) (X : Type) (o : op X)
    (k : X -> code op unit) (l : locals) (Hcode : at_code m t (Do o k) l) :
  (forall choice, is_Some (exec X o choice (m_data m) l)) /\
  (forall x, x ∈ uses o -> guarded x -> m_owner m = Exclusive t) /\
  (forall t' (X' : Type) (o' : op X') k' l' x,
     at_code m t' (Do o' k') l' -> x ∈ uses o -> x ∈ uses o' -> t' = t).
Proof.
  destruct (machine_sim m Hm) as (s & pends & Hsim).
  assert (forall t (X : Type) (o : op X) k l x, at_code m t (Do o k) l -> x ∈ uses o ->
    (guarded x -> m_owner m = Exclusive t) /\ forall i, x = Slot i -> exists th, s_threads s !! t = Some th /\ i ∈ held th) as Huse.
  { intros u Y o' k' l' x Hu Hx. destruct (sim_code _ _ _ _ _ _ Hsim Hu) as (th & Hth & _ & Hok).
    destruct (op_rule_uses _ _ _ _ _ Hok Hx) as [Hg Hs]. split.
    - intros Hgx. destruct (Hg Hgx) as [p [Howner _]%section_Some]. exact Howner.
    - intros i Hi. exists th. split; [done|]. by apply Hs. }
  split_and!.
  - intros choice. by eapply exec_defined.
  - intros x Hx. by eapply Huse.
  - intros t' X' o' k' l' x Hcode' Hx Hx'. destruct (Huse _ _ _ _ _ _ Hcode Hx) as [Hg Hs].
    destruct (Huse _ _ _ _ _ _ Hcode' Hx') as [Hg' Hs']. destruct x as [| | |i].
    1-3: specialize (Hg I); specialize (Hg' I); congruence.
    destruct (Hs i eq_refl) as (th & Hth & Hi), (Hs' i eq_refl) as (th' & Hth' & Hi').
    destruct (decide (t' = t)) as [|Hne]; [done|]. destruct Hsim as [Hreach _].
    destruct (reachable_ok _ Hreach) as [[Hnd _ _ _] _ _].
    apply NoDup_app in Hnd as (_ & _ & Hnd). rewrite (all_held_delete _ _ _ Hth) in Hnd.
    apply NoDup_app in Hnd as (_ & Hnd & _). destruct (Hnd i Hi). apply (all_held_in _ t' th'); [|done].
    by rewrite lookup_delete_ne.
Qed.

Lemma statements_never_race_witness :
  let l := {| leases := [(0%nat, true)]; t_leasesHeld := 1 |} in
  at_code using_machine 1 (Do (use_connection 0) Return) l /\
  m_owner using_machine = Exclusive 0 /\
  forall choice, is_Some (exec unit (use_connection 0) choice (m_data using_machine) l).
Proof.
  assert (at_code using_machine 1 (Do (use_connection 0) Return)
            {| leases := [(0%nat, true)]; t_leasesHeld := 1 |}) as Hcode by by vm_compute.
  split; [exact Hcode|]. split; [by vm_compute|].
  apply (proj1 (statements_never_race using_machine using_machine_reachable 1 _ _ _ _ Hcode)).
Defined.

(** C23: the pool's functions never get stuck: while a thread is in one of
    them, either some thread's next statement can be taken, or the threads
    in them sleep until a lease ends, of a thread that's in none of them,
    and there's no reason yet for them to stop waiting. So no wake-up is
    ever lost, and no mutex is kept. *)
Theorem statements_go_on (m : pool_machine) (Hm : machine_reachable m) (t : nat) (ct : pool_thread)
    (Ht : m_threads m !! t = Some ct) (Hcall : in_call ct) :
  (exists t' m', pool_runs t' m m') \/
  (~ may_stop (m_data m) /\ (forall w cw, m_threads m !! w = Some cw -> in_call cw -> t_wakes cw = Asleep) /\
   exists t' l, at_code m t' (Return tt) l /\ leases l <> []).
Proof.
  destruct (machine_sim m Hm) as (s & pends & Hsim).
  destruct (decide (map_Exists (fun _ ct => in_call ct /\ t_wakes ct <> Asleep) (m_threads m))) as [(t' & ct' & Ht' & Hc & Ha)|Hn].
  { left. by eapply in_call_runs. }
  assert (forall w cw, m_threads m !! w = Some cw -> in_call cw -> t_wakes cw = Asleep) as Hasleep.
  { intros w cw Hw Hcw. destruct (decide (t_wakes cw = Asleep)) as [|Ha]; [done|]. destruct Hn. by exists w, cw. }
  right. pose proof (Hasleep _ _ Ht Hcall) as Ha.
  destruct (sim_thread _ _ _ _ _ Hsim Ht) as (thw & Hthw & Hokw & _). unfold thread_ok in Hokw. rewrite Ha in Hokw.
  destruct Hokw as (_ & Hwait & _). pose proof Hsim as [Hreach [Hlock [E1 E2 E3 _ _] Hts]].
  assert (forall w th, s_threads s !! w = Some th -> at_point th <> Waiting ->
    exists l, at_code m w (Return tt) l /\ at_point th = Running /\ held th = fst <$> leases l) as Hout.
  { intros w th Hw Hat. pose proof (Hts w) as Hrel. rewrite Hw in Hrel.
    destruct (m_threads m !! w) as [cw|] eqn:Hmw; [|done]. destruct Hrel as [Hok _].
    destruct (decide (in_call cw)) as [Hcw|Hcw].
    - unfold thread_ok in Hok. rewrite (Hasleep _ _ Hmw Hcw) in Hok. by destruct Hok as (_ & ? & _).
    - destruct cw as [c a l]. unfold in_call in Hcw. cbn in Hcw.
      destruct (decide (c = Return tt)) as [->|]; [|by destruct Hcw; left].
      destruct (decide (a = Awake)) as [->|]; [|by destruct Hcw; right].
      destruct Hok as (_ & _ & Hrun & _ & Hheld & _). by exists l. }
  destruct (waiter_woken s Hreach t thw Hthw Hwait) as [Hstop Hlease].
  assert (may_stop (m_data m) <-> may_stop (s_pool s)) as Hiff by (unfold may_stop; by rewrite E1, E2, E3).
  destruct (decide (may_stop (s_pool s))) as [Hs|Hs].
  - destruct (Hstop Hs) as (w & th & Hw & Hat). destruct (Hout w th Hw) as (_ & _ & Hrun & _).
    + intros Hx. rewrite Hx in Hat. by repeat (apply elem_of_cons in Hat as [?|Hat]; [done|]); apply elem_of_nil in Hat.
    + rewrite Hrun in Hat. by repeat (apply elem_of_cons in Hat as [?|Hat]; [done|]); apply elem_of_nil in Hat.
  - split_and!; [by rewrite Hiff|done|]. destruct (Hlease Hs) as (w & th & Hw & Hheld & Hat).
    destruct (Hout w th Hw Hat) as (l & Hcode & _ & Hl). exists w, l. split; [done|]. intros Hnil. by rewrite Hl, Hnil in Hheld.
Qed.

Lemma statements_go_on_witness :
  exists ct, m_threads waiting_machine !! 0%nat = Some ct /\ in_call ct /\
  ((exists t' m', pool_runs t' waiting_machine m') \/
   (~ may_stop (m_data waiting_machine) /\
    (forall w cw, m_threads waiting_machine !! w = Some cw -> in_call cw -> t_wakes cw = Asleep) /\
    exists t' l, at_code waiting_machine t' (Return tt) l /\ leases l <> [])).
Proof.
  assert (exists ct, m_threads waiting_machine !! 0%nat = Some ct /\ t_wakes ct = Asleep) as (ct & Ht & Ha)
    by (eexists; split; [by vm_compute|done]).
  assert (in_call ct) as Hcall by (right; congruence).
  exists ct. split; [exact Ht|]. split; [exact Hcall|].
  apply (statements_go_on waiting_machine waiting_machine_reachable 0 ct Ht Hcall).
Defined.
