(* ===== verification/Buffer.v ===== *)
(** * Registered buffers ([src/buffer.h], [src/buffer.cpp])

    The buffer map, and the entries it shares with transfers and with the
    abandoned staging copies.  A [shared_ptr<const BufEntry>] is the number
    of an entry in the store [m_ents], which holds each entry with its use
    count; the last reference that's dropped destroys the entry.  Using an
    entry that's been destroyed is [Undefined]. *)

From stdpp Require Import base numbers list gmap fin_maps.
From S2P Require Import Prelude.
From S2P Require Import Gid.
From S2P Require Import IbvCore.
From S2P Require Import World.
From S2P Require Import Transport.

(** ** Definitions *)

Definition MAX_MR_SIZE : Z := 4 * 1024 * 1024 * 1024.

Record DmabufPolicy := { enabled : bool; debug : bool }.

(** [hostBuf] is an address, or 0 for null *)
Record BufEntry := {
  hostBuf : Z;
  mr : option ibv_mr;
  buf_size : Z;
  isDmabuf : bool;
  remoteAddr : Z;
  leakHostBuf : bool;
}.

#[export] Instance eta_BufEntry : Eta BufEntry := fun r =>
  {| hostBuf := hostBuf r; mr := mr r; buf_size := buf_size r; isDmabuf := isDmabuf r;
     remoteAddr := remoteAddr r; leakHostBuf := leakHostBuf r |}.

(** The process's memory, as far as the buffers go: the calls made so far,
    the entries, the number of the next one, and, for the accounting, what
    [dropOwnership()] gave up *)
Record Mem := {
  m_trace : trace;
  m_ents : gmap nat (BufEntry * nat);
  m_next : nat;
  m_leaked : list handle;
}.

#[export] Instance eta_Mem : Eta Mem := fun r =>
  {| m_trace := m_trace r; m_ents := m_ents r; m_next := m_next r; m_leaked := m_leaked r |}.

Abbreviation HM := (M Mem).

(** A program that only makes calls *)
Definition calls {A} : W A -> HM A := zoom m_trace (fun t m => m <| m_trace := t |>).

(** [dropOwnership(ptr)], of a pointer that owns [hs] *)
Definition dropOwnership (hs : list handle) : HM unit :=
  modify (fun m => m <| m_leaked := hs ++ m_leaked m |>).

(** *** [std::shared_ptr<const BufEntry>] *)

Definition make_shared (e : BufEntry) : HM nat :=
  m ← get_state;
  _ ← put_state (m <| m_ents := <[m_next m := (e, 1%nat)]> (m_ents m) |> <| m_next := S (m_next m) |>);
  mret (m_next m).

(** The entry a reference is to, with its use count *)
Definition read_entry (id : nat) : HM (BufEntry * nat) :=
  m ← get_state;
  match m_ents m !! id with Some e => mret e | None => halt Undefined end.

Definition get_entry (id : nat) : HM BufEntry := e ← read_entry id; mret (fst e).

Definition write_entry (id : nat) (e : BufEntry * nat) : HM unit :=
  modify (fun m => m <| m_ents := <[id := e]> (m_ents m) |>).

Definition use_count (id : nat) : HM nat := e ← read_entry id; mret (snd e).

Definition copy_ref (id : nat) : HM unit :=
  '(e, n) ← read_entry id; write_entry id (e, S n).

(** [~BufEntry()], and then its members: [mr], and then [hostBuf] *)
Definition destroy_BufEntry `{World} (e : BufEntry) : HM unit :=
  _ ← (if leakHostBuf e then dropOwnership (h_hostbuf (hostBuf e)) else mret tt);
  _ ← calls (IbvMrDeleter (mr e));
  if leakHostBuf e then mret tt else calls (HostBufDeleter (hostBuf e)).

Definition drop_ref `{World} (id : nat) : HM unit :=
  '(e, n) ← read_entry id;
  match n with
  | S (S n') => write_entry id (e, S n')
  | _ =>
      _ ← modify (fun m => m <| m_ents := delete id (m_ents m) |>);
      destroy_BufEntry e
  end.

(** *** Registering memory *)

Definition isDevicePointer `{World} (ptr : Z) : W bool :=
  '(err, type) ← perform (pointerGetAttributes ptr);
  if negb (err =? hipSuccess) then mret false
  else mret (match type with hipMemoryTypeDevice => true | hipMemoryTypeOther => false end).

(** [~DmabufFd()] *)
Definition close_DmabufFd `{World} (fd : Z) : W unit := _ ← perform (closeDmabuf fd); mret tt.

Definition registerDeviceMemory `{World} (pd : ibv_pd) (addr length access : Z) (policy : DmabufPolicy)
    : W (option ibv_mr) :=
  supported ← (if enabled policy then perform supportsDmabuf else mret false);
  direct ←
    (if supported : bool then
       '(status, fd, offset) ← perform (exportDmabuf addr length);
       if negb (status =? 0) then
         _ ← (if debug policy then perform (print_stderr (ExportDmabufFailed status)) else mret tt);
         mret None
       else
         mr ← perform (reg_dmabuf_mr pd offset length addr fd access);
         match mr with
         | Some mr => _ ← close_DmabufFd fd; mret (Some mr)
         | None =>
             err ← perform get_errno;
             _ ← perform (print_stderr (RegDmabufMrFailed err));
             _ ← close_DmabufFd fd;
             mret None
         end
     else mret None);
  match direct with
  | Some mr => mret (Some mr)
  | None => perform (reg_mr pd addr length access)
  end.

Definition isValidDeviceRange `{World} (ptr size : Z) : W bool :=
  device ← isDevicePointer ptr;
  if negb device then mret true
  else
    '(err, base, allocSize) ← perform (memGetAddressRange ptr);
    if negb (err =? hipSuccess) then mret false
    else if (ptr <? base) || (allocSize <=? ptr - base) then mret false
    else mret (size <=? allocSize - (ptr - base)).

(** *** The map *)

Definition kMaxEntries : Z := 256.

Inductive RegisterResult := Registered | AlreadyRegistered | RegisterFailed.
Inductive DeregisterResult := Deregistered | NotRegistered | DeregisterBusy.

#[export] Instance RegisterResult_eq_dec : EqDecision RegisterResult.
Proof. solve_decision. Defined.
#[export] Instance DeregisterResult_eq_dec : EqDecision DeregisterResult.
Proof. solve_decision. Defined.

Record BufferMap := {
  entries_ : gmap Z nat;
  dmabuf_ : DmabufPolicy;
  requireGpuDirect_ : bool;
}.

#[export] Instance eta_BufferMap : Eta BufferMap := fun r =>
  {| entries_ := entries_ r; dmabuf_ := dmabuf_ r; requireGpuDirect_ := requireGpuDirect_ r |}.

Definition buffers_size (b : BufferMap) : Z := Z.of_nat (size (entries_ b)).

Definition refusal (b : BufferMap) (key : Z) : option RegisterResult :=
  if bool_decide (is_Some (entries_ b !! key)) then Some AlreadyRegistered
  else if kMaxEntries <=? buffers_size b then Some RegisterFailed
  else None.

(** [precheck()]: [refusal()], with the lock held shared *)
Definition precheck (b : BufferMap) (key : Z) : option RegisterResult := refusal b key.

Definition insert_entry `{World} (b : BufferMap) (key : Z) (entry : nat)
    : HM (RegisterResult * BufferMap) :=
  match refusal b key with
  | Some refused => _ ← drop_ref entry; mret (refused, b)
  | None => mret (Registered, b <| entries_ := <[key := entry]> (entries_ b) |>)
  end.

Definition rw_access : Z :=
  foldl Z.lor IBV_ACCESS_REMOTE_READ [IBV_ACCESS_REMOTE_WRITE; IBV_ACCESS_LOCAL_WRITE].

Definition registerBuffer `{World} (b : BufferMap) (devPtr size : Z) (pd : ibv_pd)
    : HM (RegisterResult * BufferMap) :=
  if MAX_MR_SIZE <? size then mret (RegisterFailed, b)
  else
    match precheck b devPtr with
    | Some refused => mret (refused, b)
    | None =>
        direct ← calls (registerDeviceMemory pd devPtr size rw_access (dmabuf_ b));
        match direct with
        | Some m =>
            entry ← make_shared {| hostBuf := 0; mr := Some m; buf_size := size; isDmabuf := true;
                                   remoteAddr := devPtr; leakHostBuf := false |};
            insert_entry b devPtr entry
        | None =>
            deviceMemory ← calls (isDevicePointer devPtr);
            if deviceMemory && requireGpuDirect_ b then
              _ ← calls (perform (print_stderr (GpuDirectRefused size devPtr)));
              mret (RegisterFailed, b)
            else
              _ ← (if deviceMemory : bool
                   then calls (perform (print_stderr (GpuDirectFallback size devPtr))) else mret tt);
              '(err, rawHostBuf) ← calls (perform (hostMalloc size));
              if negb (err =? hipSuccess) || (rawHostBuf =? 0) then mret (RegisterFailed, b)
              else
                stagingMr ← calls (perform (reg_mr pd rawHostBuf size rw_access));
                match stagingMr with
                | None => _ ← calls (HostBufDeleter rawHostBuf); mret (RegisterFailed, b)
                | Some m =>
                    entry ← make_shared {| hostBuf := rawHostBuf; mr := Some m; buf_size := size;
                                           isDmabuf := false; remoteAddr := rawHostBuf;
                                           leakHostBuf := false |};
                    insert_entry b devPtr entry
                end
        end
    end.

Definition registerHostBuffer `{World} (b : BufferMap) (hostPtr size : Z) (pd : ibv_pd)
    : HM (RegisterResult * BufferMap) :=
  if MAX_MR_SIZE <? size then mret (RegisterFailed, b)
  else
    match precheck b hostPtr with
    | Some refused => mret (refused, b)
    | None =>
        mr ← calls (perform (reg_mr pd hostPtr size rw_access));
        match mr with
        | None => mret (RegisterFailed, b)
        | Some m =>
            entry ← make_shared {| hostBuf := 0; mr := Some m; buf_size := size; isDmabuf := false;
                                   remoteAddr := hostPtr; leakHostBuf := false |};
            insert_entry b hostPtr entry
        end
    end.

Definition deregisterBuffer `{World} (b : BufferMap) (devPtr : Z) : HM (DeregisterResult * BufferMap) :=
  match entries_ b !! devPtr with
  | None => mret (NotRegistered, b)
  | Some entry =>
      n ← use_count entry;
      if Nat.ltb 1 n then mret (DeregisterBusy, b)
      else
        let b := b <| entries_ := delete devPtr (entries_ b) |> in
        _ ← drop_ref entry;
        mret (Deregistered, b)
  end.

(** The copy of the pointer it returns is another reference *)
Definition find (b : BufferMap) (devPtr : Z) : HM (option nat) :=
  match entries_ b !! devPtr with
  | None => mret None
  | Some entry => _ ← copy_ref entry; mret (Some entry)
  end.

(** [~BufferMap()]: drops the map's references *)
Fixpoint drop_refs `{World} (ids : list nat) : HM unit :=
  match ids with
  | [] => mret tt
  | id :: ids' => _ ← drop_ref id; drop_refs ids'
  end.

Definition destroy_BufferMap `{World} (b : BufferMap) : HM unit :=
  drop_refs (snd <$> map_to_list (entries_ b)).

(** What an entry owns *)
Definition own_entry (e : BufEntry) : list handle :=
  match mr e with Some m => [HMr (mr_addr m)] | None => [] end ++ h_hostbuf (hostBuf e).

(** *** Accounting

    What's open and not owned by an entry, nor given up *)
Definition unowned (h : handle) (m : Mem) : Z :=
  bal h (m_trace m) - msum (fun _ e => cnt h (own_entry (fst e))) (m_ents m) - cnt h (m_leaked m).

(** The references to an entry *)
Definition refs (id : nat) (m : Mem) : Z :=
  match m_ents m !! id with Some (_, n) => Z.of_nat n | None => 0 end.

(** The references a map holds to an entry *)
Definition map_refs (id : nat) (b : BufferMap) : Z :=
  msum (fun _ v => if decide (id = v) then 1 else 0) (entries_ b).

(** All that's ever given up: a staging buffer, or the event of its copy *)
Definition can_leak (h : handle) : bool :=
  match h with HHostBuf _ | HEvent _ => true | _ => false end.

Record mem_ok (m : Mem) : Prop := {
  mem_counted : forall id e n, m_ents m !! id = Some (e, n) -> (0 < n)%nat;
  mem_fresh : forall id, (m_next m <= id)%nat -> m_ents m !! id = None;
  mem_leaked : forall h, h ∈ m_leaked m -> can_leak h = true;
}.

(** What never changes of an entry *)
Definition entry_data (e : BufEntry) : BufEntry := e <| leakHostBuf := false |>.

(** From [m] to [m'], references to an entry change by [dr] and what's open
    and unowned by [du]; entries that stay keep their data, and numbers
    aren't used again *)
Record mem_step (dr : nat -> Z) (du : handle -> Z) (m m' : Mem) : Prop := {
  step_ok : mem_ok m';
  step_refs : forall id, refs id m' = refs id m + dr id;
  step_unowned : forall h, unowned h m' = unowned h m + du h;
  step_next : (m_next m <= m_next m')%nat;
  step_data : forall id e' n', (id < m_next m)%nat -> m_ents m' !! id = Some (e', n') ->
                exists e n, m_ents m !! id = Some (e, n) /\ entry_data e' = entry_data e;
}.

Definition none {A} (_ : A) : Z := 0.
Definition at_ref (x id : nat) : Z := if decide (id = x) then 1 else 0.

(** *** Something to try things with: memory and maps with nothing in them,
    or one staged buffer *)
Definition no_memory : Mem := {| m_trace := []; m_ents := ∅; m_next := 0; m_leaked := [] |}.
Definition no_buffers (strict : bool) : BufferMap :=
  {| entries_ := ∅; dmabuf_ := {| enabled := true; debug := false |}; requireGpuDirect_ := strict |}.

Definition staged_entry : BufEntry :=
  {| hostBuf := 8192; mr := Some {| mr_addr := 4; mr_buf := 8192; mr_rkey := 5; mr_lkey := 6 |}; buf_size := 64;
     isDmabuf := false; remoteAddr := 8192; leakHostBuf := false |}.
Definition staged_memory (n : nat) : Mem :=
  {| m_trace := []; m_ents := {[ 0%nat := (staged_entry, n) ]}; m_next := 1; m_leaked := [] |}.
Definition staged_buffers : BufferMap :=
  {| entries_ := {[ 4096 := 0%nat ]}; dmabuf_ := {| enabled := true; debug := false |};
     requireGpuDirect_ := false |}.

(** A world whose device memory can't be registered *)
Definition no_peer_memory : World := lab (working <| set_dmabuf := false |>).

(** ** Lemmas *)

(** *** Steps of the memory *)

Lemma mem_step_refl m : mem_ok m -> mem_step none none m m.
Proof.
  intros Hok. split; [done|unfold none; lia..|lia|].
  intros id e n _ H1. by exists e, n.
Qed.

Lemma mem_step_trans dr1 du1 dr2 du2 m1 m2 m3 :
  mem_step dr1 du1 m1 m2 -> mem_step dr2 du2 m2 m3 ->
  mem_step (fun id => dr1 id + dr2 id) (fun h => du1 h + du2 h) m1 m3.
Proof.
  intros [A1 A2 A3 A4 A5] [B1 B2 B3 B4 B5]. split.
  - done.
  - intros id. rewrite B2, A2. lia.
  - intros h. rewrite B3, A3. lia.
  - lia.
  - intros id e3 n3 Hid H3. destruct (B5 id e3 n3) as (e2 & n2 & H2 & D2); [lia|done|].
    destruct (A5 id e2 n2) as (e1 & n1 & H1 & D1); [done..|]. exists e1, n1.
    split; [done|congruence].
Qed.

Lemma mem_step_ext dr du dr' du' m m' :
  mem_step dr du m m' -> (forall id, dr id = dr' id) -> (forall h, du h = du' h) ->
  mem_step dr' du' m m'.
Proof.
  intros [A1 A2 A3 A4 A5] Hr Hu. split; [done|..|done|done].
  - intros id. by rewrite <- Hr.
  - intros h. by rewrite <- Hu.
Qed.

(** The tactic joins the steps made so far, and compares what they add up to *)
Ltac step_done :=
  repeat match goal with
  | H1 : mem_step _ _ ?m1 ?m2, H2 : mem_step _ _ ?m2 ?m3 |- _ =>
      pose proof (mem_step_trans _ _ _ _ _ _ _ H1 H2); clear H1 H2
  end;
  match goal with
  | H1 : mem_step _ _ ?m1 ?m2 |- mem_step _ _ ?m1 ?m2 =>
      eapply mem_step_ext; [exact H1|intros ?; cbv beta; unfold none|intros ?; cbv beta; unfold none]
  end.

Lemma unowned_calls h t m : unowned h (m <| m_trace := t |>) = unowned h m + bal h t - bal h (m_trace m).
Proof. unfold unowned. simpl. lia. Qed.

Lemma refs_nonneg id m : 0 <= refs id m.
Proof. unfold refs. destruct (m_ents m !! id) as [[e n]|]; lia. Qed.

Lemma refs_Some id m : 0 < refs id m <-> exists e n, m_ents m !! id = Some (e, S n).
Proof.
  unfold refs. destruct (m_ents m !! id) as [[e [|n]]|] eqn:He; split; try lia.
  - intros (? & ? & [=]).
  - by exists e, n.
  - by intros (? & ? & [=]).
Qed.

Lemma mem_ok_leak hs m :
  mem_ok m -> (forall h, h ∈ hs -> can_leak h = true) ->
  mem_ok (m <| m_leaked := hs ++ m_leaked m |>).
Proof.
  intros [A1 A2 A3] Hhs. split; simpl; [done..|]. intros h [?|?]%elem_of_app; auto.
Qed.

Lemma leak_hostbuf p h : h ∈ h_hostbuf p -> can_leak h = true.
Proof. unfold h_hostbuf. case_match; [by intros ?%elem_of_nil|by intros ->%list_elem_of_singleton]. Qed.

Lemma leak_event p h : h ∈ h_event p -> can_leak h = true.
Proof. unfold h_event. case_match; [by intros ?%elem_of_nil|by intros ->%list_elem_of_singleton]. Qed.

Section heap.
Context `{E : World} (bad : stop -> Prop).

Lemma wp_calls {A} (m : W A) (Q : A -> Mem -> Prop) mm du :
  (forall t, wp bad m (fun a t' => forall h, bal h t' = bal h t + du a h) t) -> mem_ok mm ->
  (forall a mm', mem_step none (du a) mm mm' -> m_ents mm' = m_ents mm -> Q a mm') ->
  wp bad (calls m) Q mm.
Proof.
  intros Hm Hok HQ. unfold calls. apply wp_zoom. eapply wp_mono; [apply Hm|].
  cbv beta. intros a t' Ht. apply HQ; [|done]. split; simpl.
  - destruct Hok. by split.
  - intros id. unfold refs, none. simpl. lia.
  - intros h. rewrite unowned_calls, Ht. lia.
  - done.
  - intros id e n _ He. by exists e, n.
Qed.

Lemma wp_calls_neutral {A} (m : W A) (Q : A -> Mem -> Prop) mm :
  neutral bad m -> mem_ok mm ->
  (forall a mm', mem_step none none mm mm' -> m_ents mm' = m_ents mm -> Q a mm') ->
  wp bad (calls m) Q mm.
Proof.
  intros Hm Hok HQ. eapply (wp_calls _ _ _ (fun _ => none)); [|done|exact HQ].
  intros t. eapply wp_mono; [apply Hm|]. cbv beta. intros a t' Ht h. rewrite Ht. unfold none. lia.
Qed.

Lemma wp_calls_acquires {A} own (m : W A) (Q : A -> Mem -> Prop) mm :
  acquires bad own m -> mem_ok mm ->
  (forall a mm', mem_step none (fun h => cnt h (own a)) mm mm' -> m_ents mm' = m_ents mm -> Q a mm') ->
  wp bad (calls m) Q mm.
Proof. intros Hm Hok HQ. by eapply (wp_calls _ _ _ (fun a h => cnt h (own a))). Qed.

Lemma wp_make_shared e Q m :
  mem_ok m ->
  (forall id m', mem_step (at_ref id) (fun h => - cnt h (own_entry e)) m m' ->
     refs id m = 0 -> m_ents m' !! id = Some (e, 1%nat) -> Q id m') ->
  wp bad (make_shared e) Q m.
Proof.
  intros Hok HQ. unfold make_shared. apply wp_bind, wp_get, wp_bind, wp_put, wp_ret.
  pose proof (mem_fresh _ Hok (m_next m) (le_n _)) as Hnew.
  apply HQ.
  - split; simpl.
    + split; simpl.
      * intros id e' n. destruct (decide (id = m_next m)) as [->|Hne].
        -- rewrite lookup_insert_eq. intros [= <- <-]. lia.
        -- rewrite lookup_insert_ne by done. apply Hok.
      * intros id Hid. rewrite lookup_insert_ne by lia. apply Hok. lia.
      * apply Hok.
    + intros id. unfold refs, at_ref. simpl. case_decide as Hid; subst.
      * by rewrite lookup_insert_eq, Hnew.
      * rewrite lookup_insert_ne by done. lia.
    + intros h. unfold unowned. simpl. rewrite msum_insert by done. simpl. lia.
    + lia.
    + intros id e' n' Hid. rewrite lookup_insert_ne by lia. intros H1. by exists e', n'.
  - unfold refs. by rewrite Hnew.
  - simpl. by rewrite lookup_insert_eq.
Qed.

(** Changing an entry's count, or its mark *)
Lemma write_entry_step id e n e' n' m :
  mem_ok m -> m_ents m !! id = Some (e, n) -> (0 < n')%nat -> entry_data e' = entry_data e ->
  mem_step (fun i => (Z.of_nat n' - Z.of_nat n) * at_ref id i) none m
           (m <| m_ents := <[id := (e', n')]> (m_ents m) |>).
Proof.
  intros Hok He Hn Hd. split; simpl.
  - split; simpl.
    + intros i e1 n1. destruct (decide (i = id)) as [->|Hne].
      * rewrite lookup_insert_eq. by intros [= <- <-].
      * rewrite lookup_insert_ne by done. apply Hok.
    + intros i Hi. rewrite lookup_insert_ne; [by apply Hok|]. intros <-.
      by rewrite (mem_fresh _ Hok) in He.
    + apply Hok.
  - intros i. unfold refs, at_ref. simpl. case_decide as Hi; subst.
    + rewrite lookup_insert_eq, He. lia.
    + rewrite lookup_insert_ne by done. lia.
  - intros h. unfold unowned, none. simpl. rewrite (msum_update _ _ _ _ _ He). simpl.
    assert (own_entry e' = own_entry e) as ->; [|lia].
    unfold own_entry. assert (mr e' = mr e) as -> by exact (f_equal mr Hd).
    by assert (hostBuf e' = hostBuf e) as -> by exact (f_equal hostBuf Hd).
  - done.
  - intros i e1 n1 Hi. destruct (decide (i = id)) as [->|Hne].
    + rewrite lookup_insert_eq. intros [= <- <-]. by exists e, n.
    + rewrite lookup_insert_ne by done. intros H1. by exists e1, n1.
Qed.

Lemma wp_read_entry id e n Q m :
  m_ents m !! id = Some (e, n) -> Q (e, n) m -> wp bad (read_entry id) Q m.
Proof.
  intros He HQ. unfold read_entry. apply wp_bind, wp_get. rewrite He. by apply wp_ret.
Qed.

Lemma wp_copy_ref id Q m :
  mem_ok m -> 0 < refs id m ->
  (forall m', mem_step (at_ref id) none m m' -> Q tt m') -> wp bad (copy_ref id) Q m.
Proof.
  intros Hok (e & n & He)%refs_Some HQ. unfold copy_ref.
  apply wp_bind. eapply wp_read_entry; [done|]. apply wp_modify, HQ.
  eapply mem_step_ext; [by eapply write_entry_step; [| |lia|]|..].
  - intros i. cbv beta. lia.
  - done.
Qed.

Lemma wp_use_count id e n Q m :
  m_ents m !! id = Some (e, n) -> Q n m -> wp bad (use_count id) Q m.
Proof. intros He HQ. unfold use_count. apply wp_bind. eapply wp_read_entry; [done|]. by apply wp_ret. Qed.

Lemma wp_destroy_BufEntry e Q m :
  mem_ok m ->
  (forall m', mem_step none (fun h => - cnt h (own_entry e)) m m' -> Q tt m') ->
  wp bad (destroy_BufEntry e) Q m.
Proof.
  intros Hok HQ. unfold destroy_BufEntry.
  set (own_mr := match mr e with Some c => [HMr (mr_addr c)] | None => [] end).
  assert (forall mm (Q' : unit -> Mem -> Prop), mem_ok mm ->
    (forall mm', mem_step none (fun h => - cnt h own_mr) mm mm' -> Q' tt mm') ->
    wp bad (calls (IbvMrDeleter (mr e))) Q' mm) as Hmr.
  { intros mm Q' Hmm HQ'. eapply (wp_calls _ _ _ (fun _ h => - cnt h own_mr)); [|done|].
    - intros t. apply wp_IbvMrDeleter. intros t' Ht' h. rewrite Ht'. unfold own_mr. lia.
    - intros [] mm' Hs _. by apply HQ'. }
  assert (forall h, cnt h (own_entry e) = cnt h own_mr + cnt h (h_hostbuf (hostBuf e))) as Hown
    by (intros h; apply cnt_app).
  destruct (leakHostBuf e).
  - apply wp_bind, wp_modify, wp_bind.
    set (m1 := m <| m_leaked := h_hostbuf (hostBuf e) ++ m_leaked m |>).
    assert (mem_step none (fun h => - cnt h (h_hostbuf (hostBuf e))) m m1) as S1.
    { split; simpl; [by apply mem_ok_leak, leak_hostbuf| |..].
      - intros id. unfold refs, none. simpl. lia.
      - intros h. unfold unowned. simpl. rewrite cnt_app. lia.
      - done.
      - intros id e' n _ H1. by exists e', n. }
    apply Hmr; [apply S1|]. intros m2 S2. apply wp_ret, HQ. step_done; [done|]. rewrite Hown. lia.
  - apply wp_bind, wp_ret, wp_bind. apply Hmr; [done|]. intros m2 S2.
    eapply (wp_calls _ _ _ (fun _ h => - cnt h (h_hostbuf (hostBuf e)))); [|apply S2|].
    + intros t. apply wp_HostBufDeleter. intros t' Ht' h. rewrite Ht'. lia.
    + intros [] m3 S3 _. apply HQ. step_done; [done|]. rewrite Hown. lia.
Qed.

Lemma wp_drop_ref id Q m :
  mem_ok m -> 0 < refs id m ->
  (forall m', mem_step (fun i => - at_ref id i) none m m' -> Q tt m') -> wp bad (drop_ref id) Q m.
Proof.
  intros Hok (e & n & He)%refs_Some HQ. unfold drop_ref.
  apply wp_bind. eapply wp_read_entry; [done|]. destruct n as [|n].
  - apply wp_bind, wp_modify. set (m1 := m <| m_ents := delete id (m_ents m) |>).
    assert (mem_step (fun i => - at_ref id i) (fun h => cnt h (own_entry e)) m m1) as S1.
    { split; simpl.
      - split; simpl.
        + intros i e1 n1 H1. apply lookup_delete_Some in H1 as [_ H1]. by eapply Hok.
        + intros i Hi. apply lookup_delete_None. right. by apply Hok.
        + apply Hok.
      - intros i. unfold refs, at_ref. simpl. case_decide as Hi; subst.
        + by rewrite lookup_delete_eq, He.
        + rewrite lookup_delete_ne by done. lia.
      - intros h. unfold unowned. simpl. rewrite (msum_delete _ (m_ents m) id _ He). simpl. lia.
      - done.
      - intros i e1 n1 _ H1. apply lookup_delete_Some in H1 as [_ H1]. by exists e1, n1. }
    apply wp_destroy_BufEntry; [apply S1|]. intros m2 S2. apply HQ. step_done; lia.
  - apply wp_modify, HQ. eapply mem_step_ext; [by eapply write_entry_step; [| |lia|]|..].
    + intros i. cbv beta. lia.
    + done.
Qed.
End heap.

(** *** Registering memory *)

Section registering.
Context `{E : World} (bad : stop -> Prop).

Definition own_mr (o : option ibv_mr) : list handle :=
  match o with Some m => [HMr (mr_addr m)] | None => [] end.

Lemma isDevicePointer_neutral p : neutral bad (isDevicePointer p).
Proof. intros t. unfold isDevicePointer. wrun; bal_solve. Qed.

Lemma isValidDeviceRange_neutral p n : neutral bad (isValidDeviceRange p n).
Proof.
  intros t. unfold isValidDeviceRange. wstep. eapply wp_neutral; [apply isDevicePointer_neutral|].
  intros d t1 H1. wrun; bal_solve.
Qed.

Lemma registerDeviceMemory_acquires pd a n acc pol :
  acquires bad own_mr (registerDeviceMemory pd a n acc pol).
Proof.
  intros t. unfold registerDeviceMemory. wstep.
  assert (forall t1 : trace, (forall h, bal h t1 = bal h t) ->
    wp bad (perform (reg_mr pd a n acc))
       (fun o t' => forall h, bal h t' = bal h t + cnt h (own_mr o)) t1) as Hplain.
  { intros t1 H1. wstep. destruct r; unfold own_mr; bal_solve. }
  eapply (wp_neutral _ (if enabled pol then perform supportsDmabuf else mret false)).
  { intros t1. wrun; bal_solve. }
  intros sup t1 H1. wstep. destruct sup; [|wstep; by apply Hplain].
  wstep. wstep. destruct r as [[st fd] off]. wstep.
  { wstep. eapply (wp_neutral _ (if debug pol then perform (print_stderr (ExportDmabufFailed st))
                                 else mret tt)).
    { intros t2. wrun; bal_solve. }
    intros _ t2 H2. wstep. apply Hplain. bools. intros h. rewrite H2. cbn [bal delta].
    rewrite (proj2 (Z.eqb_neq st 0)) by done. rewrite H1. lia. }
  bools. subst st. unfold close_DmabufFd. wstep. wstep. destruct r as [m|].
  - wrun. unfold own_mr. bal_solve.
  - wstep. wstep. wstep. wstep. wstep. wstep. wstep. wstep. wstep. apply Hplain. bal_solve.
Qed.

(** *** The map *)

Lemma map_refs_nonneg id b : 0 <= map_refs id b.
Proof. apply msum_nonneg. intros k v _. case_decide; lia. Qed.

Lemma map_refs_insert id b k v :
  entries_ b !! k = None ->
  map_refs id (b <| entries_ := <[k := v]> (entries_ b) |>) = map_refs id b + at_ref v id.
Proof. intros Hk. unfold map_refs. simpl. rewrite msum_insert by done. unfold at_ref. lia. Qed.

Lemma map_refs_delete id b k v :
  entries_ b !! k = Some v ->
  map_refs id (b <| entries_ := delete k (entries_ b) |>) = map_refs id b - at_ref v id.
Proof.
  intros Hk. unfold map_refs. simpl. rewrite (msum_delete _ _ _ _ Hk). unfold at_ref. lia.
Qed.

Lemma map_refs_lookup b k v : entries_ b !! k = Some v -> 1 <= map_refs v b.
Proof.
  intros Hk. unfold map_refs. rewrite (msum_delete _ _ _ _ Hk). rewrite decide_True by done.
  enough (0 <= msum (fun (_ : Z) v0 => if decide (v = v0) then 1 else 0) (delete k (entries_ b))) by lia.
  apply msum_nonneg. intros k' v' _. case_decide; lia.
Qed.

(** A map operation changes the references outside the map by [dr], and
    doesn't change its settings or grow past its limit *)
Record map_step (dr : nat -> Z) (m : Mem) (b : BufferMap) (m' : Mem) (b' : BufferMap) : Prop := {
  map_mem : mem_step (fun id => map_refs id b' - map_refs id b + dr id) none m m';
  map_bound : buffers_size b <= kMaxEntries -> buffers_size b' <= kMaxEntries;
  map_same : dmabuf_ b' = dmabuf_ b /\ requireGpuDirect_ b' = requireGpuDirect_ b;
}.

Lemma map_step_mem dr m b m' : mem_step dr none m m' -> map_step dr m b m' b.
Proof. intros Hm. split; [|done|done]. eapply mem_step_ext; [exact Hm|..]; intros; lia. Qed.

Lemma wp_insert_entry b key entry Q m :
  mem_ok m -> 0 < refs entry m ->
  (forall r b' m', map_step (fun id => - at_ref entry id) m b m' b' ->
     r = default Registered (refusal b key) ->
     entries_ b' = (if decide (r = Registered) then <[key := entry]> (entries_ b) else entries_ b) ->
     (r = Registered -> m' = m) ->
     Q (r, b') m') ->
  wp bad (insert_entry b key entry) Q m.
Proof.
  intros Hok Href HQ. unfold insert_entry. destruct (refusal b key) as [r|] eqn:Hr.
  - assert (r <> Registered) as Hne
      by (unfold refusal in Hr; repeat case_match; congruence).
    apply wp_bind, wp_drop_ref; [done|done|]. intros m' Hs. apply wp_ret. apply HQ.
    + by apply map_step_mem.
    + done.
    + by rewrite decide_False.
    + done.
  - apply wp_ret. unfold refusal in Hr. case_bool_decide as Hk; [done|].
    destruct (kMaxEntries <=? buffers_size b) eqn:Hmax; [done|]. bools.
    apply eq_None_not_Some in Hk. apply HQ; [|done|done|done]. split; [|simpl|done].
    + eapply mem_step_ext; [by apply mem_step_refl|..]; [|done].
      intros id. cbv beta. rewrite map_refs_insert by done. unfold none. lia.
    + intros _. unfold buffers_size in *. simpl. rewrite map_size_insert_None by done. lia.
Qed.

Lemma refusal_registered b key : refusal b key <> Some Registered.
Proof. unfold refusal. repeat case_match; congruence. Qed.

(** Inserting what was just made *)
Lemma wp_make_insert b key e Q m du m0 :
  mem_step none du m0 m -> (forall h, du h = cnt h (own_entry e)) -> refusal b key = None ->
  (forall entry b' m', map_step none m0 b m' b' -> entries_ b' = <[key := entry]> (entries_ b) ->
     m_ents m' !! entry = Some (e, 1%nat) -> refs entry m = 0 -> Q (Registered, b') m') ->
  wp bad (entry ← make_shared e; insert_entry b key entry) Q m.
Proof.
  intros S1 Hdu Hr HQ. apply wp_bind, wp_make_shared; [apply S1|]. intros id m1 S2 H0 He.
  apply wp_insert_entry; [apply S2|unfold refs; rewrite He; lia|]. rewrite Hr. cbn [default].
  intros r b' m2 [S3 Hb Hd] -> Hent Hm. rewrite decide_True in Hent by done.
  rewrite (Hm eq_refl) in *. eapply HQ; [|exact Hent|exact He|exact H0]. split; [|done|done].
  step_done; [lia|]. rewrite Hdu. lia.
Qed.

Lemma wp_registerBuffer b p n pd Q m :
  mem_ok m ->
  (forall r b' m', map_step none m b m' b' ->
     match r with
     | Registered => exists entry e, entries_ b' = <[p := entry]> (entries_ b) /\
         entries_ b !! p = None /\ refs entry m = 0 /\
         m_ents m' !! entry = Some (e, 1%nat) /\ buf_size e = n /\ is_Some (mr e) /\
         (if isDmabuf e then hostBuf e = 0 /\ remoteAddr e = p
          else hostBuf e <> 0 /\ remoteAddr e = hostBuf e) /\ leakHostBuf e = false
     | AlreadyRegistered => b' = b /\ is_Some (entries_ b !! p)
     | RegisterFailed => b' = b
     end -> Q (r, b') m') ->
  wp bad (registerBuffer b p n pd) Q m.
Proof.
  intros Hok HQ. unfold registerBuffer.
  pose proof (mem_step_refl m Hok) as S0.
  wstep; [wstep; apply HQ; [by apply map_step_mem|done]|].
  unfold precheck. destruct (refusal b p) as [r|] eqn:Hr.
  { wstep. apply HQ; [by apply map_step_mem|]. unfold refusal in Hr.
    case_bool_decide; [by simplify_eq|]. case_match; by simplify_eq. }
  assert (entries_ b !! p = None) as Hnone.
  { unfold refusal in Hr. case_bool_decide as Hk; [done|]. by apply eq_None_not_Some. }
  wstep. eapply wp_calls_acquires; [apply registerDeviceMemory_acquires|done|].
  intros direct m1 S1 _. destruct direct as [x|].
  { eapply wp_make_insert; [exact S1|reflexivity|done|].
    intros entry b' m2 S2 He Hent H0. apply HQ; [done|]. do 2 eexists.
    split_and!; [done|done| |done|done|by eexists|done..].
    destruct S1 as [_ S1 _ _ _]. specialize (S1 entry). unfold none in S1. lia. }
  wstep. eapply wp_calls_neutral; [apply isDevicePointer_neutral|apply S1|].
  intros dev m2 S2 _. wstep.
  { wstep. eapply wp_calls_neutral; [intros t; wrun; bal_solve|apply S2|]. intros _ m3 S3 _.
    wstep. apply HQ; [|done]. apply map_step_mem. step_done; [lia|done]. }
  wstep. eapply (wp_mono _ _ (fun _ m3 => mem_step none none m2 m3)).
  { wstep; [|wstep; apply mem_step_refl, S2].
    eapply wp_calls_neutral; [intros t; wrun; bal_solve|apply S2|]. by intros _ m3 S3 _. }
  cbv beta. intros _ m3 S3. wstep.
  eapply (wp_calls _ _ _ _ (fun r h => if fst r =? hipSuccess then cnt h (h_hostbuf (snd r)) else 0));
    [|apply S3|].
  { intros t. wstep. destruct r as [err q]. intros h. cbn [bal delta fst snd]. lia. }
  intros [err q] m4 S4 _. cbn [fst snd] in S4.
  destruct (err =? hipSuccess) eqn:Herr; cbn [negb orb].
  2:{ wstep. apply HQ; [|done]. apply map_step_mem. step_done; unfold own_mr; cbn; lia. }
  destruct (q =? 0) eqn:Hq; bools.
  { wstep. apply HQ; [|done]. apply map_step_mem. step_done; unfold own_mr; cbn; lia. }
  assert (h_hostbuf q = [HHostBuf q]) as Hqo
    by (unfold h_hostbuf; by rewrite (proj2 (Z.eqb_neq q 0))).
  wstep. eapply (wp_calls_acquires _ own_mr); [|apply S4|].
  { intros t. wstep. destruct r; unfold own_mr; bal_solve. }
  intros smr m5 S5 _. destruct smr as [x|].
  - eapply (wp_make_insert _ _ _ _ _ (fun h => cnt h [HHostBuf q] + cnt h [HMr (mr_addr x)]) m);
      [rewrite Hqo in S4; step_done; unfold own_mr; cbn; lia| |done|].
    { intros h. unfold own_entry. cbn [mr hostBuf]. rewrite Hqo, cnt_app. lia. }
    intros entry b' m6 S6 He Hent H0. apply HQ; [done|]. do 2 eexists.
    split_and!; [done|done| |done|done|by eexists|done..].
    assert (mem_step none (fun h => cnt h [HHostBuf q] + cnt h [HMr (mr_addr x)]) m m5) as Sall
      by (rewrite Hqo in S4; step_done; unfold own_mr; cbn; lia).
    destruct Sall as [_ Sr _ _ _]. specialize (Sr entry). unfold none in Sr. lia.
  - wstep. eapply (wp_calls _ _ _ _ (fun _ h => - cnt h (h_hostbuf q))); [|apply S5|].
    { intros t. apply wp_HostBufDeleter. intros t' Ht h. rewrite Ht. lia. }
    intros _ m6 S6 _. wstep. apply HQ; [|done]. apply map_step_mem.
    step_done; unfold own_mr; cbn [cnt foldr]; lia.
Qed.

Lemma wp_registerHostBuffer b p n pd Q m :
  mem_ok m ->
  (forall r b' m', map_step none m b m' b' ->
     match r with
     | Registered => exists entry e, entries_ b' = <[p := entry]> (entries_ b) /\
         entries_ b !! p = None /\ refs entry m = 0 /\
         m_ents m' !! entry = Some (e, 1%nat) /\ buf_size e = n /\ is_Some (mr e) /\
         isDmabuf e = false /\ hostBuf e = 0 /\ remoteAddr e = p /\ leakHostBuf e = false
     | AlreadyRegistered => b' = b /\ is_Some (entries_ b !! p)
     | RegisterFailed => b' = b
     end -> Q (r, b') m') ->
  wp bad (registerHostBuffer b p n pd) Q m.
Proof.
  intros Hok HQ. unfold registerHostBuffer.
  pose proof (mem_step_refl m Hok) as S0.
  wstep; [wstep; apply HQ; [by apply map_step_mem|done]|].
  unfold precheck. destruct (refusal b p) as [r|] eqn:Hr.
  { wstep. apply HQ; [by apply map_step_mem|]. unfold refusal in Hr.
    case_bool_decide; [by simplify_eq|]. case_match; by simplify_eq. }
  assert (entries_ b !! p = None) as Hnone.
  { unfold refusal in Hr. case_bool_decide as Hk; [done|]. by apply eq_None_not_Some. }
  wstep. eapply (wp_calls_acquires _ own_mr); [|done|].
  { intros t. wstep. destruct r; unfold own_mr; bal_solve. }
  intros o m1 S1 _. destruct o as [x|].
  - eapply wp_make_insert; [exact S1|reflexivity|done|].
    intros entry b' m2 S2 He Hent H0. apply HQ; [done|]. do 2 eexists.
    split_and!; [done|done| |done|done|by eexists|done..].
    destruct S1 as [_ S1 _ _ _]. specialize (S1 entry). unfold none in S1. lia.
  - wstep. apply HQ; [|done]. apply map_step_mem. step_done; unfold own_mr; cbn; lia.
Qed.

(** *** Looking up and removing *)

Definition map_alive (b : BufferMap) (m : Mem) : Prop := forall id, map_refs id b <= refs id m.

Lemma map_alive_lookup b m k v : map_alive b m -> entries_ b !! k = Some v -> 0 < refs v m.
Proof. intros Ha Hk. specialize (Ha v). apply map_refs_lookup in Hk. lia. Qed.

Lemma wp_find b p Q m :
  mem_ok m -> map_alive b m ->
  (forall m', mem_step (fun id => match entries_ b !! p with Some x => at_ref x id | None => 0 end)
                       none m m' -> Q (entries_ b !! p) m') ->
  wp bad (find b p) Q m.
Proof.
  intros Hok Ha HQ. unfold find. destruct (entries_ b !! p) as [id|] eqn:Hp.
  - apply wp_bind, wp_copy_ref; [done|by eapply map_alive_lookup|]. intros m' Hs. by apply wp_ret, HQ.
  - apply wp_ret, HQ. by apply mem_step_refl.
Qed.

Lemma wp_deregisterBuffer b p Q m :
  mem_ok m -> map_alive b m ->
  (forall r b' m', map_step none m b m' b' ->
     match r with
     | Deregistered => exists id, entries_ b !! p = Some id /\ refs id m = 1 /\
                                  entries_ b' = delete p (entries_ b) /\ refs id m' = 0
     | NotRegistered => entries_ b !! p = None /\ b' = b /\ m' = m
     | DeregisterBusy => b' = b /\ m' = m /\ exists id, entries_ b !! p = Some id /\ 1 < refs id m
     end -> Q (r, b') m') ->
  wp bad (deregisterBuffer b p) Q m.
Proof.
  intros Hok Ha HQ. unfold deregisterBuffer. destruct (entries_ b !! p) as [id|] eqn:Hp.
  - pose proof (map_alive_lookup _ _ _ _ Ha Hp) as Hpos.
    destruct (proj1 (refs_Some _ _) Hpos) as (e & n & He).
    assert (refs id m = Z.of_nat (S n)) as Hrefs by (unfold refs; by rewrite He).
    apply wp_bind. eapply wp_use_count; [done|]. destruct (Nat.ltb_spec 1 (S n)).
    + apply wp_ret, HQ; [by apply map_step_mem, mem_step_refl|]. split_and!; [done..|].
      exists id. split; [done|lia].
    + apply wp_bind, wp_drop_ref; [done|done|]. intros m' S1. apply wp_ret, HQ.
      * split; [|simpl|done].
        -- eapply mem_step_ext; [exact S1| |done]. intros i. cbv beta.
           rewrite (map_refs_delete i b p id) by done. unfold none. lia.
        -- intros Hb. unfold buffers_size in *. simpl.
           rewrite map_size_delete, Hp. lia.
      * exists id. split_and!; [done|lia|done|]. destruct S1 as [_ S1 _ _ _].
        rewrite S1. unfold at_ref. rewrite decide_True by done. lia.
  - apply wp_ret, HQ; [by apply map_step_mem, mem_step_refl|done].
Qed.

Lemma wp_drop_refs ids Q m :
  mem_ok m -> (forall id, cnt id ids <= refs id m) ->
  (forall m', mem_step (fun id => - cnt id ids) none m m' -> Q tt m') ->
  wp bad (drop_refs ids) Q m.
Proof.
  revert m. induction ids as [|i ids IH]; intros m Hok Hr HQ; cbn [drop_refs].
  - apply wp_ret, HQ. eapply mem_step_ext; [by apply mem_step_refl|done|done].
  - pose proof (Hr i) as Hi. cbn [cnt foldr] in Hi. rewrite decide_True in Hi by done.
    pose proof (cnt_nonneg i ids). unfold cnt in *.
    apply wp_bind, wp_drop_ref; [done|lia|]. intros m1 S1. apply IH; [apply S1| |].
    + intros j. destruct S1 as [_ S1 _ _ _]. rewrite S1. specialize (Hr j). unfold at_ref.
      cbn [cnt foldr] in Hr. lia.
    + intros m2 S2. apply HQ. step_done; [|lia]. unfold at_ref. cbn [cnt foldr]. unfold cnt. lia.
Qed.

Lemma cnt_map_refs id b : cnt id (snd <$> map_to_list (entries_ b)) = map_refs id b.
Proof.
  unfold map_refs. generalize (entries_ b) as es. intros es.
  induction es as [|k v es Hk IH] using map_ind.
  - by rewrite map_to_list_empty, msum_empty.
  - rewrite (cnt_Permutation _ _ (v :: (snd <$> map_to_list es))).
    + rewrite cnt_cons, IH, msum_insert by done. done.
    + by rewrite map_to_list_insert.
Qed.

Lemma wp_destroy_BufferMap b Q m :
  mem_ok m -> map_alive b m ->
  (forall m', mem_step (fun id => - map_refs id b) none m m' -> Q tt m') ->
  wp bad (destroy_BufferMap b) Q m.
Proof.
  intros Hok Ha HQ. apply wp_drop_refs; [done| |].
  - intros id. rewrite cnt_map_refs. apply Ha.
  - intros m' Hs. apply HQ. eapply mem_step_ext; [exact Hs|..]; [|done].
    intros id. cbv beta. by rewrite cnt_map_refs.
Qed.
End registering.

Lemma no_memory_ok : mem_ok no_memory.
Proof. split; [done..|]. by intros h ?%elem_of_nil. Qed.

Lemma staged_memory_ok n : mem_ok (staged_memory (S n)).
Proof.
  unfold staged_memory. split; cbn.
  - intros id e k H. apply lookup_singleton_Some in H as [_ [= _ <-]]. lia.
  - intros id Hid. rewrite lookup_singleton_ne by lia. done.
  - by intros h ?%elem_of_nil.
Qed.

(** ** Properties *)



(** With [HIPOBJ_REQUIRE_GPU_DIRECT] set, device memory is never staged:
    when HIP says that the buffer is on the device, a registration either
    fails, or is one through which the NIC reaches that memory. *)
Theorem strict_gpu_direct `{E : World} (bad : stop -> Prop) (b : BufferMap) (devPtr size : Z)
    (pd : ibv_pd) (m : Mem) (Hok : mem_ok m) (Hstrict : requireGpuDirect_ b = true)
    (Hdevice : forall t, respond t (pointerGetAttributes devPtr) = (hipSuccess, hipMemoryTypeDevice)) :
  wp bad (registerBuffer b devPtr size pd) (fun x m' => let (r, b') := x in
    r = Registered -> exists entry e, entries_ b' !! devPtr = Some entry /\
      m_ents m' !! entry = Some (e, 1%nat) /\ isDmabuf e = true /\ hostBuf e = 0 /\
      remoteAddr e = devPtr) m.
Proof.
  unfold registerBuffer. destruct (MAX_MR_SIZE <? size); [by apply wp_ret|].
  unfold precheck. destruct (refusal b devPtr) as [refused|] eqn:Hr.
  { apply wp_ret. intros ->. by apply refusal_registered in Hr. }
  apply wp_bind. eapply wp_calls_acquires; [apply registerDeviceMemory_acquires|done|].
  intros direct m1 S1 _. destruct direct as [x|].
  - eapply (wp_make_insert bad b devPtr _ _ _ _ m); [exact S1|done|done|].
    intros entry b' m2 _ He Hent _ _. exists entry. eexists.
    split_and!; [by rewrite He, lookup_insert_eq|exact Hent|done..].
  - apply wp_bind. unfold calls, isDevicePointer. apply wp_zoom, wp_bind, wp_perform_eq.
    rewrite Hdevice. cbn [Z.eqb hipSuccess negb]. apply wp_ret. rewrite Hstrict. cbn [andb].
    by apply wp_bind, wp_zoom, wp_perform_eq, wp_ret.
Qed.

Lemma strict_gpu_direct_witness :
  fst (@registerBuffer no_peer_memory (no_buffers false) 64 64 {| pd_addr := 1 |} no_memory) <>
    inl (RegisterFailed, no_buffers false) /\
  wp (fun _ => False) (@registerBuffer no_peer_memory (no_buffers true) 64 64 {| pd_addr := 1 |})
    (fun x m' => let (r, b') := x in
      r = Registered -> exists entry e, entries_ b' !! 64 = Some entry /\
        m_ents m' !! entry = Some (e, 1%nat) /\ isDmabuf e = true /\ hostBuf e = 0 /\
        remoteAddr e = 64) no_memory.
Proof.
  split; [vm_compute; discriminate|].
  apply (@strict_gpu_direct no_peer_memory); [apply no_memory_ok|reflexivity|reflexivity].
Defined.

(** A buffer is unregistered exactly when nothing but the map refers to
    it. Then its MR is deregistered before the staging buffer it covers is
    freed, and nothing else is called; a buffer in use is left alone. *)
Theorem deregisterBuffer_order `{E : World} (b : BufferMap) (devPtr : Z) (entry : nat) (e : BufEntry)
    (n : nat) (x : ibv_mr) (m : Mem) (Hentry : entries_ b !! devPtr = Some entry)
    (He : m_ents m !! entry = Some (e, S n)) (Hmr : mr e = Some x) :
  exists m',
    deregisterBuffer b devPtr m =
      (inl (if decide (n = O) then (Deregistered, b <| entries_ := delete devPtr (entries_ b) |>)
            else (DeregisterBusy, b)), m') /\
    (n <> O -> m' = m) /\
    (n = O -> m_ents m' = delete entry (m_ents m) /\
       exists r1, let t1 := Ev (dereg_mr x) r1 :: m_trace m in
       if leakHostBuf e || (hostBuf e =? 0) then m_trace m' = t1
       else exists r2, m_trace m' = Ev (hostFree (hostBuf e)) r2 :: t1).
Proof.
  unfold deregisterBuffer. rewrite Hentry. unfold mbind, M_bind, use_count, read_entry, mbind, M_bind.
  cbn [get_state]. rewrite He. cbn. destruct n as [|n]; cbn [Nat.ltb Nat.leb].
  2:{ exists m. by split_and!. }
  unfold drop_ref, read_entry, mbind, M_bind. cbn [get_state]. rewrite He.
  unfold modify, destroy_BufEntry, mbind, M_bind, calls, zoom, dropOwnership, modify, IbvMrDeleter.
  unfold mret, M_ret. cbv beta iota. rewrite Hmr. unfold mbind, M_bind, perform, mret, M_ret.
  destruct (leakHostBuf e); cbn [orb].
  - eexists. split_and!; [done|done|]. intros _. cbn. split; [done|]. by eexists.
  - unfold HostBufDeleter. destruct (hostBuf e =? 0).
    + eexists. split_and!; [done|done|]. intros _. cbn. split; [done|]. by eexists.
    + eexists. split_and!; [done|done|]. intros _. cbn. split; [done|]. do 2 eexists. reflexivity.
Qed.

Lemma deregisterBuffer_order_witness :
  exists m', @deregisterBuffer failing_world staged_buffers 4096 (staged_memory 1) =
      (inl (Deregistered, staged_buffers <| entries_ := delete 4096 (entries_ staged_buffers) |>), m') /\
    exists r1 r2, m_trace m' = [Ev (hostFree 8192) r2; Ev (dereg_mr {| mr_addr := 4; mr_buf := 8192; mr_rkey := 5; mr_lkey := 6 |}) r1].
Proof.
  destruct (@deregisterBuffer_order failing_world staged_buffers 4096 0 staged_entry 0
              {| mr_addr := 4; mr_buf := 8192; mr_rkey := 5; mr_lkey := 6 |} (staged_memory 1)
              eq_refl eq_refl eq_refl) as (m' & H1 & _ & H2).
  exists m'. split; [exact H1|]. destruct (H2 eq_refl) as (_ & r1 & r2 & H3). by exists r1, r2.
Defined.

(** A device buffer is registered only when all of it lies in one
    allocation. [isValidDeviceRange()] answers what HIP's two answers imply,
    without a sum that could wrap; memory that HIP doesn't call device
    memory passes. *)
Theorem isValidDeviceRange_spec `{E : World} (bad : stop -> Prop) (ptr size : Z) (t : trace) :
  wp bad (isValidDeviceRange ptr size) (fun valid t' => exists attr t1,
    t1 = Ev (pointerGetAttributes ptr) attr :: t /\
    if decide (attr = (hipSuccess, hipMemoryTypeDevice)) then
      exists err base allocSize, t' = Ev (memGetAddressRange ptr) (err, base, allocSize) :: t1 /\
        (valid = true <-> err = hipSuccess /\ base <= ptr < base + allocSize /\
                          ptr + size <= base + allocSize)
    else t' = t1 /\ valid = true) t.
Proof.
  unfold isValidDeviceRange, isDevicePointer. do 3 wstep. destruct r as [err ty].
  destruct (decide ((err, ty) = (hipSuccess, hipMemoryTypeDevice))) as [[= -> ->]|Hne].
  - cbn [Z.eqb hipSuccess negb]. wstep. cbn [negb]. wstep. wstep. destruct r as [[err base] alloc].
    enough (forall v : bool,
      (v = true <-> err = hipSuccess /\ base <= ptr < base + alloc /\ ptr + size <= base + alloc) ->
      exists attr t1, t1 = Ev (pointerGetAttributes ptr) attr :: t /\
        if decide (attr = (hipSuccess, hipMemoryTypeDevice)) then
          exists err' base' allocSize,
            Ev (memGetAddressRange ptr) (err, base, alloc) ::
              Ev (pointerGetAttributes ptr) (0, hipMemoryTypeDevice) :: t =
            Ev (memGetAddressRange ptr) (err', base', allocSize) :: t1 /\
            (v = true <-> err' = hipSuccess /\ base' <= ptr < base' + allocSize /\
                              ptr + size <= base' + allocSize)
        else Ev (memGetAddressRange ptr) (err, base, alloc) ::
              Ev (pointerGetAttributes ptr) (0, hipMemoryTypeDevice) :: t = t1 /\ v = true) as Hv.
    { wstep; [wstep; apply Hv; bools; intuition congruence|].
      wstep; wstep; apply Hv; bools; rewrite ?Z.leb_le; intuition (try congruence; try lia). }
    intros v Hv. do 2 eexists. split; [done|]. rewrite decide_True by done. by do 3 eexists.
  - enough (wp bad (mret true) (fun valid t' => exists attr t1,
      t1 = Ev (pointerGetAttributes ptr) attr :: t /\
      if decide (attr = (hipSuccess, hipMemoryTypeDevice)) then
        exists err base allocSize, t' = Ev (memGetAddressRange ptr) (err, base, allocSize) :: t1 /\
          (valid = true <-> err = hipSuccess /\ base <= ptr < base + allocSize /\
                            ptr + size <= base + allocSize)
      else t' = t1 /\ valid = true) (Ev (pointerGetAttributes ptr) (err, ty) :: t)) as Hpass.
    { destruct (Z.eqb_spec err hipSuccess) as [->|]; cbn [negb].
      - wstep. destruct ty; [congruence|]. exact Hpass.
      - wstep. exact Hpass. }
    wstep. do 2 eexists. split; [done|]. by rewrite decide_False.
Qed.
