(* ===== verification/BufferCode.v ===== *)
(** * The buffers' map, statement by statement ([src/buffer.cpp])

    The functions of [BufferMap] as sequences of statements, with its
    [SharedMutex] from [Locks], and its entries' [shared_ptr]s, whose use
    counts are atomic: copying one or releasing one takes no lock.  What's
    shown is that no entry is used once it's been destroyed, and that what
    [deregisterBuffer()] removes is used by nothing, which is its comment's
    argument about [use_count()]. *)

From stdpp Require Import base numbers list gmap relations.
From S2P Require Import Prelude.
From S2P Require Import Locks.
From S2P Require Import Buffer.

(** ** Definitions *)

(** The map, which has null pointers where one has been moved from; the use
    count of each entry that hasn't been destroyed; and the pointers that are
    kept where any thread may take them, such as the abandoned copies' *)
Record buffers_data := {
  entries : gmap Z (option nat);
  counts : gmap nat nat;
  kept : list nat;
}.

#[export] Instance eta_buffers_data : Eta buffers_data := fun r =>
  {| entries := entries r; counts := counts r; kept := kept r |}.

(** The statements.  A thread's own data are the pointers that it holds. *)
Inductive bop : Type -> Type :=
| entries_contains (key : Z) : bop bool
| entries_size : bop Z
| entries_find (key : Z) : bop (option (option nat))
| entries_assign (key : Z) (id : nat) : bop unit
| entries_move_out (key : Z) : bop (option nat)
| entries_erase (key : Z) : bop unit
| use_count_of (id : nat) : bop nat
| copy_pointer (id : nat) : bop unit
| release_pointer (id : nat) : bop unit
| entry_reset (id : nat) : bop unit
| use_entry (id : nat) : bop unit
| make_shared_entry : bop nat
| register_memory : bop bool
| keep_pointer (id : nat) : bop unit
| take_kept : bop (option nat).

(** A thread's pointers, without one to an entry *)
Fixpoint take_one (id : nat) (l : list nat) : option (list nat) :=
  match l with
  | [] => None
  | x :: l' => if decide (x = id) then Some l' else l'' ← take_one id l'; Some (x :: l'')
  end.

(** A pointer goes; with the last, the entry *)
Definition release_count (id : nat) (cs : gmap nat nat) : option (gmap nat nat) :=
  match cs !! id with
  | None | Some O => None
  | Some 1%nat => Some (delete id cs)
  | Some (S n) => Some (<[id := n]> cs)
  end.

Definition copy_count (id : nat) (cs : gmap nat nat) : option (gmap nat nat) :=
  match cs !! id with None => None | Some n => Some (<[id := S n]> cs) end.

Definition release_value (p : option nat) (cs : gmap nat nat) : option (gmap nat nat) :=
  match p with Some id => release_count id cs | None => Some cs end.

(** Nothing, when what it does is undefined: the use of an entry that has been
    destroyed, or of a pointer that the thread doesn't have.  [choice] is
    whether a registration with the NIC works. *)
Definition bexec (X : Type) (o : bop X) (choice : bool) (d : buffers_data) (l : list nat)
    : option (X * buffers_data * list nat) :=
  match o in bop X return option (X * buffers_data * list nat) with
  | entries_contains key => Some (bool_decide (is_Some (entries d !! key)), d, l)
  | entries_size => Some (Z.of_nat (size (entries d)), d, l)
  | entries_find key => Some (entries d !! key, d, l)
  | entries_assign key id =>
      l' ← take_one id l;
      cs ← release_value (mjoin (entries d !! key)) (counts d);
      Some (tt, d <| entries := <[key := Some id]> (entries d) |> <| counts := cs |>, l')
  | entries_move_out key =>
      p ← entries d !! key;
      Some (p, d <| entries := <[key := None]> (entries d) |>,
            match p with Some id => id :: l | None => l end)
  | entries_erase key =>
      cs ← release_value (mjoin (entries d !! key)) (counts d);
      Some (tt, d <| entries := delete key (entries d) |> <| counts := cs |>, l)
  | use_count_of id => n ← counts d !! id; Some (n, d, l)
  | copy_pointer id => cs ← copy_count id (counts d); Some (tt, d <| counts := cs |>, id :: l)
  | release_pointer id =>
      l' ← take_one id l; cs ← release_count id (counts d); Some (tt, d <| counts := cs |>, l')
  | entry_reset id =>
      l' ← take_one id l; cs ← release_count id (counts d); Some (tt, d <| counts := cs |>, l')
  | use_entry id => _ ← counts d !! id; Some (tt, d, l)
  | make_shared_entry =>
      let id := fresh (dom (counts d)) in Some (id, d <| counts := <[id := 1%nat]> (counts d) |>, id :: l)
  | register_memory => Some (choice, d, l)
  | keep_pointer id => l' ← take_one id l; Some (tt, d <| kept := id :: kept d |>, l')
  | take_kept =>
      match kept d with
      | [] => Some (None, d, l)
      | id :: ids => Some (Some id, d <| kept := ids |>, id :: l)
      end
  end.

Definition refusal_code (key : Z) : code bop (option RegisterResult) :=
  found ← stmt (entries_contains key);
  if found : bool then mret (Some AlreadyRegistered)
  else
    n ← stmt entries_size;
    mret (if kMaxEntries <=? n then Some RegisterFailed else None).

Definition precheck_code (key : Z) : code bop (option RegisterResult) := SharedLock (refusal_code key).

(** What [entry] still owns is released after the mutex *)
Definition insert_code (key : Z) (entry : nat) : code bop RegisterResult :=
  r ← ScopedLock (
    refused ← refusal_code key;
    match refused with
    | Some r => mret r
    | None => _ ← stmt (entries_assign key entry); mret Registered
    end);
  _ ← match r with Registered => mret tt | _ => stmt (release_pointer entry) end;
  mret r.

(** [registerBuffer()] and [registerHostBuffer()], which differ in how the
    memory is registered with the NIC *)
Definition register_code (key sz : Z) : code bop RegisterResult :=
  if MAX_MR_SIZE <? sz then mret RegisterFailed
  else
    refused ← precheck_code key;
    match refused with
    | Some r => mret r
    | None =>
        made ← stmt register_memory;
        if negb made then mret RegisterFailed
        else entry ← stmt make_shared_entry; insert_code key entry
    end.

Definition deregister_code (key : Z) : code bop DeregisterResult :=
  '(r, entry) ← ScopedLock (
    it ← stmt (entries_find key);
    match it with
    | None => mret (NotRegistered, None)
    | Some second =>
        n ← match second with Some id => stmt (use_count_of id) | None => mret O end;
        if Nat.ltb 1 n then mret (DeregisterBusy, None)
        else
          entry ← stmt (entries_move_out key);
          _ ← stmt (entries_erase key);
          mret (Deregistered, entry)
    end);
  _ ← match entry with Some id => stmt (entry_reset id) | None => mret tt end;
  mret r.

Definition find_code (key : Z) : code bop (option nat) :=
  SharedLock (
    it ← stmt (entries_find key);
    match it with
    | Some (Some id) => _ ← stmt (copy_pointer id); mret (Some id)
    | _ => mret None
    end).

Definition buffers_size_code : code bop Z := SharedLock (stmt entries_size).

(** What a thread does: the functions, and with a pointer that it holds, use
    the entry, copy the pointer, release it, or leave it for others to take *)
Inductive buffer_calls : list nat -> code bop unit -> list nat -> Prop :=
| call_register l key sz : buffer_calls l (_ ← register_code key sz; mret tt) l
| call_deregister l key : buffer_calls l (_ ← deregister_code key; mret tt) l
| call_find l key : buffer_calls l (_ ← find_code key; mret tt) l
| call_buffers_size l : buffer_calls l (_ ← buffers_size_code; mret tt) l
| call_use l id : id ∈ l -> buffer_calls l (stmt (use_entry id)) l
| call_copy l id : id ∈ l -> buffer_calls l (stmt (copy_pointer id)) l
| call_release l id : id ∈ l -> buffer_calls l (stmt (release_pointer id)) l
| call_keep l id : id ∈ l -> buffer_calls l (stmt (keep_pointer id)) l
| call_take l : buffer_calls l (_ ← stmt take_kept; mret tt) l.

Abbreviation buffer_thread := (cthread (list nat) bop).
Abbreviation buffer_machine := (machine buffers_data (list nat) bop).
Definition buffer_mstep : buffer_machine -> buffer_machine -> Prop := mstep bexec buffer_calls.

(** A new map, and threads that hold nothing *)
Definition new_buffers (m : buffer_machine) : Prop :=
  m_data m = {| entries := ∅; counts := ∅; kept := [] |} /\ m_owner m = Unlocked /\
  forall t th, m_threads m !! t = Some th -> t_code th = Return tt /\ t_wakes th = Awake /\ t_local th = [].

Definition buffers_reachable (m : buffer_machine) : Prop :=
  exists m0, new_buffers m0 /\ rtc buffer_mstep m0 m.

(** *** What a thread knows

    [b_lock] is the map while the thread has the mutex, and whether it has it
    exclusively; [b_last] an entry of which there's one pointer, its own or the
    map's. *)
Record bview := {
  b_lock : option (bool * gmap Z (option nat));
  b_refs : list nat;
  b_last : option nat;
}.

#[export] Instance eta_bview : Eta bview := fun r =>
  {| b_lock := b_lock r; b_refs := b_refs r; b_last := b_last r |}.

(** What holds of the map whenever no thread has it exclusively: there's an
    entry at each key *)
Definition tidy (es : gmap Z (option nat)) : Prop := forall key p, es !! key = Some p -> is_Some p.

Definition releases (id : nat) (K : bview -> Prop) (v : bview) : Prop :=
  exists l', take_one id (b_refs v) = Some l' /\ K (v <| b_refs := l' |> <| b_last := None |>).

Definition bop_rule (X : Type) (o : bop X) (K : X -> bview -> Prop) (v : bview) : Prop :=
  match o in bop X return (X -> bview -> Prop) -> Prop with
  | entries_contains key => fun K => exists x es, b_lock v = Some (x, es) /\ K (bool_decide (is_Some (es !! key))) v
  | entries_size => fun K => exists x es, b_lock v = Some (x, es) /\ K (Z.of_nat (size es)) v
  | entries_find key => fun K => exists x es, b_lock v = Some (x, es) /\ K (es !! key) v
  | entries_assign key id => fun K => exists es,
      b_lock v = Some (true, es) /\ es !! key = None /\ Z.of_nat (size es) < kMaxEntries /\
      releases id (fun v' => K tt (v' <| b_lock := Some (true, <[key := Some id]> es) |>)) v
  | entries_move_out key => fun K => exists es p,
      b_lock v = Some (true, es) /\ es !! key = Some p /\
      K p (v <| b_lock := Some (true, <[key := None]> es) |>
             <| b_refs := match p with Some id => id :: b_refs v | None => b_refs v end |>)
  | entries_erase key => fun K => exists es,
      b_lock v = Some (true, es) /\ es !! key = Some None /\ K tt (v <| b_lock := Some (true, delete key es) |>)
  | use_count_of id => fun K => exists es key,
      b_lock v = Some (true, es) /\ es !! key = Some (Some id) /\
      forall n, (1 <= n)%nat -> K n (if Nat.eqb n 1 then v <| b_last := Some id |> else v)
  | copy_pointer id => fun K =>
      (id ∈ b_refs v \/ exists x es key, b_lock v = Some (x, es) /\ es !! key = Some (Some id)) /\
      K tt (v <| b_refs := id :: b_refs v |> <| b_last := None |>)
  | release_pointer id => fun K => releases id (K tt) v
  | entry_reset id => fun K => b_last v = Some id /\ b_lock v = None /\ releases id (K tt) v
  | use_entry id => fun K => id ∈ b_refs v /\ K tt v
  | make_shared_entry => fun K => forall id, K id (v <| b_refs := id :: b_refs v |>)
  | register_memory => fun K => forall made, K made v
  | keep_pointer id => fun K => releases id (K tt) v
  | take_kept => fun K => forall o,
      K o (match o with Some id => v <| b_refs := id :: b_refs v |> <| b_last := None |> | None => v end)
  end K.

Definition block_rule (K : bview -> Prop) (v : bview) : Prop :=
  b_lock v = None /\ b_last v = None /\ forall es, tidy es -> K (v <| b_lock := Some (true, es) |>).
Definition bunlock_rule (K : bview -> Prop) (v : bview) : Prop :=
  (exists es, b_lock v = Some (true, es) /\ tidy es) /\
  (forall id, b_last v = Some id -> id ∈ b_refs v) /\ K (v <| b_lock := None |>).
Definition bshare_rule (K : bview -> Prop) (v : bview) : Prop :=
  b_lock v = None /\ b_last v = None /\ forall es, tidy es -> K (v <| b_lock := Some (false, es) |>).
Definition bunshare_rule (K : bview -> Prop) (v : bview) : Prop :=
  (exists es, b_lock v = Some (false, es)) /\ b_last v = None /\ K (v <| b_lock := None |>).
Definition never_rule (K : bview -> Prop) (v : bview) : Prop := False.

Definition bwpc {A} : code bop A -> (A -> bview -> Prop) -> bview -> Prop :=
  wpc bop_rule block_rule bunlock_rule bshare_rule bunshare_rule never_rule never_rule never_rule.

Definition boutside (v : bview) : Prop := b_lock v = None /\ b_last v = None.

(** ** Lemmas *)

Ltac take_all :=
  repeat match goal with
  | H : exists _, _ |- _ => destruct H
  | H : _ /\ _ |- _ => destruct H
  end.

Lemma bop_rule_mono X (o : bop X) (P Q : X -> bview -> Prop) v :
  (forall x v', P x v' -> Q x v') -> bop_rule X o P v -> bop_rule X o Q v.
Proof. intros HPQ. destruct o; cbn; unfold releases; intros HP; take_all; eauto 15. Qed.

Lemma buffer_rules_mono :
  Forall monotone [block_rule; bunlock_rule; bshare_rule; bunshare_rule; never_rule; never_rule; never_rule].
Proof.
  rewrite !Forall_cons, Forall_nil. split_and!; [..|done]; intros P Q v HPQ;
    unfold block_rule, bunlock_rule, bshare_rule, bunshare_rule, never_rule; intros HP; take_all; eauto 15.
Qed.

Lemma bwpc_mono {A} (c : code bop A) (P Q : A -> bview -> Prop) v :
  (forall a v', P a v' -> Q a v') -> bwpc c P v -> bwpc c Q v.
Proof. apply wpc_mono; [apply bop_rule_mono|apply buffer_rules_mono]. Qed.

Lemma bwpc_bind {A B} (c : code bop A) (k : A -> code bop B) Q v :
  bwpc c (fun a => bwpc (k a) Q) v -> bwpc (c ≫= k) Q v.
Proof. apply wpc_bind; [apply bop_rule_mono|apply buffer_rules_mono]. Qed.

(** *** The functions *)

Lemma take_one_in id l : id ∈ l -> exists l', take_one id l = Some l'.
Proof.
  induction l as [|x l IH]; [by intros ?%elem_of_nil|]. intros Hin. cbn. case_decide; [by eexists|].
  apply elem_of_cons in Hin as [->|Hin]; [done|]. destruct (IH Hin) as [l' ->]. by eexists.
Qed.

Lemma take_one_head id l : take_one id (id :: l) = Some l.
Proof. cbn. by rewrite decide_True. Qed.

(** [refusal()], with the mutex held one way or the other *)
Lemma refusal_code_ok key x es refs last (Q : option RegisterResult -> bview -> Prop) :
  (forall r, (r = None -> es !! key = None /\ Z.of_nat (size es) < kMaxEntries) ->
     Q r {| b_lock := Some (x, es); b_refs := refs; b_last := last |}) ->
  bwpc (refusal_code key) Q {| b_lock := Some (x, es); b_refs := refs; b_last := last |}.
Proof.
  intros HQ. exists x, es. split; [done|]. destruct (es !! key) as [p|] eqn:Hk; cbn.
  - by apply HQ.
  - exists x, es. split; [done|]. cbn. apply HQ. destruct (kMaxEntries <=? _) eqn:Hm; bools; [done|]. by split.
Qed.

Lemma ScopedLock_ok {A} (block : code bop A) (Q : A -> bview -> Prop) v :
  b_lock v = None -> b_last v = None ->
  (forall es, tidy es -> bwpc block (fun r => bunlock_rule (Q r)) (v <| b_lock := Some (true, es) |>)) ->
  bwpc (ScopedLock block) Q v.
Proof.
  intros Hl Hu Hblock. split; [done|]. split; [done|]. intros es Hes. apply (bwpc_bind block).
  by apply Hblock.
Qed.

Lemma SharedLock_ok {A} (block : code bop A) (Q : A -> bview -> Prop) v :
  b_lock v = None -> b_last v = None ->
  (forall es, tidy es -> bwpc block (fun r => bunshare_rule (Q r)) (v <| b_lock := Some (false, es) |>)) ->
  bwpc (SharedLock block) Q v.
Proof.
  intros Hl Hu Hblock. split; [done|]. split; [done|]. intros es Hes. apply (bwpc_bind block).
  by apply Hblock.
Qed.

Lemma insert_code_ok key id refs :
  bwpc (insert_code key id) (fun _ => boutside) {| b_lock := None; b_refs := id :: refs; b_last := None |}.
Proof.
  apply bwpc_bind, ScopedLock_ok; [done..|]. intros es Hnn. apply bwpc_bind, refusal_code_ok.
  intros [r|] Hr.
  - split_and!; [by exists es|done|]. destruct r; [done|by exists refs; split; [apply take_one_head|]..].
  - destruct (Hr eq_refl) as [Hfree Hroom]. exists es. split_and!; [done|done|done|]. exists refs.
    split; [apply take_one_head|]. split_and!; [|done|done]. eexists. split; [done|].
    intros k p [[_ <-]|[_ Hk]]%lookup_insert_Some; [by eexists|by eapply Hnn].
Qed.

Lemma register_code_ok key sz v : boutside v -> bwpc (_ ← register_code key sz; mret tt) (fun _ => boutside) v.
Proof.
  destruct v as [lk refs last]. intros [Hl Hu]. cbn in Hl, Hu. subst lk last.
  apply bwpc_bind. unfold register_code. case_match; [done|]. apply bwpc_bind, SharedLock_ok; [done..|].
  intros es Hes. apply refusal_code_ok. intros [r|] _; (split_and!; [by exists es|done|]); [done|].
  intros [|]; [|done]. intros id. apply insert_code_ok.
Qed.

Lemma deregister_code_ok key v : boutside v -> bwpc (_ ← deregister_code key; mret tt) (fun _ => boutside) v.
Proof.
  destruct v as [lk refs last]. intros [Hl Hu]. cbn in Hl, Hu. subst lk last.
  apply bwpc_bind, bwpc_bind, ScopedLock_ok; [done..|]. intros es Hnn. exists true, es. split; [done|].
  destruct (es !! key) as [p|] eqn:Hk.
  2:{ split_and!; [|done|done]. exists es. by split. }
  destruct (Hnn _ _ Hk) as [id ->]. exists es, key. split_and!; [done|done|]. intros n Hn.
  cbn [code_bind bind_code]. destruct (Nat.ltb_spec 1 n) as [Hmany|Hone].
  { replace (Nat.eqb n 1) with false by (symmetry; apply Nat.eqb_neq; lia).
    split_and!; [|done|done]. exists es. by split. }
  replace (Nat.eqb n 1) with true by (symmetry; apply Nat.eqb_eq; lia).
  exists es, (Some id). split_and!; [done|done|]. eexists. split_and!; [done|by rewrite lookup_insert_eq|].
  rewrite delete_insert_eq. split_and!.
  - eexists. split; [done|]. intros k p [_ Hp]%lookup_delete_Some. by eapply Hnn.
  - intros id' [= <-]. left.
  - split_and!; [done|done|]. exists refs. split; [apply take_one_head|]. done.
Qed.

Lemma find_code_ok key v : boutside v -> bwpc (_ ← find_code key; mret tt) (fun _ => boutside) v.
Proof.
  destruct v as [lk refs last]. intros [Hl Hu]. cbn in Hl, Hu. subst lk last.
  apply bwpc_bind, SharedLock_ok; [done..|]. intros es Hnn. exists false, es. split; [done|].
  destruct (es !! key) as [p|] eqn:Hk.
  2:{ split_and!; [by exists es|done|done]. }
  destruct (Hnn _ _ Hk) as [id ->]. split; [right; by exists false, es, key|].
  split_and!; [by exists es|done|done].
Qed.

Lemma buffer_calls_ok l c l' :
  buffer_calls l c l' -> l' = l /\
  bwpc c (fun _ => boutside) {| b_lock := None; b_refs := l; b_last := None |}.
Proof.
  intros Hcall. assert (forall id (Q : bview -> Prop), id ∈ l ->
    (forall v, boutside v -> Q v) -> releases id Q {| b_lock := None; b_refs := l; b_last := None |}) as Hrel.
  { intros id Q Hid HQ. destruct (take_one_in _ _ Hid) as [l2 Hl2]. exists l2. split; [done|]. by apply HQ. }
  destruct Hcall; (split; [done|]).
  - by apply register_code_ok.
  - by apply deregister_code_ok.
  - by apply find_code_ok.
  - apply bwpc_bind, SharedLock_ok; [done..|]. intros es Hes. exists false, es. split; [done|].
    split_and!; [by exists es|done|done].
  - by split.
  - split; [by left|done].
  - by apply Hrel.
  - by apply Hrel.
  - by intros [id|].
Qed.
