(* ===== verification/BufferSafe.v ===== *)
(** * The buffers' entries are never used after they're gone
      ([src/buffer.cpp])

    An invariant of [BufferCode]'s statements in any interleaving: an entry's
    use count is the number of pointers to it. *)

From stdpp Require Import base numbers list gmap relations.
From S2P Require Import Prelude.
From S2P Require Import Locks.
From S2P Require Import Buffer.
From S2P Require Import BufferCode.

(** ** Definitions *)

Fixpoint occ (id : nat) (l : list nat) : Z :=
  match l with [] => 0 | x :: l' => (if decide (x = id) then 1 else 0) + occ id l' end.

Definition occ_map (id : nat) (es : gmap Z (option nat)) : Z :=
  msum (fun _ p => if decide (p = Some id) then 1 else 0) es.

(** The pointers to an entry, wherever they are *)
Definition pointers (id : nat) (m : buffer_machine) : Z :=
  msum (fun _ th => occ id (t_local th)) (m_threads m) + occ id (kept (m_data m)) + occ_map id (entries (m_data m)).

Definition count_of (id : nat) (cs : gmap nat nat) : Z :=
  match cs !! id with Some n => Z.of_nat n | None => 0 end.

Definition bsection (o : lock_state) (t : nat) (es : gmap Z (option nat)) : option (bool * gmap Z (option nat)) :=
  match o with
  | Unlocked => None
  | Exclusive t' => if decide (t' = t) then Some (true, es) else None
  | Shared ts => if decide (t ∈ ts) then Some (false, es) else None
  end.

(** One of the two places where the only pointer can be *)
Definition has_last (m : buffer_machine) (t id : nat) : Prop :=
  (exists th, m_threads m !! t = Some th /\ id ∈ t_local th) \/
  (m_owner m = Exclusive t /\ exists key, entries (m_data m) !! key = Some (Some id)).

(** Whoever has the mutex is one of the threads *)
Definition held_by (P : nat -> Prop) (o : lock_state) : Prop :=
  match o with
  | Unlocked => True
  | Exclusive t => P t
  | Shared ts => ts <> ∅ /\ forall t, t ∈ ts -> P t
  end.

Record brel (m : buffer_machine) (last : nat -> option nat) : Prop := {
  br_tidy : (forall t, m_owner m <> Exclusive t) -> tidy (entries (m_data m));
  br_held : held_by (fun t => is_Some (m_threads m !! t)) (m_owner m);
  br_size : Z.of_nat (size (entries (m_data m))) <= kMaxEntries;
  br_counts : forall id, count_of id (counts (m_data m)) = pointers id m;
  br_pos : forall id, counts (m_data m) !! id <> Some O;
  br_last : forall t id, last t = Some id -> pointers id m = 1 /\ has_last m t id;
  br_threads : forall t th, m_threads m !! t = Some th -> t_wakes th = Awake /\
    bwpc (t_code th) (fun _ => boutside)
      {| b_lock := bsection (m_owner m) t (entries (m_data m)); b_refs := t_local th; b_last := last t |};
}.

(** Whether a statement uses the map, and whether it changes it *)
Definition reads_map {X} (o : bop X) : bool :=
  match o with
  | entries_contains _ | entries_size | entries_find _ | entries_assign _ _ | entries_move_out _ | entries_erase _ => true
  | _ => false
  end.
Definition writes_map {X} (o : bop X) : bool :=
  match o with entries_assign _ _ | entries_move_out _ | entries_erase _ => true | _ => false end.

(** ** Lemmas *)

Lemma occ_nonneg id l : 0 <= occ id l.
Proof. induction l as [|x l IH]; cbn; [done|]. case_decide; lia. Qed.

Lemma occ_in id l : id ∈ l <-> 1 <= occ id l.
Proof.
  induction l as [|x l IH]; cbn; [split; [by intros ?%elem_of_nil|lia]|]. pose proof (occ_nonneg id l).
  rewrite elem_of_cons. case_decide as Hd; [split; [lia|by left]|]. rewrite IH. split; [intros [->|?]; [done|lia]|right; lia].
Qed.

Lemma occ_take_one id l l' x : take_one id l = Some l' -> occ x l = (if decide (id = x) then 1 else 0) + occ x l'.
Proof.
  revert l'. induction l as [|y l IH]; [done|]. intros l'. cbn. destruct (decide (y = id)) as [->|Hne].
  { by intros [= ->]. }
  destruct (take_one id l) as [l2|] eqn:Ht; [|done]. intros [= <-]. cbn. rewrite (IH l2 eq_refl). lia.
Qed.

Lemma occ_map_nonneg id es : 0 <= occ_map id es.
Proof. apply msum_nonneg. intros k p _. case_decide; lia. Qed.

Lemma occ_map_in id es key : es !! key = Some (Some id) -> 1 <= occ_map id es.
Proof.
  intros Hk. unfold occ_map. rewrite (msum_delete _ _ _ _ Hk), decide_True by done.
  pose proof (occ_map_nonneg id (delete key es)) as Hn. unfold occ_map in Hn. lia.
Qed.

Lemma threads_occ_nonneg id (ths : gmap nat buffer_thread) : 0 <= msum (fun _ th => occ id (t_local th)) ths.
Proof. apply msum_nonneg. intros. apply occ_nonneg. Qed.

Lemma pointers_goes_on id m t c0 l0 d' o c l :
  at_code m t c0 l0 ->
  pointers id (goes_on m t d' o c l) =
    pointers id m - occ id l0 + occ id l - occ id (kept (m_data m)) + occ id (kept d') -
    occ_map id (entries (m_data m)) + occ_map id (entries d').
Proof.
  intros Ht. unfold pointers. cbn. rewrite (msum_update _ _ _ _ _ Ht). cbn. lia.
Qed.

(** What another thread has the only pointer to, this one can't get at *)
Lemma last_elsewhere m last t t' c l id :
  brel m last -> at_code m t c l -> t' <> t -> last t' = Some id ->
  (id ∉ l) /\ (id ∉ kept (m_data m)) /\ counts (m_data m) !! id = Some 1%nat /\
  (bsection (m_owner m) t (entries (m_data m)) = None \/ forall key, entries (m_data m) !! key <> Some (Some id)).
Proof.
  intros Hrel Ht Hne Hlast. destruct (br_last _ _ Hrel _ _ Hlast) as [Hone Hhas].
  pose proof (br_counts _ _ Hrel id) as Hcount. rewrite Hone in Hcount.
  assert (counts (m_data m) !! id = Some 1%nat) as Hc.
  { unfold count_of in Hcount. destruct (counts (m_data m) !! id) as [n|]; [|done]. f_equal. lia. }
  unfold pointers in Hone. rewrite (msum_delete _ _ _ _ Ht) in Hone. cbn in Hone.
  pose proof (occ_nonneg id l). pose proof (occ_nonneg id (kept (m_data m))).
  pose proof (occ_map_nonneg id (entries (m_data m))). pose proof (threads_occ_nonneg id (delete t (m_threads m))).
  destruct Hhas as [(th & Hth & Hin)|[Howner [key Hkey]]].
  - rewrite <- (lookup_delete_ne _ t t') in Hth by done. rewrite (msum_delete _ _ _ _ Hth) in Hone.
    pose proof (threads_occ_nonneg id (delete t' (delete t (m_threads m)))). apply occ_in in Hin.
    split_and!; [rewrite occ_in; lia|rewrite occ_in; lia|done|]. right. intros key Hkey. apply occ_map_in in Hkey. lia.
  - apply occ_map_in in Hkey. split_and!; [rewrite occ_in; lia|rewrite occ_in; lia|done|]. left.
    unfold bsection. rewrite Howner. by rewrite decide_False.
Qed.

Lemma held_by_goes_on (m : buffer_machine) t d o c l o' :
  held_by (fun t => is_Some (m_threads m !! t)) o ->
  held_by (fun t' => is_Some (m_threads (goes_on m t d o' c l) !! t')) o.
Proof.
  assert (forall t', is_Some (m_threads m !! t') -> is_Some (m_threads (goes_on m t d o' c l) !! t')) as Hin.
  { intros t' Ht'. cbn. destruct (decide (t' = t)) as [->|Hne]; [rewrite lookup_insert_eq; by eexists|by rewrite lookup_insert_ne]. }
  destruct o as [|t'|ts]; cbn; [done|apply Hin|]. intros [Hne Hall]. split; [done|]. intros t' Ht'. by apply Hin, Hall.
Qed.

Definition set_last (t : nat) (u : option nat) (last : nat -> option nat) : nat -> option nat :=
  fun x => if decide (x = t) then u else last x.

Lemma bsection_other o t t' es es' :
  t' <> t -> es' = es \/ o = Exclusive t -> bsection o t' es' = bsection o t' es.
Proof. intros Hne [->| ->]; [done|]. unfold bsection. case_decide; congruence. Qed.

(** Thread [t] moves, with the mutex as it was *)
Lemma brel_move m last t c0 l0 d' c l u :
  brel m last -> at_code m t c0 l0 ->
  entries d' = entries (m_data m) \/ m_owner m = Exclusive t ->
  Z.of_nat (size (entries d')) <= kMaxEntries ->
  (forall id, count_of id (counts d') = pointers id (goes_on m t d' (m_owner m) c l)) ->
  (forall id, counts d' !! id <> Some O) ->
  (forall id, id ∉ l0 -> id ∉ kept (m_data m) -> counts (m_data m) !! id = Some 1%nat ->
     bsection (m_owner m) t (entries (m_data m)) = None \/ (forall key, entries (m_data m) !! key <> Some (Some id)) ->
     counts d' !! id = Some 1%nat) ->
  (forall id, u = Some id -> counts d' !! id = Some 1%nat /\ has_last (goes_on m t d' (m_owner m) c l) t id) ->
  bwpc c (fun _ => boutside) {| b_lock := bsection (m_owner m) t (entries d'); b_refs := l; b_last := u |} ->
  brel (goes_on m t d' (m_owner m) c l) (set_last t u last).
Proof.
  intros Hrel Ht Hes Hsize Hcounts Hpos Hothers Hu Hk.
  assert (forall id, counts d' !! id = Some 1%nat -> pointers id (goes_on m t d' (m_owner m) c l) = 1) as Hone.
  { intros id Hid. rewrite <- Hcounts. unfold count_of. by rewrite Hid. }
  split; [|apply held_by_goes_on, (br_held _ _ Hrel)|done|done|done| |].
  - cbn. intros Hno. destruct Hes as [->|Howner]; [by apply (br_tidy _ _ Hrel)|by destruct (Hno t)].
  - intros t' id. unfold set_last. destruct (decide (t' = t)) as [->|Hne].
    + intros Hid. destruct (Hu id Hid) as [H1 H2]. split; [by apply Hone|done].
    + intros Hid. destruct (last_elsewhere _ _ _ _ _ _ _ Hrel Ht Hne Hid) as (H1 & H2 & H3 & H4).
      split; [by apply Hone, Hothers|]. destruct (br_last _ _ Hrel _ _ Hid) as [_ [(th & Hth & Hin)|[Howner [key Hkey]]]].
      * left. exists th. split; [|done]. cbn. by rewrite lookup_insert_ne.
      * right. split; [done|]. exists key. cbn. destruct Hes as [->|Howner']; [done|congruence].
  - intros t' th. cbn. unfold set_last. destruct (decide (t' = t)) as [->|Hne].
    + rewrite lookup_insert_eq. intros [= <-]. done.
    + rewrite lookup_insert_ne by done. intros Hth. rewrite (bsection_other _ t _ (entries (m_data m))) by done.
      by apply (br_threads _ _ Hrel).
Qed.

Lemma release_count_spec id cs cs' :
  release_count id cs = Some cs' ->
  forall x, count_of x cs' = count_of x cs - (if decide (id = x) then 1 else 0) /\
            (cs !! x <> Some O -> cs' !! x <> Some O) /\ (id <> x -> cs' !! x = cs !! x).
Proof.
  unfold release_count, count_of. destruct (cs !! id) as [[|[|n]]|] eqn:Hc; try done; intros [= <-] x;
    destruct (decide (id = x)) as [<-|Hne].
  - rewrite lookup_delete_eq, Hc. by split_and!.
  - rewrite lookup_delete_ne by done. split_and!; [lia|done|done].
  - rewrite lookup_insert_eq, Hc. split_and!; [lia|done|done].
  - rewrite lookup_insert_ne by done. split_and!; [lia|done|done].
Qed.

Lemma copy_count_spec id cs cs' :
  copy_count id cs = Some cs' ->
  forall x, count_of x cs' = count_of x cs + (if decide (id = x) then 1 else 0) /\
            (cs !! x <> Some O -> cs' !! x <> Some O) /\ (id <> x -> cs' !! x = cs !! x).
Proof.
  unfold copy_count, count_of. destruct (cs !! id) as [n|] eqn:Hc; [|done]. intros [= <-] x.
  destruct (decide (id = x)) as [<-|Hne].
  - rewrite lookup_insert_eq, Hc. split_and!; [lia|done|done].
  - rewrite lookup_insert_ne by done. split_and!; [lia|done|done].
Qed.

(** The thread's own last pointer stays where it is *)
Lemma last_stays m last t c0 l0 d' o c l id :
  brel m last -> at_code m t c0 l0 -> last t = Some id ->
  (id ∈ l0 -> id ∈ l) -> (forall key, entries (m_data m) !! key = Some (Some id) -> id ∈ l \/ entries d' !! key = Some (Some id)) ->
  o = m_owner m -> has_last (goes_on m t d' o c l) t id.
Proof.
  intros Hrel Ht Hlast Hl Hes ->. destruct (br_last _ _ Hrel _ _ Hlast) as [_ [(th & Hth & Hin)|[Howner [key Hkey]]]].
  - left. exists {| t_code := c; t_wakes := Awake; t_local := l |}. cbn. rewrite lookup_insert_eq. split; [done|].
    unfold at_code in Ht. rewrite Ht in Hth. injection Hth as <-. by apply Hl.
  - destruct (Hes key Hkey) as [Hin|Hkey'].
    + left. exists {| t_code := c; t_wakes := Awake; t_local := l |}. cbn. by rewrite lookup_insert_eq.
    + right. split; [done|]. by exists key.
Qed.

Lemma last_count m last t id : brel m last -> last t = Some id -> counts (m_data m) !! id = Some 1%nat.
Proof.
  intros Hrel Hlast. destruct (br_last _ _ Hrel _ _ Hlast) as [Hone _]. rewrite <- (br_counts _ _ Hrel) in Hone.
  unfold count_of in Hone. destruct (counts (m_data m) !! id) as [n|]; [|done]. f_equal. lia.
Qed.

Lemma brel_stay m last t c0 l c :
  brel m last -> at_code m t c0 l ->
  bwpc c (fun _ => boutside) {| b_lock := bsection (m_owner m) t (entries (m_data m)); b_refs := l; b_last := last t |} ->
  brel (goes_on m t (m_data m) (m_owner m) c l) (set_last t (last t) last).
Proof.
  intros Hrel Ht Hk. eapply brel_move; [exact Hrel|exact Ht|by left|by apply (br_size _ _ Hrel)| |by apply (br_pos _ _ Hrel)|done| |exact Hk].
  - intros id. rewrite (pointers_goes_on _ _ _ _ _ _ _ _ _ Ht), (br_counts _ _ Hrel). lia.
  - intros id Hid. split; [by eapply last_count|]. eapply last_stays; [exact Hrel|exact Ht|exact Hid|done|by right|done].
Qed.

(** A pointer of the thread's goes *)
Lemma brel_release m last t c0 l0 id l cs c :
  brel m last -> at_code m t c0 l0 -> take_one id l0 = Some l -> release_count id (counts (m_data m)) = Some cs ->
  bwpc c (fun _ => boutside) {| b_lock := bsection (m_owner m) t (entries (m_data m)); b_refs := l; b_last := None |} ->
  brel (goes_on m t ((m_data m) <| counts := cs |>) (m_owner m) c l) (set_last t None last).
Proof.
  intros Hrel Ht Htake Hcs Hk. pose proof (release_count_spec _ _ _ Hcs) as Hspec.
  eapply brel_move; [exact Hrel|exact Ht|by left|by apply (br_size _ _ Hrel)| | | |done|exact Hk].
  - intros x. rewrite (pointers_goes_on _ _ _ _ _ _ _ _ _ Ht), (occ_take_one _ _ _ x Htake). cbn.
    destruct (Hspec x) as (-> & _). rewrite (br_counts _ _ Hrel). lia.
  - intros x. apply (Hspec x), (br_pos _ _ Hrel).
  - intros x Hx _ Hc _. destruct (Hspec x) as (_ & _ & Hsame). cbn. rewrite Hsame; [done|]. intros ->. apply Hx, occ_in.
    rewrite (occ_take_one _ _ _ x Htake), decide_True by done. pose proof (occ_nonneg x l). lia.
Qed.

Lemma bsection_entries o t es x es' : bsection o t es = Some (x, es') -> es' = es /\ (x = true -> o = Exclusive t).
Proof.
  destruct o as [|t'|ts]; cbn; [done| |]; case_decide; try done; intros [= <- <-].
  - subst. by split.
  - by split.
Qed.

Lemma bsection_exclusive t es : bsection (Exclusive t) t es = Some (true, es).
Proof. cbn. by rewrite decide_True. Qed.

(** The pointer that a thread has is counted, and so is the map's *)
Lemma pointer_counted m last t c l id :
  brel m last -> at_code m t c l ->
  (id ∈ l \/ id ∈ kept (m_data m) \/ exists key, entries (m_data m) !! key = Some (Some id)) ->
  exists n, counts (m_data m) !! id = Some (S n).
Proof.
  intros Hrel Ht Hin. pose proof (br_counts _ _ Hrel id) as Hc. unfold pointers in Hc.
  rewrite (msum_delete _ _ _ _ Ht) in Hc. cbn in Hc.
  pose proof (occ_nonneg id l). pose proof (occ_nonneg id (kept (m_data m))).
  pose proof (occ_map_nonneg id (entries (m_data m))). pose proof (threads_occ_nonneg id (delete t (m_threads m))).
  assert (1 <= count_of id (counts (m_data m))) as Hpos.
  { destruct Hin as [Hin|[Hin|[key Hkey]]]; [apply occ_in in Hin|apply occ_in in Hin|apply occ_map_in in Hkey]; lia. }
  unfold count_of in Hpos. destruct (counts (m_data m) !! id) as [[|n]|]; [done|by exists n|done].
Qed.

Definition bfollows (m : buffer_machine) : Prop := exists last, brel m last.

Lemma bfollows_stay m last t c0 l c :
  brel m last -> at_code m t c0 l ->
  bwpc c (fun _ => boutside) {| b_lock := bsection (m_owner m) t (entries (m_data m)); b_refs := l; b_last := last t |} ->
  bfollows (goes_on m t (m_data m) (m_owner m) c l).
Proof. intros Hrel Ht Hk. eexists. by eapply brel_stay. Qed.

Lemma occ_map_insert id es key p :
  occ_map id (<[key := p]> es) =
    occ_map id es - (if decide (mjoin (es !! key) = Some id) then 1 else 0) + (if decide (p = Some id) then 1 else 0).
Proof.
  unfold occ_map. destruct (es !! key) as [q|] eqn:Hk.
  - rewrite (msum_update _ _ _ _ _ Hk). done.
  - rewrite msum_insert by done. destruct (decide (mjoin None = Some id)); [done|]. lia.
Qed.

Lemma occ_map_delete id es key :
  mjoin (es !! key) = None -> occ_map id (delete key es) = occ_map id es.
Proof.
  intros Hnull. destruct (es !! key) as [q|] eqn:Hk; [|by rewrite delete_id].
  unfold occ_map. rewrite (msum_delete _ es key q Hk). cbn in Hnull. subst q. by rewrite decide_False.
Qed.

Lemma assign_follows m last t c0 l key id (c : code bop unit) es l' :
  brel m last -> at_code m t c0 l -> bsection (m_owner m) t (entries (m_data m)) = Some (true, es) ->
  es !! key = None -> Z.of_nat (size es) < kMaxEntries -> take_one id l = Some l' ->
  bwpc c (fun _ => boutside) {| b_lock := Some (true, <[key := Some id]> es); b_refs := l'; b_last := None |} ->
  bfollows (goes_on m t ((m_data m) <| entries := <[key := Some id]> (entries (m_data m)) |>) (m_owner m) c l').
Proof.
  intros Hrel Ht Hsec Hfree Hroom Htake Hk. apply bsection_entries in Hsec as [-> Howner]. specialize (Howner eq_refl).
  eexists. eapply (brel_move _ _ _ _ _ _ _ _ None); [exact Hrel|exact Ht|by right| | |by apply (br_pos _ _ Hrel)|done|done|].
  - cbn. rewrite map_size_insert_None by done. lia.
  - intros x. rewrite (pointers_goes_on _ _ _ _ _ _ _ _ _ Ht), (occ_take_one _ _ _ x Htake). cbn.
    rewrite occ_map_insert, Hfree, (br_counts _ _ Hrel). cbn. repeat case_decide; congruence || lia.
  - rewrite Howner, bsection_exclusive. exact Hk.
Qed.

Lemma move_out_follows m last t c0 l key p es (c : code bop unit) :
  brel m last -> at_code m t c0 l -> bsection (m_owner m) t (entries (m_data m)) = Some (true, es) -> es !! key = Some p ->
  let l' := match p with Some id => id :: l | None => l end in
  bwpc c (fun _ => boutside) {| b_lock := Some (true, <[key := None]> es); b_refs := l'; b_last := last t |} ->
  bfollows (goes_on m t ((m_data m) <| entries := <[key := None]> (entries (m_data m)) |>) (m_owner m) c l').
Proof.
  intros Hrel Ht Hsec Hkey l' Hk. apply bsection_entries in Hsec as [-> Howner]. specialize (Howner eq_refl).
  eexists. eapply (brel_move _ _ _ _ _ _ _ _ (last t)); [exact Hrel|exact Ht|by right| | |by apply (br_pos _ _ Hrel)|done| |].
  - cbn. rewrite map_size_insert_Some by (by eexists). apply (br_size _ _ Hrel).
  - intros x. rewrite (pointers_goes_on _ _ _ _ _ _ _ _ _ Ht). cbn. rewrite occ_map_insert, Hkey, (br_counts _ _ Hrel).
    unfold l'. destruct p as [id|]; cbn; repeat case_decide; congruence || lia.
  - intros id Hid. split; [by eapply last_count|]. eapply last_stays; [exact Hrel|exact Ht|exact Hid| | |done].
    + intros Hin. unfold l'. destruct p; [by right|done].
    + intros key' Hkey'. cbn. destruct (decide (key' = key)) as [->|Hne].
      * left. unfold l'. assert (p = Some id) as -> by congruence. left.
      * right. by rewrite lookup_insert_ne.
  - rewrite Howner, bsection_exclusive. exact Hk.
Qed.

Lemma erase_follows m last t c0 l key es (c : code bop unit) :
  brel m last -> at_code m t c0 l -> bsection (m_owner m) t (entries (m_data m)) = Some (true, es) -> es !! key = Some None ->
  bwpc c (fun _ => boutside) {| b_lock := Some (true, delete key es); b_refs := l; b_last := last t |} ->
  bfollows (goes_on m t ((m_data m) <| entries := delete key (entries (m_data m)) |>) (m_owner m) c l).
Proof.
  intros Hrel Ht Hsec Hkey Hk. apply bsection_entries in Hsec as [-> Howner]. specialize (Howner eq_refl).
  eexists. eapply (brel_move _ _ _ _ _ _ _ _ (last t)); [exact Hrel|exact Ht|by right| | |by apply (br_pos _ _ Hrel)|done| |].
  - cbn. rewrite map_size_delete_Some by (by eexists). pose proof (br_size _ _ Hrel). lia.
  - intros x. rewrite (pointers_goes_on _ _ _ _ _ _ _ _ _ Ht). cbn. rewrite occ_map_delete, (br_counts _ _ Hrel); [lia|].
    by rewrite Hkey.
  - intros id Hid. split; [by eapply last_count|]. eapply last_stays; [exact Hrel|exact Ht|exact Hid|done| |done].
    intros key' Hkey'. right. cbn. rewrite lookup_delete_ne; [done|]. intros ->. congruence.
  - rewrite Howner, bsection_exclusive. exact Hk.
Qed.

Lemma copy_follows m last t c0 l id cs (c : code bop unit) :
  brel m last -> at_code m t c0 l -> copy_count id (counts (m_data m)) = Some cs ->
  id ∈ l \/ (exists x es key, bsection (m_owner m) t (entries (m_data m)) = Some (x, es) /\ es !! key = Some (Some id)) ->
  bwpc c (fun _ => boutside) {| b_lock := bsection (m_owner m) t (entries (m_data m)); b_refs := id :: l; b_last := None |} ->
  bfollows (goes_on m t ((m_data m) <| counts := cs |>) (m_owner m) c (id :: l)).
Proof.
  intros Hrel Ht Hcs Hid Hk. pose proof (copy_count_spec _ _ _ Hcs) as Hspec.
  eexists. eapply (brel_move _ _ _ _ _ _ _ _ None); [exact Hrel|exact Ht|by left|by apply (br_size _ _ Hrel)| | | |done|exact Hk].
  - intros x. rewrite (pointers_goes_on _ _ _ _ _ _ _ _ _ Ht). cbn. destruct (Hspec x) as (-> & _).
    rewrite (br_counts _ _ Hrel). lia.
  - intros x. apply (Hspec x), (br_pos _ _ Hrel).
  - intros x Hx _ Hc Hmap. destruct (Hspec x) as (_ & _ & Hsame). cbn. rewrite Hsame; [done|]. intros ->.
    destruct Hid as [Hid|(b & es & key & Hsec & Hkey)]; [done|]. destruct Hmap as [Hmap|Hmap]; [congruence|].
    apply bsection_entries in Hsec as [-> _]. by apply (Hmap key).
Qed.

Lemma make_follows m last t c0 l (c : nat -> code bop unit) :
  brel m last -> at_code m t c0 l ->
  let id := fresh (dom (counts (m_data m))) in
  (forall id, bwpc (c id) (fun _ => boutside)
     {| b_lock := bsection (m_owner m) t (entries (m_data m)); b_refs := id :: l; b_last := last t |}) ->
  bfollows (goes_on m t ((m_data m) <| counts := <[id := 1%nat]> (counts (m_data m)) |>) (m_owner m) (c id) (id :: l)).
Proof.
  intros Hrel Ht id Hk. assert (counts (m_data m) !! id = None) as Hnew by (apply not_elem_of_dom, is_fresh).
  eexists. eapply (brel_move _ _ _ _ _ _ _ _ (last t)); [exact Hrel|exact Ht|by left|by apply (br_size _ _ Hrel)| | | | |apply Hk].
  - intros x. rewrite (pointers_goes_on _ _ _ _ _ _ _ _ _ Ht), <- (br_counts _ _ Hrel). unfold count_of. cbn.
    destruct (decide (id = x)) as [<-|Hne].
    + rewrite lookup_insert_eq, Hnew. lia.
    + rewrite lookup_insert_ne by done. lia.
  - intros x. cbn. destruct (decide (id = x)) as [<-|Hne]; [by rewrite lookup_insert_eq|].
    rewrite lookup_insert_ne by done. apply (br_pos _ _ Hrel).
  - intros x _ _ Hc _. cbn. rewrite lookup_insert_ne; [done|]. intros <-. congruence.
  - intros x Hx. pose proof (last_count _ _ _ _ Hrel Hx) as Hc. split.
    + cbn. rewrite lookup_insert_ne; [done|]. intros <-. congruence.
    + eapply last_stays; [exact Hrel|exact Ht|exact Hx|by right|by right|done].
Qed.

Lemma keep_follows m last t c0 l l' id (c : code bop unit) :
  brel m last -> at_code m t c0 l -> take_one id l = Some l' ->
  bwpc c (fun _ => boutside) {| b_lock := bsection (m_owner m) t (entries (m_data m)); b_refs := l'; b_last := None |} ->
  bfollows (goes_on m t ((m_data m) <| kept := id :: kept (m_data m) |>) (m_owner m) c l').
Proof.
  intros Hrel Ht Htake Hk.
  eexists. eapply (brel_move _ _ _ _ _ _ _ _ None); [exact Hrel|exact Ht|by left|by apply (br_size _ _ Hrel)| |by apply (br_pos _ _ Hrel)|done|done|exact Hk].
  intros x. rewrite (pointers_goes_on _ _ _ _ _ _ _ _ _ Ht), (occ_take_one _ _ _ x Htake), (br_counts _ _ Hrel). cbn. lia.
Qed.

Lemma take_follows m last t c0 l id ids (c : code bop unit) :
  brel m last -> at_code m t c0 l -> kept (m_data m) = id :: ids ->
  bwpc c (fun _ => boutside) {| b_lock := bsection (m_owner m) t (entries (m_data m)); b_refs := id :: l; b_last := None |} ->
  bfollows (goes_on m t ((m_data m) <| kept := ids |>) (m_owner m) c (id :: l)).
Proof.
  intros Hrel Ht Hkept Hk.
  eexists. eapply (brel_move _ _ _ _ _ _ _ _ None); [exact Hrel|exact Ht|by left|by apply (br_size _ _ Hrel)| |by apply (br_pos _ _ Hrel)|done|done|exact Hk].
  intros x. rewrite (pointers_goes_on _ _ _ _ _ _ _ _ _ Ht), (br_counts _ _ Hrel), Hkept. cbn. lia.
Qed.

(** A thread that's awake, and what's left of its function *)
Lemma brel_code m last t c l :
  brel m last -> at_code m t c l ->
  bwpc c (fun _ => boutside) {| b_lock := bsection (m_owner m) t (entries (m_data m)); b_refs := l; b_last := last t |}.
Proof. intros Hrel Ht. by apply (br_threads _ _ Hrel _ _ Ht). Qed.

Lemma brel_op m last t X (o : bop X) k l choice x d' l' :
  brel m last -> at_code m t (Do o k) l -> bexec X o choice (m_data m) l = Some (x, d', l') ->
  bfollows (goes_on m t d' (m_owner m) (k x) l').
Proof.
  intros Hrel Ht Hx. pose proof (brel_code _ _ _ _ _ Hrel Ht) as Hok.
  destruct o; cbn in Hx, Hok.
  - destruct Hok as (b & es & Hsec & Hk). apply bsection_entries in Hsec as [-> _]. injection Hx as <- <- <-. by eapply bfollows_stay.
  - destruct Hok as (b & es & Hsec & Hk). apply bsection_entries in Hsec as [-> _]. injection Hx as <- <- <-. by eapply bfollows_stay.
  - destruct Hok as (b & es & Hsec & Hk). apply bsection_entries in Hsec as [-> _]. injection Hx as <- <- <-. by eapply bfollows_stay.
  - destruct Hok as (es & Hsec & Hfree & Hroom & l2 & Htake & Hk). cbn in Htake. rewrite Htake in Hx. cbn in Hx.
    assert (mjoin (entries (m_data m) !! key) = None) as Hnull by (apply bsection_entries in Hsec as [<- _]; by rewrite Hfree).
    rewrite Hnull in Hx. injection Hx as <- <- <-. by eapply assign_follows.
  - destruct Hok as (es & p & Hsec & Hkey & Hk). pose proof Hsec as [Hes _]%bsection_entries. rewrite <- Hes, Hkey in Hx.
    injection Hx as <- <- <-. rewrite Hes. by eapply move_out_follows.
  - destruct Hok as (es & Hsec & Hkey & Hk). pose proof Hsec as [Hes _]%bsection_entries. rewrite <- Hes, Hkey in Hx.
    injection Hx as <- <- <-. rewrite Hes. by eapply erase_follows.
  - destruct Hok as (es & key & Hsec & Hkey & Hk). pose proof Hsec as [-> Howner]%bsection_entries.
    destruct (pointer_counted _ _ _ _ _ id Hrel Ht) as [n Hn]; [by do 2 right; exists key|].
    rewrite Hn in Hx. injection Hx as <- <- <-. specialize (Hk (S n) ltac:(lia)).
    destruct n as [|n]; [|by eapply bfollows_stay].
    eexists. eapply (brel_move _ _ _ _ _ _ _ _ (Some id)); [exact Hrel|exact Ht|by left|by apply (br_size _ _ Hrel)| |by apply (br_pos _ _ Hrel)|done| |exact Hk].
    + intros x. rewrite (pointers_goes_on _ _ _ _ _ _ _ _ _ Ht), (br_counts _ _ Hrel). lia.
    + intros x [= <-]. split; [done|]. right. split; [by apply Howner|]. by exists key.
  - destruct Hok as [Hid Hk]. destruct (copy_count id (counts (m_data m))) as [cs|] eqn:Hcs; [|done].
    injection Hx as <- <- <-. by eapply copy_follows.
  - destruct Hok as (l2 & Htake & Hk). cbn in Htake. rewrite Htake in Hx. cbn in Hx.
    destruct (release_count id (counts (m_data m))) as [cs|] eqn:Hcs; [|done]. injection Hx as <- <- <-.
    eexists. by eapply brel_release.
  - destruct Hok as (_ & _ & l2 & Htake & Hk). cbn in Htake. rewrite Htake in Hx. cbn in Hx.
    destruct (release_count id (counts (m_data m))) as [cs|] eqn:Hcs; [|done]. injection Hx as <- <- <-.
    eexists. by eapply brel_release.
  - destruct Hok as [Hid Hk]. destruct (counts (m_data m) !! id); [|done]. injection Hx as <- <- <-. by eapply bfollows_stay.
  - injection Hx as <- <- <-. by eapply make_follows.
  - injection Hx as <- <- <-. by eapply bfollows_stay.
  - destruct Hok as (l2 & Htake & Hk). cbn in Htake. rewrite Htake in Hx. injection Hx as <- <- <-. by eapply keep_follows.
  - destruct (kept (m_data m)) as [|id ids] eqn:Hkept; injection Hx as <- <- <-.
    + eapply bfollows_stay; [exact Hrel|exact Ht|apply (Hok None)].
    + eapply take_follows; [exact Hrel|exact Ht|exact Hkept|apply (Hok (Some id))].
Qed.

(** The mutex is taken, or given back *)
Lemma brel_owner m last t c0 l c o' :
  brel m last -> at_code m t c0 l ->
  (forall t' es, t' <> t -> bsection o' t' es = bsection (m_owner m) t' es) ->
  held_by (fun t => is_Some (m_threads m !! t)) o' ->
  ((forall t, o' <> Exclusive t) -> tidy (entries (m_data m))) ->
  (forall id, last t = Some id -> id ∈ l) ->
  bwpc c (fun _ => boutside) {| b_lock := bsection o' t (entries (m_data m)); b_refs := l; b_last := last t |} ->
  bfollows (goes_on m t (m_data m) o' c l).
Proof.
  intros Hrel Ht Hsec Hheld Htidy Hlast Hk. exists last.
  assert (forall id, pointers id (goes_on m t (m_data m) o' c l) = pointers id m) as Hp.
  { intros id. rewrite (pointers_goes_on _ _ _ _ _ _ _ _ _ Ht). lia. }
  split; [done|by apply held_by_goes_on|apply (br_size _ _ Hrel)|intros id; rewrite Hp; apply (br_counts _ _ Hrel)|apply (br_pos _ _ Hrel)| |].
  - intros t' id Hid. rewrite Hp. destruct (br_last _ _ Hrel _ _ Hid) as [Hone Hhas]. split; [done|].
    destruct (decide (t' = t)) as [->|Hne].
    + left. eexists. cbn. rewrite lookup_insert_eq. split; [done|]. by apply Hlast.
    + destruct Hhas as [(th & Hth & Hin)|[Howner Hkey]].
      * left. exists th. cbn. by rewrite lookup_insert_ne.
      * right. split; [|done]. specialize (Hsec t' (entries (m_data m)) Hne). rewrite Howner, bsection_exclusive in Hsec.
        by apply bsection_entries in Hsec as [_ Hex]; apply Hex.
  - intros t' th. cbn. destruct (decide (t' = t)) as [->|Hne].
    + rewrite lookup_insert_eq. by intros [= <-].
    + rewrite lookup_insert_ne by done. rewrite Hsec by done. apply (br_threads _ _ Hrel).
Qed.

Lemma share_held (P : nat -> Prop) t o o' : share t o = Some o' -> P t -> held_by P o -> held_by P o'.
Proof.
  destruct o as [|t0|ts]; cbn; [|done|]; intros [= <-] Ht; cbn.
  - intros _. split; [set_solver|]. by intros t' ->%elem_of_singleton.
  - intros [_ Hall]. split; [set_solver|]. intros t' [->%elem_of_singleton|Ht']%elem_of_union; [done|by apply Hall].
Qed.

Lemma unshare_held (P : nat -> Prop) t o o' : unshare t o = Some o' -> held_by P o -> held_by P o'.
Proof.
  destruct o as [|t0|ts]; cbn; [done|done|]. case_decide; [|done]. case_decide; intros [= <-]; cbn; [done|].
  intros [_ Hall]. split; [done|]. intros t' [Ht' _]%elem_of_difference. by apply Hall.
Qed.

Lemma share_section t o o' : share t o = Some o' -> bsection o t ∅ = None ->
  (forall t, o <> Exclusive t) /\ (forall t' es, t' <> t -> bsection o' t' es = bsection o t' es) /\
  forall es, bsection o' t es = Some (false, es).
Proof.
  destruct o as [|t0|ts]; cbn; [| done |]; intros [= <-] Hnone; (split; [done|]); cbn.
  - split; [intros t' es Hne; rewrite decide_False; [done|set_solver]|]. intros es. by rewrite decide_True by set_solver.
  - split; [intros t' es Hne; by rewrite (decide_ext (t' ∈ {[t]} ∪ ts) (t' ∈ ts)) by set_solver|].
    intros es. by rewrite decide_True by set_solver.
Qed.

Lemma unshare_section t o o' : unshare t o = Some o' ->
  (exists ts, o = Shared ts) /\ (forall t, o' <> Exclusive t) /\
  (forall t' es, t' <> t -> bsection o' t' es = bsection o t' es) /\ forall es, bsection o' t es = None.
Proof.
  destruct o as [|t0|ts]; cbn; [done|done|]. case_decide as Hin; [|done]. case_decide as Hlast; intros [= <-]; cbn;
    (split_and!; [by eexists|done|..]).
  - intros t' es Hne. rewrite decide_False; [done|]. intros Ht'. assert (t' ∈ ts ∖ {[t]}) as Hx by set_solver.
    rewrite Hlast in Hx. set_solver.
  - done.
  - intros t' es Hne. by rewrite (decide_ext (t' ∈ ts ∖ {[t]}) (t' ∈ ts)) by set_solver.
  - intros es. rewrite decide_False; [done|set_solver].
Qed.

Lemma brel_lock m last t k l :
  brel m last -> at_code m t (MutexLock k) l -> m_owner m = Unlocked ->
  bfollows (goes_on m t (m_data m) (Exclusive t) k l).
Proof.
  intros Hrel Ht Hfree. destruct (brel_code _ _ _ _ _ Hrel Ht) as (_ & Hlast & Hk). cbn in Hlast.
  assert (tidy (entries (m_data m))) as Htidy by (apply (br_tidy _ _ Hrel); intros t'; by rewrite Hfree).
  eapply brel_owner; [exact Hrel|exact Ht| | |done|by rewrite Hlast|rewrite bsection_exclusive; by apply Hk].
  - intros t' es Hne. rewrite Hfree. cbn. by rewrite decide_False.
  - by eexists.
Qed.

Lemma brel_unlock m last t k l :
  brel m last -> at_code m t (MutexUnlock k) l -> bfollows (goes_on m t (m_data m) Unlocked k l).
Proof.
  intros Hrel Ht. destruct (brel_code _ _ _ _ _ Hrel Ht) as ((es & Hsec & Htidy) & Hlast & Hk). cbn in Hsec, Hlast.
  apply bsection_entries in Hsec as [-> Howner]. specialize (Howner eq_refl).
  eapply brel_owner; [exact Hrel|exact Ht| |done|done|exact Hlast|exact Hk].
  intros t' es Hne. rewrite Howner. cbn. by rewrite decide_False.
Qed.

Lemma brel_lock_shared m last t k l o' :
  brel m last -> at_code m t (MutexLockShared k) l -> share t (m_owner m) = Some o' ->
  bfollows (goes_on m t (m_data m) o' k l).
Proof.
  intros Hrel Ht Hshare. destruct (brel_code _ _ _ _ _ Hrel Ht) as (Hsec & Hlast & Hk). cbn in Hsec, Hlast.
  destruct (share_section _ _ _ Hshare) as (Hno & Hothers & Hself).
  { destruct (m_owner m) as [|t'|ts]; [done|done|]. cbn in *. by case_decide. }
  assert (tidy (entries (m_data m))) as Htidy by by apply (br_tidy _ _ Hrel).
  eapply brel_owner; [exact Hrel|exact Ht|intros; by apply Hothers| |done|by rewrite Hlast|rewrite Hself; by apply Hk].
  eapply share_held; [exact Hshare|by eexists|apply (br_held _ _ Hrel)].
Qed.

Lemma brel_unlock_shared m last t k l o' :
  brel m last -> at_code m t (MutexUnlockShared k) l -> unshare t (m_owner m) = Some o' ->
  bfollows (goes_on m t (m_data m) o' k l).
Proof.
  intros Hrel Ht Hunshare. destruct (brel_code _ _ _ _ _ Hrel Ht) as (_ & Hlast & Hk). cbn in Hlast.
  destruct (unshare_section _ _ _ Hunshare) as ([ts Hts] & Hno & Hothers & Hself).
  eapply brel_owner; [exact Hrel|exact Ht|intros; by apply Hothers| | |by rewrite Hlast|by rewrite Hself].
  - eapply unshare_held; [exact Hunshare|apply (br_held _ _ Hrel)].
  - intros _. apply (br_tidy _ _ Hrel). intros t'. by rewrite Hts.
Qed.

Lemma brel_mstep m m' last : brel m last -> buffer_mstep m m' -> bfollows m'.
Proof.
  intros Hrel Hstep. destruct Hstep as [t m m' Hruns|m t l c l' Hcode Hcall|m t k l Hsleep].
  - destruct Hruns as [m X o k l ch x d' l' Ht Hx|m cond body k l Ht|m k l Ht Ho|m k l Ht Ho|m k l o' Ht Ho|m k l o' Ht Ho
      |m k l Ht Ho|m k l Ht Ho|m k l w kw lw Ht Hw|m k l Ht Hno|m k l Ht].
    + by eapply brel_op.
    + eapply bfollows_stay; [exact Hrel|exact Ht|].
      apply wpc_unfold_while; [apply bop_rule_mono|apply buffer_rules_mono|by eapply brel_code].
    + by eapply brel_lock.
    + by eapply brel_unlock.
    + by eapply brel_lock_shared.
    + by eapply brel_unlock_shared.
    + by destruct (brel_code _ _ _ _ _ Hrel Ht).
    + by destruct (br_threads _ _ Hrel _ _ Ht) as [[=] _].
    + by destruct (brel_code _ _ _ _ _ Hrel Ht).
    + by destruct (brel_code _ _ _ _ _ Hrel Ht).
    + by destruct (brel_code _ _ _ _ _ Hrel Ht).
  - destruct (brel_code _ _ _ _ _ Hrel Hcode) as [Hsec Hlast]. cbn in Hsec, Hlast.
    destruct (buffer_calls_ok _ _ _ Hcall) as [-> Hk].
    eapply bfollows_stay; [exact Hrel|exact Hcode|]. by rewrite Hsec, Hlast.
  - destruct (br_threads _ _ Hrel _ _ Hsleep) as [[=] _].
Qed.

Lemma new_buffers_brel m : new_buffers m -> bfollows m.
Proof.
  intros (Hd & Ho & Hths). exists (fun _ => None).
  assert (forall id, pointers id m = 0) as Hp.
  { intros id. unfold pointers. rewrite Hd, msum_zero; [done|]. intros t th Ht. by destruct (Hths _ _ Ht) as (_ & _ & ->). }
  split; [by rewrite Hd; intros _ key p|by rewrite Ho|by rewrite Hd|intros id; by rewrite Hp, Hd|intros id; by rewrite Hd|done|].
  intros t th Ht. destruct (Hths _ _ Ht) as (-> & -> & ->). split; [done|]. rewrite Ho. by split.
Qed.

Lemma buffers_brel m : buffers_reachable m -> bfollows m.
Proof.
  intros (m0 & Hnew & Hsteps). apply new_buffers_brel in Hnew.
  induction Hsteps as [m|m m1 m2 Hstep _ IH]; [done|]. apply IH. destruct Hnew as [last Hrel]. by eapply brel_mstep.
Qed.

(** *** What can be done next *)

Lemma take_one_elem id l l' : take_one id l = Some l' -> id ∈ l.
Proof. intros Ht. apply occ_in. rewrite (occ_take_one _ _ _ id Ht), decide_True by done. pose proof (occ_nonneg id l'). lia. Qed.

Lemma bexec_defined m last t X (o : bop X) k l choice :
  brel m last -> at_code m t (Do o k) l -> is_Some (bexec X o choice (m_data m) l).
Proof.
  intros Hrel Ht. pose proof (brel_code _ _ _ _ _ Hrel Ht) as Hok.
  assert (forall id l', take_one id l = Some l' -> is_Some (release_count id (counts (m_data m)))) as Hrelease.
  { intros id l' Htake. destruct (pointer_counted _ _ _ _ _ id Hrel Ht) as [n Hn]; [left; by eapply take_one_elem|].
    unfold release_count. rewrite Hn. destruct n; by eexists. }
  destruct o; cbn in Hok |- *; try by eexists.
  - destruct Hok as (es & Hsec & Hfree & _ & l2 & Htake & _). cbn in Htake. rewrite Htake.
    apply bsection_entries in Hsec as [-> _]. rewrite Hfree. by eexists.
  - destruct Hok as (es & p & Hsec & Hkey & _). apply bsection_entries in Hsec as [-> _]. rewrite Hkey. by eexists.
  - destruct Hok as (es & Hsec & Hkey & _). apply bsection_entries in Hsec as [-> _]. rewrite Hkey. by eexists.
  - destruct Hok as (es & key & Hsec & Hkey & _). apply bsection_entries in Hsec as [-> _].
    destruct (pointer_counted _ _ _ _ _ id Hrel Ht) as [n ->]; [by do 2 right; exists key|]. by eexists.
  - destruct Hok as [Hid _]. unfold copy_count. destruct (pointer_counted _ _ _ _ _ id Hrel Ht) as [n ->]; [|by eexists].
    destruct Hid as [Hid|(b & es & key & Hsec & Hkey)]; [by left|]. apply bsection_entries in Hsec as [-> _].
    by do 2 right; exists key.
  - destruct Hok as (l2 & Htake & _). cbn in Htake. rewrite Htake. destruct (Hrelease _ _ Htake) as [cs Hcs]. cbn. rewrite Hcs. by eexists.
  - destruct Hok as (_ & _ & l2 & Htake & _). cbn in Htake. rewrite Htake. destruct (Hrelease _ _ Htake) as [cs Hcs]. cbn. rewrite Hcs. by eexists.
  - destruct Hok as [Hid _]. destruct (pointer_counted _ _ _ _ _ id Hrel Ht) as [n ->]; [by left|]. by eexists.
  - destruct Hok as (l2 & Htake & _). cbn in Htake. rewrite Htake. by eexists.
  - case_match; by eexists.
Qed.

Lemma bcan_run m last t c l :
  brel m last -> at_code m t c l -> c <> Return tt -> (forall k, c = MutexLock k -> m_owner m = Unlocked) ->
  (forall k, c = MutexLockShared k -> is_Some (share t (m_owner m))) ->
  exists m', runs bexec t m m'.
Proof.
  intros Hrel Ht Hret Hlock Hshare. pose proof (brel_code _ _ _ _ _ Hrel Ht) as Hok.
  destruct c as [[]|X o k|cond body k|k|k|k|k|k|k|k]; [done|..|done|done|done].
  - destruct (bexec_defined _ _ _ _ _ _ _ true Hrel Ht) as [[[x d'] l'] Hx]. eexists. by eapply runs_op.
  - eexists. by eapply runs_while.
  - eexists. eapply runs_lock; [done|by eapply Hlock].
  - destruct Hok as ((es & Hsec & _) & _). cbn in Hsec. apply bsection_entries in Hsec as [_ Howner].
    eexists. eapply runs_unlock; [done|by apply Howner].
  - destruct (Hshare k eq_refl) as [o' Ho']. eexists. by eapply runs_lock_shared.
  - destruct Hok as ([es Hsec] & _). cbn in Hsec. destruct (unshare t (m_owner m)) as [o'|] eqn:Ho'.
    + eexists. by eapply runs_unlock_shared.
    + destruct (m_owner m) as [|t'|ts]; cbn in Hsec, Ho'; [done|by case_decide|]. case_decide; [|done]. by case_decide.
Qed.

(** Whoever has the mutex can go on *)
Lemma holder_runs m last t : brel m last -> is_Some (m_threads m !! t) ->
  (exists x es, bsection (m_owner m) t (entries (m_data m)) = Some (x, es)) -> exists m', runs bexec t m m'.
Proof.
  intros Hrel [[c a l] Ht] (x & es & Hsec). destruct (br_threads _ _ Hrel _ _ Ht) as [Hawake Hok]. cbn in Hawake, Hok. subst a.
  rewrite Hsec in Hok. eapply bcan_run; [exact Hrel|exact Ht| | |].
  - intros ->. by destruct Hok.
  - intros k ->. by destruct Hok.
  - intros k ->. by destruct Hok.
Qed.

Lemma in_function_runs m last t c l : brel m last -> at_code m t c l -> c <> Return tt -> exists t' m', runs bexec t' m m'.
Proof.
  intros Hrel Ht Hret. pose proof (br_held _ _ Hrel) as Hheld. destruct (m_owner m) as [|t'|ts] eqn:Ho; cbn in Hheld.
  - exists t. eapply bcan_run; [exact Hrel|exact Ht|exact Hret|done|]. intros k _. rewrite Ho. by eexists.
  - exists t'. eapply holder_runs; [exact Hrel|done|]. exists true, (entries (m_data m)). rewrite Ho. apply bsection_exclusive.
  - destruct Hheld as [Hne Hall]. apply set_choose_L in Hne as [t' Ht']. exists t'.
    eapply holder_runs; [exact Hrel|by apply Hall|]. exists false, (entries (m_data m)). rewrite Ho. cbn. by rewrite decide_True.
Qed.

(** *** A machine to try things in: thread 0 has found an entry and uses it,
    and thread 1 finds it busy; then thread 0 lets go, and thread 1 is about
    to destroy it *)
Definition idle_thread : buffer_thread := {| t_code := Return tt; t_wakes := Awake; t_local := [] |}.
Definition no_entries : buffer_machine :=
  {| m_data := {| entries := ∅; counts := ∅; kept := [] |}; m_owner := Unlocked;
     m_threads := {[ 0%nat := idle_thread; 1%nat := idle_thread ]} |}.

Definition begins (t : nat) (c : code bop unit) (l : list nat) (m : buffer_machine) : buffer_machine :=
  goes_on m t (m_data m) (m_owner m) c l.
Definition run_buffers (ts : list nat) (m : buffer_machine) : buffer_machine := turns bexec true ts m.

Definition one_entry : buffer_machine :=
  run_buffers (replicate 20 0%nat) (begins 0 (_ ← register_code 4096 16; mret tt) [] no_entries).
Definition found_entry : buffer_machine :=
  run_buffers (replicate 20 0%nat) (begins 0 (_ ← find_code 4096; mret tt) [] one_entry).
Definition busy_entry : buffer_machine :=
  begins 0 (stmt (use_entry 0)) [0%nat] (run_buffers (replicate 20 1%nat) (begins 1 (_ ← deregister_code 4096; mret tt) [] found_entry)).
Definition removed_entry : buffer_machine :=
  run_buffers (replicate 6 1%nat) (begins 1 (_ ← deregister_code 4096; mret tt) [] one_entry).

Lemma begins_step t c l l' m : at_code m t (Return tt) l -> buffer_calls l c l' -> buffer_mstep m (begins t c l' m).
Proof. intros Hcode Hcall. by eapply mstep_call. Qed.

Lemma buffers_more m m' : buffers_reachable m -> rtc buffer_mstep m m' -> buffers_reachable m'.
Proof. intros (m0 & Hnew & Hm) Hm'. exists m0. split; [done|]. by etransitivity. Qed.

Lemma call_and_run m t c l ts :
  buffers_reachable m -> at_code m t (Return tt) l -> buffer_calls l c l ->
  buffers_reachable (run_buffers ts (begins t c l m)).
Proof.
  intros Hm Ht Hcall. eapply buffers_more; [exact Hm|]. eapply rtc_l; [by eapply begins_step|]. apply turns_mstep.
Qed.

Lemma one_entry_reachable : buffers_reachable one_entry.
Proof.
  apply call_and_run; [|done|apply call_register]. exists no_entries. split; [|done]. split_and!; [done|done|].
  intros t th Ht. cbn in Ht. apply lookup_insert_Some in Ht as [[_ <-]|[_ [_ <-]%lookup_singleton_Some]]; by split_and!.
Qed.

Lemma found_entry_reachable : buffers_reachable found_entry.
Proof. apply call_and_run; [apply one_entry_reachable|by vm_compute|apply call_find]. Qed.

Lemma busy_entry_reachable : buffers_reachable busy_entry.
Proof.
  eapply buffers_more; [eapply (call_and_run found_entry 1); [apply found_entry_reachable|by vm_compute|apply call_deregister]|].
  apply rtc_once, begins_step with (l := [0%nat]); [by vm_compute|]. apply call_use. left.
Qed.

Lemma removed_entry_reachable : buffers_reachable removed_entry.
Proof. apply call_and_run; [apply one_entry_reachable|by vm_compute|apply call_deregister]. Qed.

(** ** Properties *)

(** C24: no entry is used once it's been destroyed, and the map is only used
    under its lock: whatever the threads have done, statement by statement,
    every next statement is defined (the entry it uses, whose pointer it
    copies, or whose count it reads is still there); it only reads the map
    with the mutex, and only changes it with the mutex to itself, so no other
    thread is about to use the map; and the map never has more than 256
    entries, though room for one is first looked for before the memory is
    registered. *)
Theorem buffer_statements_safe (m : buffer_machine) (Hm : buffers_reachable m) (t : nat) (X : Type) (o : bop X)
    (k : X -> code bop unit) (l : list nat) (Hcode : at_code m t (Do o k) l) :
  Z.of_nat (size (entries (m_data m))) <= kMaxEntries /\
  (forall registered, is_Some (bexec X o registered (m_data m) l)) /\
  (reads_map o = true -> m_owner m = Exclusive t \/ exists ts, m_owner m = Shared ts /\ t ∈ ts) /\
  (writes_map o = true -> m_owner m = Exclusive t /\
     forall t' (X' : Type) (o' : bop X') k' l', at_code m t' (Do o' k') l' -> reads_map o' = true -> t' = t).
Proof.
  destruct (buffers_brel m Hm) as [last Hrel].
  assert (forall t (X : Type) (o : bop X) k l, at_code m t (Do o k) l -> reads_map o = true ->
    exists x, bsection (m_owner m) t (entries (m_data m)) = Some (x, entries (m_data m)) /\ (writes_map o = true -> x = true)) as Huse.
  { intros u Y o' k' l' Hu Hr. pose proof (brel_code _ _ _ _ _ Hrel Hu) as Hok.
    destruct o'; cbn in Hok, Hr; try done; take_all;
      match goal with H : bsection _ _ _ = Some (?x, _) |- _ => exists x; pose proof (bsection_entries _ _ _ _ _ H) as [-> _]; done end. }
  assert (forall t x es, bsection (m_owner m) t es = Some (x, es) ->
    m_owner m = Exclusive t /\ x = true \/ exists ts, m_owner m = Shared ts /\ t ∈ ts /\ x = false) as Hsec.
  { intros u x es. destruct (m_owner m) as [|u'|ts]; cbn; [done| |]; case_decide; try done; intros [= <-].
    - left. by subst.
    - right. by exists ts. }
  split_and!; [by apply (br_size _ _ Hrel)|intros r; by eapply bexec_defined| |].
  - intros Hr. destruct (Huse _ _ _ _ _ Hcode Hr) as (x & Hx & _).
    destruct (Hsec _ _ _ Hx) as [[? _]|(ts & ? & ? & _)]; [by left|right; by exists ts].
  - intros Hw. assert (reads_map o = true) as Hr by by destruct o.
    destruct (Huse _ _ _ _ _ Hcode Hr) as (x & Hx & Hxt). specialize (Hxt Hw). subst x.
    destruct (Hsec _ _ _ Hx) as [[Howner _]|(ts & _ & _ & ?)]; [|done]. split; [done|].
    intros t' X' o' k' l' Hcode' Hr'. destruct (Huse _ _ _ _ _ Hcode' Hr') as (x' & Hx' & _).
    rewrite Howner in Hx'. cbn in Hx'. by case_decide.
Qed.

Lemma buffer_statements_safe_witness :
  at_code busy_entry 0 (Do (use_entry 0) Return) [0%nat] /\
  Z.of_nat (size (entries (m_data busy_entry))) <= kMaxEntries /\
  (forall registered, is_Some (bexec unit (use_entry 0) registered (m_data busy_entry) [0%nat])).
Proof.
  assert (at_code busy_entry 0 (Do (use_entry 0) Return) [0%nat]) as Hcode by by vm_compute.
  split; [exact Hcode|].
  destruct (buffer_statements_safe busy_entry busy_entry_reachable 0 _ _ _ _ Hcode) as (H1 & H2 & _). by split.
Defined.

(** C25: [deregisterBuffer()] destroys what it removes, and nothing else uses
    it: when a thread is about to reset the pointer that it has taken out of
    the map, that's the only pointer to the entry, though other threads could
    find entries until then, and copy and release pointers without a lock. So
    when it has returned [Deregistered], the memory region is deregistered,
    and any staging buffer freed. *)
Theorem deregistered_entry_is_unused (m : buffer_machine) (Hm : buffers_reachable m) (t id : nat)
    (k : unit -> code bop unit) (l : list nat) (Hcode : at_code m t (Do (entry_reset id) k) l) :
  pointers id m = 1 /\ counts (m_data m) !! id = Some 1%nat /\ (id ∈ l) /\ (id ∉ kept (m_data m)) /\
  (forall key, entries (m_data m) !! key <> Some (Some id)) /\
  (forall t' th, m_threads m !! t' = Some th -> id ∈ t_local th -> t' = t) /\
  exists d l', bexec unit (entry_reset id) true (m_data m) l = Some (tt, d, l') /\ counts d !! id = None.
Proof.
  destruct (buffers_brel m Hm) as [last Hrel]. pose proof (brel_code _ _ _ _ _ Hrel Hcode) as (Hlast & Hsec & l' & Htake & _).
  cbn in Hlast, Hsec, Htake. pose proof (last_count _ _ _ _ Hrel Hlast) as Hc.
  pose proof (take_one_elem _ _ _ Htake) as Hin. destruct (br_last _ _ Hrel _ _ Hlast) as [Hone _]. split_and!; [done..| | | |].
  1-3: unfold pointers in Hone; rewrite (msum_delete _ _ _ _ Hcode) in Hone;
    cbn in Hone; apply occ_in in Hin; pose proof (occ_nonneg id (kept (m_data m)));
    pose proof (occ_map_nonneg id (entries (m_data m))); pose proof (threads_occ_nonneg id (delete t (m_threads m))).
  - rewrite occ_in. lia.
  - intros key Hkey. apply occ_map_in in Hkey. lia.
  - intros t' th Hth Hin'. destruct (decide (t' = t)) as [|Hne]; [done|]. rewrite <- (lookup_delete_ne _ t t') in Hth by done.
    rewrite (msum_delete _ _ _ _ Hth) in Hone. apply occ_in in Hin'.
    pose proof (threads_occ_nonneg id (delete t' (delete t (m_threads m)))). lia.
  - cbn. rewrite Htake. unfold release_count. rewrite Hc. cbn. do 2 eexists. split; [done|]. cbn. by rewrite lookup_delete_eq.
Qed.

Lemma deregistered_entry_is_unused_witness :
  let k := fun _ : unit => Return tt in
  at_code removed_entry 1 (Do (entry_reset 0) k) [0%nat] /\ counts (m_data removed_entry) !! 0%nat = Some 1%nat /\
  (forall t' th, m_threads removed_entry !! t' = Some th -> 0%nat ∈ t_local th -> t' = 1%nat).
Proof.
  intros k. assert (at_code removed_entry 1 (Do (entry_reset 0) k) [0%nat]) as Hcode by by vm_compute.
  split; [exact Hcode|].
  destruct (deregistered_entry_is_unused removed_entry removed_entry_reachable 1 0 _ _ Hcode) as (_ & H1 & _ & _ & _ & H2 & _).
  by split.
Defined.

(** The map's functions never get stuck: while a thread is in one of them,
    some thread's next statement can be taken. *)
Theorem buffer_statements_go_on (m : buffer_machine) (Hm : buffers_reachable m) (t : nat) (c : code bop unit) (l : list nat)
    (Hcode : at_code m t c l) (Hcall : c <> Return tt) :
  exists t' m', runs bexec t' m m'.
Proof. destruct (buffers_brel m Hm) as [last Hrel]. by eapply in_function_runs. Qed.

Lemma buffer_statements_go_on_witness :
  (Do (entry_reset 0) (fun _ : unit => Return tt) : code bop unit) <> Return tt /\ exists t' m', runs bexec t' removed_entry m'.
Proof.
  split; [done|].
  apply (buffer_statements_go_on removed_entry removed_entry_reachable 1 (Do (entry_reset 0) (fun _ : unit => Return tt)) [0%nat]);
    [by vm_compute|done].
Defined.
