(* ===== verification/Abandoned.v ===== *)
(** * Abandoned staging copies ([src/abandoned-copies.h],
    [src/abandoned-copies.cpp])

    The staging copies that timed out: each holds a reference to the
    registration whose staging buffer the copy may still use, and the event
    that tracks it, until the event says that the copy is over. *)

From stdpp Require Import base numbers list gmap relations.
From S2P Require Import Prelude.
From S2P Require Import IbvCore.
From S2P Require Import World.
From S2P Require Import Transport.
From S2P Require Import Buffer.

(** ** Definitions *)

(** [entry] is a reference; the event is null once its ownership is dropped *)
Record Copy := { copy_entry : nat; copy_done : Z }.

(** [capacity_] is the vector's capacity *)
Record AbandonedCopies := { copies_ : list Copy; capacity_ : Z; reserved_ : Z }.

#[export] Instance eta_AbandonedCopies : Eta AbandonedCopies := fun r =>
  {| copies_ := copies_ r; capacity_ := capacity_ r; reserved_ := reserved_ r |}.

Definition new_AbandonedCopies : AbandonedCopies :=
  {| copies_ := []; capacity_ := 0; reserved_ := 0 |}.

Definition copies_size (a : AbandonedCopies) : Z := Z.of_nat (List.length (copies_ a)).

Definition isOver `{World} (c : Copy) : W bool :=
  q ← perform (eventQuery (copy_done c));
  mret (negb (q =? hipErrorNotReady)).

(** A [Slot] is whether it still has room to give back *)
Definition reserve (a : AbandonedCopies) : AbandonedCopies :=
  let needed := copies_size a + reserved_ a + 1 in
  let a :=
    if capacity_ a <? needed
    then a <| capacity_ := Z.max needed (capacity_ a + capacity_ a / 2) |> else a in
  a <| reserved_ := reserved_ a + 1 |>.

(** [~Slot()], of a slot that [add()] didn't use *)
Definition unreserve (a : AbandonedCopies) : AbandonedCopies :=
  a <| reserved_ := reserved_ a - 1 |>.

(** Whether [push_back()] moves the vector's elements to a new allocation *)
Definition push_reallocates (a : AbandonedCopies) : bool := capacity_ a <=? copies_size a.

(** [add()]: the reference and the event are moved into the list *)
Definition add (entry : nat) (done : Z) (a : AbandonedCopies) : AbandonedCopies :=
  let capacity := if push_reallocates a then Z.max 1 (2 * capacity_ a) else capacity_ a in
  {| copies_ := copies_ a ++ [{| copy_entry := entry; copy_done := done |}];
     capacity_ := capacity; reserved_ := reserved_ a - 1 |}.

(** [release()]'s loop: the copies that are over, those that stay, and
    whether any of those that were asked about is still running *)
Fixpoint release_loop `{World} (entry : option nat) (copies : list Copy)
    : W (list Copy * list Copy * bool) :=
  match copies with
  | [] => mret ([], [], false)
  | c :: copies' =>
      if bool_decide (is_Some entry) && negb (bool_decide (entry = Some (copy_entry c))) then
        '(over, stay, running) ← release_loop entry copies';
        mret (over, c :: stay, running)
      else
        o ← isOver c;
        '(over, stay, running) ← release_loop entry copies';
        if o : bool then mret (c :: over, stay, running) else mret (over, c :: stay, true)
  end.

(** [~Copy()]: the event is destroyed, and then the reference dropped *)
Definition destroy_Copy `{World} (c : Copy) : HM unit :=
  _ ← calls (HipEventDeleter (copy_done c)); drop_ref (copy_entry c).

Fixpoint destroy_copies `{World} (copies : list Copy) : HM unit :=
  match copies with
  | [] => mret tt
  | c :: copies' => _ ← destroy_Copy c; destroy_copies copies'
  end.

Definition release_copies `{World} (entry : option nat) (a : AbandonedCopies)
    : HM (bool * AbandonedCopies) :=
  '(over, stay, running) ← calls (release_loop entry (copies_ a));
  _ ← destroy_copies over;
  mret (running, a <| copies_ := stay |>).

Definition reclaim `{World} (a : AbandonedCopies) : HM AbandonedCopies :=
  '(_, a) ← release_copies None a; mret a.

Definition running `{World} (entry : nat) (a : AbandonedCopies) : HM (bool * AbandonedCopies) :=
  release_copies (Some entry) a.

(** [~AbandonedCopies()]'s loop: a copy that isn't over marks its entry, and
    gives up its event; how many there were *)
Fixpoint leak_loop `{World} (copies : list Copy) : HM (list Copy * Z) :=
  match copies with
  | [] => mret ([], 0)
  | c :: copies' =>
      o ← calls (isOver c);
      if o : bool then
        '(cs, leaked) ← leak_loop copies'; mret (c :: cs, leaked)
      else
        '(e, n) ← read_entry (copy_entry c);
        _ ← write_entry (copy_entry c) (e <| leakHostBuf := true |>, n);
        _ ← dropOwnership (h_event (copy_done c));
        '(cs, leaked) ← leak_loop copies';
        mret ({| copy_entry := copy_entry c; copy_done := 0 |} :: cs, leaked + 1)
  end.

Definition destroy_AbandonedCopies `{World} (a : AbandonedCopies) : HM unit :=
  '(copies, leaked) ← leak_loop (copies_ a);
  _ ← (if negb (leaked =? 0) then calls (perform (print_stderr (StagingLeaked leaked))) else mret tt);
  destroy_copies copies.

(** What the list owns, and the references it holds *)
Definition own_copies (cs : list Copy) : list handle := flat_map (fun c => h_event (copy_done c)) cs.
Definition copy_refs (id : nat) (cs : list Copy) : Z := cnt id (copy_entry <$> cs).

(** The list's promise: room for the copies and the slots set aside *)
Definition roomy (a : AbandonedCopies) : Prop :=
  0 <= reserved_ a /\ copies_size a + reserved_ a <= capacity_ a.

(** What the library does to a list, in any order: a slot is given back or
    used only while it's set aside, and a release keeps some of the copies *)
Inductive list_step : AbandonedCopies -> AbandonedCopies -> Prop :=
| list_reserve a : list_step a (reserve a)
| list_unreserve a : 0 < reserved_ a -> list_step a (unreserve a)
| list_add a entry done : 0 < reserved_ a -> list_step a (add entry done a)
| list_release a stay : stay `sublist_of` copies_ a -> list_step a (a <| copies_ := stay |>).

(** ** Lemmas *)

Lemma own_copies_cons h c cs :
  cnt h (own_copies (c :: cs)) = cnt h (h_event (copy_done c)) + cnt h (own_copies cs).
Proof. apply cnt_app. Qed.

Lemma copy_refs_cons id c cs : copy_refs id (c :: cs) = at_ref (copy_entry c) id + copy_refs id cs.
Proof. done. Qed.

Lemma roomy_new : roomy new_AbandonedCopies.
Proof. done. Qed.

Lemma roomy_reserve a : roomy a -> roomy (reserve a).
Proof.
  unfold roomy, reserve, copies_size. intros [H1 H2].
  destruct (Z.ltb_spec (capacity_ a) (Z.of_nat (List.length (copies_ a)) + reserved_ a + 1)); simpl; lia.
Qed.

Lemma roomy_unreserve a : roomy a -> 0 < reserved_ a -> roomy (unreserve a).
Proof. unfold roomy, unreserve, copies_size. simpl. lia. Qed.

Lemma roomy_add entry done a :
  roomy a -> 0 < reserved_ a -> push_reallocates a = false /\ roomy (add entry done a).
Proof.
  unfold roomy, add, push_reallocates, copies_size. intros [H1 H2] Hr.
  destruct (Z.leb_spec (capacity_ a) (Z.of_nat (List.length (copies_ a)))); [lia|].
  split; [done|]. simpl. rewrite length_app. simpl. lia.
Qed.

Section abandoned.
Context `{E : World} (bad : stop -> Prop).

Lemma isOver_neutral c : neutral bad (isOver c).
Proof. intros t. unfold isOver. wrun. bal_solve. Qed.

(** The copies are split between those that are over and those that stay *)
Definition split_of (entry : option nat) (cs over stay : list Copy) (run : bool) : Prop :=
  (forall h, cnt h (own_copies cs) = cnt h (own_copies over) + cnt h (own_copies stay)) /\
  (forall id, copy_refs id cs = copy_refs id over + copy_refs id stay) /\
  (List.length stay <= List.length cs)%nat /\
  (forall id, entry = Some id -> run = false -> copy_refs id stay = 0) /\
  (run = true -> exists c, c ∈ stay /\ (forall id, entry = Some id -> copy_entry c = id)).

Lemma release_loop_spec entry cs t :
  wp bad (release_loop entry cs) (fun r t' =>
    (forall h, bal h t' = bal h t) /\
    split_of entry cs (fst (fst r)) (snd (fst r)) (snd r)) t.
Proof.
  revert t. induction cs as [|c cs IH]; intros t; cbn [release_loop].
  { wstep. split; [done|]. by split_and!. }
  wstep.
  - wstep. eapply wp_mono; [apply IH|]. cbv beta. intros [[over stay] run] t1 [Hb Hs].
    wstep. split; [done|]. cbn [fst snd] in *. destruct Hs as (H1 & H2 & H3 & H4 & H5). split_and!.
    + intros h. rewrite !own_copies_cons, H1. lia.
    + intros id. rewrite !copy_refs_cons, H2. lia.
    + simpl. lia.
    + intros id Hid Hr. rewrite copy_refs_cons, H4 by done. bools. subst.
      unfold at_ref. case_decide; [congruence|lia].
    + intros Hr. destruct (H5 Hr) as (d & Hd & Hde). exists d. split; [by right|done].
  - wstep. eapply wp_neutral; [apply isOver_neutral|]. intros o t1 Ho.
    wstep. eapply wp_mono; [apply IH|]. cbv beta. intros [[over stay] run] t2 [Hb Hs].
    cbn [fst snd] in *. destruct Hs as (H1 & H2 & H3 & H4 & H5).
    wstep; wstep; (split; [intros h; by rewrite Hb, Ho|]); split_and!.
    + intros h. rewrite !own_copies_cons, H1. lia.
    + intros id. rewrite !copy_refs_cons, H2. lia.
    + simpl. lia.
    + done.
    + done.
    + intros h. rewrite !own_copies_cons, H1. lia.
    + intros id. rewrite !copy_refs_cons, H2. lia.
    + simpl. lia.
    + done.
    + intros _. exists c. split; [by left|]. intros id ->. cbn in Heqb.
      case_bool_decide; by simplify_eq.
Qed.

Lemma wp_destroy_copies cs Q m :
  mem_ok m -> (forall id, copy_refs id cs <= refs id m) ->
  (forall m', mem_step (fun id => - copy_refs id cs) (fun h => - cnt h (own_copies cs)) m m' ->
     Q tt m') ->
  wp bad (destroy_copies cs) Q m.
Proof.
  revert m. induction cs as [|c cs IH]; intros m Hok Hr HQ; cbn [destroy_copies].
  - apply wp_ret, HQ. eapply mem_step_ext; [by apply mem_step_refl|done|done].
  - assert (forall id, copy_refs id (c :: cs) = at_ref (copy_entry c) id + copy_refs id cs) as Hcr
      by done.
    assert (0 <= copy_refs (copy_entry c) cs) by (apply cnt_nonneg).
    pose proof (Hr (copy_entry c)) as Hc. rewrite Hcr in Hc. unfold at_ref in Hc.
    rewrite decide_True in Hc by done.
    unfold destroy_Copy. apply wp_bind, wp_bind.
    eapply (wp_calls _ _ _ _ (fun _ h => - cnt h (h_event (copy_done c)))); [|done|].
    { intros t. apply wp_HipEventDeleter. intros t' Ht h. rewrite Ht. lia. }
    intros _ m1 S1 _. assert (forall id, refs id m1 = refs id m) as Hsame.
    { intros id. destruct S1 as [_ S1 _ _ _]. rewrite S1. unfold none. lia. }
    apply wp_drop_ref; [apply S1|rewrite Hsame; lia|]. intros m2 S2.
    apply IH; [apply S2| |].
    + intros id. destruct S2 as [_ S2 _ _ _]. rewrite S2, Hsame. specialize (Hr id).
      rewrite Hcr in Hr. lia.
    + intros m3 S3. apply HQ. step_done; [rewrite Hcr; lia|].
      rewrite own_copies_cons. lia.
Qed.

(** Taking the copies that are over off the list *)
Lemma wp_release_loop entry cs Q m :
  mem_ok m ->
  (forall over stay run m', split_of entry cs over stay run -> mem_step none none m m' -> Q (over, stay, run) m') ->
  wp bad (calls (release_loop entry cs)) Q m.
Proof.
  intros Hok HQ. unfold calls. apply wp_zoom. eapply wp_mono; [apply release_loop_spec|]. cbv beta.
  intros [[over stay] run] t [Hb Hs]. apply HQ; [exact Hs|]. split; simpl.
  - by destruct Hok; split.
  - intros id. unfold refs, none. simpl. lia.
  - intros h. rewrite unowned_calls, Hb. unfold none. lia.
  - done.
  - intros id e n _ He. by exists e, n.
Qed.

Lemma wp_release_copies entry a Q m :
  mem_ok m -> (forall id, copy_refs id (copies_ a) <= refs id m) ->
  (forall r a' m',
     mem_step (fun id => copy_refs id (copies_ a') - copy_refs id (copies_ a))
              (fun h => cnt h (own_copies (copies_ a')) - cnt h (own_copies (copies_ a))) m m' ->
     capacity_ a' = capacity_ a -> reserved_ a' = reserved_ a -> copies_size a' <= copies_size a ->
     (forall id, entry = Some id -> r = false -> copy_refs id (copies_ a') = 0) ->
     (r = true -> exists c, c ∈ copies_ a' /\ (forall id, entry = Some id -> copy_entry c = id)) ->
     Q (r, a') m') ->
  wp bad (release_copies entry a) Q m.
Proof.
  intros Hok Hr HQ. unfold release_copies. apply wp_bind, wp_release_loop; [done|].
  intros over stay run m1 (H1 & H2 & H3 & H4 & H5) S1.
  apply wp_bind, wp_destroy_copies; [apply S1| |].
  { intros id. destruct S1 as [_ S1 _ _ _]. rewrite S1. specialize (Hr id). rewrite H2 in Hr.
    pose proof (cnt_nonneg id (copy_entry <$> stay)). unfold none, copy_refs in *. lia. }
  intros m2 S2. apply wp_ret. apply HQ; try done.
  - step_done; simpl; [rewrite H2; lia|rewrite H1; lia].
  - unfold copies_size. simpl. lia.
Qed.

Lemma wp_leak_loop cs Q m :
  mem_ok m -> (forall id, copy_refs id cs <= refs id m) ->
  (forall cs' leaked m',
     mem_step none (fun h => cnt h (own_copies cs') - cnt h (own_copies cs)) m m' ->
     copy_entry <$> cs' = copy_entry <$> cs -> Q (cs', leaked) m') ->
  wp bad (leak_loop cs) Q m.
Proof.
  revert Q m. induction cs as [|c cs IH]; intros Q m Hok Hr HQ; cbn [leak_loop].
  - apply wp_ret, HQ; [|done]. eapply mem_step_ext; [by apply mem_step_refl|done|].
    intros h. cbv beta. unfold none. lia.
  - assert (forall id, copy_refs id (c :: cs) = at_ref (copy_entry c) id + copy_refs id cs) as Hcr
      by done.
    assert (0 <= copy_refs (copy_entry c) cs) by (apply cnt_nonneg).
    pose proof (Hr (copy_entry c)) as Hc. rewrite Hcr in Hc. unfold at_ref in Hc.
    rewrite decide_True in Hc by done.
    assert (forall id m1, mem_step none none m m1 -> copy_refs id cs <= refs id m1) as Hr1.
    { intros id m1 S1. destruct S1 as [_ S1 _ _ _]. rewrite S1. specialize (Hr id).
      rewrite Hcr in Hr. unfold at_ref, none in *. case_decide; lia. }
    apply wp_bind. eapply wp_calls_neutral; [apply isOver_neutral|done|]. intros o m1 S1 He.
    assert (refs (copy_entry c) m1 = refs (copy_entry c) m) as Hsame.
    { destruct S1 as [_ S1 _ _ _]. rewrite S1. unfold none. lia. }
    destruct o.
    + apply wp_bind. apply IH; [apply S1|intros; by apply Hr1|].
      intros cs' leaked m2 S2 Hcs. apply wp_ret, HQ.
      * step_done; [lia|]. rewrite !own_copies_cons. lia.
      * cbn. by rewrite Hcs.
    + destruct (proj1 (refs_Some (copy_entry c) m1)) as (e & n & Hent); [lia|].
      apply wp_bind. eapply wp_read_entry; [done|]. apply wp_bind, wp_modify, wp_bind, wp_modify.
      set (m2 := m1 <| m_ents := _ |>).
      assert (mem_step none none m1 m2) as S2.
      { eapply mem_step_ext; [eapply (write_entry_step _ e _ (e <| leakHostBuf := true |>));
          [apply S1|done|lia|done]|intros i; cbv beta; unfold none; lia|done]. }
      set (m3 := m2 <| m_leaked := _ |>).
      assert (mem_step none (fun h => - cnt h (h_event (copy_done c))) m2 m3) as S3.
      { split; simpl; [apply mem_ok_leak; [apply S2|apply leak_event]| |..].
        - intros id. unfold refs, none. simpl. lia.
        - intros h. unfold unowned. simpl. rewrite cnt_app. lia.
        - done.
        - intros id e' n' _ H1. by exists e', n'. }
      apply wp_bind. apply IH; [apply S3| |].
      * intros id. destruct S3 as [_ S3 _ _ _]. rewrite S3.
        assert (mem_step none none m m2) as S12 by (step_done; lia).
        specialize (Hr1 id m2 S12). unfold none. lia.
      * intros cs' leaked m4 S4 Hcs. apply wp_ret, HQ.
        -- step_done; [lia|]. rewrite !own_copies_cons. cbn [copy_done h_event Z.eqb cnt foldr]. lia.
        -- cbn. by rewrite Hcs.
Qed.

Lemma wp_destroy_AbandonedCopies a Q m :
  mem_ok m -> (forall id, copy_refs id (copies_ a) <= refs id m) ->
  (forall m', mem_step (fun id => - copy_refs id (copies_ a))
                       (fun h => - cnt h (own_copies (copies_ a))) m m' -> Q tt m') ->
  wp bad (destroy_AbandonedCopies a) Q m.
Proof.
  intros Hok Hr HQ. unfold destroy_AbandonedCopies. apply wp_bind.
  apply wp_leak_loop; [done|done|]. intros cs leaked m1 S1 Hcs.
  assert (forall id, copy_refs id cs = copy_refs id (copies_ a)) as Href
    by (intros id; unfold copy_refs; by rewrite Hcs).
  apply wp_bind. eapply (wp_mono _ _ (fun _ m2 => mem_step none none m1 m2)).
  { destruct (negb (leaked =? 0)); [|apply wp_ret, mem_step_refl, S1].
    eapply wp_calls_neutral; [intros t; wrun; bal_solve|apply S1|]. by intros _ m2 S2 _. }
  cbv beta. intros _ m2 S2. apply wp_destroy_copies; [apply S2| |].
  - intros id. assert (mem_step none (fun h => cnt h (own_copies cs) - cnt h (own_copies (copies_ a))) m m2)
      as S12 by (step_done; lia).
    destruct S12 as [_ S12 _ _ _]. rewrite S12, Href. specialize (Hr id). unfold none. lia.
  - intros m3 S3. apply HQ. step_done; [rewrite Href; lia|lia].
Qed.
End abandoned.

(** ** Properties *)

(** Taking over a copy that timed out never allocates, so it can't fail:
    whatever order slots are reserved, given back and used in, and copies
    released, there's room for every slot that's set aside. *)
Theorem add_never_reallocates (a : AbandonedCopies) (Ha : rtc list_step new_AbandonedCopies a) :
  copies_size a + reserved_ a <= capacity_ a /\ 0 <= reserved_ a /\
  (0 < reserved_ a -> push_reallocates a = false).
Proof.
  assert (roomy a) as Hr.
  { apply (rtc_ind_r (fun a => roomy a)) with (x := new_AbandonedCopies) in Ha; [done|apply roomy_new|].
    clear. intros a b _ Hs Hr. destruct Hs as [a|a H|a e d H|a stay H].
    - by apply roomy_reserve.
    - by apply roomy_unreserve.
    - by apply roomy_add.
    - unfold roomy, copies_size in *. cbn. apply sublist_length in H. lia. }
  unfold roomy in Hr. split_and!; [lia|lia|]. intros Hpos. by apply (roomy_add 0 0).
Qed.

Lemma add_never_reallocates_witness :
  let a := reserve (add 3 5 (reserve new_AbandonedCopies)) in
  rtc list_step new_AbandonedCopies a /\ push_reallocates a = false.
Proof.
  set (a := reserve (add 3 5 (reserve new_AbandonedCopies))).
  assert (rtc list_step new_AbandonedCopies a) as Ha.
  { eapply rtc_l; [apply list_reserve|]. eapply rtc_l; [apply (list_add _ 3 5); reflexivity|].
    eapply rtc_l; [apply list_reserve|]. apply rtc_refl. }
  split; [exact Ha|]. apply (add_never_reallocates a Ha). reflexivity.
Defined.

(** C18: [running()] tells whether a staging copy may still be using a
    registration's buffer: when it says no, the list holds no copy of that
    registration any more, and when it says yes, one is left. Copies that
    are over are released, each once, with their references. *)
Theorem running_spec `{E : World} (bad : stop -> Prop) (entry : nat) (a : AbandonedCopies) (m : Mem)
    (Hok : mem_ok m) (Hrefs : forall e, copy_refs e (copies_ a) <= refs e m) :
  wp bad (running entry a) (fun x m' => let (r, a') := x in
    (if r : bool then exists c, c ∈ copies_ a' /\ copy_entry c = entry
     else copy_refs entry (copies_ a') = 0) /\
    (forall e, refs e m' - refs e m = copy_refs e (copies_ a') - copy_refs e (copies_ a)) /\
    (forall h, unowned h m' - unowned h m =
       cnt h (own_copies (copies_ a')) - cnt h (own_copies (copies_ a)))) m.
Proof.
  apply wp_release_copies; [done|done|]. intros r a' m' Hs _ _ _ H0 H1. split_and!.
  - destruct r; [|by apply H0]. destruct (H1 eq_refl) as (c & Hc & Hce). exists c. auto.
  - intros e. destruct Hs as [_ Hs _ _ _]. rewrite Hs. lia.
  - intros h. destruct Hs as [_ _ Hs _ _]. rewrite Hs. lia.
Qed.

Lemma running_spec_witness :
  (forall e, copy_refs e (copies_ (add 0 7 (reserve new_AbandonedCopies))) <= refs e (staged_memory 1)) /\
  wp (fun _ => False) (@running (lab working) 0 (add 0 7 (reserve new_AbandonedCopies)))
    (fun x m' => (if fst x : bool then exists c, c ∈ copies_ (snd x) /\ copy_entry c = 0%nat
                  else copy_refs 0 (copies_ (snd x)) = 0)) (staged_memory 1).
Proof.
  assert (forall e, copy_refs e (copies_ (add 0 7 (reserve new_AbandonedCopies))) <= refs e (staged_memory 1))
    as Hrefs by (intros [|e]; [vm_compute; discriminate|apply refs_nonneg]).
  split; [exact Hrefs|].
  eapply wp_mono; [apply (@running_spec (lab working) (fun _ => False)); [|exact Hrefs]|].
  - apply staged_memory_ok.
  - intros [r a'] m' (H & _). exact H.
Defined.
