(* ===== verification/State.v ===== *)
(** * The process's state ([src/state.h], [src/state.cpp],
    [src/hipobj-private.h])

    The current instance, and every instance that a call still holds: a
    [shared_ptr<Instance>] is the number of an instance in the store
    [g_insts], which holds each with its use count.  The last reference
    that's dropped destroys the instance.

    The state is that of a process with one thread.  A call that would wait
    for another thread is [Blocked]. *)

From Stdlib Require Import Ascii String.
From stdpp Require Import base numbers list gmap.
From S2P Require Import Prelude.
From S2P Require Import Parse.
From S2P Require Import IbvCore.
From S2P Require Import World.
From S2P Require Import Verbs.
From S2P Require Import Topology.
From S2P Require Import Transport.
From S2P Require Import Pool.
From S2P Require Import Buffer.
From S2P Require Import Abandoned.

(** ** Definitions *)

Inductive hipObjOpError_t :=
| hipObjSuccess | hipObjInvalidValue | hipObjNotInitialized | hipObjAlreadyInitialized
| hipObjRdmaError | hipObjS3Error | hipObjBufNotRegistered | hipObjBufAlreadyRegistered
| hipObjNicNotFound | hipObjDmabufNotSupported | hipObjSizeTooLarge | hipObjInternalError
| hipObjBusy.

#[export] Instance hipObjOpError_t_eq_dec : EqDecision hipObjOpError_t.
Proof. solve_decision. Defined.

Record hipObjError_t := { opError : hipObjOpError_t; hipError : Z }.

#[export] Instance hipObjError_t_eq_dec : EqDecision hipObjError_t.
Proof. solve_decision. Defined.

(** [makeError(opError)], and [makeError(opError, hipError)] *)
Definition makeError2 (e : hipObjOpError_t) (hip : Z) : hipObjError_t :=
  {| opError := e; hipError := hip |}.
Definition makeError (e : hipObjOpError_t) : hipObjError_t := makeError2 e 0.

Record hipObjConfig_t := {
  endpoint : option chars;
  region : option chars;
  accessKey : option chars;
  secretKey : option chars;
  flags : Z;
  gpuDevice : Z;
  nicHint : option chars;
}.

(** Times are in milliseconds *)
Record Options := {
  stageTimeout : Z;
  pollTimeout : Z;
  maxTransfers : Z;
  requireGpuDirect : bool;
  dmabuf : DmabufPolicy;
}.

#[export] Instance eta_Options : Eta Options := fun r =>
  {| stageTimeout := stageTimeout r; pollTimeout := pollTimeout r; maxTransfers := maxTransfers r;
     requireGpuDirect := requireGpuDirect r; dmabuf := dmabuf r |}.

Definition kDefaultStageTimeout : Z := 30 * 1000.
Definition kDefaultPollTimeout : Z := 5 * 1000.
Definition kDefaultMaxTransfers : Z := 16.

(** [Options{}] *)
Definition default_Options : Options :=
  {| stageTimeout := kDefaultStageTimeout; pollTimeout := kDefaultPollTimeout;
     maxTransfers := kDefaultMaxTransfers; requireGpuDirect := false;
     dmabuf := {| enabled := true; debug := false |} |}.

Definition kMaxStageTimeout : Z := 24 * 60 * 60 * 1000.
Definition kMaxTransfers : Z := 1024.

(** [lookupValue()], given what the lookup returned *)
Definition lookupValue (value : option chars) : chars :=
  match value with Some v => v | None => [] end.

Definition startsWithOneOf (value cs : chars) : bool :=
  match value with
  | [] => false
  | c :: _ => bool_decide (c ∈ cs)
  end.

(** What [parseOptions()] makes of the five variables *)
Definition options_from (stage transfers gpuDirect dma dbg : chars) : Options :=
  let options := default_Options in
  let options :=
    match parseNumber int64_t stage kDefaultNumberBase with
    | Some ms => if (0 <? ms) && (ms <=? kMaxStageTimeout)
                 then options <| stageTimeout := ms |> else options
    | None => options
    end in
  let options :=
    match parseNumber uint64_t transfers kDefaultNumberBase with
    | Some n => if (0 <? n) && (n <=? kMaxTransfers)
                then options <| maxTransfers := n |> else options
    | None => options
    end in
  options
    <| requireGpuDirect := negb (bool_decide (gpuDirect = [])) &&
                           negb (startsWithOneOf gpuDirect (lit "0nN")) |>
    <| dmabuf := {| enabled := negb (startsWithOneOf dma (lit "0nN"));
                    debug := negb (bool_decide (dbg = [])) &&
                             negb (startsWithOneOf dbg (lit "0")) |} |>.

Definition parseOptions `{World} (lookup : chars -> W (option chars)) : W Options :=
  stage ← lookup (lit "HIPOBJ_STAGE_TIMEOUT_MS");
  transfers ← lookup (lit "HIPOBJ_MAX_TRANSFERS");
  gpuDirect ← lookup (lit "HIPOBJ_REQUIRE_GPU_DIRECT");
  dma ← lookup (lit "HIPOBJ_DMABUF");
  dbg ← lookup (lit "HIPOBJ_RDMA_DEBUG");
  mret (options_from (lookupValue stage) (lookupValue transfers) (lookupValue gpuDirect)
                     (lookupValue dma) (lookupValue dbg)).

Record ResolvedConfig := { res_gpuDevice : Z; res_nicHint : chars; res_nicIndex : Z }.

Record Instance_t := {
  options : Options;
  config : ResolvedConfig;
  device : RdmaDevice;
  tokenConn : RcConnection;
  pool : ConnectionPool;
  buffers : BufferMap;
  abandoned : AbandonedCopies;
}.

#[export] Instance eta_Instance_t : Eta Instance_t := fun r =>
  {| options := options r; config := config r; device := device r; tokenConn := tokenConn r;
     pool := pool r; buffers := buffers r; abandoned := abandoned r |}.

(** The process: the memory, the instances, the current one, the leases the
    thread holds ([t_leasesHeld]), the platform, once it's been built, and
    what the application keeps at the [ctx] pointer of its callbacks, which
    the library passes on and never looks at ([g_app]) *)
Record Process := {
  g_mem : Mem;
  g_insts : gmap nat (Instance_t * nat);
  g_next : nat;
  g_current : option nat;
  t_leasesHeld : Z;
  g_platform : option (option LoadedVerbs);
  g_app : chars;
}.

#[export] Instance eta_Process : Eta Process := fun r =>
  {| g_mem := g_mem r; g_insts := g_insts r; g_next := g_next r; g_current := g_current r;
     t_leasesHeld := t_leasesHeld r; g_platform := g_platform r; g_app := g_app r |}.

Abbreviation G := (M Process).

(** A program over the memory, and one that only makes calls *)
Definition mem {A} : HM A -> G A := zoom g_mem (fun m g => g <| g_mem := m |>).
Definition outside {A} (m : W A) : G A := mem (calls m).

(** *** [std::shared_ptr<Instance>] *)

Definition read_inst (id : nat) : G (Instance_t * nat) :=
  g ← get_state;
  match g_insts g !! id with Some i => mret i | None => halt Undefined end.

Definition get_inst (id : nat) : G Instance_t := i ← read_inst id; mret (fst i).

Definition write_inst (id : nat) (i : Instance_t * nat) : G unit :=
  modify (fun g => g <| g_insts := <[id := i]> (g_insts g) |>).

(** Changes an instance's members *)
Definition update_inst (id : nat) (f : Instance_t -> Instance_t) : G unit :=
  '(i, n) ← read_inst id; write_inst id (f i, n).

Definition copy_inst (id : nat) : G unit := '(i, n) ← read_inst id; write_inst id (i, S n).

(** [~Instance()]: the members, in reverse order. The device's last
    reference goes with the instance's. *)
Definition destroy_Instance `{World} (i : Instance_t) : HM unit :=
  _ ← destroy_AbandonedCopies (abandoned i);
  _ ← destroy_BufferMap (buffers i);
  _ ← calls (destroy_slots (slots_ (pool i)));
  _ ← calls (destroy_RcConnection (tokenConn i));
  calls (destroy_RdmaDevice (device i)).

Definition drop_inst `{World} (id : nat) : G unit :=
  '(i, n) ← read_inst id;
  match n with
  | S (S n') => write_inst id (i, S n')
  | _ =>
      _ ← modify (fun g => g <| g_insts := delete id (g_insts g) |>);
      mem (destroy_Instance i)
  end.

(** The constructor's body: everything but the pool comes from its arguments *)
Definition new_Instance `{World} (opts : Options) (cfg : ResolvedConfig) (dev : RdmaDevice)
    (tok : RcConnection) : W Instance_t :=
  p ← new_ConnectionPool dev (maxTransfers opts);
  mret {| options := opts; config := cfg; device := dev; tokenConn := tok; pool := p;
          buffers := {| entries_ := ∅; dmabuf_ := dmabuf opts;
                        requireGpuDirect_ := requireGpuDirect opts |};
          abandoned := new_AbandonedCopies |}.

Definition make_shared_inst (i : Instance_t) : G nat :=
  g ← get_state;
  _ ← put_state (g <| g_insts := <[g_next g := (i, 1%nat)]> (g_insts g) |> <| g_next := S (g_next g) |>);
  mret (g_next g).

(** *** The current instance *)

Definition currentInstance : G (option nat) :=
  g ← get_state;
  match g_current g with
  | None => mret None
  | Some id => _ ← copy_inst id; mret (Some id)
  end.

(** [if (currentInstance())]: the copy is released at once *)
Definition haveInstance `{World} : G bool :=
  instance ← currentInstance;
  match instance with
  | None => mret false
  | Some id => _ ← drop_inst id; mret true
  end.

Definition shutdownInstance `{World} : G unit :=
  g ← get_state;
  _ ← put_state (g <| g_current := None |>);
  match g_current g with
  | None => mret tt
  | Some id =>
      _ ← update_inst id (fun i => i <| pool := close (pool i) |>);
      drop_inst id
  end.

(** [systemPlatform()]: built by the first call *)
Definition systemPlatform `{World} : G (option LoadedVerbs) :=
  g ← get_state;
  match g_platform g with
  | Some platform => mret platform
  | None =>
      platform ← outside loadLibibverbs;
      _ ← modify (fun g => g <| g_platform := Some platform |>);
      mret platform
  end.

(** [initWith()]'s choice of a GPU: the device, or the error *)
Definition choose_gpu `{World} (config : hipObjConfig_t) (haveNicHint : bool) : W (Z + hipObjError_t) :=
  if gpuDevice config <? 0 then
    '(err, current) ← perform getDevice;
    if negb (err =? hipSuccess) then
      if negb (err =? hipErrorNoDevice) || negb haveNicHint
      then mret (inr (makeError2 hipObjRdmaError err))
      else mret (inl (-1))
    else mret (inl current)
  else
    '(err, count) ← perform getDeviceCount;
    if negb (err =? hipErrorNoDevice) && negb (err =? hipSuccess)
    then mret (inr (makeError2 hipObjRdmaError err))
    else
      let deviceCount := if err =? hipErrorNoDevice then 0 else count in
      if deviceCount <=? gpuDevice config then mret (inr (makeError hipObjInvalidValue))
      else mret (inl (gpuDevice config)).

Definition choose_nic `{World} `{NicTopology} (gpu : Z) (hint : chars) : W (option RdmaNic) :=
  nic ← (if 0 <=? gpu then GetClosestNicToGpu gpu hint else mret None);
  mret (match nic with
        | Some nic => Some nic
        | None => if negb (bool_decide (hint = []))
                  then Some {| nic_index := 0; nic_name := hint |} else None
        end).

(** What [initWith()] builds in its locals: the instance, or the error. What
    it holds is released when a step fails. *)
Definition build_instance `{World} `{NicTopology} (config : hipObjConfig_t) (opts : Options)
    : W (Instance_t + hipObjError_t) :=
  let hint := default [] (nicHint config) in
  gpu ← choose_gpu config (negb (bool_decide (hint = [])));
  match gpu with
  | inr err => mret (inr err)
  | inl gpu =>
      nic ← choose_nic gpu hint;
      match nic with
      | None => mret (inr (makeError hipObjNicNotFound))
      | Some nic =>
          opened ← openRdmaDeviceByName (nic_name nic);
          match opened with
          | None => mret (inr (makeError hipObjRdmaError))
          | Some dev =>
              tok ← createRcConnection dev kCqSize kMaxSendWr kMaxRecvWr;
              match tok with
              | None => _ ← destroy_RdmaDevice dev; mret (inr (makeError hipObjRdmaError))
              | Some tok =>
                  let resolved := {| res_gpuDevice := gpu; res_nicHint := hint;
                                     res_nicIndex := nic_index nic |} in
                  instance ← new_Instance opts resolved dev tok;
                  mret (inl instance)
              end
          end
      end
  end.

(** The instance is published only when its pool is full; otherwise it's
    the last thing to be released *)
Definition initWith `{World} `{NicTopology} (config : hipObjConfig_t) (opts : Options)
    : G hipObjError_t :=
  have ← haveInstance;
  if have : bool then mret (makeError hipObjAlreadyInitialized)
  else
    built ← outside (build_instance config opts);
    match built with
    | inr err => mret err
    | inl instance =>
        id ← make_shared_inst instance;
        if negb (pool_size (pool instance) =? maxTransfers opts)
        then _ ← drop_inst id; mret (makeError hipObjRdmaError)
        else
          _ ← modify (fun g => g <| g_current := Some id |>);
          mret (makeError hipObjSuccess)
    end.

(** What an instance owns *)
Definition own_instance (i : Instance_t) : list handle :=
  own_device (device i) ++ own_conn (tokenConn i) ++ own_slots (slots_ (pool i)) ++
  own_copies (copies_ (abandoned i)).

#[global] Arguments own_instance : simpl never.

(** What it owns before it's in the store *)
Definition own_built (r : Instance_t + hipObjError_t) : list handle :=
  match r with inl i => own_instance i | inr _ => [] end.

(** The references an instance holds to an entry *)
Definition inst_refs (id : nat) (i : Instance_t) : Z :=
  map_refs id (buffers i) + copy_refs id (copies_ (abandoned i)).

(** The references to an instance *)
Definition irefs (id : nat) (g : Process) : Z :=
  match g_insts g !! id with Some (_, n) => Z.of_nat n | None => 0 end.

(** A number read from a variable's text: a numeral in the range, or else the
    default *)
Definition reads (T : ity) (max dflt : Z) (text : chars) (v : Z) : Prop :=
  (numeral T 10 text v /\ 0 < v <= max) \/
  ((forall n, numeral T 10 text n -> ~ 0 < n <= max) /\ v = dflt).

(** Whether a text is set and doesn't start with one of some characters *)
Definition set_and_not (text cs : chars) : Prop :=
  exists c rest, text = c :: rest /\ c ∉ cs.

(** ** Lemmas *)

Lemma reads_parse T max dflt text :
  reads T max dflt text
    (match parseNumber T text kDefaultNumberBase with
     | Some n => if (0 <? n) && (n <=? max) then n else dflt
     | None => dflt
     end).
Proof.
  destruct (parseNumber T text kDefaultNumberBase) as [n|] eqn:Hn.
  - apply parseNumber_numeral in Hn as [_ Hn]. destruct (_ && _) eqn:Hr.
    + left. split; [done|]. bools. lia.
    + right. split; [|done]. intros k Hk.
      assert (k = n) as ->.
      { assert (parseNumber T text 10 = Some k) as H1 by by apply parseNumber_numeral.
        assert (parseNumber T text 10 = Some n) as H2 by by apply parseNumber_numeral. congruence. }
      bools. lia.
  - right. split; [|done]. intros k Hk _.
    assert (parseNumber T text 10 = Some k) as H1 by by apply parseNumber_numeral.
    unfold kDefaultNumberBase in Hn. congruence.
Qed.

Lemma set_and_not_spec text cs :
  negb (bool_decide (text = [])) && negb (startsWithOneOf text cs) = true <-> set_and_not text cs.
Proof.
  unfold set_and_not. destruct text as [|c rest]; cbn [startsWithOneOf].
  - split; [done|]. by intros (? & ? & ? & _).
  - rewrite bool_decide_eq_false_2 by done. cbn [negb andb]. rewrite negb_true_iff, bool_decide_eq_false.
    split; [by eauto|]. by intros (? & ? & [= <- <-] & ?).
Qed.

(** ** Properties *)

(** The options that the environment sets: the staging timeout and the
    number of transfers are whole numbers in their ranges, and anything else
    leaves the default; the switches follow their values' first character.
    The variables are read, and nothing else is done. *)
Theorem parseOptions_spec `{E : World} (env : chars -> option chars) (t : trace) :
  let text name := default [] (env name) in
  exists o, parseOptions (fun name => mret (env name)) t = (inl o, t) /\
    reads int64_t (24 * 60 * 60 * 1000) 30000 (text (lit "HIPOBJ_STAGE_TIMEOUT_MS")) (stageTimeout o) /\
    reads uint64_t 1024 16 (text (lit "HIPOBJ_MAX_TRANSFERS")) (maxTransfers o) /\
    pollTimeout o = 5000 /\
    (requireGpuDirect o = true <-> set_and_not (text (lit "HIPOBJ_REQUIRE_GPU_DIRECT")) (lit "0nN")) /\
    (enabled (dmabuf o) = true <->
       text (lit "HIPOBJ_DMABUF") = [] \/ set_and_not (text (lit "HIPOBJ_DMABUF")) (lit "0nN")) /\
    (debug (dmabuf o) = true <-> set_and_not (text (lit "HIPOBJ_RDMA_DEBUG")) (lit "0")).
Proof.
  intros text. eexists. split; [reflexivity|].
  change (lookupValue ?x) with (default [] x). unfold text. clear text.
  generalize (default [] (env (lit "HIPOBJ_STAGE_TIMEOUT_MS"))) as stage.
  generalize (default [] (env (lit "HIPOBJ_MAX_TRANSFERS"))) as transfers.
  generalize (default [] (env (lit "HIPOBJ_REQUIRE_GPU_DIRECT"))) as gd.
  generalize (default [] (env (lit "HIPOBJ_DMABUF"))) as dma.
  generalize (default [] (env (lit "HIPOBJ_RDMA_DEBUG"))) as dbg. intros.
  pose proof (reads_parse int64_t kMaxStageTimeout kDefaultStageTimeout stage) as H1.
  pose proof (reads_parse uint64_t kMaxTransfers kDefaultMaxTransfers transfers) as H2.
  unfold options_from. cbn [set_field stageTimeout maxTransfers pollTimeout requireGpuDirect dmabuf
    enabled debug]. split_and!.
  - repeat case_match; exact H1.
  - repeat case_match; exact H2.
  - repeat case_match; reflexivity.
  - apply set_and_not_spec.
  - rewrite <- set_and_not_spec. destruct dma as [|c rest]; cbn [startsWithOneOf negb].
    + split; [by left|done].
    + rewrite (bool_decide_eq_false_2 (c :: rest = [])) by done. cbn [negb andb].
      split; [by right|]. by intros [?|?].
  - apply set_and_not_spec.
Qed.
