(* ===== verification/Invariant.v ===== *)
(** * The process's invariant

    What holds of the state between the library's steps: every reference is
    counted, every object that's open has an owner, and every connection is
    either free or leased, once.  A [Frame] lists what the calls in progress
    hold: those of one thread, which nest when a callback calls the library
    again, and, put together, those of all threads. *)

From stdpp Require Import base numbers list gmap.
From S2P Require Import Prelude.
From S2P Require Import IbvCore.
From S2P Require Import World.
From S2P Require Import Verbs.
From S2P Require Import Topology.
From S2P Require Import Transport.
From S2P Require Import Pool.
From S2P Require Import Buffer.
From S2P Require Import Abandoned.
From S2P Require Import State.

(** ** Definitions *)

(** References to entries and to instances; leases, each an instance and an
    index, this thread's and, in [f_elsewhere], those of others; the slots
    set aside in an instance's abandoned copies; and what's open and has no
    owner in the state yet *)
Record Frame := {
  f_ents : list nat;
  f_insts : list nat;
  f_leases : list (nat * nat);
  f_elsewhere : list (nat * nat);
  f_slots : list nat;
  f_open : list handle;
}.

#[export] Instance eta_Frame : Eta Frame := fun F =>
  {| f_ents := f_ents F; f_insts := f_insts F; f_leases := f_leases F;
     f_elsewhere := f_elsewhere F; f_slots := f_slots F; f_open := f_open F |}.

Definition no_frame : Frame :=
  {| f_ents := []; f_insts := []; f_leases := []; f_elsewhere := []; f_slots := []; f_open := [] |}.

Definition hold_ent (e : nat) (F : Frame) : Frame := F <| f_ents ::= cons e |>.
Definition hold_inst (i : nat) (F : Frame) : Frame := F <| f_insts ::= cons i |>.
Definition hold_lease (i index : nat) (F : Frame) : Frame := F <| f_leases ::= cons (i, index) |>.
Definition hold_slot (i : nat) (F : Frame) : Frame := F <| f_slots ::= cons i |>.
Definition hold_open (hs : list handle) (F : Frame) : Frame := F <| f_open ::= app hs |>.

(** The indexes of the leases on an instance's connections *)
Definition leased_of (i : nat) (leases : list (nat * nat)) : list nat :=
  flat_map (fun l => if decide (fst l = i) then [snd l] else []) leases.

Definition all_leases (F : Frame) : list (nat * nat) := f_leases F ++ f_elsewhere F.
Definition leased (i : nat) (F : Frame) : list nat := leased_of i (all_leases F).

(** Whose leases and slots are held *)
Definition frame_ok (F : Frame) : Prop :=
  (forall l, l ∈ all_leases F -> fst l ∈ f_insts F) /\ (forall id, id ∈ f_slots F -> id ∈ f_insts F).

(** An instance with the leases [held] on its pool, and with [slots] slots
    set aside *)
Record inst_ok (held : list nat) (slots : Z) (i : Instance_t) : Prop := {
  inst_pool : pool_ok held (pool i);
  inst_buffers : buffers_size (buffers i) <= kMaxEntries;
  inst_abandoned : roomy (abandoned i);
  inst_reserved : reserved_ (abandoned i) = slots;
}.

Definition own_platform (p : option (option LoadedVerbs)) : list handle :=
  match p with Some v => own_verbs v | None => [] end.

#[global] Arguments own_platform : simpl never.

Definition current_refs (id : nat) (g : Process) : Z :=
  if decide (g_current g = Some id) then 1 else 0.

Record Inv (F : Frame) (g : Process) : Prop := {
  inv_mem : mem_ok (g_mem g);
  inv_refs : forall e, refs e (g_mem g) =
      msum (fun _ i => inst_refs e (fst i)) (g_insts g) + cnt e (f_ents F);
  inv_irefs : forall id, irefs id g = current_refs id g + cnt id (f_insts F);
  inv_counted : forall id i n, g_insts g !! id = Some (i, n) -> (0 < n)%nat;
  inv_fresh : forall id, (g_next g <= id)%nat -> g_insts g !! id = None;
  inv_owned : forall h, unowned h (g_mem g) =
      msum (fun _ i => cnt h (own_instance (fst i))) (g_insts g) +
      cnt h (own_platform (g_platform g)) + cnt h (f_open F);
  inv_leases : t_leasesHeld g = Z.of_nat (List.length (f_leases F));
  inv_frame : frame_ok F;
  inv_insts : forall id i n, g_insts g !! id = Some (i, n) ->
      inst_ok (leased id F) (cnt id (f_slots F)) i;
}.

(** A state in which an operation has changed an instance, and the memory *)
Definition at_inst (g : Process) (id n : nat) (i : Instance_t) (m : Mem) : Process :=
  g <| g_mem := m |> <| g_insts := <[id := (i, n)]> (g_insts g) |>.

(** The state before anything has happened *)
Definition initial_process : Process :=
  {| g_mem := {| m_trace := []; m_ents := ∅; m_next := 0; m_leaked := [] |};
     g_insts := ∅; g_next := 0; g_current := None; t_leasesHeld := 0; g_platform := None; g_app := [] |}.

(** ** Lemmas *)

(** Looks up the fields of a changed state *)
Ltac gsimpl :=
  cbn [set_field g_mem g_insts g_next g_current t_leasesHeld g_platform g_app f_ents f_insts f_leases
       f_elsewhere f_slots f_open hold_ent hold_inst hold_lease hold_slot hold_open fst snd].

Lemma Inv_initial : Inv no_frame initial_process.
Proof.
  split; try done.
  - split; [done..|]. by intros h ?%elem_of_nil.
  - by split; intros ? ?%elem_of_nil.
Qed.

Lemma leased_hold i index F id :
  leased id (hold_lease i index F) = if decide (i = id) then index :: leased id F else leased id F.
Proof. unfold leased, leased_of. simpl. by case_decide. Qed.

Lemma leased_none i F : frame_ok F -> i ∉ f_insts F -> leased i F = [].
Proof.
  intros [Hok _] Hi. unfold leased, leased_of. revert Hok. generalize (all_leases F) as ls.
  induction ls as [|l ls IH]; intros Hok; [done|]. simpl. rewrite decide_False.
  - apply IH. intros l' Hl'. apply Hok. by right.
  - intros <-. apply Hi, Hok. by left.
Qed.

Lemma slots_none i F : frame_ok F -> i ∉ f_insts F -> cnt i (f_slots F) = 0.
Proof.
  intros [_ Hok] Hi. pose proof (cnt_nonneg i (f_slots F)).
  destruct (decide (0 < cnt i (f_slots F))) as [Hc%cnt_elem|]; [|lia]. by apply Hok in Hc.
Qed.

Lemma frame_ok_hold_inst i F : frame_ok F -> frame_ok (hold_inst i F).
Proof. intros [H1 H2]. split; intros ? ?; right; auto. Qed.

Lemma frame_ok_hold_lease i index F : frame_ok F -> i ∈ f_insts F -> frame_ok (hold_lease i index F).
Proof. intros [H1 H2] Hi. split; [|done]. intros l [->|Hl]%elem_of_cons; [done|by apply H1]. Qed.

Lemma frame_ok_hold_slot i F : frame_ok F -> i ∈ f_insts F -> frame_ok (hold_slot i F).
Proof. intros [H1 H2] Hi. split; [done|]. intros id [->|Hl]%elem_of_cons; [done|by apply H2]. Qed.

Lemma inst_refs_nonneg e i : 0 <= inst_refs e i.
Proof. pose proof (map_refs_nonneg e (buffers i)). pose proof (cnt_nonneg e (copy_entry <$> copies_ (abandoned i))).
  unfold inst_refs, copy_refs. lia. Qed.

(** What a held instance's members refer to is alive *)
Lemma Inv_inst_refs F g id i n e :
  Inv F g -> g_insts g !! id = Some (i, n) -> inst_refs e i <= refs e (g_mem g).
Proof.
  intros HI Hi. rewrite (inv_refs _ _ HI), (msum_delete _ _ _ _ Hi). cbn [fst].
  pose proof (cnt_nonneg e (f_ents F)).
  assert (0 <= msum (fun _ i => inst_refs e (fst i)) (delete id (g_insts g))).
  { apply msum_nonneg. intros. apply inst_refs_nonneg. }
  lia.
Qed.

Lemma Inv_alive F g id i n :
  Inv F g -> g_insts g !! id = Some (i, n) ->
  map_alive (buffers i) (g_mem g) /\ forall e, copy_refs e (copies_ (abandoned i)) <= refs e (g_mem g).
Proof.
  intros HI Hi. split.
  - intros e. pose proof (Inv_inst_refs _ _ _ _ _ e HI Hi) as H. unfold inst_refs in H.
    assert (0 <= copy_refs e (copies_ (abandoned i))) by apply cnt_nonneg. lia.
  - intros e. pose proof (Inv_inst_refs _ _ _ _ _ e HI Hi) as H. unfold inst_refs in H.
    pose proof (map_refs_nonneg e (buffers i)). lia.
Qed.

Lemma Inv_ent_alive F g e : Inv F g -> e ∈ f_ents F -> 0 < refs e (g_mem g).
Proof.
  intros HI He. rewrite (inv_refs _ _ HI). apply cnt_elem in He.
  enough (0 <= msum (fun _ i => inst_refs e (fst i)) (g_insts g)) by lia.
  apply msum_nonneg. intros. apply inst_refs_nonneg.
Qed.

Lemma Inv_held_ent F g e : Inv (hold_ent e F) g -> 0 < refs e (g_mem g).
Proof. intros HI. apply (Inv_ent_alive _ _ _ HI). left. Qed.

Lemma Inv_held F g id : Inv F g -> id ∈ f_insts F -> exists i n, g_insts g !! id = Some (i, n).
Proof.
  intros HI Hid. pose proof (inv_irefs _ _ HI id) as Hr. apply cnt_elem in Hid.
  unfold irefs, current_refs in Hr. destruct (g_insts g !! id) as [[i n]|]; [by exists i, n|].
  case_decide; lia.
Qed.

(** *** Steps *)

(** The memory changes, and with it the frame's references to entries and
    what's open *)
Lemma Inv_mem_open F g m ents hs :
  Inv F g ->
  mem_step (fun e => cnt e ents - cnt e (f_ents F)) (fun h => cnt h hs - cnt h (f_open F)) (g_mem g) m ->
  Inv (F <| f_ents := ents |> <| f_open := hs |>) (g <| g_mem := m |>).
Proof.
  intros [A1 A2 A3 A4 A5 A6 A7 A8 A9] [B1 B2 B3 B4 B5]. split; gsimpl; try done.
  - intros e. rewrite B2, A2; cbv beta; cbn [fst]; lia.
  - intros h. rewrite B3, A6. lia.
Qed.

Lemma Inv_mem F g m ents :
  Inv F g ->
  mem_step (fun e => cnt e ents - cnt e (f_ents F)) none (g_mem g) m ->
  Inv (F <| f_ents := ents |>) (g <| g_mem := m |>).
Proof.
  intros HI Hm. apply (Inv_mem_open F g m ents (f_open F) HI).
  eapply mem_step_ext; [exact Hm|done|]. intros h. unfold none. lia.
Qed.

Lemma Inv_open_step F g m hs :
  Inv F g -> mem_step none (fun h => cnt h hs - cnt h (f_open F)) (g_mem g) m ->
  Inv (F <| f_open := hs |>) (g <| g_mem := m |>).
Proof.
  intros HI Hm. apply (Inv_mem_open F g m (f_ents F) hs HI).
  eapply mem_step_ext; [exact Hm| |done]. intros h. unfold none. lia.
Qed.

Lemma at_inst_start g id i n : g_insts g !! id = Some (i, n) -> g = at_inst g id n i (g_mem g).
Proof. intros Hi. unfold at_inst. destruct g. cbn in *. by rewrite insert_id. Qed.

(** An instance's members change, and the memory and the frame with them *)
Lemma Inv_change F F' g id i n i' m :
  Inv F g -> g_insts g !! id = Some (i, n) ->
  f_insts F' = f_insts F -> frame_ok F' ->
  (forall id', id' <> id -> leased id' F' = leased id' F /\ cnt id' (f_slots F') = cnt id' (f_slots F)) ->
  mem_step (fun e => inst_refs e i' - inst_refs e i + (cnt e (f_ents F') - cnt e (f_ents F)))
           (fun h => cnt h (own_instance i') - cnt h (own_instance i) + (cnt h (f_open F') - cnt h (f_open F)))
           (g_mem g) m ->
  inst_ok (leased id F') (cnt id (f_slots F')) i' ->
  Inv F' ((at_inst g id n i' m) <| t_leasesHeld := Z.of_nat (List.length (f_leases F')) |>).
Proof.
  intros [A1 A2 A3 A4 A5 A6 A7 A8 A9] Hi Hf Hfr Hls [B1 B2 B3 B4 B5] Hok.
  unfold at_inst. split; gsimpl; rewrite ?Hf; try done.
  - intros e. rewrite B2, A2, (msum_update _ _ _ _ _ Hi). cbn [fst]. lia.
  - intros id'. specialize (A3 id'). unfold irefs, current_refs in *. gsimpl.
    destruct (decide (id' = id)) as [->|Hne].
    + rewrite lookup_insert_eq. by rewrite Hi in A3.
    + by rewrite lookup_insert_ne.
  - intros id' j k. destruct (decide (id' = id)) as [->|Hne].
    + rewrite lookup_insert_eq. intros [= <- <-]. by eapply A4.
    + rewrite lookup_insert_ne by done. apply A4.
  - intros id' Hid. rewrite lookup_insert_ne; [by apply A5|]. intros <-. by rewrite A5 in Hi.
  - intros h. rewrite B3, A6, (msum_update _ _ _ _ _ Hi). cbn [fst]. lia.
  - intros id' j k. destruct (decide (id' = id)) as [->|Hne].
    + rewrite lookup_insert_eq. by intros [= <- <-].
    + rewrite lookup_insert_ne by done. destruct (Hls id' Hne) as [-> ->]. apply A9.
Qed.

(** The same, where the leases don't change *)
Lemma Inv_change_at F F' g id i n i' m :
  Inv F g -> g_insts g !! id = Some (i, n) ->
  f_insts F' = f_insts F -> f_leases F' = f_leases F -> f_elsewhere F' = f_elsewhere F -> frame_ok F' ->
  (forall id', id' <> id -> cnt id' (f_slots F') = cnt id' (f_slots F)) ->
  mem_step (fun e => inst_refs e i' - inst_refs e i + (cnt e (f_ents F') - cnt e (f_ents F)))
           (fun h => cnt h (own_instance i') - cnt h (own_instance i) + (cnt h (f_open F') - cnt h (f_open F)))
           (g_mem g) m ->
  inst_ok (leased id F) (cnt id (f_slots F')) i' ->
  Inv F' (at_inst g id n i' m).
Proof.
  intros HI Hi Hf Hl He Hfr Hs Hm Hok.
  assert (forall id', leased id' F' = leased id' F) as Hls.
  { intros id'. unfold leased, all_leases. by rewrite Hl, He. }
  assert (at_inst g id n i' m = (at_inst g id n i' m) <| t_leasesHeld := Z.of_nat (List.length (f_leases F')) |>) as ->.
  { unfold at_inst. rewrite Hl, <- (inv_leases _ _ HI). by destruct g. }
  apply (Inv_change F F' g id i); try done.
  - intros id' Hne. split; [done|by apply Hs].
  - by rewrite Hls.
Qed.

Lemma Inv_at F g id i n i' m :
  Inv F g -> g_insts g !! id = Some (i, n) ->
  mem_step (fun e => inst_refs e i' - inst_refs e i)
           (fun h => cnt h (own_instance i') - cnt h (own_instance i)) (g_mem g) m ->
  inst_ok (leased id F) (cnt id (f_slots F)) i' ->
  Inv F (at_inst g id n i' m).
Proof.
  intros HI Hi Hs Hok. apply (Inv_change_at F F g id i); try done; [apply HI|].
  eapply mem_step_ext; [exact Hs|..]; intros; cbv beta; lia.
Qed.

Lemma frame_eta F : F <| f_ents := f_ents F |> = F.
Proof. by destruct F. Qed.

(** A thread takes the reference that [current] holds *)
Lemma Inv_take_current F g id :
  Inv F g -> g_current g = Some id -> Inv (hold_inst id F) (g <| g_current := None |>).
Proof.
  intros [A1 A2 A3 A4 A5 A6 A7 A8 A9] Hc. split; gsimpl; try done.
  - intros id'. specialize (A3 id'). unfold irefs, current_refs in *. gsimpl. rewrite Hc in A3.
    rewrite cnt_cons, (decide_False (P := None = Some id')) by done.
    destruct (decide (id' = id)) as [->|Hne].
    + rewrite decide_True in A3 by done. lia.
    + rewrite decide_False in A3 by congruence. lia.
  - by apply frame_ok_hold_inst.
Qed.

(** *** Programs over the memory, and calls *)

Lemma mem_bind {A B} (m : HM A) (k : A -> HM B) : mem (m ≫= k) ≡ mem m ≫= (fun a => mem (k a)).
Proof. by apply zoom_bind. Qed.

Lemma outside_bind {A B} (m : W A) (k : A -> W B) : outside (m ≫= k) ≡ outside m ≫= (fun a => outside (k a)).
Proof.
  intros g. unfold outside, mem, calls, zoom, mbind, M_bind. by destruct (m (m_trace (g_mem g))) as [[a|e] t].
Qed.

Section steps.
Context `{E : World} (bad : stop -> Prop).

Lemma wp_mem {A} (m : HM A) (Q : A -> Process -> Prop) g :
  wp bad m (fun a mm => Q a (g <| g_mem := mm |>)) (g_mem g) -> wp bad (mem m) Q g.
Proof. intros HH. unfold mem. by apply wp_zoom. Qed.

(** Calls change the trace alone *)
Lemma wp_outside {A} (m : W A) (Q : A -> Process -> Prop) g :
  wp bad m (fun a t => Q a (g <| g_mem ::= fun mm => mm <| m_trace := t |> |>)) (m_trace (g_mem g)) ->
  wp bad (outside m) Q g.
Proof. intros HH. apply wp_mem. unfold calls. by apply wp_zoom. Qed.

(** A call that leaves open what was open *)
Lemma wp_outside_neutral {A} (m : W A) (Q : A -> Process -> Prop) F g :
  neutral bad m -> Inv F g -> (forall a g', Inv F g' -> Q a g') -> wp bad (outside m) Q g.
Proof.
  intros Hm HI HQ. apply wp_mem. eapply wp_calls_neutral; [done|apply HI|].
  intros a mm Hs _. apply HQ. rewrite <- (frame_eta F). apply Inv_mem; [done|].
  eapply mem_step_ext; [exact Hs|intros e; cbv beta; unfold none; lia|done].
Qed.

Lemma wp_get_inst id i n Q g :
  g_insts g !! id = Some (i, n) -> Q i g -> wp bad (get_inst id) Q g.
Proof.
  intros Hi HQ. unfold get_inst, read_inst. apply wp_bind, wp_bind, wp_get. rewrite Hi.
  by apply wp_ret, wp_ret.
Qed.

Lemma wp_update_inst id i n f Q g :
  g_insts g !! id = Some (i, n) -> Q tt (g <| g_insts := <[id := (f i, n)]> (g_insts g) |>) ->
  wp bad (update_inst id f) Q g.
Proof.
  intros Hi HQ. unfold update_inst, read_inst. apply wp_bind, wp_bind, wp_get. rewrite Hi.
  by apply wp_ret, wp_modify.
Qed.

(** *** References to instances *)

Lemma wp_currentInstance Q F g :
  Inv F g ->
  (g_current g = None -> Q None g) ->
  (forall id g', g_current g = Some id -> Inv (hold_inst id F) g' -> Q (Some id) g') ->
  wp bad currentInstance Q g.
Proof.
  intros HI HN HS. unfold currentInstance. apply wp_bind, wp_get.
  destruct (g_current g) as [id|] eqn:Hc; [|by apply wp_ret, HN].
  destruct (g_insts g !! id) as [[i n]|] eqn:Hi.
  2:{ pose proof (inv_irefs _ _ HI id) as Hr. unfold irefs, current_refs in Hr.
      rewrite Hi, Hc, decide_True in Hr by done. pose proof (cnt_nonneg id (f_insts F)). lia. }
  unfold copy_inst, read_inst. apply wp_bind, wp_bind, wp_bind, wp_get. rewrite Hi.
  apply wp_ret, wp_modify, wp_ret, HS; [done|]. destruct HI as [A1 A2 A3 A4 A5 A6 A7 A8 A9].
  split; gsimpl; try done.
  - intros e. rewrite (msum_update _ _ _ _ _ Hi). rewrite A2. cbn [fst]. lia.
  - intros id'. specialize (A3 id'). unfold irefs, current_refs in *. gsimpl. rewrite Hc in *.
    destruct (decide (id' = id)) as [->|Hne].
    + rewrite lookup_insert_eq, cnt_cons, (decide_True (P := id = id)) by done.
      rewrite Hi in A3. lia.
    + rewrite lookup_insert_ne, cnt_cons, (decide_False (P := id' = id)) by done. lia.
  - intros id' j k. destruct (decide (id' = id)) as [->|Hne].
    + rewrite lookup_insert_eq. intros [= <- <-]. lia.
    + rewrite lookup_insert_ne by done. apply A4.
  - intros id' Hid. rewrite lookup_insert_ne; [by apply A5|]. intros <-. by rewrite A5 in Hi.
  - intros h. rewrite (msum_update _ _ _ _ _ Hi). rewrite A6. cbn [fst]. lia.
  - by apply frame_ok_hold_inst.
  - intros id' j k. destruct (decide (id' = id)) as [->|Hne].
    + rewrite lookup_insert_eq. intros [= <- <-]. by eapply A9.
    + rewrite lookup_insert_ne by done. apply A9.
Qed.

(** Destroying an instance that isn't in the store any more *)
Lemma wp_destroy_Instance i Q m :
  mem_ok m -> (forall e, inst_refs e i <= refs e m) ->
  (forall m', mem_step (fun e => - inst_refs e i) (fun h => - cnt h (own_instance i)) m m' -> Q tt m') ->
  wp bad (destroy_Instance i) Q m.
Proof.
  intros Hok Hr HQ. unfold destroy_Instance.
  assert (forall e, 0 <= copy_refs e (copies_ (abandoned i))) as Hc0 by (intros; apply cnt_nonneg).
  pose proof (fun e => map_refs_nonneg e (buffers i)) as Hb0.
  unfold inst_refs in *.
  apply wp_bind, wp_destroy_AbandonedCopies; [done|intros e; specialize (Hr e); specialize (Hb0 e); lia|].
  intros m1 S1. apply wp_bind, wp_destroy_BufferMap; [apply S1| |].
  { intros e. destruct S1 as [_ S1 _ _ _]. rewrite S1. specialize (Hr e). lia. }
  intros m2 S2.
  apply wp_bind, (wp_calls _ _ _ _ (fun _ h => - cnt h (own_slots (slots_ (pool i))))); [|apply S2|].
  { intros t. apply wp_destroy_slots. intros t' Ht h. rewrite Ht. lia. }
  intros _ m3 S3 _.
  apply wp_bind, (wp_calls _ _ _ _ (fun _ h => - cnt h (own_conn (tokenConn i)))); [|apply S3|].
  { intros t. apply wp_destroy_RcConnection. intros t' Ht h. rewrite Ht. lia. }
  intros _ m4 S4 _.
  apply (wp_calls _ _ _ _ (fun _ h => - cnt h (own_device (device i)))); [|apply S4|].
  { intros t. apply wp_destroy_RdmaDevice. intros t' Ht h. rewrite Ht. lia. }
  intros [] m5 S5 _. apply HQ. step_done; [lia|].
  unfold own_instance. rewrite !cnt_app. lia.
Qed.

Lemma wp_drop_inst id Q F g :
  Inv (hold_inst id F) g -> frame_ok F ->
  (forall g', Inv F g' -> g_current g' = g_current g -> Q tt g') ->
  wp bad (drop_inst id) Q g.
Proof.
  intros HI HF HQ. destruct (Inv_held _ _ id HI) as (i & n & Hi); [left|].
  destruct HI as [A1 A2 A3 A4 A5 A6 A7 _ A9]. revert A2 A6 A7. gsimpl. intros A2 A6 A7.
  assert (forall id', irefs id' g = current_refs id' g + cnt id' (f_insts F) +
                      (if decide (id' = id) then 1 else 0)) as A3'.
  { intros id'. rewrite A3. gsimpl. rewrite cnt_cons. lia. }
  clear A3. rename A3' into A3.
  pose proof (A4 _ _ _ Hi) as Hn.
  unfold drop_inst, read_inst. apply wp_bind, wp_bind, wp_get. rewrite Hi. apply wp_ret.
  destruct n as [|[|n]]; [lia| |].
  - apply wp_bind, wp_modify. apply wp_mem.
    apply wp_destroy_Instance; [done| |].
    { gsimpl. intros e. rewrite A2, (msum_delete _ _ _ _ Hi). cbn [fst].
      pose proof (cnt_nonneg e (f_ents F)).
      assert (0 <= msum (fun _ i => inst_refs e (fst i)) (delete id (g_insts g))).
      { apply msum_nonneg. intros. apply inst_refs_nonneg. }
      lia. }
    gsimpl. intros m' [B1 B2 B3 B4 B5]. apply HQ; [|done]. split; gsimpl; try done.
    + intros e. rewrite B2, A2, (msum_delete _ _ _ _ Hi). cbn [fst]. lia.
    + intros id'. specialize (A3 id'). unfold irefs, current_refs in *. gsimpl.
      destruct (decide (id' = id)) as [->|Hne].
      * rewrite lookup_delete_eq. rewrite Hi in A3. lia.
      * rewrite lookup_delete_ne by done. lia.
    + intros id' j k Hj. apply lookup_delete_Some in Hj as [_ Hj]. by eapply A4.
    + intros id' Hid. apply lookup_delete_None. right. by apply A5.
    + intros h. rewrite B3, A6, (msum_delete _ _ _ _ Hi). cbn [fst]. lia.
    + intros id' j k Hj. apply lookup_delete_Some in Hj as [_ Hj]. by eapply A9.
  - apply wp_modify, HQ; [|done]. split; gsimpl; try done.
    + intros e. rewrite (msum_update _ _ _ _ _ Hi). rewrite A2. cbn [fst]. lia.
    + intros id'. specialize (A3 id'). unfold irefs, current_refs in *. gsimpl.
      destruct (decide (id' = id)) as [->|Hne].
      * rewrite lookup_insert_eq. rewrite Hi in A3. lia.
      * rewrite lookup_insert_ne by done. lia.
    + intros id' j k. destruct (decide (id' = id)) as [->|Hne].
      * rewrite lookup_insert_eq. intros [= <- <-]. lia.
      * rewrite lookup_insert_ne by done. apply A4.
    + intros id' Hid. rewrite lookup_insert_ne; [by apply A5|]. intros <-. by rewrite A5 in Hi.
    + intros h. rewrite (msum_update _ _ _ _ _ Hi). rewrite A6. cbn [fst]. lia.
    + intros id' j k. destruct (decide (id' = id)) as [->|Hne].
      * rewrite lookup_insert_eq. intros [= <- <-]. by eapply A9.
      * rewrite lookup_insert_ne by done. apply A9.
Qed.

(** *** References to entries *)

Lemma wp_drop_held e Q F g :
  Inv (hold_ent e F) g -> (forall g', Inv F g' -> Q tt g') -> wp bad (mem (drop_ref e)) Q g.
Proof.
  intros HI HQ. pose proof (Inv_held_ent _ _ _ HI). apply wp_mem, wp_drop_ref; [apply HI|done|].
  intros m' Hs. apply HQ. rewrite <- (frame_eta F).
  apply (Inv_mem (hold_ent e F) g); [done|]. eapply mem_step_ext; [exact Hs|..]; [|done].
  intros e'. cbv beta. gsimpl. rewrite cnt_cons. unfold at_ref. lia.
Qed.

Lemma wp_get_entry e Q F g :
  Inv F g -> 0 < refs e (g_mem g) ->
  (forall b, Q b g) -> wp bad (mem (get_entry e)) Q g.
Proof.
  intros HI Hr HQ. apply refs_Some in Hr as (b & n & Hb). apply wp_mem. unfold get_entry.
  apply wp_bind. eapply wp_read_entry; [done|]. apply wp_ret.
  assert (g <| g_mem := g_mem g |> = g) as -> by by destruct g. apply HQ.
Qed.
End steps.
