(* ===== verification/Control.v ===== *)
(** * The control channel ([src/s3/control.h], [src/s3/control.cpp])

    The application's callbacks, which carry the token and the reply.  A
    callback is any program over the process's state: it can call the
    library again.  Its [ctx] argument is part of it. *)

From stdpp Require Import base numbers list.
From S2P Require Import Prelude.
From S2P Require Import Token.
From S2P Require Import State.

(** ** Definitions *)

(** [sendRequest] gets the token, and [recvReply] the reply buffer; the
    latter returns its status, the buffer as it leaves it, and [*replyLen],
    which is the buffer's size before the call.  Writing past the buffer is
    the application's error, so what's past it isn't looked at. *)
Record hipObjOps_t := {
  sendRequest : option (chars -> G Z);
  recvReply : option (chars -> G (Z * chars * Z));
}.

Record RdmaReply := { text : chars; status : RdmaReplyStatus }.

Definition injectRdmaToken (ops : hipObjOps_t) (token : chars) : G bool :=
  match sendRequest ops with
  | None => mret false
  | Some send => st ← send token; mret (st =? 0)
  end.

(** What [receiveRdmaReplyRaw()] makes of what the callback did *)
Definition received_reply (size : nat) (st : Z) (buf : chars) (replyLen : Z) : option RdmaReply :=
  if negb (st =? 0) then None
  else if Z.of_nat size <? replyLen then None
  else
    let received := take (Z.to_nat replyLen) (take size buf) in
    match decodeRdmaReply received with
    | None => None
    | Some status => Some {| text := received; status := status |}
    end.

Definition receiveRdmaReplyRaw (ops : hipObjOps_t) (replyBuf : chars) : G (option RdmaReply) :=
  match recvReply ops with
  | None => mret None
  | Some recv =>
      if bool_decide (replyBuf = []) then mret None
      else
        '(st, buf, replyLen) ← recv replyBuf;
        mret (received_reply (List.length replyBuf) st buf replyLen)
  end.

(** ** Lemmas *)

Lemma received_reply_spec size st buf replyLen r :
  received_reply size st buf replyLen = Some r ->
  st = 0 /\ replyLen <= Z.of_nat size /\ (List.length (text r) <= size)%nat /\
  text r `prefix_of` take size buf /\ decodeRdmaReply (text r) = Some (status r).
Proof.
  unfold received_reply. destruct (Z.eqb_spec st 0) as [->|]; [|done]. cbn [negb].
  destruct (Z.ltb_spec (Z.of_nat size) replyLen); [done|].
  destruct (decodeRdmaReply _) as [s|] eqn:Hd; [|done]. intros [= <-]. cbn [text status].
  split_and!; [done|done| |apply prefix_take|done].
  rewrite length_take. lia.
Qed.
