(* ===== verification/Api.v ===== *)
(** * The public functions ([src/hipobj.cpp], [include/hipobj.h])

    Each is a program over the process's state.  Here nothing throws, since
    no allocation fails: [ThrowingCode] has the same functions with what
    happens when one does, and with their [catch] clauses. *)

From Stdlib Require Import Ascii String.
From stdpp Require Import base numbers list gmap.
From S2P Require Import Prelude.
From S2P Require Import Parse.
From S2P Require Import Gid.
From S2P Require Import Token.
From S2P Require Import IbvCore.
From S2P Require Import World.
From S2P Require Import Verbs.
From S2P Require Import Topology.
From S2P Require Import Transport.
From S2P Require Import Pool.
From S2P Require Import Buffer.
From S2P Require Import Abandoned.
From S2P Require Import State.
From S2P Require Import Control.

(** ** Definitions *)

Definition HIPOBJ_VERSION_MAJOR : Z := 0.
Definition HIPOBJ_VERSION_MINOR : Z := 1.
Definition HIPOBJ_VERSION_PATCH : Z := 0.
Definition HIPOBJ_RDMA_OP_PUT : Z := 0.
Definition HIPOBJ_RDMA_OP_GET : Z := 1.
Definition HIPOBJ_SYNC_TO_HOST : Z := 0.
Definition HIPOBJ_SYNC_TO_DEVICE : Z := 1.

Definition kReplyBufLen : nat := 512.

(** [std::numeric_limits<uintptr_t>::max()] *)
Definition UINTPTR_MAX : Z := ity_max uint64_t.

(** *** Running on an instance's members *)

(** [fail] is what the function returns for an error, and [body] what it
    does with the instance, which it holds until it returns *)
Definition with_instance `{World} {A} (fail : hipObjError_t -> A) (body : nat -> G A) : G A :=
  instance ← currentInstance;
  match instance with
  | None => mret (fail (makeError hipObjNotInitialized))
  | Some id => r ← body id; _ ← drop_inst id; mret r
  end.

Definition on_buffers {A} (id : nat) (f : BufferMap -> HM (A * BufferMap)) : G A :=
  i ← get_inst id;
  '(a, b) ← mem (f (buffers i));
  _ ← update_inst id (fun i => i <| buffers := b |>);
  mret a.

Definition on_abandoned {A} (id : nat) (f : AbandonedCopies -> HM (A * AbandonedCopies)) : G A :=
  i ← get_inst id;
  '(x, a) ← mem (f (abandoned i));
  _ ← update_inst id (fun i => i <| abandoned := a |>);
  mret x.

(** The buffer that [find()] returns is held until [body] is done *)
Definition with_buffer `{World} {A} (id : nat) (devPtr : Z) (body : option nat -> G A) : G A :=
  i ← get_inst id;
  buf ← mem (find (buffers i) devPtr);
  r ← body buf;
  _ ← match buf with Some e => mem (drop_ref e) | None => mret tt end;
  mret r.

(** Runs [next] if [err] is a success *)
Definition if_ok {A} (fail : hipObjError_t -> A) (err : hipObjError_t) (next : G A) : G A :=
  if bool_decide (opError err = hipObjSuccess) then next else mret (fail err).

(** *** Checks *)

(** [off_t] and [size_t] values are numbers *)
Definition rangeInRegistration (offset size regSize : Z) : bool :=
  if (offset <? 0) || (regSize <? offset) then false
  else size <=? regSize - offset.

Definition checkRegistrationArgs (ptr size : Z) : hipObjError_t :=
  if (ptr =? 0) || (size =? 0) then makeError hipObjInvalidValue
  else if MAX_MR_SIZE <? size then makeError hipObjSizeTooLarge
  else if UINTPTR_MAX - ptr <? size then makeError hipObjInvalidValue
  else makeError hipObjSuccess.

Definition registrationError (result : RegisterResult) : hipObjError_t :=
  match result with
  | Registered => makeError hipObjSuccess
  | AlreadyRegistered => makeError hipObjBufAlreadyRegistered
  | RegisterFailed => makeError hipObjRdmaError
  end.

Definition acquireError (err : AcquireError) : hipObjError_t :=
  match err with
  | Closed => makeError hipObjNotInitialized
  | Busy => makeError hipObjBusy
  | NoConnections => makeError hipObjRdmaError
  end.

Definition checkBufferArgs (devPtr : Z) (buf : option BufEntry) (size offset : Z) : hipObjError_t :=
  if (devPtr =? 0) || (size =? 0) || (offset <? 0) then makeError hipObjInvalidValue
  else
    match buf with
    | None => makeError hipObjBufNotRegistered
    | Some buf =>
        if negb (rangeInRegistration offset size (buf_size buf)) then makeError hipObjInvalidValue
        else makeError hipObjSuccess
    end.

Definition buildRdmaToken (conn : RcConnection) (buf : BufEntry) (size offset : Z) : option RdmaToken :=
  match mr buf with
  | None => None
  | Some m =>
      if negb (rangeInRegistration offset size (buf_size buf)) then None
      else
        Some {| tok_qpNum := qp_num (rc_qp conn);
                tok_gid := toGid (dev_localGid (rc_device conn));
                tok_rkey := mr_rkey m;
                tok_remoteAddr := wrapu 64 (remoteAddr buf + offset);
                tok_length := size;
                tok_transport := RC;
                tok_portNum := dev_portNum (rc_device conn);
                tok_lid := 0 |}
  end.

(** *** Leases *)

(** The new lease is counted *)
Definition acquire_lease (id : nat) : G (nat + AcquireError) :=
  i ← get_inst id;
  g ← get_state;
  match acquire (t_leasesHeld g) (pool i) with
  | (Leased index, p) =>
      _ ← update_inst id (fun i => i <| pool := p |>);
      _ ← modify (fun g => g <| t_leasesHeld := t_leasesHeld g + 1 |>);
      mret (inl index)
  | (NotLeased err, _) => mret (inr err)
  | (MustWait, _) => halt Blocked
  end.

(** [~Lease()], of a lease that hasn't been moved from *)
Definition release_lease `{World} (id index : nat) (connected : bool) : G unit :=
  i ← get_inst id;
  p ← outside (release index connected (pool i));
  _ ← update_inst id (fun i => i <| pool := p |>);
  g ← get_state;
  if t_leasesHeld g <=? 0 then halt Undefined
  else modify (fun g => g <| t_leasesHeld := t_leasesHeld g - 1 |>).

(** [lease.connection()] *)
Definition get_connection (id index : nat) : G RcConnection :=
  i ← get_inst id;
  match lease_connection (pool i) index with
  | Some conn => mret conn
  | None => halt Undefined
  end.

(** *** Staging copies *)

(** How the wait for a copy ends: with what [hipEventQuery()] says, or at
    the deadline *)
Inductive StageOutcome := StageDone | StageFailed | StageTimedOut.

Fixpoint stage_loop `{World} (fuel : nat) (done deadline : Z) : W StageOutcome :=
  match fuel with
  | O => halt OutOfFuel
  | S fuel' =>
      q ← perform (eventQuery done);
      if q =? hipSuccess then mret StageDone
      else if negb (q =? hipErrorNotReady) then mret StageFailed
      else
        now ← perform clock_now;
        if deadline <=? now then mret StageTimedOut
        else _ ← perform (sleep_for 1); stage_loop fuel' done deadline
  end.

(** Each turn that goes on takes a millisecond *)
Definition stage_fuel (ms : Z) : nat := S (Z.to_nat ms).

(** What happens to the slot that [reserve()] set aside *)
Definition give_back_slot (id : nat) : G unit :=
  update_inst id (fun i => i <| abandoned := unreserve (abandoned i) |>).

Definition stageCopyWithDeadline `{World} (id buf : nat) (dst src size : Z) (kind : hipMemcpyKind)
    : G hipObjError_t :=
  _ ← update_inst id (fun i => i <| abandoned := reserve (abandoned i) |>);
  '(err, done) ← outside (perform eventCreate);
  if negb (err =? hipSuccess) then
    _ ← give_back_slot id; mret (makeError hipObjInternalError)
  else
    err ← outside (perform (memcpyAsync dst src size kind));
    err ← (if err =? hipSuccess then outside (perform (eventRecord done)) else mret err);
    if negb (err =? hipSuccess) then
      _ ← outside (HipEventDeleter done);
      _ ← give_back_slot id;
      mret (makeError hipObjInternalError)
    else
      i ← get_inst id;
      let ms := stageTimeout (options i) in
      now ← outside (perform clock_now);
      outcome ← outside (stage_loop (stage_fuel ms) done (now + ms));
      match outcome with
      | StageDone =>
          _ ← outside (HipEventDeleter done); _ ← give_back_slot id;
          mret (makeError hipObjSuccess)
      | StageFailed =>
          _ ← outside (HipEventDeleter done); _ ← give_back_slot id;
          mret (makeError hipObjInternalError)
      | StageTimedOut =>
          _ ← mem (copy_ref buf);
          _ ← update_inst id (fun i => i <| abandoned := add buf done (abandoned i) |>);
          _ ← outside (perform (print_stderr (StagingTimeout kind size ms)));
          mret (makeError hipObjInternalError)
      end.

Definition checkNoAbandonedCopy `{World} (id buf : nat) : G hipObjError_t :=
  e ← mem (get_entry buf);
  if hostBuf e =? 0 then mret (makeError hipObjSuccess)
  else
    r ← on_abandoned id (running buf);
    mret (makeError (if r : bool then hipObjBusy else hipObjSuccess)).

Definition stageToDevice `{World} (id : nat) (devPtr : Z) (buf : nat) (size offset : Z) : G hipObjError_t :=
  e ← mem (get_entry buf);
  if hostBuf e =? 0 then mret (makeError hipObjSuccess)
  else if negb (rangeInRegistration offset size (buf_size e)) then mret (makeError hipObjInvalidValue)
  else stageCopyWithDeadline id buf (devPtr + offset) (hostBuf e + offset) size hipMemcpyHostToDevice.

Definition stageToHost `{World} (id : nat) (devPtr : Z) (buf : nat) (size offset : Z) : G hipObjError_t :=
  e ← mem (get_entry buf);
  if hostBuf e =? 0 then mret (makeError hipObjSuccess)
  else if negb (rangeInRegistration offset size (buf_size e)) then mret (makeError hipObjInvalidValue)
  else stageCopyWithDeadline id buf (hostBuf e + offset) (devPtr + offset) size hipMemcpyDeviceToHost.

(** *** Transfers *)

(** Whether it succeeded, and whether the lease was connected *)
Definition finishTransferAfterReply `{World} `{BuildConfig} (id index : nat) (reply : chars)
    (requiresDeviceSync : bool) (ms : Z) : G (bool * bool) :=
  let finish :=
    conn ← get_connection id index;
    ok ← outside (pollCompletion (poll_fuel ms) conn None ms);
    if negb ok then mret false
    else if negb requiresDeviceSync then mret true
    else st ← outside (perform deviceSynchronize); mret (st =? hipSuccess) in
  match parsePeerTokenFromReply reply with
  | Some peerToken =>
      conn ← get_connection id index;
      ok ← outside (connectRcPeer conn peerToken);
      if negb ok then mret (false, true) else r ← finish; mret (r, true)
  | None => r ← finish; mret (r, false)
  end.

(** The transfer, once it has a lease: what it returns, and whether the
    lease was connected *)
Definition leased_transfer `{World} `{BuildConfig} (id index buf : nat) (size offset : Z)
    (ops : hipObjOps_t) : G (hipObjError_t * bool) :=
  conn ← get_connection id index;
  e ← mem (get_entry buf);
  match buildRdmaToken conn e size offset with
  | None => mret (makeError hipObjRdmaError, false)
  | Some token =>
      sent ← injectRdmaToken ops (encodeRdmaToken token);
      if negb sent then mret (makeError hipObjS3Error, false)
      else
        reply ← receiveRdmaReplyRaw ops (replicate kReplyBufLen (chr 0));
        match reply with
        | None => mret (makeError hipObjS3Error, false)
        | Some reply =>
            if negb (bool_decide (status reply = Success)) then mret (makeError hipObjS3Error, false)
            else
              e ← mem (get_entry buf);
              i ← get_inst id;
              '(ok, connected) ← finishTransferAfterReply id index (text reply) (isDmabuf e)
                                   (pollTimeout (options i));
              if negb ok then mret (makeError hipObjRdmaError, connected)
              else mret (makeError hipObjSuccess, connected)
        end
  end.

Definition runRdmaTransfer `{World} `{BuildConfig} (id buf : nat) (size offset : Z)
    (ops : hipObjOps_t) : G hipObjError_t :=
  acquired ← acquire_lease id;
  match acquired with
  | inr err => mret (acquireError err)
  | inl index =>
      '(err, connected) ← leased_transfer id index buf size offset ops;
      _ ← release_lease id index connected;
      mret err
  end.

(** *** The public functions *)

Definition hipObjGetErrorString (err : hipObjOpError_t) : chars :=
  match err with
  | hipObjSuccess => lit "Success"
  | hipObjInvalidValue => lit "Invalid value"
  | hipObjNotInitialized => lit "Not initialized"
  | hipObjAlreadyInitialized => lit "Already initialized"
  | hipObjRdmaError => lit "RDMA error"
  | hipObjS3Error => lit "S3 error"
  | hipObjBufNotRegistered => lit "Buffer not registered"
  | hipObjBufAlreadyRegistered => lit "Buffer already registered"
  | hipObjNicNotFound => lit "NIC not found"
  | hipObjDmabufNotSupported => lit "dmabuf not supported"
  | hipObjSizeTooLarge => lit "Size too large"
  | hipObjInternalError => lit "Internal error"
  | hipObjBusy => lit "Busy"
  end.

Definition hipObjInit `{World} `{NicTopology} (config : option hipObjConfig_t) : G hipObjError_t :=
  match config with
  | None => mret (makeError hipObjInvalidValue)
  | Some config =>
      if negb (flags config =? 0) || (gpuDevice config <? -1) then mret (makeError hipObjInvalidValue)
      else
        have ← haveInstance;
        if have : bool then mret (makeError hipObjAlreadyInitialized)
        else
          platform ← systemPlatform;
          match platform with
          | None => mret (makeError hipObjRdmaError)
          | Some _ =>
              opts ← outside (parseOptions (fun name => perform (getenv name)));
              initWith config opts
          end
  end.

Definition hipObjShutdown `{World} : G hipObjError_t :=
  _ ← shutdownInstance; mret (makeError hipObjSuccess).

Definition hipObjBufRegister `{World} (devPtr size : Z) : G hipObjError_t :=
  with_instance id (fun inst =>
    if_ok id (checkRegistrationArgs devPtr size) (
      valid ← outside (isValidDeviceRange devPtr size);
      if negb valid then mret (makeError hipObjInvalidValue)
      else
        i ← get_inst inst;
        r ← on_buffers inst (fun b => registerBuffer b devPtr size (dev_pd (device i)));
        mret (registrationError r))).

Definition hipObjBufRegisterHost `{World} (hostPtr size : Z) : G hipObjError_t :=
  with_instance id (fun inst =>
    if_ok id (checkRegistrationArgs hostPtr size) (
      i ← get_inst inst;
      r ← on_buffers inst (fun b => registerHostBuffer b hostPtr size (dev_pd (device i)));
      mret (registrationError r))).

Definition hipObjBufDeregister `{World} (devPtr : Z) : G hipObjError_t :=
  with_instance id (fun inst =>
    if devPtr =? 0 then mret (makeError hipObjInvalidValue)
    else
      _ ← on_abandoned inst (fun a => a ← reclaim a; mret (tt, a));
      result ← on_buffers inst (fun b => deregisterBuffer b devPtr);
      mret (match result with
            | Deregistered => makeError hipObjSuccess
            | NotRegistered => makeError hipObjBufNotRegistered
            | DeregisterBusy => makeError hipObjBusy
            end)).

(** The checks that the buffer calls share, and then [next], with the
    buffer they're about *)
Definition with_checked_buffer `{World} {A} (fail : hipObjError_t -> A) (inst : nat)
    (devPtr size offset : Z) (next : nat -> G A) : G A :=
  with_buffer inst devPtr (fun buf =>
    match buf with
    | None => mret (fail (checkBufferArgs devPtr None size offset))
    | Some b =>
        e ← mem (get_entry b);
        if_ok fail (checkBufferArgs devPtr (Some e) size offset) (
          err ← checkNoAbandonedCopy inst b;
          if_ok fail err (next b))
    end).

(** The test on a transfer's callbacks: there has to be an [ops], with both
    set *)
Definition with_ops (ops : option hipObjOps_t) (next : hipObjOps_t -> G hipObjError_t)
    : G hipObjError_t :=
  match ops with
  | None => mret (makeError hipObjInvalidValue)
  | Some o =>
      if bool_decide (sendRequest o = None) || bool_decide (recvReply o = None)
      then mret (makeError hipObjInvalidValue)
      else next o
  end.

Definition hipObjGet `{World} `{BuildConfig} (devPtr size offset : Z) (ops : option hipObjOps_t)
    : G hipObjError_t :=
  with_instance id (fun inst =>
    with_ops ops (fun ops =>
      with_checked_buffer id inst devPtr size offset (fun buf =>
        err ← runRdmaTransfer inst buf size offset ops;
        if_ok id err (stageToDevice inst devPtr buf size offset)))).

Definition hipObjPut `{World} `{BuildConfig} (devPtr size offset : Z) (ops : option hipObjOps_t)
    : G hipObjError_t :=
  with_instance id (fun inst =>
    with_ops ops (fun ops =>
      with_checked_buffer id inst devPtr size offset (fun buf =>
        err ← stageToHost inst devPtr buf size offset;
        if_ok id err (runRdmaTransfer inst buf size offset ops)))).

Definition hipObjBufSync `{World} (devPtr size offset direction : Z) : G hipObjError_t :=
  with_instance id (fun inst =>
    if negb (direction =? HIPOBJ_SYNC_TO_HOST) && negb (direction =? HIPOBJ_SYNC_TO_DEVICE)
    then mret (makeError hipObjInvalidValue)
    else
      with_checked_buffer id inst devPtr size offset (fun buf =>
        if direction =? HIPOBJ_SYNC_TO_DEVICE then stageToDevice inst devPtr buf size offset
        else stageToHost inst devPtr buf size offset)).

(** What it returns, and [*outToken] when it's set: the digits and a NUL.
    [outToken] is whether the pointer isn't null. *)
Definition hipObjGetRdmaToken `{World} (devPtr size op : Z) (outToken : bool)
    : G (hipObjError_t * option chars) :=
  let fail e := (e, None) in
  with_instance fail (fun inst =>
    if negb outToken || (negb (op =? HIPOBJ_RDMA_OP_PUT) && negb (op =? HIPOBJ_RDMA_OP_GET))
    then mret (fail (makeError hipObjInvalidValue))
    else
      with_checked_buffer fail inst devPtr size 0 (fun buf =>
        i ← get_inst inst;
        e ← mem (get_entry buf);
        mret (match buildRdmaToken (tokenConn i) e size 0 with
              | None => fail (makeError hipObjRdmaError)
              | Some token => (makeError hipObjSuccess, Some (encodeRdmaTokenHex token))
              end))).

(** The token's memory is the caller's, so it isn't in the state; [token] is
    whether the pointer isn't null *)
Definition hipObjPutRdmaToken (token : bool) : hipObjError_t :=
  if negb token then makeError hipObjInvalidValue else makeError hipObjSuccess.

(** What it returns, and [*httpCode] when it's set *)
Definition hipObjParseRdmaReply (reply : option chars) (httpCode : bool) : hipObjError_t * option Z :=
  match reply with
  | None => (makeError hipObjInvalidValue, None)
  | Some reply =>
      if negb httpCode then (makeError hipObjInvalidValue, None)
      else
        match parseRdmaReplyHttpCode reply with
        | None => (makeError hipObjInvalidValue, None)
        | Some code => (makeError hipObjSuccess, Some code)
        end
  end.

(** What it returns, and the caller's buffer afterwards; [token] is the
    memory at the pointer *)
Definition hipObjTokenClientNic (token : option chars) (nicIp : option chars)
    : hipObjError_t * option chars :=
  match token, nicIp with
  | Some token, Some nicIp =>
      if bool_decide (nicIp = []) then (makeError hipObjInvalidValue, Some nicIp)
      else
        let '(ok, nicIp) := parseClientNicFromTokenHex (cStringViewN token (kRdmaTokenHexLen + 1)) nicIp in
        (makeError (if ok : bool then hipObjSuccess else hipObjInvalidValue), Some nicIp)
  | _, _ => (makeError hipObjInvalidValue, nicIp)
  end.

(** The array it fills, of 32 characters *)
Definition version_array : chars :=
  copy_into (take 31 (to_string HIPOBJ_VERSION_MAJOR ++ lit "." ++ to_string HIPOBJ_VERSION_MINOR ++
                      lit "." ++ to_string HIPOBJ_VERSION_PATCH))
            (replicate 32 (chr 0)).
Definition hipObjGetVersionString : chars := cStringView version_array.

(** What it stores through the pointers that aren't null *)
Definition hipObjGetVersion (major minor patch : bool) : option Z * option Z * option Z :=
  (if major then Some HIPOBJ_VERSION_MAJOR else None,
   if minor then Some HIPOBJ_VERSION_MINOR else None,
   if patch then Some HIPOBJ_VERSION_PATCH else None).
