(* ===== verification/Safety.v ===== *)
(** * Every program of an application is safe

    An application is any program that's built of the public functions, of
    calls of its own, and of callbacks that are such programs themselves.
    None of them can bring the library to wait for itself, to use what it
    has released, to release anything twice, or to lose track of what it has
    opened. *)

From Stdlib Require Import Ascii String.
From stdpp Require Import base numbers list gmap.
From S2P Require Import Prelude.
From S2P Require Import Parse.
From S2P Require Import Token.
From S2P Require Import IbvCore.
From S2P Require Import World.
From S2P Require Import Verbs.
From S2P Require Import Topology.
From S2P Require Import Transport.
From S2P Require Import Pool.
From S2P Require Import Buffer.
From S2P Require Import Abandoned.
From S2P Require Import State.
From S2P Require Import Invariant.
From S2P Require Import Control.
From S2P Require Import Api.

(** ** Definitions *)

(** Calls that leave open what the library opens as it was *)
Definition own_work {A} (m : W A) : Prop := forall bad, neutral bad m.

(** The programs of an application.  [app_own] is work of its own, which
    may do anything but open or release the library's objects; [app_keep]
    and [app_recall] are its own memory, which its callbacks share. *)
Inductive application_program `{World} `{BuildConfig} `{NicTopology} : forall A : Type, G A -> Prop :=
| app_ret {A} (a : A) : application_program A (mret a)
| app_bind {A B} (m : G A) (k : A -> G B) :
    application_program A m -> (forall a, application_program B (k a)) ->
    application_program B (m ≫= k)
| app_own {A} (m : W A) : own_work m -> application_program A (outside m)
| app_keep f : application_program unit (modify (fun g => g <| g_app := f (g_app g) |>))
| app_recall : application_program chars (g ← get_state; mret (g_app g))
| app_init config : application_program _ (hipObjInit config)
| app_shutdown : application_program _ hipObjShutdown
| app_register devPtr size : application_program _ (hipObjBufRegister devPtr size)
| app_register_host hostPtr size : application_program _ (hipObjBufRegisterHost hostPtr size)
| app_deregister devPtr : application_program _ (hipObjBufDeregister devPtr)
| app_get devPtr size offset ops :
    (forall o send token, ops = Some o -> sendRequest o = Some send ->
       application_program _ (send token)) ->
    (forall o recv buf, ops = Some o -> recvReply o = Some recv ->
       application_program _ (recv buf)) ->
    application_program _ (hipObjGet devPtr size offset ops)
| app_put devPtr size offset ops :
    (forall o send token, ops = Some o -> sendRequest o = Some send ->
       application_program _ (send token)) ->
    (forall o recv buf, ops = Some o -> recvReply o = Some recv ->
       application_program _ (recv buf)) ->
    application_program _ (hipObjPut devPtr size offset ops)
| app_sync devPtr size offset direction :
    application_program _ (hipObjBufSync devPtr size offset direction)
| app_token devPtr size op outToken :
    application_program _ (hipObjGetRdmaToken devPtr size op outToken).

(** [m] preserves the invariant, with the calls in progress holding [F], and
    only stops for a reason that [bad] allows *)
Definition preserves (bad : stop -> Prop) (F : Frame) {A} (m : G A) : Prop :=
  forall g, Inv F g -> wp bad m (fun _ g' => Inv F g') g.

(** The same, when no other thread has a lease *)
Definition keeps (bad : stop -> Prop) (F : Frame) {A} (m : G A) : Prop :=
  f_elsewhere F = [] -> preserves bad F m.

(** The library as it's built: with the topology that reads sysfs *)
Definition is_application `{World} `{BuildConfig} {A} (m : G A) : Prop :=
  @application_program _ _ SysfsTopology A m.

(** Only the loops that the model gives fuel may stop *)
Definition out_of_fuel (e : stop) : Prop := e = OutOfFuel.
Definition never (e : stop) : Prop := False.

(** A program to try things with: it registers a buffer, and reads an object
    into it, with a callback that tries to unregister it meanwhile *)
Definition demo_config : hipObjConfig_t :=
  {| endpoint := None; region := None; accessKey := None; secretKey := None; flags := 0;
     gpuDevice := -1; nicHint := None |}.

Definition demo_send `{World} (token : chars) : G Z :=
  e ← hipObjBufDeregister 65536; mret (if bool_decide (opError e = hipObjBusy) then 0 else 1).
Definition demo_recv `{World} (buf : chars) : G (Z * chars * Z) :=
  _ ← outside (perform (application 7)); mret (0, copy_into (lit "200") buf, 3).
Definition demo_ops `{World} : hipObjOps_t :=
  {| sendRequest := Some demo_send; recvReply := Some demo_recv |}.

Definition demo `{World} `{BuildConfig} : G (list hipObjOpError_t) :=
  a ← @hipObjInit _ SysfsTopology (Some demo_config);
  b ← hipObjBufRegister 65536 4096;
  c ← hipObjGet 65536 4096 0 (Some demo_ops);
  mret (opError <$> [a; b; c]).

#[local] Instance demo_build : BuildConfig := {| HIPOBJ_BNXT := true; HIPOBJ_IONIC := true |}.

(** The wait for a copy, from a clock that's read at its start *)
Definition stage_wait `{World} (done ms : Z) : W StageOutcome :=
  now ← perform clock_now; stage_loop (stage_fuel ms) done (now + ms).

(** ** Lemmas *)

Lemma own_call `{World} {A} (c : call A) : (forall r h, delta h (Ev c r) = 0) -> own_work (perform c).
Proof. intros Hc bad t. wstep. intros h. cbn [bal]. by rewrite Hc. Qed.

(** *** Programs that keep the invariant *)

Section keeps.
Context `{E : World} (bad : stop -> Prop) (F : Frame).

Lemma keeps_of {A} (m : G A) : preserves bad F m -> keeps bad F m.
Proof. by intros Hm _. Qed.

Lemma keeps_ret {A} (a : A) : keeps bad F (mret a).
Proof. intros Hal g HI. by apply wp_ret. Qed.

Lemma keeps_bind {A B} (m : G A) (k : A -> G B) :
  keeps bad F m -> (forall a, keeps bad F (k a)) -> keeps bad F (m ≫= k).
Proof.
  intros Hm Hk Hal g HI. apply wp_bind. eapply wp_mono; [by apply Hm|]. intros a g' HI'. by apply Hk.
Qed.

Lemma preserves_outside {A} (m : W A) : neutral bad m -> preserves bad F (outside m).
Proof. intros Hm g HI. by eapply wp_outside_neutral. Qed.

Lemma preserves_get_inst id : id ∈ f_insts F -> preserves bad F (get_inst id).
Proof.
  intros Hid g HI. destruct (Inv_held _ _ _ HI Hid) as (i & n & Hi). by eapply wp_get_inst.
Qed.

Lemma preserves_get_entry e : e ∈ f_ents F -> preserves bad F (mem (get_entry e)).
Proof.
  intros He g HI. apply (wp_get_entry _ _ _ F); [done| |done].
  rewrite (inv_refs _ _ HI). apply cnt_elem in He.
  enough (0 <= msum (fun _ i => inst_refs e (fst i)) (g_insts g)) by lia.
  apply msum_nonneg. intros. apply inst_refs_nonneg.
Qed.

Lemma preserves_get_connection id index : (id, index) ∈ f_leases F -> preserves bad F (get_connection id index).
Proof.
  intros Hl g HI. assert ((id, index) ∈ all_leases F) as Ha by (apply elem_of_app; by left).
  pose proof (proj1 (inv_frame _ _ HI) _ Ha) as Hid. cbn [fst] in Hid.
  destruct (Inv_held _ _ _ HI Hid) as (i & n & Hi). unfold get_connection. apply wp_bind.
  eapply wp_get_inst; [done|].
  destruct (inst_pool _ _ _ (inv_insts _ _ HI _ _ _ Hi)) as [_ Hs _ _].
  destruct (proj1 (Hs index)) as [c ->]; [|by apply wp_ret].
  apply elem_of_app. right. unfold leased, leased_of. apply list_elem_of_In, in_flat_map.
  exists (id, index). split; [by apply list_elem_of_In|]. cbn. rewrite decide_True by done. by left.
Qed.

Lemma keeps_if_ok {A} (fail : hipObjError_t -> A) err next :
  keeps bad F next -> keeps bad F (if_ok fail err next).
Proof. intros Hn. unfold if_ok. case_bool_decide; [done|apply keeps_ret]. Qed.
End keeps.

Lemma print_neutral `{E : World} bad d : neutral bad (perform (print_stderr d)).
Proof. intros t. wrun. bal_solve. Qed.

(** *** Operations on an instance *)

Section at_inst.
Context `{E : World} (bad : stop -> Prop) (g : Process) (id n : nat).

Lemma wp_update_at f i m Q :
  Q tt (at_inst g id n (f i) m) -> wp bad (update_inst id f) Q (at_inst g id n i m).
Proof.
  intros HQ. eapply wp_update_inst; [apply lookup_insert_eq|].
  unfold at_inst in *. cbn in *. by rewrite insert_insert_eq.
Qed.

Lemma wp_get_at i m Q : Q i (at_inst g id n i m) -> wp bad (get_inst id) Q (at_inst g id n i m).
Proof. intros HQ. eapply wp_get_inst; [apply lookup_insert_eq|done]. Qed.

Lemma wp_mem_at {A} (x : HM A) i m Q :
  wp bad x (fun a m' => Q a (at_inst g id n i m')) m -> wp bad (mem x) Q (at_inst g id n i m).
Proof. intros HQ. by apply wp_mem. Qed.

Lemma wp_on_buffers_at {A} (f : BufferMap -> HM (A * BufferMap)) i m Q :
  wp bad (f (buffers i))
     (fun r m' => Q (fst r) (at_inst g id n (i <| buffers := snd r |>) m')) m ->
  wp bad (on_buffers id f) Q (at_inst g id n i m).
Proof.
  intros HQ. unfold on_buffers. apply wp_bind, wp_get_at, wp_bind, wp_mem_at.
  eapply wp_mono; [exact HQ|]. cbv beta. intros [a b] m' H. apply wp_bind, wp_update_at, wp_ret, H.
Qed.

Lemma wp_on_abandoned_at {A} (f : AbandonedCopies -> HM (A * AbandonedCopies)) i m Q :
  wp bad (f (abandoned i))
     (fun r m' => Q (fst r) (at_inst g id n (i <| abandoned := snd r |>) m')) m ->
  wp bad (on_abandoned id f) Q (at_inst g id n i m).
Proof.
  intros HQ. unfold on_abandoned. apply wp_bind, wp_get_at, wp_bind, wp_mem_at.
  eapply wp_mono; [exact HQ|]. cbv beta. intros [a b] m' H. apply wp_bind, wp_update_at, wp_ret, H.
Qed.
End at_inst.

Lemma cnt_own_instance h i :
  cnt h (own_instance i) = cnt h (own_device (device i)) + cnt h (own_conn (tokenConn i)) +
    cnt h (own_slots (slots_ (pool i))) + cnt h (own_copies (copies_ (abandoned i))).
Proof. unfold own_instance. rewrite !cnt_app. lia. Qed.

(** Looks up the fields of a changed instance *)
Ltac isimpl :=
  cbn [set_field options config device tokenConn pool buffers abandoned copies_ capacity_ reserved_
       fst snd].

Section operations.
Context `{E : World} `{B : BuildConfig} (bad : stop -> Prop) (F : Frame).

Lemma preserves_on_buffers {A} id (f : BufferMap -> HM (A * BufferMap)) :
  id ∈ f_insts F ->
  (forall b m Q, mem_ok m -> map_alive b m ->
     (forall r b' m', map_step none m b m' b' -> Q (r, b') m') -> wp bad (f b) Q m) ->
  preserves bad F (on_buffers id f).
Proof.
  intros Hid Hf g HI. destruct (Inv_held _ _ _ HI Hid) as (i & n & Hi).
  rewrite (at_inst_start _ _ _ _ Hi) at 1. apply wp_on_buffers_at.
  destruct (Inv_alive _ _ _ _ _ HI Hi) as [Ha _].
  apply Hf; [apply HI|done|]. intros r b m' [Hm Hb _]. cbn [fst snd].
  destruct (inv_insts _ _ HI _ _ _ Hi) as [K1 K2 K3 K4].
  apply Inv_at with i; [done..| |split; cbn; auto].
  eapply mem_step_ext; [exact Hm|..].
  - intros e. unfold inst_refs, none. cbn. lia.
  - intros h. rewrite !cnt_own_instance. isimpl. unfold none. lia.
Qed.

Lemma preserves_on_abandoned {A} id (f : AbandonedCopies -> HM (A * AbandonedCopies)) :
  id ∈ f_insts F ->
  (forall a m Q, mem_ok m -> (forall e, copy_refs e (copies_ a) <= refs e m) ->
     (forall r a' m',
        mem_step (fun e => copy_refs e (copies_ a') - copy_refs e (copies_ a))
                 (fun h => cnt h (own_copies (copies_ a')) - cnt h (own_copies (copies_ a))) m m' ->
        capacity_ a' = capacity_ a -> reserved_ a' = reserved_ a -> copies_size a' <= copies_size a ->
        Q (r, a') m') -> wp bad (f a) Q m) ->
  preserves bad F (on_abandoned id f).
Proof.
  intros Hid Hf g HI. destruct (Inv_held _ _ _ HI Hid) as (i & n & Hi).
  rewrite (at_inst_start _ _ _ _ Hi) at 1. apply wp_on_abandoned_at.
  destruct (Inv_alive _ _ _ _ _ HI Hi) as [_ Hc].
  apply Hf; [apply HI|done|]. intros r a m' Hm Hcap Hres Hsz. cbn [fst snd].
  destruct (inv_insts _ _ HI _ _ _ Hi) as [K1 K2 K3 K4].
  apply Inv_at with i; [done..| |].
  - eapply mem_step_ext; [exact Hm|..].
    + intros e. unfold inst_refs. cbn. lia.
    + intros h. rewrite !cnt_own_instance. isimpl. lia.
  - split; cbn; [done|done| |congruence]. unfold roomy in *. rewrite Hcap, Hres. lia.
Qed.

(** *** Leases *)

(** A call waits only while another thread has a lease *)
Lemma wp_acquire_lease id Q g :
  Inv F g -> id ∈ f_insts F ->
  (f_leases F = [] -> f_elsewhere F <> [] -> bad Blocked) ->
  (forall err, Q (inr err) g) ->
  (forall index g', Inv (hold_lease id index F) g' -> Q (inl index) g') ->
  wp bad (acquire_lease id) Q g.
Proof.
  intros HI Hid HB HE HL. destruct (Inv_held _ _ _ HI Hid) as (i & n & Hi).
  destruct (inv_insts _ _ HI _ _ _ Hi) as [Hp K2 K3 K4].
  unfold acquire_lease. apply wp_bind. eapply wp_get_inst; [done|]. apply wp_bind, wp_get.
  destruct (acquire (t_leasesHeld g) (pool i)) as [[index|err|] p] eqn:Ha.
  - destruct (acquire_ok _ _ _ _ _ Hp Ha) as (Hok & _ & Hsl & _).
    rewrite (at_inst_start _ _ _ _ Hi) at 1. apply wp_bind, wp_update_at.
    apply wp_bind, wp_modify, wp_ret, HL.
    assert (t_leasesHeld g + 1 = Z.of_nat (List.length (f_leases (hold_lease id index F)))) as Hlen.
    { rewrite (inv_leases _ _ HI). cbn. lia. }
    change (t_leasesHeld (at_inst _ _ _ _ _)) with (t_leasesHeld g). rewrite Hlen.
    apply (Inv_change F (hold_lease id index F) g id i); try done.
    + by apply frame_ok_hold_lease; [apply HI|].
    + intros id' Hne. by rewrite leased_hold, decide_False by congruence.
    + eapply mem_step_ext; [apply mem_step_refl, HI|..]; intros x; unfold none; cbv beta; gsimpl.
      * unfold inst_refs. isimpl.
        lia.
      * rewrite !cnt_own_instance. isimpl. rewrite Hsl. lia.
    + rewrite leased_hold, decide_True by done. by split.
  - apply wp_ret, HE.
  - destruct (acquire_waits _ _ _ _ Hp Ha) as [H0 Hl]. rewrite (inv_leases _ _ HI) in H0.
    assert (f_leases F = []) as Hn by (destruct (f_leases F); [done|simpl in H0; lia]).
    apply wp_halt, HB; [done|]. intros He. apply Hl. unfold leased, all_leases. by rewrite Hn, He.
Qed.

Lemma wp_release_lease id index connected Q g :
  Inv (hold_lease id index F) g -> frame_ok F -> (forall g', Inv F g' -> Q tt g') ->
  wp bad (release_lease id index connected) Q g.
Proof.
  intros HI HF HQ. assert (id ∈ f_insts F) as Hid.
  { apply (proj1 (inv_frame _ _ HI) (id, index)). by left. }
  destruct (Inv_held _ _ id HI) as (i & n & Hi); [done|].
  destruct (inv_insts _ _ HI _ _ _ Hi) as [Hp K2 K3 K4].
  rewrite leased_hold, decide_True in Hp by done.
  unfold release_lease. rewrite (at_inst_start _ _ _ _ Hi) at 1.
  apply wp_bind, wp_get_at, wp_bind, wp_mem_at. unfold calls. apply wp_zoom.
  eapply wp_mono; [by apply (release_spec _ [])|]. cbv beta. intros p t (Hb & Hok & _).
  apply wp_bind, wp_update_at, wp_bind, wp_get.
  change (t_leasesHeld (at_inst _ _ _ _ _)) with (t_leasesHeld g).
  rewrite (inv_leases _ _ HI). cbn [hold_lease f_leases List.length set_field].
  destruct (Z.leb_spec (Z.of_nat (S (List.length (f_leases F)))) 0); [lia|].
  apply wp_modify, HQ. change (t_leasesHeld (at_inst _ _ _ _ _)) with (t_leasesHeld g).
  rewrite (inv_leases _ _ HI). cbn [hold_lease f_leases List.length set_field].
  replace (_ - 1) with (Z.of_nat (List.length (f_leases F))) by lia.
  change (at_inst g id n i _) with (at_inst g id n i (g_mem g)).
  apply (Inv_change (hold_lease id index F) F g id i); try done.
  - intros id' Hne. by rewrite leased_hold, decide_False by congruence.
  - split; gsimpl.
    + destruct (inv_mem _ _ HI). by split.
    + intros e. unfold refs, inst_refs. isimpl. cbn [m_ents set_field]. lia.
    + intros h. rewrite unowned_calls, Hb, !cnt_own_instance. isimpl. lia.
    + done.
    + intros e b k _ He. by exists b, k.
Qed.

(** *** Staging copies *)

Lemma calls_step m t :
  mem_ok m -> (forall h, bal h t = bal h (m_trace m)) -> mem_step none none m (m <| m_trace := t |>).
Proof.
  intros [A1 A2 A3] Hb. split; cbn; try done.
  - intros e. unfold refs, none. cbn. lia.
  - intros h. rewrite unowned_calls, Hb. unfold none. lia.
  - intros e b k _ He. by exists b, k.
Qed.

Hypothesis Hclock : bad OutOfFuel \/ SteadyClock E.

Lemma stage_loop_neutral fuel done deadline t :
  bad OutOfFuel \/ (SteadyClock E /\ deadline - clock_low t < Z.of_nat fuel) ->
  (0 < fuel)%nat ->
  wp bad (stage_loop fuel done deadline) (fun _ t' => forall h, bal h t' = bal h t) t.
Proof.
  revert t. induction fuel as [|fuel IH]; intros t Hf Hpos; [lia|]. cbn [stage_loop].
  wstep. wstep. wstep; [wstep; bal_solve|]. wstep; [wstep; bal_solve|].
  wstep. apply wp_perform_eq. set (t1 := Ev (eventQuery done) r :: t).
  set (now := respond t1 clock_now). wstep; [wstep; subst t1; bal_solve|].
  wstep. wstep. set (t2 := Ev _ _ :: _). destruct (decide (fuel = O)) as [->|Hne].
  { destruct Hf as [Hf|[Hs Hf]]; [by apply wp_halt|]. pose proof (steady t1) as Hst. bools.
    subst t1 now. cbn [clock_low] in *. lia. }
  eapply wp_mono; [apply IH; [|lia]|].
  - destruct Hf as [Hf|[Hs Hf]]; [by left|right]. split; [done|]. pose proof (steady t1) as Hst.
    subst t2 t1 now. cbn [clock_low] in *. lia.
  - cbv beta. intros _ t3 H3 h. rewrite H3. subst t2 t1. by cbn [bal delta].
Qed.

Lemma wp_reserve id Q g :
  Inv F g -> id ∈ f_insts F -> (forall g', Inv (hold_slot id F) g' -> Q tt g') ->
  wp bad (update_inst id (fun i => i <| abandoned := reserve (abandoned i) |>)) Q g.
Proof.
  intros HI Hid HQ. destruct (Inv_held _ _ _ HI Hid) as (i & n & Hi).
  destruct (inv_insts _ _ HI _ _ _ Hi) as [K1 K2 K3 K4].
  rewrite (at_inst_start _ _ _ _ Hi) at 1. apply wp_update_at, HQ.
  assert (copies_ (reserve (abandoned i)) = copies_ (abandoned i)) as Hc by (unfold reserve; by case_match).
  apply (Inv_change_at F (hold_slot id F) g id i); try done.
  - by apply frame_ok_hold_slot; [apply HI|].
  - intros id' Hne. gsimpl. rewrite cnt_cons, decide_False by done. lia.
  - eapply mem_step_ext; [apply mem_step_refl, HI|..]; intros x; unfold none; cbv beta; gsimpl.
    + unfold inst_refs. isimpl. rewrite Hc. lia.
    + rewrite !cnt_own_instance. isimpl. rewrite Hc. lia.
  - split; isimpl; [done..|by apply roomy_reserve|]. gsimpl. rewrite cnt_cons, decide_True by done.
    unfold reserve. case_match; isimpl; cbn; lia.
Qed.

Lemma wp_give_back_slot id Q g :
  Inv (hold_slot id F) g -> frame_ok F -> (forall g', Inv F g' -> Q tt g') ->
  wp bad (give_back_slot id) Q g.
Proof.
  intros HI HF HQ. assert (id ∈ f_insts F) as Hid by (apply (proj2 (inv_frame _ _ HI)); by left).
  destruct (Inv_held _ _ id HI) as (i & n & Hi); [done|].
  destruct (inv_insts _ _ HI _ _ _ Hi) as [K1 K2 K3 K4].
  revert K4. gsimpl. rewrite cnt_cons, decide_True by done. intros K4.
  pose proof (cnt_nonneg id (f_slots F)).
  rewrite (at_inst_start _ _ _ _ Hi) at 1. apply wp_update_at, HQ. isimpl.
  apply (Inv_change_at (hold_slot id F) F g id i); try done.
  - intros id' Hne. gsimpl. rewrite cnt_cons, decide_False by done. lia.
  - eapply mem_step_ext; [apply mem_step_refl, HI|..]; intros x; unfold none; cbv beta; gsimpl.
    + unfold inst_refs. isimpl. cbn [unreserve copies_ set_field]. lia.
    + rewrite !cnt_own_instance. isimpl. cbn [unreserve copies_ set_field]. lia.
  - split; isimpl; [done..|apply roomy_unreserve; [done|lia]|]. cbn [unreserve reserved_ set_field]. lia.
Qed.

(** Abandoning a copy: the slot, the reference and the event go to the
    instance *)
Lemma wp_abandon id buf done Q g :
  Inv (hold_slot id (hold_ent buf (hold_open (h_event done) F))) g -> frame_ok F ->
  (forall g', Inv F g' -> Q tt g') ->
  wp bad (update_inst id (fun i => i <| abandoned := add buf done (abandoned i) |>)) Q g.
Proof.
  intros HI HF HQ. assert (id ∈ f_insts F) as Hid by (apply (proj2 (inv_frame _ _ HI)); by left).
  destruct (Inv_held _ _ id HI) as (i & n & Hi); [done|].
  destruct (inv_insts _ _ HI _ _ _ Hi) as [K1 K2 K3 K4].
  revert K4. gsimpl. rewrite cnt_cons, decide_True by done. intros K4.
  pose proof (cnt_nonneg id (f_slots F)).
  rewrite (at_inst_start _ _ _ _ Hi) at 1. apply wp_update_at, HQ. isimpl.
  eapply (Inv_change_at _ F g id i); [exact HI|try done..].
  - intros id' Hne. gsimpl. rewrite cnt_cons, decide_False by done. lia.
  - eapply mem_step_ext; [apply mem_step_refl, HI|..]; intros x; unfold none; cbv beta; gsimpl.
    + unfold inst_refs, add, copy_refs. isimpl. rewrite fmap_app, cnt_app, !cnt_cons. cbn. lia.
    + rewrite !cnt_own_instance. unfold add. isimpl. unfold own_copies.
      rewrite flat_map_app, !cnt_app. cbn [flat_map copy_done]. rewrite app_nil_r. lia.
  - split; isimpl; [done..| |].
    + apply roomy_add; [done|lia].
    + unfold add. isimpl. lia.
Qed.

Lemma wp_copy_held buf Q g :
  Inv F g -> buf ∈ f_ents F -> (forall g', Inv (hold_ent buf F) g' -> Q tt g') ->
  wp bad (mem (copy_ref buf)) Q g.
Proof.
  intros HI Hbuf HQ. apply wp_mem, wp_copy_ref; [apply HI|by apply (Inv_ent_alive F)|].
  intros m Hm. apply HQ, Inv_mem; [done|]. eapply mem_step_ext; [exact Hm| |done].
  intros e. cbv beta. rewrite cnt_cons. unfold at_ref. lia.
Qed.

(** Calls that open something, or close what's open *)
Lemma wp_outside_acquires {A} own (m : W A) Q g :
  acquires bad own m -> Inv F g -> (forall a g', Inv (hold_open (own a) F) g' -> Q a g') ->
  wp bad (outside m) Q g.
Proof.
  intros Hm HI HQ. apply wp_mem. eapply wp_calls_acquires; [exact Hm|apply HI|].
  intros a m' Hs _. apply HQ, Inv_open_step; [done|]. eapply mem_step_ext; [exact Hs|done|].
  intros h. cbv beta. rewrite cnt_app. lia.
Qed.

Lemma wp_outside_releases hs (m : W unit) Q g :
  (forall t R, (forall t', (forall h, bal h t' = bal h t - cnt h hs) -> R tt t') -> wp bad m R t) ->
  Inv (hold_open hs F) g -> (forall g', Inv F g' -> Q tt g') -> wp bad (outside m) Q g.
Proof.
  intros Hm HI HQ. apply wp_mem. eapply (wp_calls _ _ _ _ (fun _ h => - cnt h hs)); [|apply HI|].
  { intros t. apply Hm. intros t' Ht h. rewrite Ht. lia. }
  intros [] m' Hs _. apply HQ. assert (F = (hold_open hs F) <| f_open := f_open F |>) as HF by by destruct F.
  rewrite HF. apply Inv_open_step; [done|]. eapply mem_step_ext; [exact Hs|done|]. intros h. cbv beta. gsimpl. rewrite cnt_app. lia.
Qed.

(** The same, for one call *)
Lemma wp_outside_frees {A} hs (c : call A) Q g :
  (forall r h, delta h (Ev c r) = - cnt h hs) -> Inv (hold_open hs F) g -> (forall a g', Inv F g' -> Q a g') ->
  wp bad (outside (perform c)) Q g.
Proof.
  intros Hc HI HQ. apply wp_mem. eapply (wp_calls _ _ _ _ (fun _ h => - cnt h hs)); [|apply HI|].
  { intros t. apply wp_perform. intros r h. cbn [bal]. rewrite Hc. lia. }
  intros a m' Hs _. apply HQ. assert (F = (hold_open hs F) <| f_open := f_open F |>) as HF by by destruct F.
  rewrite HF. apply Inv_open_step; [done|]. eapply mem_step_ext; [exact Hs|done|]. intros h. cbv beta. gsimpl. rewrite cnt_app. lia.
Qed.

Lemma hold_open_nil : hold_open [] F = F.
Proof. by destruct F. Qed.

(** The application's device memory *)
Definition device_memory (r : Z * Z) : list handle := if fst r =? hipSuccess then h_device (snd r) else [].

Lemma hipMalloc_acquires n : acquires bad device_memory (perform (hipMalloc n)).
Proof.
  intros t. apply wp_perform. intros [err p] h. cbn [bal delta]. unfold device_memory. cbn [fst snd].
  destruct (err =? hipSuccess); cbn [cnt foldr]; lia.
Qed.

Lemma aligned_new_acquires n a : acquires bad h_aligned (perform (aligned_new n a)).
Proof. intros t. apply wp_perform. intros p h. cbn [bal delta]. lia. Qed.

Definition created (r : Z * Z) : list handle := if fst r =? hipSuccess then h_event (snd r) else [].

Lemma eventCreate_acquires : acquires bad created (perform eventCreate).
Proof. intros t. wstep. destruct r as [err p]. intros h. unfold created. cbn [bal delta fst snd]. case_match; cbn; lia. Qed.

End operations.

Section staging.
Context `{E : World} (bad : stop -> Prop) (Hclock : bad OutOfFuel \/ SteadyClock E).
Implicit Types F : Frame.

(** Any path that ends without abandoning the copy *)
Lemma keeps_give_back_slot F id (e : hipObjError_t) g :
  Inv (hold_slot id F) g -> frame_ok F ->
  wp bad (_ ← give_back_slot id; mret e) (fun _ g' => Inv F g') g.
Proof. intros HI HF. apply wp_bind, (wp_give_back_slot bad F); [done..|]. intros g' HI'. by apply wp_ret. Qed.

Lemma keeps_end_copy F id done (e : hipObjError_t) g :
  Inv (hold_slot id (hold_open (h_event done) F)) g -> frame_ok F ->
  wp bad (_ ← outside (HipEventDeleter done); _ ← give_back_slot id; mret e) (fun _ g' => Inv F g') g.
Proof.
  intros HI HF. apply wp_bind, (wp_outside_releases bad (hold_slot id F) (h_event done)); [|exact HI|].
  - intros t R. apply wp_HipEventDeleter.
  - intros g' HI'. by apply keeps_give_back_slot.
Qed.

Lemma memcpyAsync_neutral dst src size kind : neutral bad (perform (memcpyAsync dst src size kind)).
Proof. intros t. wrun. bal_solve. Qed.

Lemma eventRecord_neutral done : neutral bad (perform (eventRecord done)).
Proof. intros t. wrun. bal_solve. Qed.

Lemma stage_wait_neutral done ms : neutral bad (stage_wait done ms).
Proof.
  intros t. unfold stage_wait. wstep. apply wp_perform_eq.
  eapply wp_mono; [apply stage_loop_neutral|].
  - destruct Hclock as [Hf|Hs]; [by left|right]. split; [done|]. cbn [clock_low]. unfold stage_fuel. lia.
  - unfold stage_fuel. lia.
  - bal_solve.
Qed.

Lemma keeps_stageCopyWithDeadline F id buf dst src size kind :
  id ∈ f_insts F -> buf ∈ f_ents F ->
  keeps bad F (stageCopyWithDeadline id buf dst src size kind).
Proof.
  intros Hid Hbuf _ g HI. pose proof (inv_frame _ _ HI) as HF.
  unfold stageCopyWithDeadline. apply wp_bind, (wp_reserve bad F); [done..|]. intros g1 HI1.
  apply wp_bind, (wp_outside_acquires bad (hold_slot id F) created); [apply eventCreate_acquires|done|].
  intros [err done] g2 HI2. unfold created in HI2. cbn [fst snd] in HI2.
  destruct (err =? hipSuccess); cbn [negb]; [|by apply keeps_give_back_slot].
  change (hold_open _ _) with (hold_slot id (hold_open (h_event done) F)) in HI2.
  apply wp_bind. eapply wp_outside_neutral; [apply memcpyAsync_neutral|exact HI2|]. intros err1 g3 HI3.
  apply wp_bind. eapply (wp_mono _ _ (fun _ => Inv (hold_slot id (hold_open (h_event done) F)))).
  { destruct (err1 =? hipSuccess); [|by apply wp_ret].
    eapply wp_outside_neutral; [apply eventRecord_neutral|exact HI3|]. auto. }
  cbv beta. intros err2 g4 HI4. destruct (err2 =? hipSuccess); cbn [negb]; [|by apply keeps_end_copy].
  destruct (Inv_held _ _ id HI4) as (i & n & Hi); [done|]. apply wp_bind. eapply wp_get_inst; [done|].
  cbv zeta. set (ms := stageTimeout (options i)).
  rewrite <- bind_assoc, <- outside_bind.
  apply wp_bind. eapply wp_outside_neutral; [apply (stage_wait_neutral done ms)|exact HI4|]. intros outcome g5 HI5.
  destruct outcome; [by apply keeps_end_copy|by apply keeps_end_copy|].
  apply wp_bind, (wp_copy_held bad (hold_slot id (hold_open (h_event done) F)) buf); [exact HI5|done|]. intros g6 HI6.
  apply wp_bind, (wp_abandon bad F id buf done); [exact HI6|done|]. intros g7 HI7.
  apply wp_bind. eapply wp_outside_neutral; [apply print_neutral|exact HI7|]. intros _ g8 HI8. by apply wp_ret.
Qed.
End staging.

(** *** The public functions *)

Lemma keeps_with_instance `{E : World} bad F {A} (fail : hipObjError_t -> A) body :
  (forall id, keeps bad (hold_inst id F) (body id)) -> keeps bad F (with_instance fail body).
Proof.
  intros Hb Hal g HI. unfold with_instance. apply wp_bind. apply (wp_currentInstance _ _ F); [done|..].
  - intros _. by apply wp_ret.
  - intros id g1 _ HI1. apply wp_bind. eapply wp_mono; [by apply Hb|]. cbv beta. intros a g2 HI2.
    apply wp_bind, (wp_drop_inst _ id _ F); [done|by destruct HI|]. intros g3 HI3 _. by apply wp_ret.
Qed.

Lemma wp_find_held `{E : World} bad F id p (Q : option nat -> Process -> Prop) g :
  Inv F g -> id ∈ f_insts F -> (forall g', Inv F g' -> Q None g') ->
  (forall e g', Inv (hold_ent e F) g' -> Q (Some e) g') ->
  wp bad (i ← get_inst id; mem (find (buffers i) p)) Q g.
Proof.
  intros HI Hid HN HS. destruct (Inv_held _ _ _ HI Hid) as (i & n & Hi).
  destruct (Inv_alive _ _ _ _ _ HI Hi) as [Ha _]. apply wp_bind. eapply wp_get_inst; [done|].
  apply wp_mem, wp_find; [apply HI|done|]. intros m Hm. destruct (entries_ (buffers i) !! p) as [e|] eqn:He.
  - apply HS, Inv_mem; [done|]. eapply mem_step_ext; [exact Hm| |done].
    intros e'. cbv beta. rewrite cnt_cons. unfold at_ref. lia.
  - apply HN. rewrite <- (frame_eta F). apply Inv_mem; [done|]. eapply mem_step_ext; [exact Hm| |done].
    intros e'. cbv beta. lia.
Qed.

Lemma keeps_with_buffer `{E : World} bad F {A} id p (body : option nat -> G A) :
  id ∈ f_insts F -> keeps bad F (body None) -> (forall e, keeps bad (hold_ent e F) (body (Some e))) ->
  keeps bad F (with_buffer id p body).
Proof.
  intros Hid HN HS Hal g HI. unfold with_buffer. rewrite <- bind_assoc.
  apply wp_bind, (wp_find_held _ F); [done..| |].
  - intros g1 HI1. apply wp_bind. eapply wp_mono; [by apply HN|]. cbv beta. intros a g2 HI2.
    by apply wp_bind, wp_ret, wp_ret.
  - intros e g1 HI1. apply wp_bind. eapply wp_mono; [by apply HS|]. cbv beta. intros a g2 HI2.
    apply wp_bind, (wp_drop_held _ _ _ F); [done|]. intros g3 HI3. by apply wp_ret.
Qed.

(** The steps that [keeps] is closed under *)
Ltac in_frame := cbn [set_field hold_ent hold_inst hold_lease f_ents f_insts f_leases]; rewrite ?elem_of_cons; tauto.
Ltac kstep :=
  match goal with
  | |- keeps _ _ (mbind _ _) => apply keeps_bind; [|intros ?]
  | |- keeps _ _ (mret _) => apply keeps_ret
  | |- keeps _ _ (if_ok _ _ _) => apply keeps_if_ok
  | |- keeps _ _ (get_inst _) => apply keeps_of, preserves_get_inst; in_frame
  | |- keeps _ _ (mem (get_entry _)) => apply keeps_of, preserves_get_entry; in_frame
  | |- keeps _ _ (get_connection _ _) => apply keeps_of, preserves_get_connection; in_frame
  | |- keeps _ _ (with_instance _ _) => apply keeps_with_instance; intros ?
  | |- keeps _ _ (let '_ := ?x in _) => destruct x eqn:?
  | |- keeps _ _ (if ?b then _ else _) => destruct b eqn:?
  | |- keeps _ _ (match ?x with _ => _ end) => destruct x eqn:?
  end; cbn beta iota.
Ltac krun := repeat kstep.

Lemma options_from_transfers stage transfers gd dma dbg :
  0 < maxTransfers (options_from stage transfers gd dma dbg) <= kMaxTransfers /\
  0 < stageTimeout (options_from stage transfers gd dma dbg) <= kMaxStageTimeout /\
  pollTimeout (options_from stage transfers gd dma dbg) = kDefaultPollTimeout.
Proof.
  unfold options_from.
  assert (forall o : Options, 0 < maxTransfers o <= kMaxTransfers /\
            0 < stageTimeout o <= kMaxStageTimeout /\ pollTimeout o = kDefaultPollTimeout ->
          0 < maxTransfers (match parseNumber uint64_t transfers kDefaultNumberBase with
              | Some n => if (0 <? n) && (n <=? kMaxTransfers) then o <| maxTransfers := n |> else o
              | None => o end) <= kMaxTransfers /\
          0 < stageTimeout (match parseNumber uint64_t transfers kDefaultNumberBase with
              | Some n => if (0 <? n) && (n <=? kMaxTransfers) then o <| maxTransfers := n |> else o
              | None => o end) <= kMaxStageTimeout /\
          pollTimeout (match parseNumber uint64_t transfers kDefaultNumberBase with
              | Some n => if (0 <? n) && (n <=? kMaxTransfers) then o <| maxTransfers := n |> else o
              | None => o end) = kDefaultPollTimeout) as Ht.
  { intros o Ho. destruct (parseNumber uint64_t _ _) as [n|]; [|done].
    destruct (_ && _) eqn:Hn; [|done]. bools. cbn. intuition. }
  cbn [set_field maxTransfers stageTimeout pollTimeout]. apply Ht.
  destruct (parseNumber int64_t _ _) as [n|]; [|done].
  destruct (_ && _) eqn:Hn; [|done]. bools. done.
Qed.

Section api.
Context `{E : World} `{B : BuildConfig} `{T : NicTopology} (bad : stop -> Prop).
Context (Hclock : bad OutOfFuel \/ SteadyClock E) `{HT : !TopologyOk bad T}.

Lemma preserves_running F id buf :
  id ∈ f_insts F -> preserves bad F (on_abandoned id (running buf)).
Proof.
  intros Hid. apply preserves_on_abandoned; [done|]. intros a m Q Hok Hc HQ.
  apply wp_release_copies; auto.
Qed.

Lemma keeps_checkNoAbandonedCopy F id buf :
  id ∈ f_insts F -> buf ∈ f_ents F -> keeps bad F (checkNoAbandonedCopy id buf).
Proof. intros Hid Hbuf. unfold checkNoAbandonedCopy. krun; by apply keeps_of, preserves_running. Qed.

Lemma keeps_stageToDevice F id p buf size offset :
  id ∈ f_insts F -> buf ∈ f_ents F -> keeps bad F (stageToDevice id p buf size offset).
Proof. intros Hid Hbuf. unfold stageToDevice. krun; by apply keeps_stageCopyWithDeadline. Qed.

Lemma keeps_stageToHost F id p buf size offset :
  id ∈ f_insts F -> buf ∈ f_ents F -> keeps bad F (stageToHost id p buf size offset).
Proof. intros Hid Hbuf. unfold stageToHost. krun; by apply keeps_stageCopyWithDeadline. Qed.

Lemma keeps_finishTransferAfterReply F id index reply sync ms :
  (id, index) ∈ f_leases F -> keeps bad F (finishTransferAfterReply id index reply sync ms).
Proof.
  intros Hl. unfold finishTransferAfterReply.
  krun; apply keeps_of, preserves_outside; first [by apply pollCompletion_neutral | apply connectRcPeer_neutral | idtac].
  all: intros t; wstep; bal_solve.
Qed.

Definition ops_keep (F : Frame) (o : hipObjOps_t) : Prop :=
  (forall send token, sendRequest o = Some send -> keeps bad F (send token)) /\
  (forall recv buf, recvReply o = Some recv -> keeps bad F (recv buf)).

Lemma keeps_leased_transfer F id index buf size offset o :
  (id, index) ∈ f_leases F -> buf ∈ f_ents F -> id ∈ f_insts F -> ops_keep F o ->
  keeps bad F (leased_transfer id index buf size offset o).
Proof.
  intros Hl Hbuf Hid [Hs Hr]. unfold leased_transfer, injectRdmaToken, receiveRdmaReplyRaw.
  krun; [by eapply Hs|by eapply Hr|by apply keeps_finishTransferAfterReply].
Qed.

Lemma keeps_runRdmaTransfer F id buf size offset o :
  buf ∈ f_ents F -> id ∈ f_insts F -> (forall F, ops_keep F o) ->
  keeps bad F (runRdmaTransfer id buf size offset o).
Proof.
  intros Hbuf Hid Ho Hal g HI. unfold runRdmaTransfer. apply wp_bind.
  apply (wp_acquire_lease bad F); [done|done|done|intros err; by apply wp_ret|].
  intros index g1 HI1. apply wp_bind. eapply wp_mono.
  { apply (keeps_leased_transfer (hold_lease id index F)); [left|done|done|apply Ho|exact Hal|exact HI1]. }
  cbv beta. intros [err connected] g2 HI2.
  apply wp_bind, (wp_release_lease bad F); [done|by destruct HI|]. intros g3 HI3. by apply wp_ret.
Qed.

Lemma keeps_with_checked_buffer F {A} (fail : hipObjError_t -> A) id p size offset next :
  id ∈ f_insts F -> (forall e, keeps bad (hold_ent e F) (next e)) ->
  keeps bad F (with_checked_buffer fail id p size offset next).
Proof.
  intros Hid Hn. unfold with_checked_buffer. apply keeps_with_buffer; [done|apply keeps_ret|].
  intros e. krun; [|done]. apply keeps_checkNoAbandonedCopy; in_frame.
Qed.

Lemma keeps_with_ops F ops next :
  (forall o, ops = Some o -> keeps bad F (next o)) -> keeps bad F (with_ops ops next).
Proof. intros Hn. unfold with_ops. krun. auto. Qed.

(** *** Init and shutdown *)

Lemma Inv_add_inst F g i m :
  Inv F g -> mem_step none (fun h => cnt h (own_instance i)) (g_mem g) m ->
  (forall e, inst_refs e i = 0) -> inst_ok [] 0 i ->
  Inv (hold_inst (g_next g) F)
      (g <| g_mem := m |> <| g_insts := <[g_next g := (i, 1%nat)]> (g_insts g) |>
         <| g_next := S (g_next g) |>).
Proof.
  intros HI [B1 B2 B3 B4 B5] H0 Hok. pose proof (inv_fresh _ _ HI (g_next g) (le_n _)) as Hnew.
  assert (g_next g ∉ f_insts F) as Hout.
  { intros (j & k & Hj)%(Inv_held _ _ _ HI). congruence. }
  pose proof (leased_none _ _ (inv_frame _ _ HI) Hout) as Hnone.
  pose proof (slots_none _ _ (inv_frame _ _ HI) Hout) as Hslots.
  destruct HI as [A1 A2 A3 A4 A5 A6 A7 A8 A9]. split; gsimpl; try done.
  - intros e. rewrite B2, A2, msum_insert by done. cbn [fst]. rewrite H0. unfold none. lia.
  - intros id. specialize (A3 id). rewrite cnt_cons. unfold irefs, current_refs in *. gsimpl.
    destruct (decide (id = g_next g)) as [->|Hne].
    + rewrite lookup_insert_eq. rewrite Hnew in A3. lia.
    + rewrite lookup_insert_ne by done. lia.
  - intros id j k. destruct (decide (id = g_next g)) as [->|Hne].
    + rewrite lookup_insert_eq. intros [= <- <-]. lia.
    + rewrite lookup_insert_ne by done. apply A4.
  - intros id Hid. rewrite lookup_insert_ne by lia. apply A5. lia.
  - intros h. rewrite B3, A6, msum_insert by done. cbn [fst]. lia.
  - by apply frame_ok_hold_inst.
  - intros id j k. destruct (decide (id = g_next g)) as [->|Hne].
    + rewrite lookup_insert_eq. intros [= <- <-]. change (inst_ok (leased (g_next g) F) (cnt (g_next g) (f_slots F)) i). by rewrite Hnone, Hslots.
    + rewrite lookup_insert_ne by done. apply A9.
Qed.

Lemma keeps_drop_inst F id g :
  Inv (hold_inst id F) g -> frame_ok F -> wp bad (drop_inst id) (fun _ g' => Inv F g') g.
Proof. intros HI HF. apply (wp_drop_inst _ id _ F); auto. Qed.

(** Giving the frame's reference to [current] *)
Lemma Inv_publish F g id :
  Inv (hold_inst id F) g -> g_current g = None -> frame_ok F -> Inv F (g <| g_current := Some id |>).
Proof.
  intros HI Hc HF. destruct HI as [A1 A2 A3 A4 A5 A6 A7 A8 A9]. split; gsimpl; try done.
  intros id'. specialize (A3 id'). revert A3. gsimpl. rewrite cnt_cons. intros A3.
  unfold irefs, current_refs in *. gsimpl. rewrite Hc in A3. rewrite decide_False in A3 by done.
  destruct (decide (id' = id)) as [->|Hne].
  - rewrite decide_True by done. lia.
  - rewrite decide_False by congruence. lia.
Qed.

Lemma wp_haveInstance F Q g :
  Inv F g -> (g_current g = None -> Q false g) -> (forall g', Inv F g' -> Q true g') ->
  wp bad haveInstance Q g.
Proof.
  intros HI HN HS. unfold haveInstance. apply wp_bind, (wp_currentInstance _ _ F); [done|..].
  - intros Hc. by apply wp_ret, HN.
  - intros id g' _ HI'. apply wp_bind, (wp_drop_inst _ id _ F); [done|by destruct HI|].
    intros g2 HI2 _. by apply wp_ret, HS.
Qed.

Lemma keeps_systemPlatform F g :
  Inv F g -> wp bad systemPlatform (fun _ g' => Inv F g' /\ g_current g' = g_current g) g.
Proof.
  intros HI. unfold systemPlatform. apply wp_bind, wp_get.
  destruct (g_platform g) as [p|] eqn:Hp; [by apply wp_ret|].
  apply wp_bind, wp_mem. eapply (wp_calls_acquires _ own_verbs); [|apply HI|].
  { intros t. eapply wp_mono; [apply loadLibibverbs_spec|]. by intros v t' [Hb _]. }
  intros v m [B1 B2 B3 B4 B5] _. apply wp_bind, wp_modify, wp_ret. split; [|done].
  destruct HI as [A1 A2 A3 A4 A5 A6 A7 A8 A9]. split; gsimpl; try done.
  - intros e. rewrite B2, A2. unfold none. lia.
  - intros h. rewrite B3, A6, Hp. unfold own_platform. cbn [cnt foldr]. lia.
Qed.

Lemma choose_gpu_neutral c hint : neutral bad (choose_gpu c hint).
Proof. intros t. unfold choose_gpu. wrun; try destruct r; wrun; bal_solve. Qed.

Lemma choose_nic_neutral gpu hint : neutral bad (choose_nic gpu hint).
Proof.
  intros t. unfold choose_nic. wstep. eapply (wp_neutral _ (if 0 <=? gpu then _ else _)).
  { destruct (0 <=? gpu); [apply GetClosestNicToGpu_neutral; apply _|by intros ?; wstep]. }
  intros nic t1 H1. wstep. bal_solve.
Qed.

Definition built_ok (max : Z) (r : Instance_t + hipObjError_t) : Prop :=
  match r with
  | inl i => inst_ok [] 0 i /\ (forall e, inst_refs e i = 0) /\ maxTransfers (options i) = max /\
             entries_ (buffers i) = ∅ /\ abandoned i = new_AbandonedCopies /\ closed_ (pool i) = false /\
             (pool_size (pool i) = max -> free_ (pool i) = seq 0 (Z.to_nat max))
  | inr e => opError e <> hipObjSuccess
  end.

Lemma build_instance_spec c opts t :
  maxTransfers opts < 2 ^ 64 ->
  wp bad (build_instance c opts) (fun r t' =>
    (forall h, bal h t' = bal h t + cnt h (own_built r)) /\ built_ok (maxTransfers opts) r) t.
Proof.
  intros Hmax. unfold build_instance. wstep.
  eapply (wp_mono _ _ (fun r t' => (forall h, bal h t' = bal h t) /\
            match r with inr e => opError e <> hipObjSuccess | inl _ => True end)).
  { unfold choose_gpu. wrun; try destruct r; wrun; (split; [bal_solve|done]). }
  cbv beta. intros [gpu|e] t1 [H1 He]; [|wstep; split; [unfold own_built; bal_solve|done]].
  wstep. eapply wp_neutral; [apply choose_nic_neutral|]. intros nic t2 H2.
  destruct nic as [nic|]; [|wstep; split; [unfold own_built; bal_solve|done]].
  wstep. eapply wp_acquires; [apply openRdmaDeviceByName_acquires; apply _|]. intros dev t3 H3.
  destruct dev as [dev|]; [|wstep; split; [unfold own_built; bal_solve|done]].
  wstep. eapply wp_acquires; [apply createRcConnection_acquires|]. intros tok t4 H4.
  destruct tok as [tok|].
  2:{ wstep. apply wp_destroy_RdmaDevice. intros t5 H5. wstep.
      split; [unfold own_built; bal_solve|done]. }
  wstep. unfold new_Instance. wstep. eapply wp_mono; [by apply new_pool_spec|]. cbv beta.
  intros p t5 (H5 & Hp & Hcl & _ & Hfree). wstep. split.
  - intros h. cbn [own_built]. rewrite H5, H4, H3, H2, H1, cnt_own_instance. isimpl.
    change (cnt h (own_copies (copies_ new_AbandonedCopies))) with 0. cbn [own_opt]. lia.
  - split_and!; try done.
Qed.

(** Building an instance, and its reference *)
Lemma wp_build F c opts g :
  maxTransfers opts < 2 ^ 64 -> Inv F g ->
  wp bad (outside (build_instance c opts)) (fun r g1 => g_current g1 = g_current g /\
    match r with
    | inl i => forall Q, (forall id g2, Inv (hold_inst id F) g2 -> g_current g2 = g_current g1 -> Q id g2) ->
                 wp bad (make_shared_inst i) Q g1
    | inr _ => Inv F g1
    end) g.
Proof.
  intros Hmax HI. apply wp_mem. unfold calls. apply wp_zoom.
  eapply wp_mono; [by apply build_instance_spec|]. cbv beta. intros r t [Hb Hr]. split; [done|].
  assert (mem_step none (fun h => cnt h (own_built r)) (g_mem g) ((g_mem g) <| m_trace := t |>)) as Hs.
  { destruct (inv_mem _ _ HI) as [A1 A2 A3]. split; cbn; try done.
    - intros e. unfold refs, none. cbn. lia.
    - intros h. rewrite unowned_calls, Hb. lia.
    - intros e b k _ He. by exists b, k. }
  destruct r as [i|e].
  - destruct Hr as (Hok & Hrefs & _). intros Q HQ. unfold make_shared_inst.
    apply wp_bind, wp_get, wp_bind, wp_put, wp_ret, HQ; [|done]. exact (Inv_add_inst _ _ _ _ HI Hs Hrefs Hok).
  - rewrite <- (frame_eta F). apply Inv_mem; [done|].
    eapply mem_step_ext; [exact Hs|intros; cbv beta; unfold none; lia|done].
Qed.

Lemma keeps_initWith F c opts : maxTransfers opts < 2 ^ 64 -> keeps bad F (initWith c opts).
Proof.
  intros Hmax Hal g HI. unfold initWith. apply wp_bind, (wp_haveInstance F); [done| |].
  2:{ intros g' HI'. by apply wp_ret. }
  intros Hc. cbv iota. apply wp_bind. eapply wp_mono; [by apply wp_build|]. cbv beta.
  intros [i|e] g1 [Hc1 Hr]; [|by apply wp_ret]. apply wp_bind, Hr. intros id g2 HI2 Hc2.
  destruct (negb _); apply wp_bind.
  - eapply wp_mono; [apply (keeps_drop_inst F); [exact HI2|by destruct HI]|]. cbv beta.
    intros _ g' HI'. by apply wp_ret.
  - apply wp_modify, wp_ret. apply Inv_publish; [done|congruence|by destruct HI].
Qed.

Lemma wp_parseOptions (Q : Options -> trace -> Prop) t :
  (forall o t', (forall h, bal h t' = bal h t) ->
     (exists a b c d e, o = options_from a b c d e) -> Q o t') ->
  wp bad (parseOptions (fun name => perform (getenv name))) Q t.
Proof.
  intros HQ. unfold parseOptions. wrun. apply HQ; [bal_solve|]. by do 5 eexists.
Qed.

Lemma keeps_hipObjInit F c : keeps bad F (hipObjInit c).
Proof.
  intros Hal g HI. unfold hipObjInit. destruct c as [c|]; [|by apply wp_ret].
  destruct (_ || _); [by apply wp_ret|]. apply wp_bind, (wp_haveInstance F); [done| |].
  2:{ intros g' HI'. by apply wp_ret. }
  intros Hc. cbv iota. apply wp_bind. eapply wp_mono; [by apply keeps_systemPlatform|]. cbv beta.
  intros [v|] g1 [HI1 _]; [|by apply wp_ret]. apply wp_bind, wp_mem.
  unfold calls. apply wp_zoom, wp_parseOptions. intros o t Hb (? & ? & ? & ? & ? & ->).
  apply keeps_initWith.
  - pose proof (proj1 (options_from_transfers x x0 x1 x2 x3)) as Ht. unfold kMaxTransfers in Ht. lia.
  - done.
  - rewrite <- (frame_eta F). apply Inv_mem; [done|].
    eapply mem_step_ext; [apply calls_step; [apply HI1|done]| |done].
    intros; cbv beta; unfold none; lia.
Qed.

Lemma pool_ok_close leased p : pool_ok leased p -> pool_ok leased (close p).
Proof. by intros [? ? ? ?]; split. Qed.

Lemma Inv_close_pool F g id i n :
  Inv F g -> g_insts g !! id = Some (i, n) ->
  Inv F (at_inst g id n (i <| pool := close (pool i) |>) (g_mem g)).
Proof.
  intros HI Hi. destruct (inv_insts _ _ HI _ _ _ Hi) as [K1 K2 K3 K4]. apply Inv_at with i; [done..| |].
  - eapply mem_step_ext; [apply mem_step_refl, HI|..]; intros x; unfold none.
    + unfold inst_refs. isimpl. lia.
    + rewrite !cnt_own_instance. isimpl. cbn [close slots_ set_field]. lia.
  - split; isimpl; [by apply pool_ok_close|done..].
Qed.

Lemma keeps_shutdownInstance F Q g :
  Inv F g -> (forall g', Inv F g' -> g_current g' = None -> Q tt g') ->
  wp bad shutdownInstance Q g.
Proof.
  intros HI HQ. unfold shutdownInstance. apply wp_bind, wp_get, wp_bind, wp_put.
  destruct (g_current g) as [id|] eqn:Hc.
  2:{ apply wp_ret, HQ; [|done]. by destruct g; cbn in *; subst. }
  pose proof (Inv_take_current _ _ _ HI Hc) as HI1.
  destruct (Inv_held _ _ id HI1) as (i & n & Hi); [left|].
  apply wp_bind. eapply wp_update_inst; [exact Hi|].
  apply (wp_drop_inst _ id _ F); [exact (Inv_close_pool _ _ _ _ _ HI1 Hi)|apply HI|].
  intros g' HI' Hc'. by apply HQ.
Qed.

Lemma keeps_hipObjShutdown F : keeps bad F hipObjShutdown.
Proof.
  intros Hal g HI. unfold hipObjShutdown. apply wp_bind, (keeps_shutdownInstance F); [done|].
  intros g' HI' _. by apply wp_ret.
Qed.

(** *** Applications *)

Lemma keeps_application A (m : G A) : application_program A m -> forall F, keeps bad F m.
Proof.
  induction 1 as [A a|A D m k _ IHm _ IHk|A m Hm|f| |c| |p n|p n|p|p n off ops _ IHs _ IHr
                 |p n off ops _ IHs _ IHr|p n off dir|p n op out]; intros F.
  - apply keeps_ret.
  - by apply keeps_bind.
  - apply keeps_of, preserves_outside, Hm.
  - intros _ g HI. apply wp_modify. destruct HI. by constructor.
  - intros _ g HI. by apply wp_bind, wp_get, wp_ret.
  - apply keeps_hipObjInit.
  - apply keeps_hipObjShutdown.
  - unfold hipObjBufRegister. krun.
    + apply keeps_of, preserves_outside, isValidDeviceRange_neutral.
    + apply keeps_of, preserves_on_buffers; [in_frame|]. intros b m Q Hok _ HQ. apply wp_registerBuffer; auto.
  - unfold hipObjBufRegisterHost. krun.
    apply keeps_of, preserves_on_buffers; [in_frame|]. intros b m Q Hok _ HQ. apply wp_registerHostBuffer; auto.
  - unfold hipObjBufDeregister. krun.
    + apply keeps_of, preserves_on_abandoned; [in_frame|]. intros a m Q Hok Hc HQ. unfold reclaim.
      apply wp_bind, wp_bind, wp_release_copies; [done|done|]. intros. by apply wp_ret, wp_ret, HQ.
    + apply keeps_of, preserves_on_buffers; [in_frame|]. intros b m Q Hok Ha HQ. apply wp_deregisterBuffer; auto.
  - unfold hipObjGet. krun. apply keeps_with_ops. intros o Ho.
    apply keeps_with_checked_buffer; [in_frame|]. intros e. krun.
    + apply keeps_runRdmaTransfer; [in_frame..|]. intros F'. split; eauto.
    + apply keeps_stageToDevice; in_frame.
  - unfold hipObjPut. krun. apply keeps_with_ops. intros o Ho.
    apply keeps_with_checked_buffer; [in_frame|]. intros e. krun.
    + apply keeps_stageToHost; in_frame.
    + apply keeps_runRdmaTransfer; [in_frame..|]. intros F'. split; eauto.
  - unfold hipObjBufSync. krun. apply keeps_with_checked_buffer; [in_frame|]. intros e.
    krun; [apply keeps_stageToDevice|apply keeps_stageToHost]; in_frame.
  - unfold hipObjGetRdmaToken. krun. apply keeps_with_checked_buffer; [in_frame|]. intros e. krun.
Qed.
End api.

(** Takes a program apart, down to the calls it makes *)
Ltac app_step :=
  match goal with
  | |- is_application _ => unfold is_application
  | |- application_program _ (mbind _ _) => apply app_bind; [|intros ?]
  | |- application_program _ (mret _) => apply app_ret
  | |- application_program _ (outside (perform _)) => apply app_own, own_call; by intros
  | |- application_program _ (modify (fun g => g <| g_app := _ |>)) => apply app_keep
  | |- application_program _ (hipObjInit _) => apply app_init
  | |- application_program _ hipObjShutdown => apply app_shutdown
  | |- application_program _ (hipObjBufRegister _ _) => apply app_register
  | |- application_program _ (hipObjBufDeregister _) => apply app_deregister
  | |- application_program _ (hipObjGet _ _ _ _) => apply app_get; intros ? ? ? [= <-] [= <-]
  | |- application_program _ (hipObjPut _ _ _ _) => apply app_put; intros ? ? ? [= <-] [= <-]
  | |- application_program _ (let '_ := ?x in _) => destruct x
  | |- application_program _ (if ?b then _ else _) => destruct b
  | |- application_program _ (match ?x with _ => _ end) => destruct x
  end.

Lemma demo_application `{E : World} `{B : BuildConfig} : is_application demo.
Proof. unfold demo, demo_ops, demo_send, demo_recv. repeat app_step. Qed.

(** Nothing's left once no call holds anything and there's no instance *)
Lemma Inv_over g :
  Inv no_frame g -> g_current g = None ->
  g_insts g = ∅ /\ m_ents (g_mem g) = ∅ /\
  forall h, bal h (m_trace (g_mem g)) = cnt h (m_leaked (g_mem g)) + cnt h (own_platform (g_platform g)).
Proof.
  intros HI Hc. destruct HI as [A1 A2 A3 A4 A5 A6 A7 A8 A9].
  assert (g_insts g = ∅) as Hi.
  { apply map_empty. intros id. destruct (g_insts g !! id) as [[i n]|] eqn:Hi; [|done].
    specialize (A3 id). specialize (A4 _ _ _ Hi). unfold irefs, current_refs in A3.
    rewrite Hi, Hc, decide_False in A3 by done. cbn [no_frame f_insts cnt foldr] in A3. lia. }
  assert (m_ents (g_mem g) = ∅) as He.
  { apply map_empty. intros e. destruct (m_ents (g_mem g) !! e) as [[b n]|] eqn:He; [|done].
    pose proof (mem_counted _ A1 _ _ _ He). specialize (A2 e). unfold refs in A2.
    rewrite He, Hi, msum_empty in A2. cbn [no_frame f_ents cnt foldr] in A2. lia. }
  split_and!; [done..|]. intros h. specialize (A6 h). unfold unowned in A6.
  rewrite Hi, He, !msum_empty in A6. cbn [no_frame f_open cnt foldr] in A6. lia.
Qed.

Lemma Inv_open F g h :
  Inv F g ->
  bal h (m_trace (g_mem g)) =
    msum (fun _ e => cnt h (own_entry (fst e))) (m_ents (g_mem g)) +
    msum (fun _ i => cnt h (own_instance (fst i))) (g_insts g) +
    cnt h (own_platform (g_platform g)) + cnt h (m_leaked (g_mem g)) + cnt h (f_open F).
Proof. intros HI. pose proof (inv_owned _ _ HI h) as H. unfold unowned in H. lia. Qed.

Lemma application_keeps `{E : World} `{B : BuildConfig} {A} (m : G A) :
  is_application m -> forall F, keeps out_of_fuel F m.
Proof.
  intros Hm. apply (keeps_application (T := SysfsTopology)); [by left| |done].
  apply SysfsTopology_ok. by left.
Qed.

(** What the library promises a program around it: whatever application it
    runs, the invariant stays, and it stops for no reason but [bad] *)
Class LibraryKeeps `{World} `{BuildConfig} (bad : stop -> Prop) :=
  library_keeps : forall A (m : G A), is_application m -> forall F, keeps bad F m.

#[export] Instance library_keeps_fuel `{World} `{BuildConfig} : LibraryKeeps out_of_fuel.
Proof. intros A m. apply application_keeps. Qed.

#[export] Instance library_keeps_never `{E : World} `{B : BuildConfig} (HC : SteadyClock E) (HP : PortsFit E) :
  LibraryKeeps (fun _ => False).
Proof.
  intros A m Hm. apply (keeps_application (T := SysfsTopology)); [by right| |done].
  apply SysfsTopology_ok. by right.
Qed.

(** ** Properties *)

(** C1: the library is safe to use from any program of one thread, its
    callbacks included, whatever the libraries and devices answer. Started
    in a new process, an application never waits for itself, never uses an
    object that has been released, and leaves a state in which every
    reference is counted, every object that's open has one owner, and each
    connection is either free or leased to one transfer. *)
Theorem application_safe `{E : World} `{B : BuildConfig} {A} (m : G A) (Hm : is_application m) :
  wp out_of_fuel m (fun _ g => Inv no_frame g) initial_process.
Proof.
  apply (application_keeps m Hm no_frame eq_refl), Inv_initial.
Qed.

Lemma application_safe_witness :
  fst (@demo (lab working) _ initial_process) = inl [hipObjSuccess; hipObjSuccess; hipObjSuccess] /\
  wp out_of_fuel (@demo (lab working) _) (fun _ g => Inv no_frame g) initial_process.
Proof. split; [vm_compute; reflexivity|]. exact (@application_safe (lab working) demo_build _ demo demo_application). Defined.

(** A call can be made from within a callback: the same holds of a
    program that runs while other calls are in progress, which hold the
    references and the leases of [F]. It ends with the calls in progress
    still holding exactly those. *)
Theorem reentrant_calls_safe `{E : World} `{B : BuildConfig} {A} (m : G A) (Hm : is_application m)
    (F : Frame) (HF : f_elsewhere F = []) (g : Process) (HI : Inv F g) :
  wp out_of_fuel m (fun _ g' => Inv F g') g.
Proof.
  by apply (application_keeps m Hm F).
Qed.

Lemma reentrant_calls_safe_witness :
  wp out_of_fuel (@demo (lab working) _) (fun _ g' => Inv no_frame g') initial_process.
Proof. exact (@reentrant_calls_safe (lab working) demo_build _ demo demo_application no_frame eq_refl _ Inv_initial). Defined.

(** C8: every call returns: no application hangs in the library, on any
    device with fewer than 255 ports, and with a clock that doesn't go back.
    The loops that wait for a completion or a copy end at their deadlines. *)
Theorem application_terminates `{E : World} `{B : BuildConfig} (Hc : SteadyClock E) (Hp : PortsFit E)
    {A} (m : G A) (Hm : is_application m) :
  exists a g, m initial_process = (inl a, g).
Proof.
  assert (wp never m (fun _ g => Inv no_frame g) initial_process) as H.
  { apply (keeps_application (T := SysfsTopology)) with (F := no_frame); [by right| |done|done|apply Inv_initial].
    apply SysfsTopology_ok. by right. }
  unfold wp in H. destruct (m initial_process) as [[a|e] g]; [by exists a, g|done].
Qed.

Lemma application_terminates_witness :
  exists a g, @demo (lab working) _ initial_process = (inl a, g).
Proof.
  exact (@application_terminates (lab working) demo_build (lab_steady working) (lab_ports working) _ demo demo_application).
Defined.

(** C9: nothing leaks, and nothing's released twice. At every point between
    an application's calls, what has been opened and not closed is what the
    instances and the registrations own, libibverbs, and the staging buffers
    and events of copies that were still running when their owner was
    destroyed. *)
Theorem open_is_owned `{E : World} `{B : BuildConfig} {A} (m : G A) (Hm : is_application m) :
  wp out_of_fuel m (fun _ g => forall h,
    bal h (m_trace (g_mem g)) =
      msum (fun _ e => cnt h (own_entry (fst e))) (m_ents (g_mem g)) +
      msum (fun _ i => cnt h (own_instance (fst i))) (g_insts g) +
      cnt h (own_platform (g_platform g)) + cnt h (m_leaked (g_mem g)) /\
    0 <= bal h (m_trace (g_mem g))) initial_process.
Proof.
  eapply wp_mono; [apply (application_keeps m Hm no_frame eq_refl), Inv_initial|].
  cbv beta. intros _ g HI h. rewrite (Inv_open _ _ _ HI), Z.add_0_r. split; [done|].
  assert (0 <= msum (fun _ e => cnt h (own_entry (fst e))) (m_ents (g_mem g)))
    by (apply msum_nonneg; intros; apply cnt_nonneg).
  assert (0 <= msum (fun _ i => cnt h (own_instance (fst i))) (g_insts g))
    by (apply msum_nonneg; intros; apply cnt_nonneg).
  pose proof (cnt_nonneg h (own_platform (g_platform g))).
  pose proof (cnt_nonneg h (m_leaked (g_mem g))). lia.
Qed.

Lemma open_is_owned_witness :
  wp out_of_fuel (@demo (lab working) _) (fun _ g => forall h,
    bal h (m_trace (g_mem g)) =
      msum (fun _ e => cnt h (own_entry (fst e))) (m_ents (g_mem g)) +
      msum (fun _ i => cnt h (own_instance (fst i))) (g_insts g) +
      cnt h (own_platform (g_platform g)) + cnt h (m_leaked (g_mem g)) /\
    0 <= bal h (m_trace (g_mem g))) initial_process.
Proof. exact (@open_is_owned (lab working) demo_build _ demo demo_application). Defined.

(** An application that ends with [hipObjShutdown()] has closed
    everything: no instance and no registration is left, and all that's
    still open is libibverbs, which the process keeps, and staging buffers
    and events whose copy hadn't ended. *)
Theorem shutdown_closes_everything `{E : World} `{B : BuildConfig} {A} (m : G A) (Hm : is_application m) :
  wp out_of_fuel (_ ← m; hipObjShutdown) (fun r g =>
    r = makeError hipObjSuccess /\ g_current g = None /\ g_insts g = ∅ /\ m_ents (g_mem g) = ∅ /\
    t_leasesHeld g = 0 /\
    forall h, bal h (m_trace (g_mem g)) =
                cnt h (m_leaked (g_mem g)) + cnt h (own_platform (g_platform g)) /\
              (h ∈ m_leaked (g_mem g) -> can_leak h = true)) initial_process.
Proof.
  apply wp_bind. eapply wp_mono; [apply (application_keeps m Hm no_frame eq_refl), Inv_initial|].
  cbv beta. intros _ g HI. unfold hipObjShutdown.
  apply wp_bind, (keeps_shutdownInstance out_of_fuel no_frame); [done|]. intros g' HI' Hc.
  apply wp_ret. destruct (Inv_over _ HI' Hc) as (Hi & He & Hb). split_and!; [done..| |].
  - exact (inv_leases _ _ HI').
  - intros h. split; [done|]. apply (mem_leaked _ (inv_mem _ _ HI')).
Qed.

Lemma shutdown_closes_everything_witness :
  wp out_of_fuel (_ ← @demo (lab working) _; @hipObjShutdown (lab working)) (fun r g =>
    r = makeError hipObjSuccess /\ g_current g = None /\ g_insts g = ∅ /\ m_ents (g_mem g) = ∅ /\
    t_leasesHeld g = 0 /\
    forall h, bal h (m_trace (g_mem g)) =
                cnt h (m_leaked (g_mem g)) + cnt h (own_platform (g_platform g)) /\
              (h ∈ m_leaked (g_mem g) -> can_leak h = true)) initial_process.
Proof. exact (@shutdown_closes_everything (lab working) demo_build _ demo demo_application). Defined.
