(* ===== verification/Threads.v ===== *)
(** * Many threads call the library

    The public functions as programs of threads ([src/hipobj.cpp],
    [src/state.cpp], [src/buffer.cpp], [src/abandoned-copies.cpp]).  An
    action is what a thread does while it holds a component's lock, or what
    it does with objects that no other thread can reach.  A thread that
    waits, for a connection or for [initMutex], is one whose next action
    can't be taken yet. *)

From Stdlib Require Import Ascii String.
From stdpp Require Import base numbers list gmap.
From S2P Require Import Prelude.
From S2P Require Import Programs.
From S2P Require Import Token.
From S2P Require Import IbvCore.
From S2P Require Import World.
From S2P Require Import Verbs.
From S2P Require Import Topology.
From S2P Require Import Transport.
From S2P Require Import Pool.
From S2P Require Import Buffer.
From S2P Require Import Abandoned.
From S2P Require Import State.
From S2P Require Import Invariant.
From S2P Require Import Control.
From S2P Require Import Api.
From S2P Require Import Safety.

(** ** Definitions *)

(** A program of a thread of the library; [Lock] and [Unlock] are those of
    [initMutex] *)
Abbreviation T := (prog Process).

(** *** The buffers *)

(** What [registerBuffer()] makes between [precheck()] and [insert()], when
    it has no lock: what it makes with an empty map.  [host] is for
    [registerHostBuffer()]. *)
Definition prepare_entry `{World} (host : bool) (b : BufferMap) (devPtr size : Z) (pd : ibv_pd)
    : HM (option nat) :=
  let b := b <| entries_ := ∅ |> in
  '(_, b) ← (if host then registerHostBuffer b devPtr size pd else registerBuffer b devPtr size pd);
  mret (entries_ b !! devPtr).

(** [insert()] while it has the lock: whether the map took the entry, or why
    not *)
Definition insert_locked (id : nat) (key : Z) (entry : nat) : G RegisterResult :=
  i ← get_inst id;
  match refusal (buffers i) key with
  | Some refused => mret refused
  | None =>
      _ ← update_inst id (fun i => i <| buffers ::= fun b => b <| entries_ ::= <[key := entry]> |> |>);
      mret Registered
  end.

Definition registerT `{World} (host : bool) (id : nat) (devPtr size : Z) : T RegisterResult :=
  pd ← act (i ← get_inst id; mret (dev_pd (device i)));
  if MAX_MR_SIZE <? size then mret RegisterFailed
  else
    refused ← act (i ← get_inst id; mret (precheck (buffers i) devPtr));
    match refused with
    | Some refused => mret refused
    | None =>
        entry ← act (i ← get_inst id; mem (prepare_entry host (buffers i) devPtr size pd));
        match entry with
        | None => mret RegisterFailed
        | Some entry =>
            r ← act (insert_locked id devPtr entry);
            _ ← (if decide (r = Registered) then mret tt else act (mem (drop_ref entry)));
            mret r
        end
    end.

(** [deregisterBuffer()] while it has the lock: the entry that it took out *)
Definition erase_locked (id : nat) (devPtr : Z) : G (DeregisterResult * option nat) :=
  i ← get_inst id;
  match entries_ (buffers i) !! devPtr with
  | None => mret (NotRegistered, None)
  | Some entry =>
      n ← mem (use_count entry);
      if Nat.ltb 1 n then mret (DeregisterBusy, None)
      else
        _ ← update_inst id (fun i => i <| buffers ::= fun b => b <| entries_ ::= delete devPtr |> |>);
        mret (Deregistered, Some entry)
  end.

Definition drop_opt `{World} (entry : option nat) : T unit :=
  match entry with Some e => act (mem (drop_ref e)) | None => mret tt end.

Definition deregisterT `{World} (id : nat) (devPtr : Z) : T DeregisterResult :=
  '(r, entry) ← act (erase_locked id devPtr); _ ← drop_opt entry; mret r.

Definition findT (id : nat) (devPtr : Z) : T (option nat) :=
  act (i ← get_inst id; mem (find (buffers i) devPtr)).

(** *** Abandoned copies *)

(** [release()] while it has the lock: the copies that are over leave the
    list *)
Definition collect `{World} (id : nat) (entry : option nat) : G (list Copy * bool) :=
  i ← get_inst id;
  '(over, stay, running) ← outside (release_loop entry (copies_ (abandoned i)));
  _ ← update_inst id (fun i => i <| abandoned := (abandoned i) <| copies_ := stay |> |>);
  mret (over, running).

Fixpoint destroy_copiesT `{World} (copies : list Copy) : T unit :=
  match copies with
  | [] => mret tt
  | c :: copies' =>
      _ ← act (outside (HipEventDeleter (copy_done c)));
      _ ← act (mem (drop_ref (copy_entry c)));
      destroy_copiesT copies'
  end.

(** They're released once the lock is *)
Definition release_copiesT `{World} (id : nat) (entry : option nat) : T bool :=
  '(over, running) ← act (collect id entry); _ ← destroy_copiesT over; mret running.

(** *** What the public functions share *)

Definition with_instanceT `{World} {A} (fail : hipObjError_t -> A) (body : nat -> T A) : T A :=
  instance ← act currentInstance;
  match instance with
  | None => mret (fail (makeError hipObjNotInitialized))
  | Some id => r ← body id; _ ← act (drop_inst id); mret r
  end.

Definition if_okT {A} (fail : hipObjError_t -> A) (err : hipObjError_t) (next : T A) : T A :=
  if bool_decide (opError err = hipObjSuccess) then next else mret (fail err).

Definition checkNoAbandonedCopyT `{World} (id buf : nat) : T hipObjError_t :=
  e ← act (mem (get_entry buf));
  if hostBuf e =? 0 then mret (makeError hipObjSuccess)
  else
    r ← release_copiesT id (Some buf);
    mret (makeError (if r : bool then hipObjBusy else hipObjSuccess)).

Definition with_checked_bufferT `{World} {A} (fail : hipObjError_t -> A) (inst : nat)
    (devPtr size offset : Z) (next : nat -> T A) : T A :=
  buf ← findT inst devPtr;
  r ← (match buf with
       | None => mret (fail (checkBufferArgs devPtr None size offset))
       | Some b =>
           e ← act (mem (get_entry b));
           if_okT fail (checkBufferArgs devPtr (Some e) size offset) (
             err ← checkNoAbandonedCopyT inst b;
             if_okT fail err (next b))
       end);
  _ ← drop_opt buf;
  mret r.

(** *** Staging copies *)

Definition end_copyT `{World} (id : nat) (done : Z) (err : hipObjOpError_t) : T hipObjError_t :=
  _ ← act (outside (HipEventDeleter done)); _ ← act (give_back_slot id); mret (makeError err).

Definition stageCopyWithDeadlineT `{World} (id buf : nat) (dst src size : Z) (kind : hipMemcpyKind)
    : T hipObjError_t :=
  _ ← act (update_inst id (fun i => i <| abandoned := reserve (abandoned i) |>));
  '(err, done) ← act (outside (perform eventCreate));
  if negb (err =? hipSuccess) then
    _ ← act (give_back_slot id); mret (makeError hipObjInternalError)
  else
    err ← act (outside (perform (memcpyAsync dst src size kind)));
    err ← (if err =? hipSuccess then act (outside (perform (eventRecord done))) else mret err);
    if negb (err =? hipSuccess) then end_copyT id done hipObjInternalError
    else
      i ← act (get_inst id);
      let ms := stageTimeout (options i) in
      outcome ← act (outside (stage_wait done ms));
      match outcome with
      | StageDone => end_copyT id done hipObjSuccess
      | StageFailed => end_copyT id done hipObjInternalError
      | StageTimedOut =>
          _ ← act (mem (copy_ref buf));
          _ ← act (update_inst id (fun i => i <| abandoned := add buf done (abandoned i) |>));
          _ ← act (outside (perform (print_stderr (StagingTimeout kind size ms))));
          mret (makeError hipObjInternalError)
      end.

Definition stageToDeviceT `{World} (id : nat) (devPtr : Z) (buf : nat) (size offset : Z) : T hipObjError_t :=
  e ← act (mem (get_entry buf));
  if hostBuf e =? 0 then mret (makeError hipObjSuccess)
  else if negb (rangeInRegistration offset size (buf_size e)) then mret (makeError hipObjInvalidValue)
  else stageCopyWithDeadlineT id buf (devPtr + offset) (hostBuf e + offset) size hipMemcpyHostToDevice.

Definition stageToHostT `{World} (id : nat) (devPtr : Z) (buf : nat) (size offset : Z) : T hipObjError_t :=
  e ← act (mem (get_entry buf));
  if hostBuf e =? 0 then mret (makeError hipObjSuccess)
  else if negb (rangeInRegistration offset size (buf_size e)) then mret (makeError hipObjInvalidValue)
  else stageCopyWithDeadlineT id buf (hostBuf e + offset) (devPtr + offset) size hipMemcpyDeviceToHost.

(** *** Transfers *)

(** Callbacks that other threads run between the actions of *)
Record thread_ops := {
  send_request : option (chars -> T Z);
  recv_reply : option (chars -> T (Z * chars * Z));
}.

Definition alone_ops (o : thread_ops) : hipObjOps_t :=
  {| sendRequest := (fun f token => alone (f token)) <$> send_request o;
     recvReply := (fun f buf => alone (f buf)) <$> recv_reply o |}.

Definition injectRdmaTokenT (ops : thread_ops) (token : chars) : T bool :=
  match send_request ops with
  | None => mret false
  | Some send => st ← send token; mret (st =? 0)
  end.

Definition receiveRdmaReplyRawT (ops : thread_ops) (replyBuf : chars) : T (option RdmaReply) :=
  match recv_reply ops with
  | None => mret None
  | Some recv =>
      if bool_decide (replyBuf = []) then mret None
      else
        '(st, buf, replyLen) ← recv replyBuf;
        mret (received_reply (List.length replyBuf) st buf replyLen)
  end.

Definition finishT `{World} (id index : nat) (sync : bool) (ms : Z) : T bool :=
  conn ← act (get_connection id index);
  ok ← act (outside (pollCompletion (poll_fuel ms) conn None ms));
  if negb ok then mret false
  else if negb sync then mret true
  else st ← act (outside (perform deviceSynchronize)); mret (st =? hipSuccess).

Definition finishTransferAfterReplyT `{World} `{BuildConfig} (id index : nat) (reply : chars)
    (sync : bool) (ms : Z) : T (bool * bool) :=
  match parsePeerTokenFromReply reply with
  | Some peerToken =>
      conn ← act (get_connection id index);
      ok ← act (outside (connectRcPeer conn peerToken));
      if negb ok then mret (false, true) else r ← finishT id index sync ms; mret (r, true)
  | None => r ← finishT id index sync ms; mret (r, false)
  end.

Definition leased_transferT `{World} `{BuildConfig} (id index buf : nat) (size offset : Z)
    (ops : thread_ops) : T (hipObjError_t * bool) :=
  conn ← act (get_connection id index);
  e ← act (mem (get_entry buf));
  match buildRdmaToken conn e size offset with
  | None => mret (makeError hipObjRdmaError, false)
  | Some token =>
      sent ← injectRdmaTokenT ops (encodeRdmaToken token);
      if negb sent then mret (makeError hipObjS3Error, false)
      else
        reply ← receiveRdmaReplyRawT ops (replicate kReplyBufLen (chr 0));
        match reply with
        | None => mret (makeError hipObjS3Error, false)
        | Some reply =>
            if negb (bool_decide (status reply = Success)) then mret (makeError hipObjS3Error, false)
            else
              e ← act (mem (get_entry buf));
              i ← act (get_inst id);
              '(ok, connected) ← finishTransferAfterReplyT id index (text reply) (isDmabuf e)
                                   (pollTimeout (options i));
              if negb ok then mret (makeError hipObjRdmaError, connected)
              else mret (makeError hipObjSuccess, connected)
        end
  end.

Definition runRdmaTransferT `{World} `{BuildConfig} (id buf : nat) (size offset : Z)
    (ops : thread_ops) : T hipObjError_t :=
  acquired ← act (acquire_lease id);
  match acquired with
  | inr err => mret (acquireError err)
  | inl index =>
      '(err, connected) ← leased_transferT id index buf size offset ops;
      _ ← act (release_lease id index connected);
      mret err
  end.

(** *** Initialization and shutdown *)

Definition haveInstanceT `{World} : T bool :=
  instance ← act currentInstance;
  match instance with
  | None => mret false
  | Some id => _ ← act (drop_inst id); mret true
  end.

(** What [initWith()] builds, which no other thread can reach: the instance,
    and whether its pool is full *)
Definition build_shared `{World} `{NicTopology} (config : hipObjConfig_t) (opts : Options)
    : G (nat * bool + hipObjError_t) :=
  built ← outside (build_instance config opts);
  match built with
  | inr err => mret (inr err)
  | inl instance =>
      id ← make_shared_inst instance; mret (inl (id, pool_size (pool instance) =? maxTransfers opts))
  end.

Definition publish (id : nat) : G unit := modify (fun g => g <| g_current := Some id |>).

Definition initLockedT `{World} `{NicTopology} (config : hipObjConfig_t) (opts : Options)
    : T hipObjError_t :=
  have ← haveInstanceT;
  if have : bool then mret (makeError hipObjAlreadyInitialized)
  else
    built ← act (build_shared config opts);
    match built with
    | inr err => mret err
    | inl (id, full) =>
        if negb full then _ ← act (drop_inst id); mret (makeError hipObjRdmaError)
        else _ ← act (publish id); mret (makeError hipObjSuccess)
    end.

(** [initLock] is released last *)
Definition initWithT `{World} `{NicTopology} (config : hipObjConfig_t) (opts : Options)
    : T hipObjError_t :=
  _ ← lock; r ← initLockedT config opts; _ ← unlock; mret r.

(** [std::move(state.instance)] *)
Definition take_current : G (option nat) :=
  g ← get_state; _ ← put_state (g <| g_current := None |>); mret (g_current g).

Definition shutdownInstanceT `{World} : T unit :=
  _ ← lock;
  instance ← act take_current;
  _ ← (match instance with
       | None => mret tt
       | Some id =>
           _ ← act (update_inst id (fun i => i <| pool := close (pool i) |>));
           act (drop_inst id)
       end);
  unlock.

(** *** The public functions *)

Definition hipObjInitT `{World} `{NicTopology} (config : option hipObjConfig_t) : T hipObjError_t :=
  match config with
  | None => mret (makeError hipObjInvalidValue)
  | Some config =>
      if negb (flags config =? 0) || (gpuDevice config <? -1) then mret (makeError hipObjInvalidValue)
      else
        have ← haveInstanceT;
        if have : bool then mret (makeError hipObjAlreadyInitialized)
        else
          platform ← act systemPlatform;
          match platform with
          | None => mret (makeError hipObjRdmaError)
          | Some _ =>
              opts ← act (outside (parseOptions (fun name => perform (getenv name))));
              initWithT config opts
          end
  end.

Definition hipObjShutdownT `{World} : T hipObjError_t :=
  _ ← shutdownInstanceT; mret (makeError hipObjSuccess).

Definition hipObjBufRegisterT `{World} (devPtr size : Z) : T hipObjError_t :=
  with_instanceT id (fun inst =>
    if_okT id (checkRegistrationArgs devPtr size) (
      valid ← act (outside (isValidDeviceRange devPtr size));
      if negb valid then mret (makeError hipObjInvalidValue)
      else r ← registerT false inst devPtr size; mret (registrationError r))).

Definition hipObjBufRegisterHostT `{World} (hostPtr size : Z) : T hipObjError_t :=
  with_instanceT id (fun inst =>
    if_okT id (checkRegistrationArgs hostPtr size) (
      r ← registerT true inst hostPtr size; mret (registrationError r))).

Definition hipObjBufDeregisterT `{World} (devPtr : Z) : T hipObjError_t :=
  with_instanceT id (fun inst =>
    if devPtr =? 0 then mret (makeError hipObjInvalidValue)
    else
      _ ← release_copiesT inst None;
      result ← deregisterT inst devPtr;
      mret (match result with
            | Deregistered => makeError hipObjSuccess
            | NotRegistered => makeError hipObjBufNotRegistered
            | DeregisterBusy => makeError hipObjBusy
            end)).

Definition with_opsT (ops : option thread_ops) (next : thread_ops -> T hipObjError_t)
    : T hipObjError_t :=
  match ops with
  | None => mret (makeError hipObjInvalidValue)
  | Some o =>
      match send_request o, recv_reply o with
      | Some _, Some _ => next o
      | _, _ => mret (makeError hipObjInvalidValue)
      end
  end.

Definition hipObjGetT `{World} `{BuildConfig} (devPtr size offset : Z) (ops : option thread_ops)
    : T hipObjError_t :=
  with_instanceT id (fun inst =>
    with_opsT ops (fun ops =>
      with_checked_bufferT id inst devPtr size offset (fun buf =>
        err ← runRdmaTransferT inst buf size offset ops;
        if_okT id err (stageToDeviceT inst devPtr buf size offset)))).

Definition hipObjPutT `{World} `{BuildConfig} (devPtr size offset : Z) (ops : option thread_ops)
    : T hipObjError_t :=
  with_instanceT id (fun inst =>
    with_opsT ops (fun ops =>
      with_checked_bufferT id inst devPtr size offset (fun buf =>
        err ← stageToHostT inst devPtr buf size offset;
        if_okT id err (runRdmaTransferT inst buf size offset ops)))).

Definition hipObjBufSyncT `{World} (devPtr size offset direction : Z) : T hipObjError_t :=
  with_instanceT id (fun inst =>
    if negb (direction =? HIPOBJ_SYNC_TO_HOST) && negb (direction =? HIPOBJ_SYNC_TO_DEVICE)
    then mret (makeError hipObjInvalidValue)
    else
      with_checked_bufferT id inst devPtr size offset (fun buf =>
        if direction =? HIPOBJ_SYNC_TO_DEVICE then stageToDeviceT inst devPtr buf size offset
        else stageToHostT inst devPtr buf size offset)).

Definition hipObjGetRdmaTokenT `{World} (devPtr size op : Z) (outToken : bool)
    : T (hipObjError_t * option chars) :=
  let fail e := (e, None) in
  with_instanceT fail (fun inst =>
    if negb outToken || (negb (op =? HIPOBJ_RDMA_OP_PUT) && negb (op =? HIPOBJ_RDMA_OP_GET))
    then mret (fail (makeError hipObjInvalidValue))
    else
      with_checked_bufferT fail inst devPtr size 0 (fun buf =>
        i ← act (get_inst inst);
        e ← act (mem (get_entry buf));
        mret (match buildRdmaToken (tokenConn i) e size 0 with
              | None => fail (makeError hipObjRdmaError)
              | Some token => (makeError hipObjSuccess, Some (encodeRdmaTokenHex token))
              end))).

(** *** Systems of threads *)

(** What a thread has left to do, and its [t_leasesHeld]; [s_init] is the
    thread that has [initMutex] *)
Record system := {
  s_state : Process;
  s_init : option nat;
  s_threads : list (T unit * Z);
}.

(** The state that a thread sees *)
Definition seen_by (leases : Z) (g : Process) : Process := g <| t_leasesHeld := leases |>.

Inductive step : system -> system -> Prop :=
| step_act g i ths t X (m : G X) k n x g' :
    ths !! t = Some (Act m k, n) -> m (seen_by n g) = (inl x, g') ->
    step {| s_state := g; s_init := i; s_threads := ths |}
         {| s_state := g'; s_init := i; s_threads := <[t := (k x, t_leasesHeld g')]> ths |}
| step_lock g ths t k n :
    ths !! t = Some (Lock k, n) ->
    step {| s_state := g; s_init := None; s_threads := ths |}
         {| s_state := g; s_init := Some t; s_threads := <[t := (k, n)]> ths |}
| step_unlock g ths t k n :
    ths !! t = Some (Unlock k, n) ->
    step {| s_state := g; s_init := Some t; s_threads := ths |}
         {| s_state := g; s_init := None; s_threads := <[t := (k, n)]> ths |}.

(** A new process, in which each thread has a program to run *)
Definition started (ps : list (T unit)) : system :=
  {| s_state := initial_process; s_init := None; s_threads := (fun p => (p, 0)) <$> ps |}.

Definition reachable (ps : list (T unit)) (s : system) : Prop := rtc step (started ps) s.

(** The programs of a thread of an application, whose callbacks are such
    programs *)
Inductive thread_program `{World} `{BuildConfig} `{NicTopology} : forall A : Type, T A -> Prop :=
| thread_ret {A} (a : A) : thread_program A (mret a)
| thread_bind {A B} (p : T A) (k : A -> T B) :
    thread_program A p -> (forall a, thread_program B (k a)) -> thread_program B (p ≫= k)
| thread_own {A} (m : W A) : own_work m -> thread_program A (act (outside m))
| thread_keep f : thread_program unit (act (modify (fun g => g <| g_app := f (g_app g) |>)))
| thread_recall : thread_program chars (act (g ← get_state; mret (g_app g)))
| thread_init config : thread_program _ (hipObjInitT config)
| thread_shutdown : thread_program _ hipObjShutdownT
| thread_register devPtr size : thread_program _ (hipObjBufRegisterT devPtr size)
| thread_register_host hostPtr size : thread_program _ (hipObjBufRegisterHostT hostPtr size)
| thread_deregister devPtr : thread_program _ (hipObjBufDeregisterT devPtr)
| thread_get devPtr size offset ops :
    (forall o send token, ops = Some o -> send_request o = Some send -> thread_program _ (send token)) ->
    (forall o recv buf, ops = Some o -> recv_reply o = Some recv -> thread_program _ (recv buf)) ->
    thread_program _ (hipObjGetT devPtr size offset ops)
| thread_put devPtr size offset ops :
    (forall o send token, ops = Some o -> send_request o = Some send -> thread_program _ (send token)) ->
    (forall o recv buf, ops = Some o -> recv_reply o = Some recv -> thread_program _ (recv buf)) ->
    thread_program _ (hipObjPutT devPtr size offset ops)
| thread_sync devPtr size offset direction :
    thread_program _ (hipObjBufSyncT devPtr size offset direction)
| thread_token devPtr size op outToken :
    thread_program _ (hipObjGetRdmaTokenT devPtr size op outToken).

(** Threads of the library as it's built *)
Definition are_threads `{World} `{BuildConfig} (ps : list (T unit)) : Prop :=
  forall p, p ∈ ps -> @thread_program _ _ SysfsTopology unit p.

(** ** Lemmas *)

Section alone.
Context `{E : World} `{B : BuildConfig}.

Lemma end_copy_alone id done e :
  alone (end_copyT id done e) ≡
  (_ ← outside (HipEventDeleter done); _ ← give_back_slot id; mret (makeError e)).
Proof. unfold end_copyT. repeat astep. Qed.

Lemma stageCopyWithDeadline_alone id buf dst src size kind :
  alone (stageCopyWithDeadlineT id buf dst src size kind) ≡ stageCopyWithDeadline id buf dst src size kind.
Proof.
  unfold stageCopyWithDeadlineT, stageCopyWithDeadline. astep. astep. astep. astep; [repeat astep|].
  astep. astep; [astep; by rewrite ?alone_act|]. astep; [apply end_copy_alone|]. astep.
  etransitivity; [apply alone_bind|]. cbv zeta. rewrite <- bind_assoc, <- outside_bind.
  apply bind_cong; [apply alone_act|]. intros outcome. destruct outcome; [apply end_copy_alone..|].
  repeat astep.
Qed.

Lemma stageToDevice_alone id p buf size offset :
  alone (stageToDeviceT id p buf size offset) ≡ stageToDevice id p buf size offset.
Proof.
  unfold stageToDeviceT, stageToDevice. repeat astep. apply stageCopyWithDeadline_alone.
Qed.

Lemma stageToHost_alone id p buf size offset :
  alone (stageToHostT id p buf size offset) ≡ stageToHost id p buf size offset.
Proof.
  unfold stageToHostT, stageToHost. repeat astep. apply stageCopyWithDeadline_alone.
Qed.

Lemma finishT_alone id index sync ms :
  alone (finishT id index sync ms) ≡
  (conn ← get_connection id index;
   ok ← outside (pollCompletion (poll_fuel ms) conn None ms);
   if negb ok then mret false
   else if negb sync then mret true
   else st ← outside (perform deviceSynchronize); mret (st =? hipSuccess)).
Proof. unfold finishT. repeat astep. Qed.

Lemma finishTransferAfterReply_alone id index reply sync ms :
  alone (finishTransferAfterReplyT id index reply sync ms) ≡ finishTransferAfterReply id index reply sync ms.
Proof.
  unfold finishTransferAfterReplyT, finishTransferAfterReply. repeat astep; try done; apply finishT_alone.
Qed.

Lemma leased_transfer_alone id index buf size offset ops :
  alone (leased_transferT id index buf size offset ops) ≡
  leased_transfer id index buf size offset (alone_ops ops).
Proof.
  unfold leased_transferT, leased_transfer, injectRdmaTokenT, injectRdmaToken, receiveRdmaReplyRawT,
    receiveRdmaReplyRaw.
  destruct ops as [send recv]. cbn [alone_ops send_request recv_reply sendRequest recvReply].
  repeat astep; try done. apply finishTransferAfterReply_alone.
Qed.

Lemma runRdmaTransfer_alone id buf size offset ops :
  alone (runRdmaTransferT id buf size offset ops) ≡ runRdmaTransfer id buf size offset (alone_ops ops).
Proof.
  unfold runRdmaTransferT, runRdmaTransfer. repeat astep. apply leased_transfer_alone.
Qed.

Lemma haveInstance_alone : alone haveInstanceT ≡ haveInstance.
Proof. unfold haveInstanceT, haveInstance. repeat astep. Qed.

Lemma initWith_alone `{N : NicTopology} config opts : alone (initWithT config opts) ≡ initWith config opts.
Proof.
  unfold initWithT. rewrite alone_locked. unfold initLockedT, initWith, build_shared.
  astep; [apply haveInstance_alone|]. astep; [done|].
  etransitivity; [apply alone_bind|]. rewrite alone_act, bind_assoc. apply bind_cong; [done|].
  intros [instance|err]; [|done]. rewrite bind_assoc. apply bind_cong; [done|]. intros id.
  rewrite ret_bind. repeat astep.
Qed.

(** *** The buffers *)

Lemma prepare_entry_registers (host : bool) b p n pd :
  (if host then registerHostBuffer b p n pd else registerBuffer b p n pd) ≡
  if MAX_MR_SIZE <? n then mret (RegisterFailed, b)
  else
    match precheck b p with
    | Some refused => mret (refused, b)
    | None =>
        entry ← prepare_entry host b p n pd;
        match entry with
        | None => mret (RegisterFailed, b)
        | Some entry => insert_entry b p entry
        end
    end.
Proof.
  unfold prepare_entry, registerHostBuffer, registerBuffer.
  destruct (MAX_MR_SIZE <? n); [by destruct host|].
  destruct (precheck b p) eqn:Hp; [by destruct host|].
  change (precheck (b <| entries_ := ∅ |>) p) with (@None RegisterResult).
  cbn [dmabuf_ requireGpuDirect_ set_field].
  set (rest := fun x : HM (RegisterResult * BufferMap) =>
    entry ← ('(_, b1) ← x; mret (entries_ b1 !! p));
    match entry with Some entry => insert_entry b p entry | None => mret (RegisterFailed, b) end).
  assert (forall A (x : HM A) k, rest (x ≫= k) ≡ x ≫= (fun a => rest (k a))) as Hbind.
  { intros A x k. unfold rest. rewrite bind_assoc, bind_assoc. apply bind_cong; [done|]. intros a. by rewrite bind_assoc. }
  assert (forall e, (entry ← make_shared e; insert_entry b p entry) ≡
                    rest (entry ← make_shared e; insert_entry (b <| entries_ := ∅ |>) p entry)) as Hmake.
  { intros e. rewrite Hbind. apply bind_cong; [done|]. intros entry.
    change (insert_entry (b <| entries_ := ∅ |>) p entry) with
      (mret (M := HM) (Registered, b <| entries_ := <[p := entry]> ∅ |>)).
    unfold rest. rewrite !ret_bind. cbn [entries_ set_field]. by rewrite lookup_insert_eq. }
  destruct host; match goal with |- ?l ≡ mbind _ (mbind _ ?x) => change (l ≡ rest x) end;
    rewrite Hbind; (apply bind_cong; [done|]); intros [x|]; try done; try apply Hmake.
  rewrite Hbind. apply bind_cong; [done|]. intros deviceMemory. destruct (_ && _); [by rewrite Hbind|].
  rewrite Hbind. apply bind_cong; [done|]. intros _.
  rewrite Hbind. apply bind_cong; [done|]. intros [err raw]. destruct (_ || _); [done|].
  rewrite Hbind. apply bind_cong; [done|]. intros [x|]; [by apply Hmake|by rewrite Hbind].
Qed.

Lemma get_inst_run id g :
  get_inst id g = match g_insts g !! id with Some (i, n) => (inl i, g) | None => (inr Undefined, g) end.
Proof. unfold get_inst, read_inst, mbind, M_bind, get_state. cbn. by destruct (g_insts g !! id) as [[i n]|]. Qed.

Lemma update_inst_run id f g i n :
  g_insts g !! id = Some (i, n) -> update_inst id f g = (inl tt, at_inst g id n (f i) (g_mem g)).
Proof.
  intros Hi. unfold update_inst, read_inst, mbind, M_bind, get_state. cbn. rewrite Hi. cbn.
  unfold at_inst. by destruct g.
Qed.

Lemma mem_run {A} (x : HM A) g :
  outcome (mem x g) = match outcome (x (g_mem g)) with inl (a, m) => inl (a, g <| g_mem := m |>) | inr e => inr e end.
Proof. unfold mem, zoom. by destruct (x (g_mem g)) as [[a|e] m]. Qed.

Lemma on_buffers_run {A} id (f : BufferMap -> HM (A * BufferMap)) g i n :
  g_insts g !! id = Some (i, n) ->
  outcome (on_buffers id f g) =
  match outcome (f (buffers i) (g_mem g)) with
  | inl (a, b, m) => inl (a, at_inst g id n (i <| buffers := b |>) m)
  | inr e => inr e
  end.
Proof.
  intros Hi. unfold on_buffers. rewrite outcome_bind, get_inst_run, Hi. cbn [outcome].
  rewrite outcome_bind, mem_run. destruct (outcome (f (buffers i) (g_mem g))) as [[[a b] m]|e]; [|done].
  rewrite outcome_bind. erewrite update_inst_run by exact Hi. done.
Qed.

(** Nothing's changed *)
Lemma at_inst_same g id i n :
  g_insts g !! id = Some (i, n) -> forall m, at_inst g id n (i <| buffers := buffers i |>) m = g <| g_mem := m |>.
Proof.
  intros Hi m. unfold at_inst. replace (i <| buffers := buffers i |>) with i by by destruct i.
  destruct g. cbn in *. by rewrite insert_id.
Qed.

Lemma same_mem g : g <| g_mem := g_mem g |> = g.
Proof. by destruct g. Qed.

Lemma register_alone (host : bool) id p n :
  alone (registerT host id p n) ≡
  (i ← get_inst id;
   on_buffers id (fun b => if host then registerHostBuffer b p n (dev_pd (device i))
                           else registerBuffer b p n (dev_pd (device i)))).
Proof.
  intros g. unfold registerT. rewrite alone_bind_run, (alone_act _ g), !outcome_bind, get_inst_run.
  destruct (g_insts g !! id) as [[i k]|] eqn:Hi; [|done]. cbn [outcome mret M_ret].
  rewrite (on_buffers_run _ _ _ _ _ Hi), (prepare_entry_registers host _ _ _ _ _).
  pose proof (at_inst_same g id i k Hi) as Hsame. pose proof (same_mem g) as Hg.
  destruct (MAX_MR_SIZE <? n); [cbn; by rewrite Hsame, Hg|].
  rewrite alone_bind_run, (alone_act _ g), outcome_bind, get_inst_run, Hi. cbn [outcome mret M_ret].
  destruct (precheck (buffers i) p) as [r|]; [cbn; by rewrite Hsame, Hg|].
  rewrite alone_bind_run, (alone_act _ g), !outcome_bind, get_inst_run, Hi. cbn [outcome].
  rewrite mem_run. destruct (outcome (prepare_entry host (buffers i) p n (dev_pd (device i)) (g_mem g))) as [[[e|] m]|e];
    [|cbn; by rewrite Hsame|done].
  rewrite alone_bind_run, (alone_act _ _). unfold insert_locked. rewrite outcome_bind, get_inst_run.
  cbn [g_insts set_field]. rewrite Hi. cbn [outcome]. unfold insert_entry.
  destruct (refusal (buffers i) p) as [r|] eqn:Hr.
  - cbn [outcome mret M_ret]. rewrite decide_False by (intros ->; by apply refusal_registered in Hr).
    rewrite alone_bind_run, (alone_act _ _), mem_run, outcome_bind. cbn [g_mem set_field].
    destruct (outcome (drop_ref e m)) as [[[] m']|]; [|done]. cbn. by rewrite Hsame.
  - rewrite outcome_bind. erewrite update_inst_run by exact Hi. cbn. done.
Qed.

Lemma deregister_alone id p :
  alone (deregisterT id p) ≡ on_buffers id (fun b => deregisterBuffer b p).
Proof.
  intros g. unfold deregisterT. rewrite alone_bind_run, (alone_act _ g). unfold erase_locked.
  rewrite outcome_bind, get_inst_run.
  destruct (g_insts g !! id) as [[i k]|] eqn:Hi.
  2:{ unfold on_buffers. by rewrite outcome_bind, get_inst_run, Hi. }
  cbn [outcome]. rewrite (on_buffers_run _ _ _ _ _ Hi).
  pose proof (at_inst_same g id i k Hi) as Hsame. pose proof (same_mem g) as Hg.
  unfold deregisterBuffer. destruct (entries_ (buffers i) !! p) as [e|]; [|cbn; by rewrite Hsame, Hg].
  rewrite !outcome_bind, mem_run. destruct (outcome (use_count e (g_mem g))) as [[c m]|]; [|done].
  destruct (Nat.ltb 1 c); [cbn; by rewrite Hsame|]. cbv zeta. rewrite !outcome_bind.
  erewrite update_inst_run by exact Hi. cbn [outcome mret M_ret drop_opt].
  rewrite alone_bind_run, (alone_act _ _), mem_run. cbn [at_inst g_mem set_field].
  by destruct (outcome (drop_ref e m)) as [[[] m']|].
Qed.

(** *** Abandoned copies *)

Lemma destroy_copies_alone cs : alone (destroy_copiesT cs) ≡ mem (destroy_copies cs).
Proof.
  induction cs as [|c cs IH]; cbn [destroy_copiesT destroy_copies]; [by intros []|].
  symmetry. etransitivity; [apply mem_bind|]. unfold destroy_Copy.
  etransitivity; [apply bind_cong; [apply mem_bind|done]|]. etransitivity; [apply bind_assoc|]. symmetry.
  do 2 astep. exact IH.
Qed.

Lemma release_copies_alone id entry :
  alone (release_copiesT id entry) ≡ on_abandoned id (release_copies entry).
Proof.
  intros g. unfold release_copiesT, on_abandoned. rewrite alone_bind_run, (alone_act _ g). unfold collect.
  rewrite !outcome_bind, get_inst_run. destruct (g_insts g !! id) as [[i n]|] eqn:Hi; [|done]. cbn [outcome].
  unfold release_copies. rewrite outcome_bind. unfold outside. rewrite outcome_bind, !mem_run, outcome_bind.
  destruct (outcome (calls (release_loop entry (copies_ (abandoned i))) (g_mem g))) as [[[[over stay] r] m]|]; [|done].
  rewrite outcome_bind. erewrite update_inst_run by exact Hi. cbn [outcome mret M_ret].
  rewrite alone_bind_run, (destroy_copies_alone over _), mem_run, outcome_bind. cbn [at_inst g_mem set_field].
  destruct (outcome (destroy_copies over m)) as [[[] m']|]; [|done]. cbn [outcome mret M_ret].
  rewrite outcome_bind. erewrite update_inst_run by exact Hi. done.
Qed.

(** [reclaim()] doesn't say whether any copy is running *)
Lemma reclaim_alone {A} id (next : T A) (next' : G A) :
  alone next ≡ next' ->
  alone (_ ← release_copiesT id None; next) ≡
  (_ ← on_abandoned id (fun a => a ← reclaim a; mret (tt, a)); next').
Proof.
  intros Hn g. rewrite alone_bind_run, (release_copies_alone id None g). unfold on_abandoned, reclaim.
  rewrite !outcome_bind. destruct (outcome (get_inst id g)) as [[i g1]|]; [|done].
  rewrite !outcome_bind, !mem_run, !outcome_bind.
  destruct (outcome (release_copies None (abandoned i) (g_mem g1))) as [[[r a] m]|]; [|done]. cbn [outcome mret M_ret].
  rewrite !outcome_bind. destruct (outcome (update_inst id _ _)) as [[u g2]|]; [|done]. apply Hn.
Qed.

Lemma checkNoAbandonedCopy_alone id buf : alone (checkNoAbandonedCopyT id buf) ≡ checkNoAbandonedCopy id buf.
Proof.
  unfold checkNoAbandonedCopyT, checkNoAbandonedCopy. astep. astep; [done|]. astep; [apply release_copies_alone|].
  by astep.
Qed.

(** *** What the public functions share *)

Lemma with_instance_alone {A} (fail : hipObjError_t -> A) body body' :
  (forall id, alone (body id) ≡ body' id) -> alone (with_instanceT fail body) ≡ with_instance fail body'.
Proof. intros Hb. unfold with_instanceT, with_instance. repeat astep. apply Hb. Qed.

Lemma if_ok_alone {A} (fail : hipObjError_t -> A) err next next' :
  alone next ≡ next' -> alone (if_okT fail err next) ≡ if_ok fail err next'.
Proof. intros Hn. unfold if_okT, if_ok. repeat astep. exact Hn. Qed.

Lemma with_checked_buffer_alone {A} (fail : hipObjError_t -> A) inst p size offset next next' :
  (forall b, alone (next b) ≡ next' b) ->
  alone (with_checked_bufferT fail inst p size offset next) ≡
  with_checked_buffer fail inst p size offset next'.
Proof.
  intros Hn. unfold with_checked_bufferT, with_checked_buffer, with_buffer, findT.
  etransitivity; [|apply bind_assoc]. astep. astep.
  - astep; [|done]. astep. apply if_ok_alone. astep; [apply checkNoAbandonedCopy_alone|]. by apply if_ok_alone.
  - unfold drop_opt. repeat astep.
Qed.

(** *** The public functions *)

Lemma shutdownInstance_alone : alone shutdownInstanceT ≡ shutdownInstance.
Proof.
  intros g. unfold shutdownInstanceT, shutdownInstance. rewrite alone_bind_run. cbn [outcome alone lock mret M_ret].
  rewrite alone_bind_run, (alone_act _ g), outcome_bind. cbn [take_current outcome get_state].
  change (outcome (take_current g)) with (@inl (option nat * Process) stop (g_current g, g <| g_current := None |>)).
  cbv iota. rewrite outcome_bind. cbn [outcome put_state]. destruct (g_current g) as [id|]; [|done].
  rewrite !alone_bind_run, (alone_act _ _), outcome_bind.
  destruct (outcome (update_inst _ _ _)) as [[u g1]|]; [|done]. rewrite (alone_act _ g1).
  by destruct (outcome (drop_inst id g1)) as [[[] g2]|].
Qed.

Lemma hipObjInit_alone `{N : NicTopology} config : alone (hipObjInitT config) ≡ hipObjInit config.
Proof.
  unfold hipObjInitT, hipObjInit. astep; [|done]. astep; [done|]. astep; [apply haveInstance_alone|].
  repeat astep. apply initWith_alone.
Qed.

Lemma hipObjBufRegister_alone p n : alone (hipObjBufRegisterT p n) ≡ hipObjBufRegister p n.
Proof.
  unfold hipObjBufRegisterT, hipObjBufRegister. apply with_instance_alone. intros id. apply if_ok_alone.
  astep. astep; [done|]. etransitivity; [|apply bind_assoc]. astep; [|done]. apply (register_alone false).
Qed.

Lemma hipObjBufRegisterHost_alone p n : alone (hipObjBufRegisterHostT p n) ≡ hipObjBufRegisterHost p n.
Proof.
  unfold hipObjBufRegisterHostT, hipObjBufRegisterHost. apply with_instance_alone. intros id. apply if_ok_alone.
  etransitivity; [|apply bind_assoc]. astep; [|done]. apply (register_alone true).
Qed.

Lemma hipObjBufDeregister_alone p : alone (hipObjBufDeregisterT p) ≡ hipObjBufDeregister p.
Proof.
  unfold hipObjBufDeregisterT, hipObjBufDeregister. apply with_instance_alone. intros id.
  astep; [done|]. apply reclaim_alone. astep; [apply deregister_alone|done].
Qed.

Lemma with_ops_alone ops next next' :
  (forall o, alone (next o) ≡ next' (alone_ops o)) ->
  alone (with_opsT ops next) ≡ with_ops (alone_ops <$> ops) next'.
Proof.
  intros Hn. unfold with_opsT, with_ops. destruct ops as [[[send|] [recv|]]|]; cbn; done.
Qed.

Lemma hipObjGet_alone p n offset ops : alone (hipObjGetT p n offset ops) ≡ hipObjGet p n offset (alone_ops <$> ops).
Proof.
  unfold hipObjGetT, hipObjGet. apply with_instance_alone. intros id. apply with_ops_alone. intros o.
  apply with_checked_buffer_alone. intros b. astep; [apply runRdmaTransfer_alone|].
  apply if_ok_alone, stageToDevice_alone.
Qed.

Lemma hipObjPut_alone p n offset ops : alone (hipObjPutT p n offset ops) ≡ hipObjPut p n offset (alone_ops <$> ops).
Proof.
  unfold hipObjPutT, hipObjPut. apply with_instance_alone. intros id. apply with_ops_alone. intros o.
  apply with_checked_buffer_alone. intros b. astep; [apply stageToHost_alone|].
  apply if_ok_alone, runRdmaTransfer_alone.
Qed.

Lemma hipObjBufSync_alone p n offset dir : alone (hipObjBufSyncT p n offset dir) ≡ hipObjBufSync p n offset dir.
Proof.
  unfold hipObjBufSyncT, hipObjBufSync. apply with_instance_alone. intros id. astep; [done|].
  apply with_checked_buffer_alone. intros b. astep; [apply stageToDevice_alone|apply stageToHost_alone].
Qed.

Lemma hipObjGetRdmaToken_alone p n op out :
  alone (hipObjGetRdmaTokenT p n op out) ≡ hipObjGetRdmaToken p n op out.
Proof.
  unfold hipObjGetRdmaTokenT, hipObjGetRdmaToken. apply with_instance_alone. intros id. astep; [done|].
  apply with_checked_buffer_alone. intros b. repeat astep.
Qed.
End alone.

(** ** Properties *)

(** C14: cut into the actions of a thread, the public functions are still what
    they were: when no other thread runs, each returns what the function of
    one thread does, leaves the same state, and stops for the same reason,
    with callbacks that do the same. *)
Theorem threads_run_the_functions `{E : World} `{B : BuildConfig} `{N : NicTopology} :
  (forall config, alone (hipObjInitT config) ≡ hipObjInit config) /\
  alone hipObjShutdownT ≡ hipObjShutdown /\
  (forall p n, alone (hipObjBufRegisterT p n) ≡ hipObjBufRegister p n) /\
  (forall p n, alone (hipObjBufRegisterHostT p n) ≡ hipObjBufRegisterHost p n) /\
  (forall p, alone (hipObjBufDeregisterT p) ≡ hipObjBufDeregister p) /\
  (forall p n offset ops, alone (hipObjGetT p n offset ops) ≡ hipObjGet p n offset (alone_ops <$> ops)) /\
  (forall p n offset ops, alone (hipObjPutT p n offset ops) ≡ hipObjPut p n offset (alone_ops <$> ops)) /\
  (forall p n offset dir, alone (hipObjBufSyncT p n offset dir) ≡ hipObjBufSync p n offset dir) /\
  (forall p n op out, alone (hipObjGetRdmaTokenT p n op out) ≡ hipObjGetRdmaToken p n op out).
Proof.
  split_and!.
  - intros. apply hipObjInit_alone.
  - unfold hipObjShutdownT, hipObjShutdown. astep; [apply shutdownInstance_alone|done].
  - intros. apply hipObjBufRegister_alone.
  - intros. apply hipObjBufRegisterHost_alone.
  - intros. apply hipObjBufDeregister_alone.
  - intros. apply hipObjGet_alone.
  - intros. apply hipObjPut_alone.
  - intros. apply hipObjBufSync_alone.
  - intros. apply hipObjGetRdmaToken_alone.
Qed.
