(* ===== verification/ThreadSafety.v ===== *)
(** * Many threads are safe, and all of their calls return

    The library's invariant, for any number of threads: each thread has a
    [Frame] of what it holds, and the invariant holds of all of them put
    together.  A thread's action is proved to be safe beside whatever the
    others hold. *)

From Stdlib Require Import Ascii String.
From stdpp Require Import base numbers list gmap.
From S2P Require Import Prelude.
From S2P Require Import Programs.
From S2P Require Import Token.
From S2P Require Import IbvCore.
From S2P Require Import World.
From S2P Require Import Verbs.
From S2P Require Import Topology.
From S2P Require Import Transport.
From S2P Require Import Pool.
From S2P Require Import Buffer.
From S2P Require Import Abandoned.
From S2P Require Import State.
From S2P Require Import Invariant.
From S2P Require Import Control.
From S2P Require Import Api.
From S2P Require Import Safety.
From S2P Require Import Threads.

(** ** Definitions *)

(** What a thread holds, beside what the others do; and what all of them
    hold *)
Definition beside (F others : Frame) : Frame :=
  {| f_ents := f_ents F ++ f_ents others; f_insts := f_insts F ++ f_insts others;
     f_leases := f_leases F; f_elsewhere := f_elsewhere others;
     f_slots := f_slots F ++ f_slots others; f_open := f_open F ++ f_open others |}.

Definition whole (fs : list Frame) : Frame :=
  {| f_ents := flat_map f_ents fs; f_insts := flat_map f_insts fs; f_leases := [];
     f_elsewhere := flat_map f_leases fs; f_slots := flat_map f_slots fs; f_open := flat_map f_open fs |}.

Definition same_current {X} (m : G X) : Prop :=
  forall g x g', m g = (inl x, g') -> g_current g' = g_current g.

(** A thread's next action may wait when it has no lease and another thread
    has one, and when it doesn't have [initMutex] *)
Definition stops (bad : stop -> Prop) (F others : Frame) (c : option (option nat)) (e : stop) : Prop :=
  bad e \/ (e = Blocked /\ c = None /\ f_leases F = [] /\ f_elsewhere others <> []).

(** A program that holds [F] is safe beside whatever the other threads hold.
    [c] is the current instance, when the thread has [initMutex], and so
    nothing but its own actions changes it. *)
Fixpoint safe (bad : stop -> Prop) {A} (F : Frame) (c : option (option nat)) (p : T A)
    (Q : A -> Frame -> option (option nat) -> Prop) : Prop :=
  match p with
  | Ret a => Q a F c
  | Act m k => forall others g, frame_ok others -> Inv (beside F others) g ->
      (forall cur, c = Some cur -> g_current g = cur) ->
      wp (stops bad F others c) m (fun x g' =>
        (c = None -> g_current g' = g_current g) /\
        exists F', frame_ok F' /\ Inv (beside F' others) g' /\
                   safe bad F' ((fun _ => g_current g') <$> c) (k x) Q) g
  | Lock k => c = None /\ forall cur, safe bad F (Some cur) k Q
  | Unlock k => is_Some c /\ safe bad F None k Q
  end.

(** A program that ends with what it started with *)
Definition steady (bad : stop -> Prop) {A} (F : Frame) (p : T A) : Prop :=
  frame_ok F -> safe bad F None p (fun _ F' c => F' = F /\ c = None).

Definition holding (s : system) (t : nat) : option (option nat) :=
  if decide (s_init s = Some t) then Some (g_current (s_state s)) else None.

(** The invariant of a system, whose threads hold [fs] *)
Record sys_ok (bad : stop -> Prop) (s : system) (fs : list Frame) : Prop := {
  sys_inv : Inv (whole fs) (seen_by 0 (s_state s));
  sys_len : List.length fs = List.length (s_threads s);
  sys_init : forall t, s_init s = Some t -> is_Some (s_threads s !! t);
  sys_threads : forall t p n F, s_threads s !! t = Some (p, n) -> fs !! t = Some F ->
    n = Z.of_nat (List.length (f_leases F)) /\ frame_ok F /\
    safe bad F (holding s t) p (fun _ F' c => F' = no_frame /\ c = None);
}.

(** A thread that has returned from all of its calls *)
Definition finished (p : T unit) : Prop := p = Ret tt.

#[export] Instance finished_dec p : Decision (finished p).
Proof. destruct p as [[]|X m k|k|k]; [by left|right; done..]. Defined.

(** What a thread does when it has its turn, if it can go on *)
Definition turn (t : nat) (s : system) : option system :=
  match s_threads s !! t with
  | Some (Act m k, n) =>
      match m (seen_by n (s_state s)) with
      | (inl x, g) =>
          Some {| s_state := g; s_init := s_init s; s_threads := <[t := (k x, t_leasesHeld g)]> (s_threads s) |}
      | (inr _, _) => None
      end
  | Some (Lock k, n) =>
      match s_init s with
      | None => Some {| s_state := s_state s; s_init := Some t; s_threads := <[t := (k, n)]> (s_threads s) |}
      | Some _ => None
      end
  | Some (Unlock k, n) =>
      if bool_decide (s_init s = Some t)
      then Some {| s_state := s_state s; s_init := None; s_threads := <[t := (k, n)]> (s_threads s) |}
      else None
  | _ => None
  end.

(** The threads take turns: those that can't go on miss theirs *)
Fixpoint turns (ts : list nat) (s : system) : system :=
  match ts with [] => s | t :: ts => turns ts (default s (turn t s)) end.

(** Threads to try things with: one reads an object into a buffer, while the
    other tries to unregister the buffer, and shuts the library down.  They
    keep what their calls returned. *)
Definition outcome_mark (err : hipObjError_t) : chars :=
  if bool_decide (opError err = hipObjSuccess) then lit "+"
  else if bool_decide (opError err = hipObjBusy) then lit "B"
  else if bool_decide (opError err = hipObjNotInitialized) then lit "N"
  else lit "-".

Definition note (err : hipObjError_t) : T unit :=
  act (modify (fun g => g <| g_app := g_app g ++ outcome_mark err |>)).

Definition demo_callbacks `{World} : thread_ops :=
  {| send_request := Some (fun _ => _ ← act (outside (perform (application 7))); mret 0);
     recv_reply := Some (fun buf => mret (0, copy_into (lit "200") buf, 3)) |}.

Definition demo_reader `{World} `{BuildConfig} : T unit :=
  a ← @hipObjInitT _ SysfsTopology (Some demo_config); _ ← note a;
  b ← hipObjBufRegisterT 65536 4096; _ ← note b;
  c ← hipObjGetT 65536 4096 0 (Some demo_callbacks); note c.

Definition demo_closer `{World} `{BuildConfig} : T unit :=
  a ← @hipObjInitT _ SysfsTopology (Some demo_config); _ ← note a;
  b ← hipObjBufDeregisterT 65536; _ ← note b;
  c ← hipObjShutdownT; note c.

#[local] Instance demo_build : BuildConfig := {| HIPOBJ_BNXT := true; HIPOBJ_IONIC := true |}.

(** The reader registers its buffer and starts to read; the closer finds it
    busy, and shuts down; and the reader goes on *)
Definition demo_turns : list nat := replicate 22 0%nat ++ replicate 60 1%nat ++ replicate 60 0%nat.

Definition demo_system `{World} `{BuildConfig} : system := started [demo_reader; demo_closer].

(** ** Lemmas *)

(** *** Programs *)

Section programs.
Context (bad : stop -> Prop).

Lemma safe_mono {A} (p : T A) F c (P Q : A -> Frame -> option (option nat) -> Prop) :
  safe bad F c p P -> (forall a F' c', P a F' c' -> Q a F' c') -> safe bad F c p Q.
Proof.
  revert F c. induction p as [a|X m k IH|k IH|k IH]; intros F c Hp HPQ; cbn in *.
  - by apply HPQ.
  - intros others g Ho HI Hc. eapply wp_mono; [by apply Hp|]. cbv beta.
    intros x g' [Hcur (F' & HF & HI' & Hs)]. split; [done|]. exists F'. split_and!; [done..|]. by eapply IH.
  - destruct Hp as [Hc Hp]. split; [done|]. intros cur. by eapply IH.
  - destruct Hp as [Hc Hp]. split; [done|]. by eapply IH.
Qed.

Lemma safe_bind {A B} (p : T A) (k : A -> T B) F c Q :
  safe bad F c p (fun a F' c' => safe bad F' c' (k a) Q) -> safe bad F c (p ≫= k) Q.
Proof.
  revert F c. induction p as [a|X m next IH|next IH|next IH]; intros F c Hp; cbn in *.
  - done.
  - intros others g Ho HI Hc. eapply wp_mono; [by apply Hp|]. cbv beta.
    intros x g' [Hcur (F' & HF & HI' & Hs)]. split; [done|]. exists F'. split_and!; [done..|]. by apply IH.
  - destruct Hp as [Hc Hp]. split; [done|]. intros cur. by apply IH.
  - destruct Hp as [Hc Hp]. split; [done|]. by apply IH.
Qed.

(** An action that leaves the current instance as it is *)
Lemma safe_act_stops {X} F c (m : G X) Q :
  same_current m ->
  (forall others g, frame_ok others -> Inv (beside F others) g ->
     (forall cur, c = Some cur -> g_current g = cur) ->
     wp (stops bad F others c) m (fun x g' => exists F', frame_ok F' /\ Inv (beside F' others) g' /\ Q x F' c) g) ->
  safe bad F c (act m) Q.
Proof.
  intros Hm Hs others g Ho HI Hc. specialize (Hs others g Ho HI Hc). unfold wp in *.
  destruct (m g) as [[x|e] g'] eqn:Hr; [|done]. destruct Hs as (F' & HF & HI' & HQ).
  pose proof (Hm _ _ _ Hr) as Hcur. split; [done|]. exists F'. split_and!; [done..|]. cbn.
  destruct c as [cur|]; [|done]. cbn. by rewrite Hcur, (Hc cur).
Qed.

Lemma safe_act {X} F c (m : G X) Q :
  same_current m ->
  (forall others g, frame_ok others -> Inv (beside F others) g ->
     wp bad m (fun x g' => exists F', frame_ok F' /\ Inv (beside F' others) g' /\ Q x F' c) g) ->
  safe bad F c (act m) Q.
Proof.
  intros Hm Hs. apply safe_act_stops; [done|]. intros others g Ho HI _. specialize (Hs others g Ho HI).
  unfold wp in *. destruct (m g) as [[x|e] g']; [done|by left].
Qed.

Lemma steady_ret {A} F (a : A) : steady bad F (mret a).
Proof. by intros HF. Qed.

Lemma safe_steady {A B} F (p : T A) (k : A -> T B) Q :
  frame_ok F -> steady bad F p -> (forall a, safe bad F None (k a) Q) -> safe bad F None (p ≫= k) Q.
Proof.
  intros HF Hp Hk. apply safe_bind. eapply safe_mono; [by apply Hp|]. cbv beta. by intros a F' c' [-> ->].
Qed.

Lemma steady_bind {A B} F (p : T A) (k : A -> T B) :
  steady bad F p -> (forall a, steady bad F (k a)) -> steady bad F (p ≫= k).
Proof. intros Hp Hk HF. apply safe_steady; [done|done|]. intros a. by apply Hk. Qed.

Lemma steady_act {X} F (m : G X) :
  same_current m -> (forall others, preserves bad (beside F others) m) -> steady bad F (act m).
Proof.
  intros Hm Hp HF. apply safe_act; [done|]. intros others g Ho HI.
  eapply wp_mono; [by apply Hp|]. cbv beta. intros x g' HI'. by exists F.
Qed.

Lemma steady_if_ok {A} F (fail : hipObjError_t -> A) err next :
  steady bad F next -> steady bad F (if_okT fail err next).
Proof. intros Hn. unfold if_okT. case_bool_decide; [done|apply steady_ret]. Qed.
End programs.

(** *** Frames *)

Lemma frame_ok_beside F others : frame_ok F -> frame_ok others -> frame_ok (beside F others).
Proof.
  intros [H1 H2] [H3 H4]. split.
  - intros l [Hl|Hl]%elem_of_app; cbn in *; apply elem_of_app.
    + left. apply H1, elem_of_app. by left.
    + right. apply H3, elem_of_app. by right.
  - intros id [Hi|Hi]%elem_of_app; cbn; apply elem_of_app; [left; by apply H2|right; by apply H4].
Qed.

Lemma frame_ok_less_ent e F : frame_ok (hold_ent e F) <-> frame_ok F.
Proof. done. Qed.

Lemma beside_hold_open hs F others : beside (hold_open hs F) others = hold_open hs (beside F others).
Proof. unfold beside, hold_open. cbn. by rewrite <- app_assoc. Qed.

Lemma pool_ok_perm l l' p : l ≡ₚ l' -> pool_ok l p -> pool_ok l' p.
Proof.
  intros Hl [H1 H2 H3 H4]. split; [by rewrite <- Hl| |by rewrite <- Hl|done].
  intros i. by rewrite <- Hl.
Qed.

(** The invariant depends on what's held, not on who holds it *)
Lemma Inv_reframe F F' g :
  f_ents F ≡ₚ f_ents F' -> f_insts F ≡ₚ f_insts F' -> all_leases F ≡ₚ all_leases F' ->
  f_slots F ≡ₚ f_slots F' -> f_open F ≡ₚ f_open F' ->
  forall n, Inv F (seen_by n g) -> Inv F' (seen_by (Z.of_nat (List.length (f_leases F'))) g).
Proof.
  intros He Hi Hl Hs Ho n [A1 A2 A3 A4 A5 A6 A7 [A8 A8'] A9]. unfold seen_by in *. split; gsimpl; try done.
  - intros e. rewrite A2. by rewrite (cnt_Permutation e _ _ He).
  - intros id. specialize (A3 id). unfold irefs, current_refs in *. by rewrite <- (cnt_Permutation id _ _ Hi).
  - intros h. rewrite A6. by rewrite (cnt_Permutation h _ _ Ho).
  - split; [intros l; rewrite <- Hl, <- Hi; apply A8|intros id; rewrite <- Hs, <- Hi; apply A8'].
  - intros id i k Hk. destruct (A9 id i k Hk) as [K1 K2 K3 K4]. split; [|done|done|].
    + eapply pool_ok_perm; [|exact K1]. unfold leased, leased_of. by rewrite Hl.
    + by rewrite <- (cnt_Permutation id _ _ Hs).
Qed.

Lemma flat_map_middle {A B} (f : A -> list B) l1 x l2 :
  flat_map f (l1 ++ x :: l2) ≡ₚ f x ++ flat_map f (l1 ++ l2).
Proof. rewrite !flat_map_app. cbn. by rewrite Permutation_app_swap_app. Qed.

(** What one thread sees of the invariant, and what a step of its leaves *)
Lemma whole_sees l1 F l2 g :
  Inv (whole (l1 ++ F :: l2)) (seen_by 0 g) ->
  Inv (beside F (whole (l1 ++ l2))) (seen_by (Z.of_nat (List.length (f_leases F))) g).
Proof.
  apply (Inv_reframe (whole (l1 ++ F :: l2)) (beside F (whole (l1 ++ l2)))); cbn; apply flat_map_middle.
Qed.

Lemma whole_seen l1 F l2 g n :
  Inv (beside F (whole (l1 ++ l2))) (seen_by n g) -> Inv (whole (l1 ++ F :: l2)) (seen_by 0 g).
Proof.
  apply (Inv_reframe (beside F (whole (l1 ++ l2))) (whole (l1 ++ F :: l2))); cbn; symmetry; apply flat_map_middle.
Qed.

Lemma frame_ok_whole fs : (forall F, F ∈ fs -> frame_ok F) -> frame_ok (whole fs).
Proof.
  intros Hfs. split.
  - intros l (F & HF & Hl)%list_elem_of_In%in_flat_map. apply list_elem_of_In, in_flat_map.
    apply list_elem_of_In in HF, Hl. exists F. split; [by apply list_elem_of_In|]. apply list_elem_of_In.
    apply (proj1 (Hfs F HF)), elem_of_app. by left.
  - intros id (F & HF & Hl)%list_elem_of_In%in_flat_map. apply list_elem_of_In, in_flat_map.
    apply list_elem_of_In in HF, Hl. exists F. split; [by apply list_elem_of_In|]. apply list_elem_of_In.
    by apply (proj2 (Hfs F HF)).
Qed.

(** *** Actions that leave the current instance as it is *)

Lemma current_ret {X} (x : X) : same_current (mret x).
Proof. by intros g y g' [= <- <-]. Qed.

Lemma current_bind {X Y} (m : G X) (k : X -> G Y) :
  same_current m -> (forall x, same_current (k x)) -> same_current (m ≫= k).
Proof. intros Hm Hk g y g' (x & g1 & H1 & H2)%bind_returns. by rewrite (Hk _ _ _ _ H2), (Hm _ _ _ H1). Qed.

Lemma current_mem {X} (m : HM X) : same_current (mem m).
Proof. intros g x g' H. unfold mem, zoom in H. destruct (m (g_mem g)). by injection H as _ <-. Qed.

Lemma current_get : same_current get_state.
Proof. by intros g y g' [= <- <-]. Qed.

Lemma current_halt {X} e : same_current (@halt Process X e).
Proof. by intros g y g' [=]. Qed.

Lemma current_modify f : (forall g, g_current (f g) = g_current g) -> same_current (modify f).
Proof. intros Hf g y g' [= <- <-]. apply Hf. Qed.

Lemma current_put f : (forall g : Process, g_current (f g) = g_current g) ->
  same_current (g ← get_state; _ ← put_state (f g); mret (g_next g)).
Proof. intros Hf g y g' (x & g1 & [= <- <-] & (u & g2 & [= <- <-] & [= <- <-])%bind_returns)%bind_returns. apply Hf. Qed.

Lemma current_read_inst id : same_current (read_inst id).
Proof. apply current_bind; [apply current_get|]. intros g. destruct (g_insts g !! id); [apply current_ret|apply current_halt]. Qed.

Lemma current_get_inst id : same_current (get_inst id).
Proof. apply current_bind; [apply current_read_inst|]. intros i. apply current_ret. Qed.

Lemma current_update_inst id f : same_current (update_inst id f).
Proof. apply current_bind; [apply current_read_inst|]. intros [i n]. by apply current_modify. Qed.

(** Decides it, from the action's definition *)
Ltac current_step :=
  match goal with
  | |- same_current (mret _) => apply current_ret
  | |- same_current (get_inst _) => apply current_get_inst
  | |- same_current (read_inst _) => apply current_read_inst
  | |- same_current (update_inst _ _) => apply current_update_inst
  | |- same_current (write_inst _ _) => by apply current_modify
  | |- same_current (g ← get_state; _ ← put_state _; mret _) => by apply current_put
  | |- same_current (_ ≫= _) => apply current_bind; [|intros ?]
  | |- same_current (mem _) => apply current_mem
  | |- same_current (outside _) => apply current_mem
  | |- same_current get_state => apply current_get
  | |- same_current (halt _) => apply current_halt
  | |- same_current (modify _) => by apply current_modify
  | |- same_current (copy_inst _) => unfold copy_inst
  | |- same_current (let '_ := ?x in _) => destruct x
  | |- same_current (if ?b then _ else _) => destruct b
  | |- same_current (match ?x with _ => _ end) => destruct x
  end; cbn beta iota.
Ltac keeps_current :=
  unfold drop_inst, currentInstance, get_connection, acquire_lease, release_lease,
    give_back_slot, collect, insert_locked, erase_locked, systemPlatform, build_shared, make_shared_inst;
  repeat current_step.

(** *** The steps of a program *)

Section threads.
Context `{E : World} `{B : BuildConfig} `{N : NicTopology} (bad : stop -> Prop).
Context (Hclock : bad OutOfFuel \/ SteadyClock E) `{HT : !TopologyOk bad N}.
Implicit Types F others : Frame.

Lemma steady_outside {A} F (m : W A) : neutral bad m -> steady bad F (act (outside m)).
Proof. intros Hm. apply steady_act; [keeps_current|]. intros others. by apply preserves_outside. Qed.

Lemma steady_get_inst F id : id ∈ f_insts F -> steady bad F (act (get_inst id)).
Proof.
  intros Hid. apply steady_act; [keeps_current|]. intros others. apply preserves_get_inst, elem_of_app. by left.
Qed.

Lemma steady_get_entry F e : e ∈ f_ents F -> steady bad F (act (mem (get_entry e))).
Proof.
  intros He. apply steady_act; [keeps_current|]. intros others. apply preserves_get_entry, elem_of_app. by left.
Qed.

Lemma steady_get_connection F id index : (id, index) ∈ f_leases F -> steady bad F (act (get_connection id index)).
Proof. intros Hl. apply steady_act; [keeps_current|]. intros others. by apply preserves_get_connection. Qed.

(** An action that takes something, and a program that gives it back *)
Lemma safe_take {X A} F c (m : G X) (k : X -> T A) Q (got : X -> Frame) :
  same_current m -> (forall x, frame_ok (got x)) ->
  (forall others g, frame_ok others -> Inv (beside F others) g ->
     wp bad m (fun x g' => Inv (beside (got x) others) g') g) ->
  (forall x, safe bad (got x) c (k x) Q) -> safe bad F c (act m ≫= k) Q.
Proof.
  intros Hm Hok Hw Hk. apply safe_bind, safe_act; [done|]. intros others g Ho HI.
  eapply wp_mono; [by apply Hw|]. cbv beta. intros x g' HI'. exists (got x). by split_and!.
Qed.

Lemma safe_drop_inst F c id Q :
  frame_ok F -> Q tt F c -> safe bad (hold_inst id F) c (act (drop_inst id)) Q.
Proof.
  intros HF HQ. apply safe_act; [keeps_current|]. intros others g Ho HI.
  apply (wp_drop_inst _ id _ (beside F others)); [exact HI|by apply frame_ok_beside|].
  intros g' HI' _. by exists F.
Qed.

Lemma safe_drop_ref F c e Q :
  frame_ok F -> Q tt F c -> safe bad (hold_ent e F) c (act (mem (drop_ref e))) Q.
Proof.
  intros HF HQ. apply safe_act; [keeps_current|]. intros others g Ho HI.
  apply (wp_drop_held _ e _ (beside F others)); [exact HI|]. intros g' HI'. by exists F.
Qed.

Lemma steady_with_instance {A} F (fail : hipObjError_t -> A) body :
  (forall id, steady bad (hold_inst id F) (body id)) -> steady bad F (with_instanceT fail body).
Proof.
  intros Hb HF. unfold with_instanceT.
  apply (safe_take _ _ _ _ _ (fun o => match o with Some id => hold_inst id F | None => F end)).
  - keeps_current.
  - intros [id|]; [by apply frame_ok_hold_inst|done].
  - intros others g Ho HI. apply (wp_currentInstance _ _ (beside F others)); [done|done|]. by intros id g' _ HI'.
  - intros [id|]; [|done]. apply safe_bind. eapply safe_mono; [by apply Hb, frame_ok_hold_inst|].
    cbv beta. intros a F' c' [-> ->]. by apply safe_bind, safe_drop_inst.
Qed.

Lemma wp_prepare_entry F host id p n pd Q g :
  Inv F g -> id ∈ f_insts F -> (forall g', Inv F g' -> Q None g') ->
  (forall e g', Inv (hold_ent e F) g' -> Q (Some e) g') ->
  wp bad (i ← get_inst id; mem (prepare_entry host (buffers i) p n pd)) Q g.
Proof.
  intros HI Hid HN HS. destruct (Inv_held _ _ _ HI Hid) as (i & k & Hi). apply wp_bind.
  eapply wp_get_inst; [done|]. apply wp_mem. unfold prepare_entry. apply wp_bind.
  set (b := (buffers i) <| entries_ := ∅ |>).
  assert (forall r b' m', map_step none (g_mem g) b m' b' ->
    match r with
    | Registered => exists entry, entries_ b' = <[p := entry]> ∅
    | _ => b' = b
    end -> wp bad (mret (entries_ b' !! p)) (fun a mm => Q a (g <| g_mem := mm |>)) m') as Hend.
  { intros r b' m' [Hm _ _] Hr. apply wp_ret.
    assert (forall e, map_refs e b = 0) as Hb0 by (intros; apply msum_empty).
    destruct (entries_ b' !! p) as [e|] eqn:He.
    - destruct r; [destruct Hr as [e' Hr]|by subst b'..]. rewrite Hr, lookup_insert_eq in He. injection He as <-.
      apply HS, Inv_mem; [done|]. eapply mem_step_ext; [exact Hm| |done]. intros x. cbv beta.
      rewrite cnt_cons, Hb0. unfold map_refs, none. rewrite Hr, msum_insert, msum_empty by done. lia.
    - destruct r; [destruct Hr as [e' Hr]; by rewrite Hr, lookup_insert_eq in He|subst b'..];
        apply HN; rewrite <- (frame_eta F); apply Inv_mem; try done;
        (eapply mem_step_ext; [exact Hm| |done]); intros x; cbv beta; unfold none; lia. }
  destruct host; [apply wp_registerHostBuffer|apply wp_registerBuffer]; try apply HI;
    intros r b' m' Hs Hr; apply (Hend r); try done; destruct r; try tauto;
    destruct Hr as (e & _ & He & _); by exists e.
Qed.

Lemma wp_insert_locked F id p e Q g :
  Inv (hold_ent e F) g -> id ∈ f_insts F -> frame_ok F ->
  (forall r g', r <> Registered -> Inv (hold_ent e F) g' -> Q r g') ->
  (forall g', Inv F g' -> Q Registered g') ->
  wp bad (insert_locked id p e) Q g.
Proof.
  intros HI Hid HF HN HS. destruct (Inv_held _ _ id HI) as (i & k & Hi); [done|].
  unfold insert_locked. apply wp_bind. eapply wp_get_inst; [done|].
  destruct (refusal (buffers i) p) as [r|] eqn:Hr.
  { apply wp_ret, HN; [|done]. intros ->. by apply refusal_registered in Hr. }
  assert (entries_ (buffers i) !! p = None /\ buffers_size (buffers i) < kMaxEntries) as [Hnone Hsize].
  { unfold refusal in Hr. case_bool_decide as Hk; [done|]. destruct (kMaxEntries <=? _) eqn:Hm; [done|].
    bools. split; [by apply eq_None_not_Some|lia]. }
  rewrite (at_inst_start _ _ _ _ Hi) at 1. apply wp_bind, wp_update_at, wp_ret, HS.
  set (b := (buffers i) <| entries_ := <[p := e]> (entries_ (buffers i)) |>).
  change (Inv F (at_inst g id k (i <| buffers := b |>) (g_mem g))).
  destruct (inv_insts _ _ HI _ _ _ Hi) as [K1 K2 K3 K4].
  apply (Inv_change_at (hold_ent e F) F g id i); try done.
  - eapply mem_step_ext; [apply mem_step_refl, HI|..]; intros x; unfold none; cbv beta; gsimpl.
    + unfold inst_refs. isimpl. rewrite cnt_cons.
      unfold b. rewrite map_refs_insert by done. unfold at_ref. lia.
    + rewrite !cnt_own_instance. isimpl. lia.
  - split; isimpl; [done| |done..]. unfold buffers_size, b in *. cbn [entries_ set_field].
    rewrite map_size_insert_None by done. lia.
Qed.

Lemma wp_erase_locked F id p Q g :
  Inv F g -> id ∈ f_insts F ->
  (forall r, r <> Deregistered -> Q (r, None) g) ->
  (forall e g', Inv (hold_ent e F) g' -> refs e (g_mem g') = 1 -> Q (Deregistered, Some e) g') ->
  wp bad (erase_locked id p) Q g.
Proof.
  intros HI Hid HN HS. destruct (Inv_held _ _ id HI) as (i & k & Hi); [done|].
  unfold erase_locked. apply wp_bind. eapply wp_get_inst; [done|].
  destruct (entries_ (buffers i) !! p) as [e|] eqn:Hp; [|by apply wp_ret, HN].
  destruct (Inv_alive _ _ _ _ _ HI Hi) as [Ha _].
  pose proof (map_alive_lookup _ _ _ _ Ha Hp) as Hpos. pose proof Hpos as (b & n & Hb)%refs_Some.
  apply wp_bind, wp_mem. unfold use_count. apply wp_bind. eapply wp_read_entry; [done|].
  apply wp_ret. cbn [snd]. rewrite same_mem. destruct (Nat.ltb_spec 1 (S n)); [by apply wp_ret, HN|].
  rewrite (at_inst_start _ _ _ _ Hi) at 1. apply wp_bind, wp_update_at, wp_ret, HS.
  - set (c := (buffers i) <| entries_ := delete p (entries_ (buffers i)) |>).
    change (Inv (hold_ent e F) (at_inst g id k (i <| buffers := c |>) (g_mem g))).
    destruct (inv_insts _ _ HI _ _ _ Hi) as [K1 K2 K3 K4].
    apply (Inv_change_at F (hold_ent e F) g id i); try done.
    + apply HI.
    + eapply mem_step_ext; [apply mem_step_refl, HI|..]; intros x; unfold none; cbv beta; gsimpl.
      * unfold inst_refs. isimpl. rewrite cnt_cons.
        unfold c. rewrite (map_refs_delete _ _ _ _ Hp). unfold at_ref. lia.
      * rewrite !cnt_own_instance. isimpl. lia.
    + split; isimpl; [done| |done..]. unfold buffers_size, c in *. cbn [entries_ set_field].
      rewrite map_size_delete_Some by done. lia.
  - cbn [at_inst g_mem set_field]. unfold refs in *. rewrite Hb in *. lia.
Qed.

(** *** The buffers *)

Lemma steady_register F host id p n : id ∈ f_insts F -> steady bad F (registerT host id p n).
Proof.
  intros Hid. unfold registerT. apply steady_bind.
  { apply steady_act; [keeps_current|]. intros others g HI. apply wp_bind.
    eapply wp_mono; [apply (preserves_get_inst bad (beside F others)); [apply elem_of_app; by left|done]|].
    cbv beta. intros i g' HI'. by apply wp_ret. }
  intros pd. destruct (_ <? _); [apply steady_ret|]. apply steady_bind.
  { apply steady_act; [keeps_current|]. intros others g HI. apply wp_bind.
    eapply wp_mono; [apply (preserves_get_inst bad (beside F others)); [apply elem_of_app; by left|done]|].
    cbv beta. intros i g' HI'. by apply wp_ret. }
  intros [r|]; [apply steady_ret|]. intros HF.
  apply (safe_take _ _ _ _ _ (fun o => match o with Some e => hold_ent e F | None => F end)).
  - keeps_current.
  - by intros [e|].
  - intros others g Ho HI. apply (wp_prepare_entry (beside F others)); [done|apply elem_of_app; by left|done|].
    by intros e g' HI'.
  - intros [e|]; [|done].
    apply (safe_take _ _ _ _ _ (fun r => if decide (r = Registered) then F else hold_ent e F)).
    + keeps_current.
    + intros r. by case_decide.
    + intros others g Ho HI. apply (wp_insert_locked (beside F others) id p e);
        [exact HI|apply elem_of_app; by left|by apply frame_ok_beside| |].
      * intros r g' Hr HI'. by rewrite decide_False.
      * intros g' HI'. by rewrite decide_True.
    + intros r. case_decide; [done|]. by apply safe_bind, safe_drop_ref.
Qed.

Lemma steady_deregister F id p : id ∈ f_insts F -> steady bad F (deregisterT id p).
Proof.
  intros Hid HF. unfold deregisterT.
  apply (safe_take _ _ _ _ _ (fun r => match snd r with Some e => hold_ent e F | None => F end)).
  - keeps_current.
  - by intros [r [e|]].
  - intros others g Ho HI. apply (wp_erase_locked (beside F others)); [done|apply elem_of_app; by left|done|].
    by intros e g' HI' _.
  - intros [r [e|]]; [|done]. by apply safe_bind, safe_drop_ref.
Qed.

(** *** Abandoned copies *)

(** A thread that has taken copies off a list holds their references and
    their events *)
Definition hold_copies (cs : list Copy) (F : Frame) : Frame :=
  F <| f_ents ::= app (copy_entry <$> cs) |> <| f_open ::= app (own_copies cs) |>.

Lemma hold_copies_cons c cs F :
  hold_copies (c :: cs) F = hold_open (h_event (copy_done c)) (hold_ent (copy_entry c) (hold_copies cs F)).
Proof.
  destruct F. unfold hold_copies, hold_open, hold_ent. gsimpl.
  change (own_copies (c :: cs)) with (h_event (copy_done c) ++ own_copies cs). unfold set_field. cbn. by rewrite <- app_assoc.
Qed.

Lemma beside_hold_copies cs F others : beside (hold_copies cs F) others = hold_copies cs (beside F others).
Proof. unfold beside, hold_copies. cbn. by rewrite <- !app_assoc. Qed.

Lemma wp_collect F id entry Q g :
  Inv F g -> id ∈ f_insts F -> (forall over r g', Inv (hold_copies over F) g' -> Q (over, r) g') ->
  wp bad (collect id entry) Q g.
Proof.
  intros HI Hid HQ. destruct (Inv_held _ _ _ HI Hid) as (i & n & Hi).
  apply wp_bind. eapply wp_get_inst; [done|]. apply wp_bind, wp_mem, wp_release_loop; [apply HI|].
  intros over stay run m (H1 & H2 & H3 & _) Hm. apply wp_bind. eapply wp_update_inst; [exact Hi|]. apply wp_ret, HQ.
  destruct (inv_insts _ _ HI _ _ _ Hi) as [K1 K2 K3 K4].
  eapply (Inv_change_at F _ g id i n _ m HI Hi); [done..|apply HI|done| |].
  - eapply mem_step_ext; [exact Hm|..]; intros x; unfold none, hold_copies; gsimpl.
    + rewrite cnt_app. unfold inst_refs. isimpl. specialize (H2 x). unfold copy_refs in *. lia.
    + rewrite cnt_app, !cnt_own_instance. isimpl. specialize (H1 x). lia.
  - split; [done|done| |done]. unfold roomy, copies_size in *. isimpl. lia.
Qed.

Lemma steady_destroy_copies cs F c (Q : unit -> Frame -> option (option nat) -> Prop) :
  frame_ok F -> Q tt F c -> safe bad (hold_copies cs F) c (destroy_copiesT cs) Q.
Proof.
  intros HF HQ. induction cs as [|d cs IH]; cbn [destroy_copiesT].
  { replace (hold_copies [] F) with F by by destruct F. exact HQ. }
  rewrite hold_copies_cons.
  apply (safe_take _ _ _ _ _ (fun _ => hold_ent (copy_entry d) (hold_copies cs F))).
  - keeps_current.
  - done.
  - intros others g Ho HI.
    apply (wp_outside_releases bad (beside (hold_ent (copy_entry d) (hold_copies cs F)) others) (h_event (copy_done d))).
    + intros t R. apply wp_HipEventDeleter.
    + rewrite <- beside_hold_open. exact HI.
    + done.
  - intros _. by apply safe_bind, safe_drop_ref.
Qed.

Lemma steady_release_copies F id entry : id ∈ f_insts F -> steady bad F (release_copiesT id entry).
Proof.
  intros Hid HF. unfold release_copiesT. apply (safe_take _ _ _ _ _ (fun r => hold_copies (fst r) F)).
  - keeps_current.
  - done.
  - intros others g Ho HI. apply (wp_collect (beside F others)); [done|apply elem_of_app; by left|].
    intros over r g' HI'. by rewrite beside_hold_copies.
  - intros [over r]. by apply safe_bind, steady_destroy_copies.
Qed.

(** *** What the public functions share *)

Lemma steady_checkNoAbandonedCopy F id b :
  id ∈ f_insts F -> b ∈ f_ents F -> steady bad F (checkNoAbandonedCopyT id b).
Proof.
  intros Hid Hb. unfold checkNoAbandonedCopyT. apply steady_bind; [by apply steady_get_entry|]. intros e.
  destruct (_ =? _); [apply steady_ret|]. apply steady_bind; [|intros r; apply steady_ret].
  by apply steady_release_copies.
Qed.

Lemma steady_with_checked_buffer {A} F (fail : hipObjError_t -> A) id p size offset next :
  id ∈ f_insts F -> (forall b, steady bad (hold_ent b F) (next b)) ->
  steady bad F (with_checked_bufferT fail id p size offset next).
Proof.
  intros Hid Hn HF. unfold with_checked_bufferT, findT.
  apply (safe_take _ _ _ _ _ (fun o => match o with Some e => hold_ent e F | None => F end)).
  - keeps_current.
  - by intros [e|].
  - intros others g Ho HI. apply (wp_find_held _ (beside F others)); [done|apply elem_of_app; by left|done|].
    by intros e g' HI'.
  - intros [b|]; [|done]. apply safe_bind. eapply safe_mono.
    + apply (steady_bind bad (hold_ent b F)); [apply steady_get_entry; by left| |done]. intros e.
      apply steady_if_ok, steady_bind; [apply steady_checkNoAbandonedCopy; [done|by left]|]. intros err.
      by apply steady_if_ok.
    + cbv beta. intros a F' c [-> ->]. by apply safe_bind, safe_drop_ref.
Qed.

(** *** Staging copies *)

Lemma safe_give_back_slot F c id Q :
  frame_ok F -> Q tt F c -> safe bad (hold_slot id F) c (act (give_back_slot id)) Q.
Proof.
  intros HF HQ. apply safe_act; [keeps_current|]. intros others g Ho HI.
  apply (wp_give_back_slot bad (beside F others)); [exact HI|by apply frame_ok_beside|].
  intros g' HI'. by exists F.
Qed.

Lemma safe_end_copy F id done e (Q : hipObjError_t -> Frame -> option (option nat) -> Prop) :
  frame_ok F -> id ∈ f_insts F -> Q (makeError e) F None ->
  safe bad (hold_slot id (hold_open (h_event done) F)) None (end_copyT id done e) Q.
Proof.
  intros HF Hid HQ. unfold end_copyT.
  apply (safe_take _ _ _ _ _ (fun _ => hold_slot id F)).
  - keeps_current.
  - intros _. by apply frame_ok_hold_slot.
  - intros others g Ho HI. apply (wp_outside_releases bad (beside (hold_slot id F) others) (h_event done)).
    + intros t R. apply wp_HipEventDeleter.
    + rewrite <- beside_hold_open. exact HI.
    + done.
  - intros _. by apply safe_bind, safe_give_back_slot.
Qed.

Lemma steady_stageCopyWithDeadline F id buf dst src size kind :
  id ∈ f_insts F -> buf ∈ f_ents F ->
  steady bad F (stageCopyWithDeadlineT id buf dst src size kind).
Proof.
  intros Hid Hbuf HF. unfold stageCopyWithDeadlineT.
  apply (safe_take _ _ _ _ _ (fun _ => hold_slot id F)).
  { keeps_current. } { intros _. by apply frame_ok_hold_slot. }
  { intros others g Ho HI. apply (wp_reserve bad (beside F others)); [done|apply elem_of_app; by left|done]. }
  intros _.
  apply (safe_take _ _ _ _ _ (fun r => hold_open (created r) (hold_slot id F))).
  { keeps_current. } { intros r. by apply (frame_ok_hold_slot id F). }
  { intros others g Ho HI. apply (wp_outside_acquires bad (beside (hold_slot id F) others) created);
      [apply eventCreate_acquires|done|]. intros r g' HI'. by rewrite beside_hold_open. }
  intros [err done]. unfold created. cbn [fst snd].
  destruct (err =? hipSuccess); cbn [negb]; [|change (hold_open [] (hold_slot id F)) with (hold_slot id F); by apply safe_bind, safe_give_back_slot].
  set (F1 := hold_slot id (hold_open (h_event done) F)).
  assert (frame_ok F1) as HF1 by by apply (frame_ok_hold_slot id F).
  apply safe_steady; [done|apply steady_outside, memcpyAsync_neutral|]. intros err1.
  apply safe_steady; [done|destruct (_ =? _); [apply steady_outside, eventRecord_neutral|apply steady_ret]|].
  intros err2. destruct (err2 =? hipSuccess); cbn [negb]; [|by apply (safe_end_copy F)].
  apply safe_steady; [done|by apply steady_get_inst|]. intros i. cbv zeta.
  apply safe_steady; [done|by apply steady_outside, stage_wait_neutral|]. intros outcome.
  destruct outcome; [by apply (safe_end_copy F)|by apply (safe_end_copy F)|].
  apply (safe_take _ _ _ _ _ (fun _ => hold_ent buf F1)); [keeps_current|done| |].
  { intros others g Ho HI. apply (wp_copy_held bad (beside F1 others) buf); [done|apply elem_of_app; by left|done]. }
  intros _. apply (safe_take _ _ _ _ _ (fun _ => F)); [keeps_current|done| |].
  { intros others g Ho HI. apply (wp_abandon bad (beside F others) id buf done); [|by apply frame_ok_beside|done].
    change (hold_ent buf (hold_open (h_event done) (beside F others))) with
      (hold_open (h_event done) (beside (hold_ent buf F) others)).
    rewrite <- beside_hold_open. exact HI. }
  intros _. apply safe_steady; [done|apply steady_outside, print_neutral|done].
Qed.

(** *** Steps of a program, down to its actions *)

Ltac steady_step :=
  match goal with
  | |- steady _ _ (mret _) => apply steady_ret
  | |- steady _ _ (act (get_inst _)) => apply steady_get_inst; in_frame
  | |- steady _ _ (act (mem (get_entry _))) => apply steady_get_entry; in_frame
  | |- steady _ _ (act (get_connection _ _)) => apply steady_get_connection; in_frame
  | |- steady _ _ (act (outside _)) => apply steady_outside
  | |- steady _ _ (if_okT _ _ _) => apply steady_if_ok
  | |- steady _ _ (with_instanceT _ _) => apply steady_with_instance; intros ?
  | |- steady _ _ (with_checked_bufferT _ _ _ _ _ _) =>
      apply steady_with_checked_buffer; [in_frame|intros ?]
  | |- steady _ _ (_ ≫= _) => apply steady_bind; [|intros ?]
  | |- steady _ _ (let '_ := ?x in _) => destruct x eqn:?
  | |- steady _ _ (if ?b then _ else _) => destruct b eqn:?
  | |- steady _ _ (match ?x with _ => _ end) => destruct x eqn:?
  end; cbn beta iota.

Lemma steady_stageToDevice F id p buf size offset :
  id ∈ f_insts F -> buf ∈ f_ents F -> steady bad F (stageToDeviceT id p buf size offset).
Proof. intros Hid Hbuf. unfold stageToDeviceT. repeat steady_step. by apply steady_stageCopyWithDeadline. Qed.

Lemma steady_stageToHost F id p buf size offset :
  id ∈ f_insts F -> buf ∈ f_ents F -> steady bad F (stageToHostT id p buf size offset).
Proof. intros Hid Hbuf. unfold stageToHostT. repeat steady_step. by apply steady_stageCopyWithDeadline. Qed.

(** *** Transfers *)

Definition ops_steady (F : Frame) (o : thread_ops) : Prop :=
  (forall send token, send_request o = Some send -> steady bad F (send token)) /\
  (forall recv buf, recv_reply o = Some recv -> steady bad F (recv buf)).

Lemma deviceSynchronize_neutral : neutral bad (perform deviceSynchronize).
Proof. intros t. wstep. bal_solve. Qed.

Lemma steady_finishT F id index sync ms : (id, index) ∈ f_leases F -> steady bad F (finishT id index sync ms).
Proof.
  intros Hl. unfold finishT.
  repeat steady_step; [by apply pollCompletion_neutral|apply deviceSynchronize_neutral].
Qed.

Lemma steady_leased_transfer F id index buf size offset o :
  (id, index) ∈ f_leases F -> buf ∈ f_ents F -> id ∈ f_insts F -> ops_steady F o ->
  steady bad F (leased_transferT id index buf size offset o).
Proof.
  intros Hl Hbuf Hid [Hs Hr].
  unfold leased_transferT, injectRdmaTokenT, receiveRdmaReplyRawT, finishTransferAfterReplyT.
  repeat steady_step; try by apply steady_finishT.
  - by eapply Hs.
  - by eapply Hr.
  - apply connectRcPeer_neutral.
Qed.

Lemma safe_acquire {A} F id (k : nat + AcquireError -> T A) Q :
  frame_ok F -> id ∈ f_insts F ->
  (forall index, safe bad (hold_lease id index F) None (k (inl index)) Q) ->
  (forall err, safe bad F None (k (inr err)) Q) ->
  safe bad F None (act (acquire_lease id) ≫= k) Q.
Proof.
  intros HF Hid Hl He. apply safe_bind, safe_act_stops; [keeps_current|]. intros others g Ho HI _.
  apply (wp_acquire_lease _ (beside F others)); [done|apply elem_of_app; by left| | |].
  - intros Hn Hw. by right.
  - intros err. exists F. by split_and!.
  - intros index g' HI'. exists (hold_lease id index F). split_and!; [by apply frame_ok_hold_lease|exact HI'|done].
Qed.

Lemma steady_runRdmaTransfer F id buf size offset o :
  buf ∈ f_ents F -> id ∈ f_insts F -> (forall F', ops_steady F' o) ->
  steady bad F (runRdmaTransferT id buf size offset o).
Proof.
  intros Hbuf Hid Ho HF. unfold runRdmaTransferT. apply safe_acquire; [done|done| |done]. intros index.
  assert (frame_ok (hold_lease id index F)) as HFl by by apply frame_ok_hold_lease.
  apply safe_steady; [done|apply steady_leased_transfer; [by left|done|done|apply Ho]|]. intros [err connected].
  apply (safe_take _ _ _ _ _ (fun _ => F)); [keeps_current|done| |done].
  intros others g Hot HI. apply (wp_release_lease bad (beside F others)); [exact HI|by apply frame_ok_beside|done].
Qed.

(** *** Initialization and shutdown *)

(** With [initMutex], a thread that finds no instance knows that there is
    none until it makes one *)
Lemma safe_haveInstance {A} F c (k : bool -> T A) Q :
  frame_ok F -> ((forall id, c <> Some (Some id)) -> safe bad F c (k false) Q) -> safe bad F c (k true) Q ->
  safe bad F c (haveInstanceT ≫= k) Q.
Proof.
  intros HF Hn Ht. unfold haveInstanceT. apply safe_bind, safe_bind, safe_act_stops; [keeps_current|].
  intros others g Ho HI Hcur. eapply (wp_bad bad); [by left|].
  apply (wp_currentInstance _ _ (beside F others)); [exact HI| |].
  - intros Hc. exists F. split_and!; [done..|]. cbn. apply Hn. intros id ->. specialize (Hcur _ eq_refl). congruence.
  - intros id g' _ HI'. exists (hold_inst id F). split_and!; [by apply frame_ok_hold_inst|exact HI'|].
    by apply safe_bind, safe_drop_inst.
Qed.

Lemma safe_publish F id Q :
  frame_ok F -> (forall cur, Q tt F (Some cur)) ->
  safe bad (hold_inst id F) (Some None) (act (publish id)) Q.
Proof.
  intros HF HQ others g Ho HI Hcur. apply wp_modify. split; [done|]. exists F. split_and!; [done| |apply HQ].
  apply Inv_publish; [exact HI|by apply Hcur|by apply frame_ok_beside].
Qed.

Lemma safe_build {A} F c config opts (k : nat * bool + hipObjError_t -> T A) Q :
  frame_ok F -> maxTransfers opts < 2 ^ 64 ->
  (forall id full, safe bad (hold_inst id F) c (k (inl (id, full))) Q) ->
  (forall err, safe bad F c (k (inr err)) Q) -> safe bad F c (act (build_shared config opts) ≫= k) Q.
Proof.
  intros HF Hmax Hl He.
  apply (safe_take _ _ _ _ _ (fun r => match r with inl (id, _) => hold_inst id F | inr _ => F end)).
  - keeps_current.
  - intros [[id full]|err]; [by apply frame_ok_hold_inst|done].
  - intros others g Ho HI. unfold build_shared. apply wp_bind.
    eapply wp_mono; [by apply (wp_build bad (beside F others))|]. cbv beta.
    intros [i|err] g1 [_ Hr]; [|by apply wp_ret]. apply wp_bind, Hr. intros id g2 HI2 _. by apply wp_ret.
  - by intros [[id full]|err].
Qed.

Lemma safe_lock {A} F (k : unit -> T A) Q :
  (forall cur, safe bad F (Some cur) (k tt) Q) -> safe bad F None (lock ≫= k) Q.
Proof. by split. Qed.

Lemma steady_initWith F config opts :
  maxTransfers opts < 2 ^ 64 -> steady bad F (initWithT config opts).
Proof.
  intros Hmax HF. unfold initWithT, initLockedT. apply safe_lock. intros cur.
  apply safe_bind.
  assert (forall cur' (e : hipObjError_t), safe bad F (Some cur') (_ ← unlock; mret e) (fun _ F' c => F' = F /\ c = None)) as Hend.
  { done. }
  apply safe_haveInstance; [done| |exact (Hend _ _)]. intros Hc. destruct cur as [id|]; [by destruct (Hc id)|].
  apply safe_build; [done|done| |intros err; exact (Hend _ _)]. intros id full. destruct full; cbn [negb].
  - apply safe_bind, safe_publish; [done|]. intros cur. exact (Hend _ _).
  - apply safe_bind, safe_drop_inst; [done|]. exact (Hend _ _).
Qed.

Lemma steady_shutdownInstance F : steady bad F shutdownInstanceT.
Proof.
  intros HF. unfold shutdownInstanceT. apply safe_lock. intros cur.
  apply safe_bind. intros others g Ho HI Hcur.
  apply wp_bind, wp_get, wp_bind, wp_put, wp_ret. split; [done|]. cbn [set_field g_current fmap option_fmap option_map].
  destruct (g_current g) as [id|] eqn:Hg.
  - exists (hold_inst id F). split_and!; [by apply frame_ok_hold_inst|exact (Inv_take_current _ _ _ HI Hg)|].
    apply safe_bind, safe_bind, safe_act; [keeps_current|]. intros others' g' Ho' HI'.
    destruct (Inv_held _ _ id HI') as (i & n & Hi); [left|]. eapply wp_update_inst; [exact Hi|].
    exists (hold_inst id F). split_and!; [by apply frame_ok_hold_inst|exact (Inv_close_pool _ _ _ _ _ HI' Hi)|].
    by apply safe_drop_inst.
  - exists F. split_and!; [done| |done]. destruct g; cbn in *; by subst.
Qed.

Lemma steady_hipObjInit F config : steady bad F (hipObjInitT config).
Proof.
  intros HF. unfold hipObjInitT. destruct config as [config|]; [|done]. destruct (_ || _); [done|].
  apply safe_haveInstance; [done| |done]. intros _.
  apply (safe_take _ _ _ _ _ (fun _ => F)); [keeps_current|done| |].
  { intros others g Ho HI. eapply wp_mono; [by apply (keeps_systemPlatform bad (beside F others))|]. by intros v g' [HI' _]. }
  intros [v|]; [|done].
  apply (safe_bind _ (act _)). apply safe_act; [keeps_current|]. intros others g Ho HI.
  apply wp_outside, wp_parseOptions. intros o t Hb (? & ? & ? & ? & ? & ->). exists F. split_and!; [done| |].
  - rewrite <- (frame_eta (beside F others)). apply Inv_mem; [done|].
    eapply mem_step_ext; [apply calls_step; [apply HI|done]| |done]. intros; cbv beta; unfold none; lia.
  - apply steady_initWith; [|done].
    pose proof (proj1 (options_from_transfers x x0 x1 x2 x3)) as Ht. unfold kMaxTransfers in Ht. lia.
Qed.

(** *** Programs of threads *)

Lemma steady_with_ops F ops next :
  (forall o, ops = Some o -> steady bad F (next o)) -> steady bad F (with_opsT ops next).
Proof. intros Hn. unfold with_opsT. repeat steady_step. by apply Hn. Qed.

Lemma steady_program A (p : T A) : thread_program A p -> forall F, steady bad F p.
Proof.
  induction 1 as [A a|A D p k _ IHp _ IHk|A m Hm|f| |c| |p n|p n|p|p n off ops _ IHs _ IHr
                 |p n off ops _ IHs _ IHr|p n off dir|p n op out]; intros F.
  - apply steady_ret.
  - by apply steady_bind.
  - apply steady_outside, Hm.
  - apply steady_act; [keeps_current|]. intros others g HI. apply wp_modify. destruct HI. by constructor.
  - apply steady_act; [keeps_current|]. intros others g HI. by apply wp_bind, wp_get, wp_ret.
  - apply steady_hipObjInit.
  - apply steady_bind; [apply steady_shutdownInstance|]. intros _. apply steady_ret.
  - unfold hipObjBufRegisterT. repeat steady_step.
    + apply isValidDeviceRange_neutral.
    + apply steady_register. in_frame.
  - unfold hipObjBufRegisterHostT. repeat steady_step. apply steady_register. in_frame.
  - unfold hipObjBufDeregisterT. repeat steady_step.
    + apply steady_release_copies. in_frame.
    + apply steady_deregister. in_frame.
  - unfold hipObjGetT. repeat steady_step. apply steady_with_ops. intros o Ho. repeat steady_step.
    + apply steady_runRdmaTransfer; [in_frame|in_frame|]. intros F'. split; eauto.
    + apply steady_stageToDevice; in_frame.
  - unfold hipObjPutT. repeat steady_step. apply steady_with_ops. intros o Ho. repeat steady_step.
    + apply steady_stageToHost; in_frame.
    + apply steady_runRdmaTransfer; [in_frame|in_frame|]. intros F'. split; eauto.
  - unfold hipObjBufSyncT. repeat steady_step; [apply steady_stageToDevice|apply steady_stageToHost]; in_frame.
  - unfold hipObjGetRdmaTokenT. repeat steady_step.
Qed.
End threads.

(** *** Systems *)

Lemma whole_frames_ok bad s fs : sys_ok bad s fs -> forall F, F ∈ fs -> frame_ok F.
Proof.
  intros [_ Hlen _ Ht] F (t & HF)%list_elem_of_lookup.
  destruct (lookup_lt_is_Some_2 (s_threads s) t) as [[p n] Hp].
  { rewrite <- Hlen. by eapply lookup_lt_Some. }
  by destruct (Ht t p n F Hp HF) as (_ & HF' & _).
Qed.

Lemma sys_frame bad s fs t x : sys_ok bad s fs -> s_threads s !! t = Some x -> exists F, fs !! t = Some F.
Proof. intros Hs Hp. apply lookup_lt_is_Some_2. rewrite (sys_len _ _ _ Hs). by eapply lookup_lt_Some. Qed.

Lemma lookup_split {A} (l : list A) t x :
  l !! t = Some x -> exists l1 l2, l = l1 ++ x :: l2 /\ forall y, <[t := y]> l = l1 ++ y :: l2.
Proof.
  intros Hl. exists (take t l), (drop (S t) l). split; [by rewrite take_drop_middle|].
  intros y. rewrite insert_take_drop; [done|by eapply lookup_lt_Some].
Qed.

(** What a thread's next action does, beside the others *)
Lemma sys_action bad s fs t X (m : G X) k n :
  sys_ok bad s fs -> s_threads s !! t = Some (Act m k, n) ->
  exists l1 F l2, fs = l1 ++ F :: l2 /\ fs !! t = Some F /\ (forall F', <[t := F']> fs = l1 ++ F' :: l2) /\
    wp (stops bad F (whole (l1 ++ l2)) (holding s t)) m (fun x g' =>
      (holding s t = None -> g_current g' = g_current (s_state s)) /\
      exists F', frame_ok F' /\ Inv (beside F' (whole (l1 ++ l2))) g' /\
        safe bad F' ((fun _ => g_current g') <$> holding s t) (k x) (fun _ F' c => F' = no_frame /\ c = None))
      (seen_by n (s_state s)).
Proof.
  intros Hs Hp. destruct (sys_frame _ _ _ _ _ Hs Hp) as [F HF].
  destruct (sys_threads _ _ _ Hs _ _ _ _ Hp HF) as (-> & HFok & Hsafe).
  destruct (lookup_split _ _ _ HF) as (l1 & l2 & Hfs & Hins). exists l1, F, l2. split_and!; [done..|].
  refine (Hsafe (whole (l1 ++ l2)) (seen_by _ (s_state s)) _ _ _).
  - apply frame_ok_whole. intros F' HF'. apply (whole_frames_ok _ _ _ Hs). rewrite Hfs.
    apply elem_of_app in HF' as [?|?]; apply elem_of_app; [by left|right; by right].
  - apply whole_sees. rewrite <- Hfs. apply (sys_inv _ _ _ Hs).
  - intros cur. unfold holding. case_decide; [|done]. by intros [= <-].
Qed.

Lemma sys_started bad `{E : World} `{B : BuildConfig} (Hclock : bad OutOfFuel \/ SteadyClock E)
    (HT : TopologyOk bad SysfsTopology) ps :
  are_threads ps -> sys_ok bad (started ps) (replicate (List.length ps) no_frame).
Proof.
  intros Hps. split; cbn.
  - assert (whole (replicate (List.length ps) no_frame) = no_frame) as ->; [|apply Inv_initial].
    induction ps as [|p ps IH]; [done|]. apply IH. intros q Hq. apply Hps. by right.
  - by rewrite length_replicate, length_fmap.
  - done.
  - intros t p n F Hp HF. apply lookup_replicate in HF as [-> _].
    rewrite list_lookup_fmap in Hp. destruct (ps !! t) as [q|] eqn:Hq; [|done]. injection Hp as <- <-.
    assert (frame_ok no_frame) as Hok by by split; intros ? ?%elem_of_nil.
    split_and!; [done|done|]. change (holding (started ps) t) with (@None (option nat)).
    eapply safe_mono; [apply (steady_program (N := SysfsTopology) bad Hclock _ _ (Hps q ltac:(by eapply list_elem_of_lookup_2))); done|].
    done.
Qed.

Lemma sys_step bad s fs s' : sys_ok bad s fs -> step s s' -> exists fs', sys_ok bad s' fs'.
Proof.
  intros Hs Hstep. destruct Hstep as [g i ths t X m k n x g' Hp Hm|g ths t k n Hp|g ths t k n Hp].
  - destruct (sys_action _ _ _ _ _ _ _ _ Hs Hp) as (l1 & F & l2 & Hfs & HF & Hins & Hw).
    eapply wp_run in Hw as [Hcur (F' & HF' & HI' & Hsafe)]; [|exact Hm]. exists (<[t := F']> fs).
    pose proof (inv_leases _ _ HI') as Hn. cbn in Hn, Hcur.
    split; cbn [s_state s_init s_threads].
    + rewrite Hins. apply (whole_seen _ _ _ _ (t_leasesHeld g')). by destruct g'.
    + rewrite !length_insert. apply (sys_len _ _ _ Hs).
    + intros u Hu. apply (sys_init _ _ _ Hs) in Hu. cbn in *. apply lookup_lt_is_Some. rewrite length_insert.
      by apply lookup_lt_is_Some.
    + intros u p n' F1 Hp1 HF1. destruct (decide (u = t)) as [->|Hne].
      * rewrite list_lookup_insert_eq in Hp1 by by eapply lookup_lt_Some.
        rewrite list_lookup_insert_eq in HF1 by by eapply lookup_lt_Some. simplify_eq.
        split_and!; [done|done|]. unfold holding in *. cbn in *. by case_decide.
      * rewrite list_lookup_insert_ne in Hp1 by done. rewrite list_lookup_insert_ne in HF1 by done.
        destruct (sys_threads _ _ _ Hs u _ _ _ Hp1 HF1) as (-> & HFok & Hsafe1). split_and!; [done|done|].
        unfold holding in *. cbn in *. case_decide as Hu; [|done].
        rewrite Hcur; [done|]. rewrite decide_False; [done|]. congruence.
  - exists fs. destruct Hs as [A1 A2 A3 A4]. cbn in *. split; cbn; [done|by rewrite length_insert| |].
    + intros u [= <-]. rewrite list_lookup_insert_eq by by eapply lookup_lt_Some. by eexists.
    + intros u p n' F Hp1 HF. destruct (decide (u = t)) as [->|Hne].
      * rewrite list_lookup_insert_eq in Hp1 by by eapply lookup_lt_Some. simplify_eq.
        destruct (A4 t _ _ _ Hp HF) as (-> & HFok & [_ Hsafe]). split_and!; [done|done|].
        unfold holding. cbn. rewrite decide_True by done. apply Hsafe.
      * rewrite list_lookup_insert_ne in Hp1 by done. destruct (A4 u _ _ _ Hp1 HF) as (-> & HFok & Hsafe).
        split_and!; [done|done|]. unfold holding in *. cbn in *. rewrite decide_False by congruence. exact Hsafe.
  - exists fs. destruct Hs as [A1 A2 A3 A4]. cbn in *. split; cbn; [done|by rewrite length_insert|done|].
    intros u p n' F Hp1 HF. destruct (decide (u = t)) as [->|Hne].
    + rewrite list_lookup_insert_eq in Hp1 by by eapply lookup_lt_Some. simplify_eq.
      destruct (A4 t _ _ _ Hp HF) as (-> & HFok & [_ Hsafe]). by split_and!.
    + rewrite list_lookup_insert_ne in Hp1 by done. destruct (A4 u _ _ _ Hp1 HF) as (-> & HFok & Hsafe).
      split_and!; [done|done|]. unfold holding in *. cbn in *. rewrite decide_False in Hsafe by congruence. exact Hsafe.
Qed.

Lemma sys_reachable bad `{E : World} `{B : BuildConfig} (Hclock : bad OutOfFuel \/ SteadyClock E)
    (HT : TopologyOk bad SysfsTopology) ps s :
  are_threads ps -> reachable ps s -> exists fs, sys_ok bad s fs.
Proof.
  intros Hps Hr. assert (exists fs, sys_ok bad (started ps) fs) as Hok by (eexists; by apply (sys_started bad Hclock HT)).
  unfold reachable in Hr. induction Hr as [s|s1 s2 s3 Hstep _ IH]; [done|].
  destruct Hok as [fs Hs]. apply IH. by eapply sys_step.
Qed.

(** *** Progress *)

(** The thread that has a lease, when another waits for one *)
Lemma lease_elsewhere bad s fs l1 F l2 :
  sys_ok bad s fs -> fs = l1 ++ F :: l2 -> f_elsewhere (whole (l1 ++ l2)) <> [] ->
  exists u q n Fu, s_threads s !! u = Some (q, n) /\ fs !! u = Some Fu /\ f_leases Fu <> [].
Proof.
  intros Hs Hfs Hother. cbn in Hother. destruct (flat_map f_leases (l1 ++ l2)) as [|l ls] eqn:Hl; [done|].
  assert (In l (flat_map f_leases (l1 ++ l2))) as (Fu & HFu & Hlu)%in_flat_map by (rewrite Hl; by left).
  apply list_elem_of_In in HFu.
  assert (Fu ∈ fs) as (u & Hu)%list_elem_of_lookup.
  { rewrite Hfs. apply elem_of_app in HFu as [?|?]; apply elem_of_app; [by left|right; by right]. }
  destruct (lookup_lt_is_Some_2 (s_threads s) u) as [[q nq] Hq].
  { rewrite <- (sys_len _ _ _ Hs). by eapply lookup_lt_Some. }
  exists u, q, nq, Fu. split_and!; [done..|]. intros Hnil. by rewrite Hnil in Hlu.
Qed.

(** A thread whose action may not wait has a step *)
Lemma acts bad s t X (m : G X) k n Q :
  s_threads s !! t = Some (Act m k, n) -> (forall e, ~ bad e) -> wp bad m Q (seen_by n (s_state s)) ->
  exists s', step s s'.
Proof.
  intros Hp Hbad Hw. unfold wp in Hw. destruct (m (seen_by n (s_state s))) as [[x|e] g'] eqn:Hm; [|by apply Hbad in Hw].
  destruct s as [g i ths]. eexists. by eapply step_act.
Qed.

Lemma sys_progress bad s fs :
  (forall e, ~ bad e) -> sys_ok bad s fs ->
  (forall t p n, s_threads s !! t = Some (p, n) -> finished p) \/ exists s', step s s'.
Proof.
  intros Hbad Hs.
  (* a thread that can't wait has a step, unless it has finished *)
  assert (forall t p n F, s_threads s !! t = Some (p, n) -> fs !! t = Some F ->
            (s_init s = None \/ s_init s = Some t) -> (holding s t <> None \/ f_leases F <> []) ->
            exists s', step s s') as Hbusy.
  { intros t p n F Hp HF Hinit Hb. destruct (sys_threads _ _ _ Hs _ _ _ _ Hp HF) as (-> & HFok & Hsafe).
    destruct p as [[]|X m k|k|k].
    - cbn in Hsafe. destruct Hsafe as [-> Hc]. by destruct Hb.
    - destruct (sys_action _ _ _ _ _ _ _ _ Hs Hp) as (l1 & F' & l2 & Hfs & HF' & _ & Hw). simplify_eq.
      eapply acts; [exact Hp|intros e He; exact He|]. eapply wp_bad; [|exact Hw].
      intros e [He|(-> & Hc & Hl & _)]; [by apply (Hbad e)|]. by destruct Hb.
    - destruct Hsafe as [Hc _]. destruct Hinit as [Hi|Hi].
      + destruct s as [g i ths]. cbn in *. subst i. eexists. by eapply step_lock.
      + unfold holding in Hc. by rewrite decide_True in Hc.
    - destruct Hsafe as [[cur Hc] _]. unfold holding in Hc. case_decide as Hi; [|done].
      destruct s as [g i ths]. cbn in *. subst i. eexists. by eapply step_unlock. }
  destruct (s_init s) as [t|] eqn:Hinit.
  { right. destruct (sys_init _ _ _ Hs t Hinit) as [[p n] Hp]. destruct (sys_frame _ _ _ _ _ Hs Hp) as [F HF].
    eapply (Hbusy t); [done|done|by right|]. left. unfold holding. by rewrite decide_True. }
  destruct (decide (Forall (fun x => finished (fst x)) (s_threads s))) as [Hall|Hsome].
  { left. intros t p n Hp. by apply (Forall_lookup_1 _ _ _ _ Hall Hp). }
  right. apply not_Forall_Exists, Exists_exists in Hsome as ([p n] & (t & Hp)%list_elem_of_lookup & Hnf); [|apply _].
  cbn in Hnf. destruct (sys_frame _ _ _ _ _ Hs Hp) as [F HF].
  destruct p as [[]|X m k|k|k]; [done| |destruct s as [g i ths]; cbn in *; subst i; eexists; by eapply step_lock|].
  2:{ destruct (sys_threads _ _ _ Hs _ _ _ _ Hp HF) as (_ & _ & [[cur Hc] _]). unfold holding in Hc. by rewrite Hinit in Hc. }
  destruct (sys_action _ _ _ _ _ _ _ _ Hs Hp) as (l1 & F' & l2 & Hfs & HF' & _ & Hw). unfold wp in Hw.
  destruct (m (seen_by n (s_state s))) as [[x|e] g'] eqn:Hm.
  { destruct s as [g i ths]. eexists. by eapply step_act. }
  destruct Hw as [He|(_ & _ & _ & Hother)]; [by apply Hbad in He|].
  destruct (lease_elsewhere _ _ _ _ _ _ Hs Hfs Hother) as (u & q & nq & Fu & Hq & Hu & Hlu).
  eapply (Hbusy u); [done|done|by left|by right].
Qed.

(** *** Every run ends *)

Lemma step_rests s s' : step s s' -> rests (s_threads s').*1 (s_threads s).*1.
Proof.
  intros Hs. destruct Hs as [g i ths t X m k n x g' Hp _|g ths t k n Hp|g ths t k n Hp];
    cbn; exists t; [exists (Act m k), (k x)|exists (Lock k), k|exists (Unlock k), k];
    rewrite list_lookup_fmap, Hp, list_fmap_insert; (split_and!; [done| |done]); cbn; [by exists x|done..].
Qed.

Lemma step_ends s : Acc (flip step) s.
Proof.
  pose proof (rests_wf (s_threads s).*1) as Hwf. remember (s_threads s).*1 as ps eqn:Hps. revert s Hps.
  induction Hwf as [ps _ IH]. intros s ->. constructor. intros s' Hs. by eapply IH; [by apply step_rests|].
Qed.

(** *** Schedules *)

Lemma turn_step t s s' : turn t s = Some s' -> step s s'.
Proof.
  destruct s as [g i ths]. unfold turn. cbn [s_threads s_state s_init].
  destruct (ths !! t) as [[[a|X m k|k|k] n]|] eqn:Ht; [done| | | |done].
  - destruct (m (seen_by n g)) as [[x|e] g'] eqn:Hm; [|done]. intros [= <-]. by eapply step_act.
  - destruct i; [done|]. intros [= <-]. by eapply step_lock.
  - case_bool_decide as Hi; [|done]. subst i. intros [= <-]. by eapply step_unlock.
Qed.

Lemma turns_steps ts s : rtc step s (turns ts s).
Proof.
  revert s. induction ts as [|t ts IH]; intros s; [done|]. cbn. destruct (turn t s) as [s'|] eqn:Ht; cbn.
  - eapply rtc_l; [by eapply turn_step|apply IH].
  - apply IH.
Qed.

Lemma demo_threads `{World} `{BuildConfig} : are_threads [demo_reader; demo_closer].
Proof.
  assert (forall e, @thread_program _ _ SysfsTopology _ (note e)) as Hn.
  { intros e. apply (thread_keep (fun kept => kept ++ outcome_mark e)). }
  assert (forall o send token, Some demo_callbacks = Some o -> send_request o = Some send ->
            @thread_program _ _ SysfsTopology _ (send token)) as Hsend.
  { intros o send token [= <-] [= <-]. apply (thread_bind (act (outside (perform (application 7)))) (fun _ => mret 0)); [by apply thread_own, own_call|].
    intros; apply thread_ret. }
  assert (forall o recv buf, Some demo_callbacks = Some o -> recv_reply o = Some recv ->
            @thread_program _ _ SysfsTopology _ (recv buf)) as Hrecv.
  { intros o recv buf [= <-] [= <-]. apply thread_ret. }
  intros p Hp. apply elem_of_cons in Hp as [->|Hp]; [|apply list_elem_of_singleton in Hp as ->].
  - repeat first [apply thread_init|apply thread_register|apply Hn|by apply thread_get|apply thread_bind; [|intros ?]].
  - repeat first [apply thread_init|apply thread_deregister|apply thread_shutdown|apply Hn|apply thread_bind; [|intros ?]].
Qed.

Lemma demo_reachable `{World} `{BuildConfig} ts : reachable [demo_reader; demo_closer] (turns ts demo_system).
Proof. apply turns_steps. Qed.

(** What a reachable system's threads hold *)
Lemma sys_next_action bad s fs t X (m : G X) k n :
  sys_ok bad s fs -> s_threads s !! t = Some (Act m k, n) ->
  wp (fun e => bad e \/ (e = Blocked /\ s_init s <> Some t /\ n = 0 /\ exists u q l, s_threads s !! u = Some (q, l) /\ 0 < l))
    m (fun _ _ => True) (seen_by n (s_state s)).
Proof.
  intros Hs Hp. destruct (sys_action _ _ _ _ _ _ _ _ Hs Hp) as (l1 & F & l2 & Hfs & HF & _ & Hw).
  destruct (sys_threads _ _ _ Hs _ _ _ _ Hp HF) as (Hn & _ & _).
  eapply wp_bad; [|eapply wp_mono; [exact Hw|done]].
  intros e [He|(-> & Hc & Hl & Hothers)]; [by left|right]. split_and!; [done| |by rewrite Hn, Hl|].
  { intros Hi. unfold holding in Hc. by rewrite decide_True in Hc. }
  destruct (lease_elsewhere _ _ _ _ _ _ Hs Hfs Hothers) as (u & q & nq & Fu & Hq & Hu & Hlu).
  exists u, q, nq. split; [done|]. destruct (sys_threads _ _ _ Hs _ _ _ _ Hq Hu) as (-> & _ & _).
  destruct (f_leases Fu); [done|]. cbn. lia.
Qed.

(** Threads that have finished hold nothing *)
Lemma sys_over bad s fs :
  sys_ok bad s fs -> (forall t p n, s_threads s !! t = Some (p, n) -> finished p) ->
  Inv no_frame (seen_by 0 (s_state s)) /\ s_init s = None.
Proof.
  intros Hs Hall. split.
  - assert (whole fs = no_frame) as <-; [|apply (sys_inv _ _ _ Hs)].
    assert (Forall (fun F => F = no_frame) fs) as Hno.
    { apply Forall_lookup_2. intros t F HF. destruct (lookup_lt_is_Some_2 (s_threads s) t) as [[p n] Hp].
      { rewrite <- (sys_len _ _ _ Hs). by eapply lookup_lt_Some. }
      destruct (sys_threads _ _ _ Hs _ _ _ _ Hp HF) as (_ & _ & Hsafe). rewrite (Hall _ _ _ Hp) in Hsafe. apply Hsafe. }
    clear -Hno. induction Hno as [|F fs -> _ IH]; [done|]. exact IH.
  - destruct (s_init s) as [t|] eqn:Hi; [|done]. destruct (sys_init _ _ _ Hs t Hi) as [[p n] Hp].
    destruct (sys_frame _ _ _ _ _ Hs Hp) as [F HF]. destruct (sys_threads _ _ _ Hs _ _ _ _ Hp HF) as (_ & _ & Hsafe).
    rewrite (Hall _ _ _ Hp) in Hsafe. destruct Hsafe as [_ Hc]. unfold holding in Hc. by rewrite decide_True in Hc.
Qed.

(** ** Properties *)

(** C2: the library is safe to use from any number of threads, callbacks
    included, whatever the libraries and devices answer and however the
    threads take turns. At every point, the invariant holds of what the
    threads hold together: every reference is counted, every object that's
    open has one owner, and each connection is free or leased to one of
    them. A thread's next action never uses an object that has been
    released; it waits only for a connection, when the thread itself has
    none and doesn't hold [initMutex], and while another thread has one. No
    thread locks [initMutex] twice, or unlocks it without holding it. *)
Theorem threads_safe `{E : World} `{B : BuildConfig} ps (Hps : are_threads ps) s (Hr : reachable ps s) :
  (exists fs, Inv (whole fs) (seen_by 0 (s_state s)) /\
     Forall2 (fun th F => snd th = Z.of_nat (List.length (f_leases F))) (s_threads s) fs) /\
  forall t p n, s_threads s !! t = Some (p, n) ->
    match p with
    | Ret _ => n = 0 /\ s_init s <> Some t
    | Act m _ =>
        wp (fun e => e = OutOfFuel \/ (e = Blocked /\ s_init s <> Some t /\ n = 0 /\
              exists u q l, s_threads s !! u = Some (q, l) /\ 0 < l))
          m (fun _ _ => True) (seen_by n (s_state s))
    | Lock _ => s_init s <> Some t
    | Unlock _ => s_init s = Some t
    end.
Proof.
  destruct (sys_reachable out_of_fuel (or_introl eq_refl) (SysfsTopology_ok _ (or_introl eq_refl)) ps s Hps Hr) as [fs Hs].
  split.
  - exists fs. split; [apply (sys_inv _ _ _ Hs)|]. apply Forall2_same_length_lookup_2; [symmetry; apply (sys_len _ _ _ Hs)|].
    intros t [p n] F Hp HF. apply (sys_threads _ _ _ Hs t p n F Hp HF).
  - intros t p n Hp. destruct (sys_frame _ _ _ _ _ Hs Hp) as [F HF].
    destruct (sys_threads _ _ _ Hs _ _ _ _ Hp HF) as (Hn & _ & Hsafe).
    destruct p as [[]|X m k|k|k]; cbn in Hsafe.
    + destruct Hsafe as [-> Hc]. split; [done|]. intros Hi. unfold holding in Hc. by rewrite decide_True in Hc.
    + by eapply sys_next_action.
    + destruct Hsafe as [Hc _]. intros Hi. unfold holding in Hc. by rewrite decide_True in Hc.
    + destruct Hsafe as [[cur Hc] _]. unfold holding in Hc. by case_decide.
Qed.

Lemma threads_safe_witness :
  let s := turns (take 82 demo_turns) (@demo_system (lab working) demo_build) in
  g_app (s_state s) = lit "++-B+" /\
  exists fs, Inv (whole fs) (seen_by 0 (s_state s)) /\
    Forall2 (fun th F => snd th = Z.of_nat (List.length (f_leases F))) (s_threads s) fs.
Proof.
  split; [vm_compute; reflexivity|].
  exact (proj1 (@threads_safe (lab working) demo_build _ demo_threads _ (demo_reachable (take 82 demo_turns)))).
Defined.

(** C5: no thread waits forever. With a clock that doesn't go back and
    devices of fewer than 255 ports, however the threads take turns, after
    finitely many actions no thread can go on, and then all of them have
    returned from their calls: there's no deadlock, neither over connections
    nor over [initMutex], and no call that fails to return. *)
Theorem threads_return `{E : World} `{B : BuildConfig} (Hc : SteadyClock E) (Hp : PortsFit E)
    ps (Hps : are_threads ps) s (Hr : reachable ps s) :
  Acc (flip step) s /\
  ((forall s', ~ step s s') -> s_init s = None /\ Forall (fun th => finished (fst th) /\ snd th = 0) (s_threads s)).
Proof.
  split; [apply step_ends|]. intros Hno.
  destruct (sys_reachable never (or_intror Hc) (SysfsTopology_ok _ (or_intror Hp)) ps s Hps Hr) as [fs Hs].
  destruct (sys_progress never s fs (fun _ H => H) Hs) as [Hall|[s' Hstep]]; [|by apply Hno in Hstep].
  split; [by apply (sys_over _ _ _ Hs)|]. apply Forall_lookup_2. intros t [p n] Ht.
  destruct (sys_frame _ _ _ _ _ Hs Ht) as [F HF].
  destruct (sys_threads _ _ _ Hs _ _ _ _ Ht HF) as (-> & _ & Hsafe).
  pose proof (Hall _ _ _ Ht) as ->. by destruct Hsafe as [-> _].
Qed.

Lemma threads_return_witness :
  let s := turns demo_turns (@demo_system (lab working) demo_build) in
  (forall s', ~ step s s') /\ g_app (s_state s) = lit "++-B++" /\
  s_init s = None /\ Forall (fun th => finished (fst th) /\ snd th = 0) (s_threads s).
Proof.
  intros s.
  assert (forall s', ~ step s s') as Hno.
  { assert (s_threads s = [(Ret tt, 0); (Ret tt, 0)]) as Hths by (vm_compute; reflexivity).
    intros s' Hs. destruct Hs as [g i ths t X m k n x g' Ht _|g ths t k n Ht|g ths t k n Ht];
      cbn [s_threads] in Hths; subst ths; by destruct t as [|[|t]]. }
  split; [exact Hno|]. split; [vm_compute; reflexivity|].
  exact (proj2 (@threads_return (lab working) demo_build (lab_steady working) (lab_ports working) _ demo_threads s
                  (demo_reachable demo_turns)) Hno).
Defined.

(** C13: when all threads have returned and the library has been shut down,
    everything is closed, whichever threads opened it and in whatever order:
    no instance and no registration is left, and all that's still open is
    libibverbs and what copies that hadn't ended still use. *)
Theorem threads_close_everything `{E : World} `{B : BuildConfig} ps (Hps : are_threads ps) s (Hr : reachable ps s)
    (Hall : Forall (fun th => finished (fst th)) (s_threads s)) (Hdown : g_current (s_state s) = None) :
  g_insts (s_state s) = ∅ /\ m_ents (g_mem (s_state s)) = ∅ /\
  forall h, bal h (m_trace (g_mem (s_state s))) =
              cnt h (m_leaked (g_mem (s_state s))) + cnt h (own_platform (g_platform (s_state s))) /\
            (h ∈ m_leaked (g_mem (s_state s)) -> can_leak h = true).
Proof.
  destruct (sys_reachable out_of_fuel (or_introl eq_refl) (SysfsTopology_ok _ (or_introl eq_refl)) ps s Hps Hr) as [fs Hs].
  destruct (sys_over _ _ _ Hs) as [HI _].
  { intros t p n Ht. by apply (Forall_lookup_1 _ _ _ _ Hall Ht). }
  destruct (Inv_over _ HI Hdown) as (Hi & He & Hb). split_and!; [done..|].
  intros h. split; [apply Hb|]. apply (mem_leaked _ (inv_mem _ _ HI)).
Qed.

Lemma threads_close_everything_witness :
  let s := turns demo_turns (@demo_system (lab working) demo_build) in
  g_insts (s_state s) = ∅ /\ m_ents (g_mem (s_state s)) = ∅ /\
  forall h, bal h (m_trace (g_mem (s_state s))) =
              cnt h (m_leaked (g_mem (s_state s))) + cnt h (own_platform (g_platform (s_state s))) /\
            (h ∈ m_leaked (g_mem (s_state s)) -> can_leak h = true).
Proof.
  intros s. apply (@threads_close_everything (lab working) demo_build _ demo_threads s (demo_reachable demo_turns)).
  - assert (s_threads s = [(Ret tt, 0); (Ret tt, 0)]) as -> by (vm_compute; reflexivity). repeat constructor.
  - vm_compute. reflexivity.
Defined.
