(* ===== verification/Behaviour.v ===== *)
(** * What the public functions do

    The functional behaviour of [src/hipobj.cpp]: which arguments are
    accepted, what a transfer's success means, what happens to a buffer
    that's in use, and what initialization leaves behind. *)

From Stdlib Require Import Ascii String.
From stdpp Require Import base numbers list gmap sets.
From S2P Require Import Prelude.
From S2P Require Import Parse.
From S2P Require Import Gid.
From S2P Require Import Token.
From S2P Require Import IbvCore.
From S2P Require Import World.
From S2P Require Import Verbs.
From S2P Require Import Topology.
From S2P Require Import Transport.
From S2P Require Import Pool.
From S2P Require Import Buffer.
From S2P Require Import Abandoned.
From S2P Require Import State.
From S2P Require Import Invariant.
From S2P Require Import Control.
From S2P Require Import Api.
From S2P Require Import Safety.

(** ** Definitions *)

(** What [hipObjInit()] leaves open, apart from libibverbs *)
Definition opened (h : handle) (g : Process) : Z :=
  bal h (m_trace (g_mem g)) - cnt h (own_platform (g_platform g)).

(** Nothing has changed, but for calls that left open what was open, and
    libibverbs *)
Record unchanged (g g' : Process) : Prop := {
  same_current : g_current g' = g_current g;
  same_insts : g_insts g' = g_insts g;
  same_ents : m_ents (g_mem g') = m_ents (g_mem g);
  same_leaked : m_leaked (g_mem g') = m_leaked (g_mem g);
  same_opened : forall h, opened h g' = opened h g;
}.

(** A new instance, as [hipObjInit()] publishes it *)
Record ready (i : Instance_t) : Prop := {
  ready_full : pool_size (pool i) = maxTransfers (options i);
  ready_free : free_ (pool i) = seq 0 (Z.to_nat (maxTransfers (options i)));
  ready_open : closed_ (pool i) = false;
  ready_buffers : entries_ (buffers i) = ∅;
  ready_copies : abandoned i = new_AbandonedCopies;
}.

(** The addresses that whoever has a token can reach, and those of the bytes
    that an entry's MR covers *)
Definition opens (token : RdmaToken) (a : Z) : Prop := tok_remoteAddr token <= a < tok_remoteAddr token + tok_length token.
Definition registered_at (buf : BufEntry) (a : Z) : Prop := remoteAddr buf <= a < remoteAddr buf + buf_size buf.

(** An entry, and a connection, to try things with *)
Definition demo_entry : BufEntry :=
  {| hostBuf := 0; mr := Some {| mr_addr := 1; mr_buf := 65536; mr_rkey := 77; mr_lkey := 78 |}; buf_size := 4096;
     isDmabuf := true; remoteAddr := 65536; leakHostBuf := false |}.

Definition demo_connection : RcConnection :=
  {| rc_device := {| dev_context := {| ctx_addr := 1; ctx_device_name := [] |};
                     dev_pd := {| pd_addr := 2 |}; dev_portNum := 1; dev_gidIndex := 0;
                     dev_localGid := toIbvGid lab_gid; dev_vendorId := None |};
     rc_cq := {| cq_addr := 3; cq_cqe := 16 |}; rc_qp := {| qp_addr := 4; qp_num := 5 |} |}.

(** How a transfer ends well: the lease's connection was connected to the peer
    that the reply names, where it names one; then a completion that reports
    success was polled from that connection's queue; and, where [sync] says
    so, the GPU was synchronized. These are the last calls. *)
Definition transfer_finished `{World} `{BuildConfig} (id index : nat) (reply : chars) (sync connected : bool)
    (g g' : Process) : Prop :=
  exists g1 conn n wc t1,
    match parsePeerTokenFromReply reply with
    | Some peer => connected = true /\ exists c, get_connection id index g = (inl c, g) /\
                     outside (connectRcPeer c peer) g = (inl true, g1)
    | None => connected = false /\ g1 = g
    end /\
    get_connection id index g1 = (inl conn, g1) /\
    m_trace (g_mem g') =
      (if sync then [Ev deviceSynchronize hipSuccess] else []) ++ Ev (poll_cq (rc_cq conn) 1) (n, wc) :: t1 /\
    0 < n /\ wc_status wc = IBV_WC_SUCCESS /\ m_trace (g_mem g1) `suffix_of` t1.

(** What a callback and the library's own steps have done when a transfer
    that has its lease returns *)
Definition transfer_ran `{World} `{BuildConfig} (id index buf : nat) (size offset : Z)
    (ops : hipObjOps_t) (connected : bool) (g g' : Process) : Prop :=
  exists conn e token send g1 recv g2 buffer len reply e2 inst,
    get_connection id index g = (inl conn, g) /\ mem (get_entry buf) g = (inl e, g) /\
    buildRdmaToken conn e size offset = Some token /\
    sendRequest ops = Some send /\ send (encodeRdmaToken token) g = (inl 0, g1) /\
    recvReply ops = Some recv /\ recv (replicate kReplyBufLen (chr 0)) g1 = (inl (0, buffer, len), g2) /\
    received_reply kReplyBufLen 0 buffer len = Some reply /\ status reply = Success /\
    mem (get_entry buf) g2 = (inl e2, g2) /\ get_inst id g2 = (inl inst, g2) /\
    transfer_finished id index (text reply) (isDmabuf e2) connected g2 g'.

(** The callbacks of an application that talks to a server that answers
    with a reply, and a process that's about to use them, with its lease *)
Definition plain_ops `{World} (answer : chars) : hipObjOps_t :=
  {| sendRequest := Some (fun _ => outside (perform (application 1)));
     recvReply := Some (fun buf => mret (0, copy_into answer buf, Z.of_nat (List.length answer))) |}.

#[local] Instance lab_build : BuildConfig := {| HIPOBJ_BNXT := true; HIPOBJ_IONIC := true |}.

Definition registering `{World} : G hipObjError_t :=
  _ ← @hipObjInit _ SysfsTopology (Some demo_config); hipObjBufRegister 65536 4096.
Definition registered_process : Process := snd (@registering (lab working) initial_process).
Definition leased_process : Process := snd (acquire_lease 0 registered_process).

(** One in which a call uses the buffer *)
Definition using_process : Process := snd (mem (copy_ref 0) registered_process).

(** A world in which device memory has to be staged, and recording an event
    fails; and an application that synchronizes a buffer in it, and
    unregisters the buffer *)
Definition record_fails : World := lab (working <| set_dmabuf := false |> <| set_record := 1 |>).
Definition sync_and_unregister : G (list hipObjOpError_t) :=
  a ← @hipObjInit record_fails (@SysfsTopology record_fails) (Some demo_config);
  b ← @hipObjBufRegister record_fails 64 1024;
  c ← @hipObjBufSync record_fails 64 1024 0 HIPOBJ_SYNC_TO_DEVICE;
  d ← @hipObjBufDeregister record_fails 64;
  mret (opError <$> [a; b; c; d]).

(** Whether a call can tell that copies are over *)
Definition waits_for_copy (e : event) : bool :=
  match e with Ev (eventQuery _) _ => true | Ev deviceSynchronize _ => true | _ => false end.

(** What the copies that were abandoned, and the trace, say of how a staging
    copy from the buffer [buf] ended *)
Definition copy_outcome (buf : nat) (e : BufEntry) (k : nat) (a a' : AbandonedCopies) (m' : Mem)
    (r : hipObjError_t) : Prop :=
  (* it's complete: the last answer said so, and then its event was destroyed *)
  (r = makeError hipObjSuccess /\ copies_ a' = copies_ a /\ m_ents m' !! buf = Some (e, S k) /\
   exists done t0, let t1 := Ev (eventQuery done) hipSuccess :: t0 in
     m_trace m' = t1 \/ exists rd, m_trace m' = Ev (eventDestroy done) rd :: t1) \/
  (* it failed, or was never waited for *)
  (r = makeError hipObjInternalError /\ copies_ a' = copies_ a /\ m_ents m' !! buf = Some (e, S k)) \/
  (* it timed out: the list holds its event, and a reference to its buffer *)
  (r = makeError hipObjInternalError /\ m_ents m' !! buf = Some (e, S (S k)) /\
   exists done t0 now print, copies_ a' = copies_ a ++ [{| copy_entry := buf; copy_done := done |}] /\
     m_trace m' = print :: Ev clock_now now :: Ev (eventQuery done) hipErrorNotReady :: t0).

(** ** Lemmas *)

Lemma bool_decide_neq_success e : e <> hipObjSuccess -> bool_decide (e = hipObjSuccess) = false.
Proof. intros H. by apply bool_decide_eq_false. Qed.

Lemma rangeInRegistration_exact offset size reg :
  0 <= size -> rangeInRegistration offset size reg = true <-> 0 <= offset /\ offset + size <= reg.
Proof.
  intros Hs. unfold rangeInRegistration. destruct (_ || _) eqn:Hb; bools.
  - split; [done|]. intros [? ?]. destruct Hb as [Hb|Hb]; bools; lia.
  - rewrite Z.leb_le. lia.
Qed.

Lemma makeError_inj a b : makeError a = makeError b <-> a = b.
Proof. split; [by intros [= ?]|by intros ->]. Qed.

Lemma checkRegistrationArgs_success ptr size :
  0 <= ptr < 2 ^ 64 -> 0 <= size < 2 ^ 64 ->
  checkRegistrationArgs ptr size = makeError hipObjSuccess <->
    ptr <> 0 /\ 0 < size <= 2 ^ 32 /\ ptr + size < 2 ^ 64.
Proof.
  intros Hp Hs. unfold checkRegistrationArgs. change MAX_MR_SIZE with (2 ^ 32).
  change UINTPTR_MAX with (2 ^ 64 - 1).
  destruct (Z.eqb_spec ptr 0); [split; [done|lia]|]. destruct (Z.eqb_spec size 0); [split; [done|lia]|].
  cbn [orb]. destruct (Z.ltb_spec (2 ^ 32) size); [split; [done|lia]|].
  destruct (Z.ltb_spec (2 ^ 64 - 1 - ptr) size); [split; [done|lia]|]. split; [lia|done].
Qed.

Lemma checkRegistrationArgs_large ptr size :
  checkRegistrationArgs ptr size = makeError hipObjSizeTooLarge <-> ptr <> 0 /\ 2 ^ 32 < size.
Proof.
  unfold checkRegistrationArgs. change MAX_MR_SIZE with (2 ^ 32).
  destruct (Z.eqb_spec ptr 0); [split; [done|lia]|]. destruct (Z.eqb_spec size 0); [split; [done|lia]|].
  cbn [orb]. destruct (Z.ltb_spec (2 ^ 32) size); [done|]. split; [by case_match|lia].
Qed.

Lemma checkBufferArgs_success ptr buf size offset :
  0 <= size ->
  checkBufferArgs ptr buf size offset = makeError hipObjSuccess <->
    ptr <> 0 /\ 0 < size /\ exists b, buf = Some b /\ 0 <= offset /\ offset + size <= buf_size b.
Proof.
  intros Hs. unfold checkBufferArgs.
  destruct (Z.eqb_spec ptr 0); [split; [done|by intros [? _]]|].
  destruct (Z.eqb_spec size 0); [split; [done|intros (_ & ? & _); lia]|].
  destruct (Z.ltb_spec offset 0); cbn [orb]; [split; [done|intros (_ & _ & b & _ & ?); lia]|].
  destruct buf as [b|]; [|split; [done|by intros (_ & _ & b & [=] & _)]].
  pose proof (rangeInRegistration_exact offset size (buf_size b) Hs) as Hr.
  destruct (rangeInRegistration offset size (buf_size b)); cbn [negb].
  - split; [intros _|done]. destruct (proj1 Hr eq_refl). split_and!; [done|lia|]. by exists b.
  - split; [done|]. intros (_ & _ & ? & [= <-] & H1). by apply Hr in H1.
Qed.

Lemma checkBufferArgs_unregistered ptr buf size offset :
  0 <= size ->
  checkBufferArgs ptr buf size offset = makeError hipObjBufNotRegistered <->
    ptr <> 0 /\ 0 < size /\ 0 <= offset /\ buf = None.
Proof.
  intros Hs. unfold checkBufferArgs.
  destruct (Z.eqb_spec ptr 0); [split; [done|by intros [? _]]|].
  destruct (Z.eqb_spec size 0); [split; [done|intros (_ & ? & _); lia]|].
  destruct (Z.ltb_spec offset 0); cbn [orb]; [split; [done|intros (_ & _ & ? & _); lia]|].
  destruct buf as [b|]; [|split; [intros _; split_and!; [done|lia|lia|done]|done]].
  split; [by case_match|]. by intros (_ & _ & _ & [=]).
Qed.

Lemma get_inst_same id g i g' : get_inst id g = (inl i, g') -> g' = g.
Proof.
  unfold get_inst, read_inst. intros H. apply bind_returns in H as (x & g1 & H & H').
  apply bind_returns in H as (g2 & g3 & [= <- <-] & H). destruct (g_insts g !! id); [|done].
  injection H as _ <-. by injection H' as _ <-.
Qed.

Lemma get_connection_same id index g c g' : get_connection id index g = (inl c, g') -> g' = g.
Proof.
  unfold get_connection. intros H. apply bind_returns in H as (i & g1 & H & H').
  apply get_inst_same in H as ->. by case_match; [injection H' as _ <-|].
Qed.

Lemma get_entry_same e g b g' : mem (get_entry e) g = (inl b, g') -> g' = g.
Proof.
  unfold mem, zoom, get_entry, read_entry. unfold mbind, M_bind, get_state. cbn.
  destruct (m_ents (g_mem g) !! e); [|done]. intros [= _ <-]. by destruct g.
Qed.

(** A wait that succeeds has polled, last, a completion that reports success *)
Lemma poll_loop_completion `{E : World} fuel c ms deadline t t' :
  poll_loop fuel c None ms deadline t = (inl true, t') ->
  exists n wc t1, t' = Ev (poll_cq (rc_cq c) 1) (n, wc) :: t1 /\ 0 < n /\
    wc_status wc = IBV_WC_SUCCESS /\ t `suffix_of` t1.
Proof.
  revert t. induction fuel as [|fuel IH]; intros t H; [done|]. cbn [poll_loop] in H.
  apply bind_returns in H as (now & t1 & [= <- <-] & H). destruct (negb _).
  { by apply bind_returns in H as (u & t2 & _ & [= ?]). }
  apply bind_returns in H as ([n wc] & t2 & [= Hn <-] & H). rewrite Hn in H.
  destruct (n <? 0) eqn:H1; [done|]. destruct (n =? 0) eqn:H2.
  - apply bind_returns in H as (u & t3 & [= _ <-] & H). apply IH in H as (n' & wc' & t4 & -> & ? & ? & Hs).
    exists n', wc', t4. split_and!; [done..|]. etransitivity; [|exact Hs]. by do 3 apply suffix_cons_r.
  - case_bool_decide; cbn [negb] in H; [|by apply bind_returns in H as (u & t3 & _ & [= ?])].
    injection H as <-. bools. eexists n, wc, _. split_and!; [done|lia|done|by apply suffix_cons_r].
Qed.

Lemma outside_returns {A} (m : W A) g a g' :
  outside m g = (inl a, g') -> m (m_trace (g_mem g)) = (inl a, m_trace (g_mem g')).
Proof.
  unfold outside, calls, mem, zoom. destruct (m (m_trace (g_mem g))) as [r t]. by intros [= -> <-].
Qed.

Lemma finishTransfer_inv `{E : World} `{B : BuildConfig} id index reply sync ms g connected g' :
  finishTransferAfterReply id index reply sync ms g = (inl (true, connected), g') ->
  transfer_finished id index reply sync connected g g'.
Proof.
  unfold finishTransferAfterReply.
  set (finish := get_connection id index ≫= _).
  assert (forall g1 g', finish g1 = (inl true, g') -> exists conn n wc t1,
    get_connection id index g1 = (inl conn, g1) /\
    m_trace (g_mem g') =
      (if sync then [Ev deviceSynchronize hipSuccess] else []) ++ Ev (poll_cq (rc_cq conn) 1) (n, wc) :: t1 /\
    0 < n /\ wc_status wc = IBV_WC_SUCCESS /\ m_trace (g_mem g1) `suffix_of` t1) as Hfinish.
  { clear g g'. intros g g' H. apply bind_returns in H as (conn & g1 & Hc & H).
    pose proof (get_connection_same _ _ _ _ _ Hc) as ->.
    apply bind_returns in H as (ok & g1 & Hp & H). destruct ok; [|done]. cbn [negb] in H.
    apply outside_returns, bind_returns in Hp as (now & t1 & [= _ <-] & Hp).
    apply poll_loop_completion in Hp as (n & wc & t2 & Ht & Hn & Hw & Hs).
    exists conn, n, wc, t2. split_and!; [done| |done..|].
    - destruct sync; cbn [negb] in H; [|by injection H as <-].
      apply bind_returns in H as (st & g2 & Hst & H). injection H as Hz <-. apply Z.eqb_eq in Hz as ->.
      apply outside_returns in Hst as [= Hz Ht']. rewrite <- Ht', Hz, Ht. done.
    - etransitivity; [|exact Hs]. by apply suffix_cons_r. }
  clearbody finish. intros H. destruct (parsePeerTokenFromReply reply) as [peer|] eqn:Hpeer.
  - apply bind_returns in H as (c & g1 & Hc & H). pose proof (get_connection_same _ _ _ _ _ Hc) as ->.
    apply bind_returns in H as (ok & g1 & Hok & H). destruct ok; [|done]. cbn [negb] in H.
    apply bind_returns in H as (r & g2 & Hr & H). injection H as -> <- <-.
    apply Hfinish in Hr as (conn & n & wc & t1 & Hr). exists g1, conn, n, wc, t1. rewrite Hpeer.
    split; [|done]. split; [done|]. by exists c.
  - apply bind_returns in H as (r & g2 & Hr & H). injection H as -> <- <-.
    apply Hfinish in Hr as (conn & n & wc & t1 & Hr). exists g, conn, n, wc, t1. by rewrite Hpeer.
Qed.

Lemma leased_transfer_inv `{E : World} `{B : BuildConfig} id index buf size offset ops g err connected g' :
  leased_transfer id index buf size offset ops g = (inl (err, connected), g') ->
  (exists e, err = makeError e /\ (e = hipObjSuccess \/ e = hipObjRdmaError \/ e = hipObjS3Error)) /\
  (err = makeError hipObjSuccess -> transfer_ran id index buf size offset ops connected g g').
Proof.
  unfold leased_transfer. intros H.
  apply bind_returns in H as (conn & g1 & Hconn & H). pose proof (get_connection_same _ _ _ _ _ Hconn) as ->.
  apply bind_returns in H as (e & g1 & He & H). pose proof (get_entry_same _ _ _ _ He) as ->.
  destruct (buildRdmaToken conn e size offset) as [token|] eqn:Htok.
  2:{ injection H as <- _ _. split; [eexists; tauto|done]. }
  apply bind_returns in H as (sent & g1 & Hsent & H).
  destruct sent; cbn [negb] in H.
  2:{ injection H as <- _ _. split; [eexists; tauto|done]. }
  unfold injectRdmaToken in Hsent. destruct (sendRequest ops) as [send|] eqn:Hsend; [|done].
  apply bind_returns in Hsent as (st & g1' & Hst & Hret). injection Hret as Hz <-. apply Z.eqb_eq in Hz as ->.
  apply bind_returns in H as (reply & g2 & Hreply & H).
  unfold receiveRdmaReplyRaw in Hreply. destruct (recvReply ops) as [recv|] eqn:Hrecv.
  2:{ injection Hreply as <- <-. injection H as <- _ _. split; [eexists; tauto|done]. }
  rewrite bool_decide_eq_false_2 in Hreply by done.
  apply bind_returns in Hreply as ([[st buffer] len] & g2' & Hrun & Hret).
  injection Hret as Hrep <-. change 512%nat with kReplyBufLen in Hrep.
  destruct reply as [reply|].
  2:{ injection H as <- _ _. split; [eexists; tauto|done]. }
  assert (st = 0) as -> by (unfold received_reply in Hrep; destruct (Z.eqb_spec st 0); [done|discriminate]).
  case_bool_decide as Hs; cbn [negb] in H.
  2:{ injection H as <- _ _. split; [eexists; tauto|done]. }
  apply bind_returns in H as (e2 & g3 & He2 & H). pose proof (get_entry_same _ _ _ _ He2) as ->.
  apply bind_returns in H as (inst & g3 & Hinst & H). pose proof (get_inst_same _ _ _ _ Hinst) as ->.
  apply bind_returns in H as ([ok con] & g4 & Hfin & H).
  destruct ok; cbn [negb] in H; injection H as <- <- <-; (split; [eexists; tauto|]); [|done].
  intros _. exists conn, e, token, send, g1', recv, g2', buffer, len, reply, e2, inst.
  apply finishTransfer_inv in Hfin. split_and!; done.
Qed.

Lemma wp_currentInstance_run bad id i n Q g :
  g_current g = Some id -> g_insts g !! id = Some (i, n) ->
  Q (Some id) (g <| g_insts := <[id := (i, S n)]> (g_insts g) |>) -> wp bad currentInstance Q g.
Proof.
  intros Hc Hi HQ. unfold currentInstance, copy_inst, read_inst. apply wp_bind, wp_get. rewrite Hc.
  apply wp_bind, wp_bind, wp_bind, wp_get. rewrite Hi. by apply wp_ret, wp_modify, wp_ret.
Qed.

(** An entry that a call in progress holds, and a map too *)
Lemma Inv_shared F g id i n p e :
  Inv (hold_ent e F) g -> g_insts g !! id = Some (i, n) -> entries_ (buffers i) !! p = Some e ->
  1 < refs e (g_mem g).
Proof.
  intros HI Hi Hp. rewrite (inv_refs _ _ HI), (msum_delete _ _ _ _ Hi). gsimpl.
  rewrite cnt_cons, decide_True by done. pose proof (cnt_nonneg e (f_ents F)).
  assert (1 <= inst_refs e i).
  { pose proof (map_refs_lookup _ _ _ Hp). unfold inst_refs.
    assert (0 <= copy_refs e (copies_ (abandoned i))) by apply cnt_nonneg. lia. }
  assert (0 <= msum (fun _ i => inst_refs e (fst i)) (delete id (g_insts g))).
  { apply msum_nonneg. intros. apply inst_refs_nonneg. }
  lia.
Qed.

Lemma deregister_shared `{E : World} bad F g id i n p e :
  Inv (hold_ent e F) g -> g_current g = Some id -> g_insts g !! id = Some (i, n) ->
  entries_ (buffers i) !! p = Some e -> p <> 0 ->
  wp bad (hipObjBufDeregister p) (fun r g' => r = makeError hipObjBusy /\ Inv (hold_ent e F) g') g.
Proof.
  intros HI Hc Hi Hp Hp0. unfold hipObjBufDeregister, with_instance.
  apply wp_bind. eapply wp_mono.
  { apply wp_conj; [apply (wp_currentInstance bad (fun o g' => o = Some id -> Inv (hold_inst id (hold_ent e F)) g')
                            (hold_ent e F) g HI)
                   |apply (wp_currentInstance_run bad id i n (fun o g' => o = Some id /\
                      g' = g <| g_insts := <[id := (i, S n)]> (g_insts g) |>) g Hc Hi); done].
    - done.
    - by intros id' g' _ HI' [= <-]. }
  cbv beta. intros o g1 [HI1 [-> Hg1]]. specialize (HI1 eq_refl).
  assert (g_insts g1 !! id = Some (i, S n)) as Hi1 by (subst g1; apply lookup_insert_eq).
  clear Hg1. rewrite (proj2 (Z.eqb_neq p 0)) by done.
  apply wp_bind, wp_bind. rewrite (at_inst_start _ _ _ _ Hi1) at 1. apply wp_on_abandoned_at.
  destruct (Inv_alive _ _ _ _ _ HI1 Hi1) as [_ Hcop].
  unfold reclaim. apply wp_bind, wp_bind, wp_release_copies; [apply HI1|done|].
  intros r a m Hm Hcap Hres Hsz _ _. apply wp_ret, wp_ret. cbn [fst snd].
  assert (Inv (hold_inst id (hold_ent e F)) (at_inst g1 id (S n) (i <| abandoned := a |>) m)) as HI2.
  { destruct (inv_insts _ _ HI1 _ _ _ Hi1) as [K1 K2 K3 K4].
    apply Inv_at with i; [done..| |].
    - eapply mem_step_ext; [exact Hm|..].
      + intros e'. unfold inst_refs. isimpl. lia.
      + intros h. rewrite !cnt_own_instance. isimpl. lia.
    - split; isimpl; [done|done| |congruence]. unfold roomy in *. rewrite Hcap, Hres. lia. }
  assert (g_insts (at_inst g1 id (S n) (i <| abandoned := a |>) m) !! id =
          Some (i <| abandoned := a |>, S n)) as Hi2 by apply lookup_insert_eq.
  destruct (Inv_alive _ _ _ _ _ HI2 Hi2) as [Ha _].
  assert (1 < refs e m) as Hshared.
  { exact (Inv_shared (hold_inst id F) (at_inst g1 id (S n) (i <| abandoned := a |>) m) id _ _ p e HI2 Hi2 Hp). }
  apply wp_bind, wp_on_buffers_at. isimpl. apply wp_deregisterBuffer; [apply HI2|exact Ha|].
  intros res b' m' Hs Hres'. cbn [fst snd].
  destruct res.
  - destruct Hres' as (id' & Hid' & Hone & _). rewrite Hp in Hid'. injection Hid' as <-. lia.
  - destruct Hres' as [Hnone _]. congruence.
  - destruct Hres' as (-> & -> & _). apply wp_ret. apply wp_bind.
    apply (wp_drop_inst _ id _ (hold_ent e F)); [exact HI2|apply HI|].
    intros g' HI' _. by apply wp_ret.
Qed.

Lemma wp_hold_ent bad F g e :
  Inv F g -> 0 < refs e (g_mem g) ->
  wp bad (mem (copy_ref e)) (fun _ g' => Inv (hold_ent e F) g') g.
Proof.
  intros HI Hr. apply wp_mem, wp_copy_ref; [apply HI|done|]. intros m Hm. apply (Inv_mem F g); [done|].
  eapply mem_step_ext; [exact Hm| |done]. intros e'. cbv beta. rewrite cnt_cons. unfold at_ref. lia.
Qed.

Lemma registering_application `{E : World} : is_application registering.
Proof. apply app_bind; [apply app_init|intros _; apply app_register]. Qed.

Lemma run_returns {S A} (m : M S A) s a : fst (m s) = inl a -> m s = (inl a, snd (m s)).
Proof. intros <-. apply surjective_pairing. Qed.

Lemma registered_process_ok : Inv no_frame registered_process.
Proof.
  apply (wp_run out_of_fuel (@registering (lab working)) (fun _ g => Inv no_frame g) initial_process
           (makeError hipObjSuccess)).
  - apply (@application_keeps (lab working) lab_build _ _ registering_application no_frame eq_refl), Inv_initial.
  - exact (run_returns (@registering (lab working)) initial_process (makeError hipObjSuccess)
             ltac:(vm_compute; reflexivity)).
Qed.

Lemma using_process_ok : Inv (hold_ent 0 no_frame) using_process.
Proof.
  apply (wp_run out_of_fuel (mem (copy_ref 0)) (fun _ g => Inv (hold_ent 0 no_frame) g) registered_process tt).
  - apply wp_hold_ent; [apply registered_process_ok|]. vm_compute. reflexivity.
  - exact (run_returns (mem (copy_ref 0)) registered_process tt ltac:(vm_compute; reflexivity)).
Qed.

(** *** Initialization *)

Lemma unchanged_refl g : unchanged g g.
Proof. by split. Qed.

Lemma unchanged_trans g1 g2 g3 : unchanged g1 g2 -> unchanged g2 g3 -> unchanged g1 g3.
Proof. intros [A1 A2 A3 A4 A5] [B1 B2 B3 B4 B5]. split; [congruence..|]. intros h. by rewrite B5. Qed.

Lemma unchanged_calls g t :
  (forall h, bal h t = bal h (m_trace (g_mem g))) ->
  unchanged g (g <| g_mem := (g_mem g) <| m_trace := t |> |>).
Proof. intros Hb. split; try done. intros h. unfold opened. cbn. by rewrite Hb. Qed.

Lemma haveInstance_run `{E : World} F g :
  Inv F g -> haveInstance g = (inl (bool_decide (is_Some (g_current g))), g).
Proof.
  intros HI. unfold haveInstance, currentInstance, mbind, M_bind, get_state.
  destruct (g_current g) as [id|] eqn:Hc; [|done].
  destruct (g_insts g !! id) as [[i n]|] eqn:Hi.
  2:{ pose proof (inv_irefs _ _ HI id) as Hr. unfold irefs, current_refs in Hr.
      rewrite Hi, Hc, decide_True in Hr by done. pose proof (cnt_nonneg id (f_insts F)). lia. }
  pose proof (inv_counted _ _ HI _ _ _ Hi) as Hn. destruct n as [|n]; [lia|].
  unfold copy_inst, read_inst, write_inst, modify, mbind, M_bind, get_state. rewrite Hi.
  unfold mret, M_ret. unfold drop_inst, read_inst, mbind, M_bind, get_state. gsimpl.
  rewrite lookup_insert_eq. unfold mret, M_ret, write_inst, modify. gsimpl.
  rewrite insert_insert_eq, insert_id by done. by destruct g.
Qed.

Lemma wp_destroy_new_Instance `{E : World} bad i m :
  entries_ (buffers i) = ∅ -> abandoned i = new_AbandonedCopies ->
  wp bad (destroy_Instance i) (fun _ m' => m_ents m' = m_ents m /\ m_leaked m' = m_leaked m /\
    forall h, bal h (m_trace m') = bal h (m_trace m) - cnt h (own_instance i)) m.
Proof.
  intros He Ha. unfold destroy_Instance. rewrite Ha. apply wp_bind, wp_ret.
  unfold destroy_BufferMap. rewrite He, map_to_list_empty. apply wp_bind, wp_ret.
  apply wp_bind, wp_zoom, wp_destroy_slots. intros t1 H1.
  apply wp_bind, wp_zoom, wp_destroy_RcConnection. intros t2 H2.
  apply wp_zoom, wp_destroy_RdmaDevice. intros t3 H3. split_and!; [done..|]. intros h.
  cbn [m_trace set_field]. rewrite H3. cbn [m_trace set_field] in *. rewrite H2, H1, cnt_own_instance, Ha.
  change (cnt h (own_copies (copies_ new_AbandonedCopies))) with 0. lia.
Qed.

Section init.
Context `{E : World} `{B : BuildConfig} `{T : NicTopology} (bad : stop -> Prop) `{HT : !TopologyOk bad T}.

(** What [hipObjInit()] returns, and what it leaves *)
Definition init_outcome (g : Process) (r : hipObjError_t) (g' : Process) : Prop :=
  if decide (opError r = hipObjSuccess) then
    r = makeError hipObjSuccess /\ g_current g = None /\ exists id i,
      g_current g' = Some id /\ g_insts g !! id = None /\ g_insts g' = <[id := (i, 1%nat)]> (g_insts g) /\
      ready i
  else unchanged g g' /\ (g_current g <> None -> r <> makeError hipObjInvalidValue ->
                          r = makeError hipObjAlreadyInitialized).

(** What's done with an instance that was built *)
Lemma publish_outcome F opts i g t :
  Inv F g -> g_current g = None -> (forall h, bal h t = bal h (m_trace (g_mem g)) + cnt h (own_instance i)) ->
  built_ok (maxTransfers opts) (inl i) ->
  wp bad (id ← make_shared_inst i;
          if negb (pool_size (pool i) =? maxTransfers opts)
          then _ ← drop_inst id; mret (makeError hipObjRdmaError)
          else _ ← modify (fun g => g <| g_current := Some id |>); mret (makeError hipObjSuccess))
    (init_outcome g) (g <| g_mem := (g_mem g) <| m_trace := t |> |>).
Proof.
  intros HI Hc Hb (_ & _ & Hopt & He & Ha & Hcl & Hfree).
  unfold make_shared_inst. apply wp_bind, wp_bind, wp_get, wp_bind, wp_put, wp_ret. gsimpl.
  pose proof (inv_fresh _ _ HI (g_next g) (le_n _)) as Hnew.
  destruct (Z.eqb_spec (pool_size (pool i)) (maxTransfers opts)) as [Hfull|Hshort]; cbn [negb].
  - apply wp_bind, wp_modify, wp_ret. unfold init_outcome. rewrite decide_True by done.
    split_and!; [done..|]. exists (g_next g), i. gsimpl. split_and!; [done..|].
    split; [congruence| |done..]. rewrite Hopt. by apply Hfree.
  - apply wp_bind. unfold drop_inst, read_inst. apply wp_bind, wp_bind, wp_get. gsimpl.
    rewrite lookup_insert_eq. apply wp_ret, wp_bind, wp_modify, wp_mem. gsimpl.
    eapply wp_mono; [by apply wp_destroy_new_Instance|]. cbv beta. intros _ m (M1 & M2 & M3).
    apply wp_ret. unfold init_outcome. rewrite decide_False by done. split; [|by rewrite Hc].
    split; gsimpl; [done| |by rewrite M1|by rewrite M2|].
    + rewrite delete_insert_id; done.
    + intros h. unfold opened. gsimpl. rewrite M3. cbn [m_trace set_field]. rewrite Hb. lia.
Qed.

Lemma initWith_outcome F c opts g :
  Inv F g -> g_current g = None -> maxTransfers opts < 2 ^ 64 ->
  wp bad (initWith c opts) (init_outcome g) g.
Proof.
  intros HI Hc Hmax. unfold initWith. apply wp_bind.
  unfold wp at 1. rewrite (haveInstance_run F g HI), Hc. cbn [is_Some bool_decide].
  rewrite bool_decide_eq_false_2 by (by intros [? ?]).
  apply wp_bind, wp_mem, wp_zoom. eapply wp_mono; [by apply build_instance_spec|]. cbv beta.
  intros r t [Hb Hr]. destruct r as [i|e]; [by apply (publish_outcome F)|].
  apply wp_ret. unfold init_outcome. rewrite decide_False by done. split; [|by rewrite Hc].
  apply unchanged_calls. intros h. rewrite Hb. cbn [own_built cnt foldr]. lia.
Qed.

Lemma systemPlatform_unchanged g :
  mem_ok (g_mem g) -> wp bad systemPlatform (fun _ g' => unchanged g g') g.
Proof.
  intros Hok. unfold systemPlatform. apply wp_bind, wp_get.
  destruct (g_platform g) as [p|] eqn:Hp; [by apply wp_ret|].
  apply wp_bind, wp_mem, wp_zoom. eapply wp_mono; [apply loadLibibverbs_spec|]. cbv beta.
  intros v t [Hb _]. apply wp_bind, wp_modify, wp_ret. split; try done.
  intros h. unfold opened. gsimpl. cbn [m_trace set_field]. rewrite Hb, Hp. unfold own_platform.
  cbn [cnt foldr]. lia.
Qed.

Lemma init_outcome_unchanged g g1 r g' :
  unchanged g g1 -> g_current g = None -> init_outcome g1 r g' -> init_outcome g r g'.
Proof.
  intros Hu Hc. unfold init_outcome. case_decide as Hr.
  - intros (-> & Hc1 & id & i & H1 & H2 & H3 & H4). split_and!; [done..|]. exists id, i.
    rewrite (same_insts _ _ Hu) in *. done.
  - intros [Hu' _]. split; [by eapply unchanged_trans|by rewrite Hc].
Qed.

Lemma hipObjInit_outcome F c g : Inv F g -> wp bad (hipObjInit c) (init_outcome g) g.
Proof.
  intros HI. unfold hipObjInit.
  assert (forall e, e <> hipObjSuccess ->
            (g_current g <> None -> e <> hipObjInvalidValue -> e = hipObjAlreadyInitialized) ->
            init_outcome g (makeError e) g) as Hfail.
  { intros e He Hcur. unfold init_outcome. rewrite decide_False by done. split; [apply unchanged_refl|].
    intros H1 H2. f_equal. apply Hcur; [done|]. by intros ->. }
  destruct c as [c|]; [|by apply wp_ret, Hfail].
  destruct (_ || _); [by apply wp_ret, Hfail|]. apply wp_bind.
  unfold wp at 1. rewrite (haveInstance_run F g HI).
  destruct (g_current g) as [id|] eqn:Hc.
  { rewrite bool_decide_eq_true_2 by by eexists. by apply wp_ret, Hfail. }
  rewrite bool_decide_eq_false_2 by (by intros [? ?]).
  apply wp_bind. eapply wp_mono; [apply wp_conj;
    [by apply (keeps_systemPlatform bad F)|apply systemPlatform_unchanged, HI]|].
  cbv beta. intros [v|] g1 [[HI1 Hc1] Hu].
  2:{ apply wp_ret. eapply init_outcome_unchanged; [done|done|].
      unfold init_outcome. rewrite decide_False by done. split; [apply unchanged_refl|]. by rewrite Hc1, Hc. }
  apply wp_bind, wp_mem, wp_zoom, wp_parseOptions. intros o t Hb (a & b & d & e & f & ->).
  eapply wp_mono; [apply (initWith_outcome F)|].
  - rewrite <- (frame_eta F). apply Inv_mem; [done|].
    eapply mem_step_ext; [apply calls_step; [apply HI1|done]| |done].
    intros; cbv beta; unfold none; lia.
  - cbn [g_current set_field]. congruence.
  - pose proof (proj1 (options_from_transfers a b d e f)) as Ht. unfold kMaxTransfers in Ht. lia.
  - intros r g2. apply init_outcome_unchanged; [|done].
    eapply unchanged_trans; [done|by apply unchanged_calls].
Qed.
End init.

(** *** Staging copies *)

Section staging.
Context `{E : World} (bad : stop -> Prop) (Hclock : bad OutOfFuel \/ SteadyClock E).

Definition stage_said (done deadline : Z) (o : StageOutcome) (t : trace) : Prop :=
  match o with
  | StageDone => exists t0, t = Ev (eventQuery done) hipSuccess :: t0
  | StageFailed => True
  | StageTimedOut => exists now t0,
      t = Ev clock_now now :: Ev (eventQuery done) hipErrorNotReady :: t0 /\ deadline <= now
  end.

Lemma stage_loop_said fuel done deadline t :
  bad OutOfFuel \/ (SteadyClock E /\ deadline - clock_low t < Z.of_nat fuel) ->
  (0 < fuel)%nat ->
  wp bad (stage_loop fuel done deadline) (stage_said done deadline) t.
Proof.
  revert t. induction fuel as [|fuel IH]; intros t Hf Hpos; [lia|]. cbn [stage_loop].
  wstep. wstep. wstep; [wstep; bools; subst; by eexists|]. wstep; [by wstep|].
  wstep. apply wp_perform_eq. set (t1 := Ev (eventQuery done) r :: t).
  set (now := respond t1 clock_now). bools. subst r. wstep; [wstep; bools; by exists now, t|].
  wstep. wstep. set (t2 := Ev _ _ :: _). destruct (decide (fuel = O)) as [->|Hne].
  { destruct Hf as [Hf|[Hs Hf]]; [by apply wp_halt|]. pose proof (steady t1) as Hst. bools.
    subst t1 now. cbn [clock_low] in *. lia. }
  apply IH; [|lia]. destruct Hf as [Hf|[Hs Hf]]; [by left|right]. split; [done|].
  pose proof (steady t1) as Hst. subst t2 t1 now. cbn [clock_low] in *. lia.
Qed.

(** The ways out that don't abandon the copy *)
Lemma wp_slot_back id n i g m (r : hipObjError_t) (Q : AbandonedCopies -> Mem -> Prop) :
  (forall a', copies_ a' = copies_ (abandoned i) -> Q a' m) ->
  wp bad (_ ← give_back_slot id; mret r)
     (fun r' g' => r' = r /\ exists a' m', g' = at_inst g id n (i <| abandoned := a' |>) m' /\ Q a' m')
     (at_inst g id n (i <| abandoned := reserve (abandoned i) |>) m).
Proof.
  intros HQ. apply wp_bind, wp_update_at, wp_ret. split; [done|].
  exists (unreserve (reserve (abandoned i))), m. split; [done|]. apply HQ.
  unfold reserve. by case_match.
Qed.

Lemma wp_event_slot_back id n i g m (r : hipObjError_t) done (Q : AbandonedCopies -> Mem -> Prop) :
  (forall a' t', copies_ a' = copies_ (abandoned i) ->
     (t' = m_trace m \/ exists rd, t' = Ev (eventDestroy done) rd :: m_trace m) ->
     Q a' (m <| m_trace := t' |>)) ->
  wp bad (_ ← outside (HipEventDeleter done); _ ← give_back_slot id; mret r)
     (fun r' g' => r' = r /\ exists a' m', g' = at_inst g id n (i <| abandoned := a' |>) m' /\ Q a' m')
     (at_inst g id n (i <| abandoned := reserve (abandoned i) |>) m).
Proof.
  intros HQ. apply wp_bind, wp_mem_at, wp_zoom. unfold HipEventDeleter.
  destruct (done =? 0).
  - apply wp_ret, wp_slot_back. intros a' Ha. apply HQ; [done|by left].
  - apply wp_bind, wp_perform. intros rd. apply wp_ret, wp_slot_back. intros a' Ha.
    apply HQ; [done|]. right. by eexists.
Qed.

Lemma stageCopyWithDeadline_outcome id n i g buf e k dst src size kind :
  g_insts g !! id = Some (i, n) -> m_ents (g_mem g) !! buf = Some (e, S k) ->
  wp bad (stageCopyWithDeadline id buf dst src size kind)
     (fun r g' => exists a' m', g' = at_inst g id n (i <| abandoned := a' |>) m' /\
        copy_outcome buf e k (abandoned i) a' m' r) g.
Proof.
  intros Hi He. unfold stageCopyWithDeadline. rewrite (at_inst_start _ _ _ _ Hi) at 1.
  assert (forall m a', copies_ a' = copies_ (abandoned i) -> m_ents m !! buf = Some (e, S k) ->
            copy_outcome buf e k (abandoned i) a' m (makeError hipObjInternalError)) as Hfail
    by (intros; right; left; done).
  apply wp_bind, wp_update_at, wp_bind, wp_mem_at, wp_zoom, wp_perform. intros [err done].
  destruct (negb _).
  { eapply wp_mono; [apply (wp_slot_back _ _ _ _ _ _ (fun a' m' =>
      copy_outcome buf e k (abandoned i) a' m' (makeError hipObjInternalError)))|].
    - intros a' Ha. by apply Hfail.
    - cbv beta. intros r g' [-> (a' & m' & -> & H)]. by exists a', m'. }
  apply wp_bind, wp_mem_at, wp_zoom, wp_perform. intros err1. apply wp_bind.
  eapply (wp_mono _ _ (fun _ g' => exists t, g' = at_inst g id n (i <| abandoned := reserve (abandoned i) |>)
     ((g_mem g) <| m_trace := t |>))).
  { destruct (err1 =? hipSuccess).
    - apply wp_mem_at, wp_zoom, wp_perform. intros r. by eexists.
    - apply wp_ret. by eexists. }
  cbv beta. intros err2 g' (t & ->). destruct (negb _).
  { eapply wp_mono; [apply (wp_event_slot_back _ _ _ _ _ _ _ (fun a' m' =>
      copy_outcome buf e k (abandoned i) a' m' (makeError hipObjInternalError)))|].
    - intros a' t' Ha _. by apply Hfail.
    - cbv beta. intros r g' [-> (a' & m' & -> & H)]. by exists a', m'. }
  apply wp_bind, wp_get_at, wp_bind, wp_mem_at, wp_zoom, wp_perform_eq.
  cbn [m_trace set_field]. set (now := respond t clock_now). isimpl.
  apply wp_bind, wp_mem_at, wp_zoom. eapply wp_mono; [apply stage_loop_said|].
  { destruct Hclock as [Hf|Hs]; [by left|right]. split; [done|]. cbn [m_trace set_field clock_low].
    unfold stage_fuel. lia. }
  { unfold stage_fuel. lia. }
  cbv beta. intros o t1 Ho. destruct o.
  - destruct Ho as [t0 ->]. eapply wp_mono; [apply (wp_event_slot_back _ _ _ _ _ _ _ (fun a' m' =>
      copy_outcome buf e k (abandoned i) a' m' (makeError hipObjSuccess)))|].
    + intros a' t' Ha Ht. left. split_and!; [done..|]. exists done, t0. exact Ht.
    + cbv beta. intros r g' [-> (a' & m' & -> & H)]. by exists a', m'.
  - eapply wp_mono; [apply (wp_event_slot_back _ _ _ _ _ _ _ (fun a' m' =>
      copy_outcome buf e k (abandoned i) a' m' (makeError hipObjInternalError)))|].
    + intros a' t' Ha _. by apply Hfail.
    + cbv beta. intros r g' [-> (a' & m' & -> & H)]. by exists a', m'.
  - destruct Ho as (now1 & t0 & -> & _). apply wp_bind, wp_mem_at. unfold copy_ref.
    apply wp_bind. eapply wp_read_entry; [exact He|]. apply wp_modify.
    apply wp_bind, wp_update_at, wp_bind, wp_mem_at, wp_zoom, wp_perform. intros pr. apply wp_ret.
    eexists. eexists. split; [reflexivity|]. right. right. isimpl. split_and!; [done| |].
    + cbn. by rewrite lookup_insert_eq.
    + exists done, t0, now1. eexists. split; [|reflexivity].
      unfold add, reserve. case_match; reflexivity.
Qed.
End staging.

(** What a token that's built says, and its receiver decodes *)
Lemma built_token (conn : RcConnection) (buf : BufEntry) (size offset : Z) (token : RdmaToken)
    (H : buildRdmaToken conn buf size offset = Some token)
    (Hsize : 0 <= size) (Haddr : 0 <= remoteAddr buf) (Hend : remoteAddr buf + buf_size buf < 2 ^ 64)
    (Hqp : 0 <= qp_num (rc_qp conn) < 2 ^ 32) (Hport : 0 <= dev_portNum (rc_device conn) < 2 ^ 8)
    (Hgid : wf_gid (toGid (dev_localGid (rc_device conn))))
    (Hkey : forall m, mr buf = Some m -> 0 <= mr_rkey m < 2 ^ 32) :
  remoteAddr buf <= tok_remoteAddr token /\
  tok_remoteAddr token + tok_length token <= remoteAddr buf + buf_size buf /\
  tok_remoteAddr token = remoteAddr buf + offset /\ tok_length token = size /\
  (exists m, mr buf = Some m /\ tok_rkey token = mr_rkey m) /\
  tok_qpNum token = qp_num (rc_qp conn) /\ tok_transport token = RC /\
  decodeRdmaTokenHex (encodeRdmaToken token) = Some token.
Proof.
  unfold buildRdmaToken in H. destruct (mr buf) as [m|] eqn:Hm; [|done].
  pose proof (rangeInRegistration_exact offset size (buf_size buf) Hsize) as Hr.
  destruct (rangeInRegistration offset size (buf_size buf)); [|done]. cbn [negb] in H.
  destruct (proj1 Hr eq_refl) as [Ho1 Ho2].
  injection H as <-. cbn [tok_remoteAddr tok_length tok_rkey tok_qpNum tok_transport].
  rewrite wrapu_small by lia. split_and!; [lia|lia|done|done| |done|done|].
  - by exists m.
  - apply decode_encode. unfold wf_token.
    cbn [tok_qpNum tok_gid tok_rkey tok_remoteAddr tok_length tok_portNum tok_lid].
    specialize (Hkey m eq_refl). split_and!; try done; lia.
Qed.

(** ** Properties *)

(** Before [hipObjInit()], and after [hipObjShutdown()], every call on
    buffers returns NotInitialized, whatever its arguments, and a shutdown
    succeeds; none of them calls anything or changes anything. *)
Theorem calls_without_instance `{E : World} `{B : BuildConfig} (g : Process) (devPtr size offset direction op : Z)
    (ops : option hipObjOps_t) (outToken : bool) (Hg : g_current g = None) :
  let refused := (inl (makeError hipObjNotInitialized), g) in
  hipObjBufRegister devPtr size g = refused /\ hipObjBufRegisterHost devPtr size g = refused /\
  hipObjBufDeregister devPtr g = refused /\ hipObjGet devPtr size offset ops g = refused /\
  hipObjPut devPtr size offset ops g = refused /\ hipObjBufSync devPtr size offset direction g = refused /\
  hipObjGetRdmaToken devPtr size op outToken g = (inl (makeError hipObjNotInitialized, None), g) /\
  hipObjShutdown g = (inl (makeError hipObjSuccess), g).
Proof.
  assert (currentInstance g = (inl None, g)) as Hc.
  { unfold currentInstance, mbind, M_bind. cbn [get_state]. unfold get_state. by rewrite Hg. }
  intros refused.
  assert (forall A fail (body : nat -> G A),
    with_instance fail body g = (inl (fail (makeError hipObjNotInitialized)), g)) as Hw.
  { intros A fail body. unfold with_instance, mbind, M_bind. by rewrite Hc. }
  split_and!; try apply Hw. destruct g as [m i n c l p]. cbn in Hg. by subst.
Qed.

Lemma calls_without_instance_witness :
  @hipObjGet failing_world {| HIPOBJ_BNXT := true; HIPOBJ_IONIC := true |} 65536 4096 0 None initial_process =
    (inl (makeError hipObjNotInitialized), initial_process).
Proof.
  apply (@calls_without_instance failing_world {| HIPOBJ_BNXT := true; HIPOBJ_IONIC := true |}
           initial_process 65536 4096 0 0 0 None true eq_refl).
Defined.

(** The argument checks are exact, for any values of the types: a range
    is accepted just when it lies in the registration, and a registration
    just when it has an address and a size of at most 4 GiB, and doesn't run
    past the end of the address space. No check computes a value that wraps. *)
Theorem checks_are_exact (ptr size offset : Z) (buf : option BufEntry)
    (Hptr : 0 <= ptr < 2 ^ 64) (Hsize : 0 <= size < 2 ^ 64) :
  (checkRegistrationArgs ptr size = makeError hipObjSuccess <->
     ptr <> 0 /\ 0 < size <= 2 ^ 32 /\ ptr + size < 2 ^ 64) /\
  (checkRegistrationArgs ptr size = makeError hipObjSizeTooLarge <-> ptr <> 0 /\ 2 ^ 32 < size) /\
  (checkBufferArgs ptr buf size offset = makeError hipObjSuccess <->
     ptr <> 0 /\ 0 < size /\ exists b, buf = Some b /\ 0 <= offset /\ offset + size <= buf_size b) /\
  (checkBufferArgs ptr buf size offset = makeError hipObjBufNotRegistered <->
     ptr <> 0 /\ 0 < size /\ 0 <= offset /\ buf = None).
Proof.
  split_and!.
  - apply checkRegistrationArgs_success; lia.
  - apply checkRegistrationArgs_large.
  - apply checkBufferArgs_success; lia.
  - apply checkBufferArgs_unregistered; lia.
Qed.

Lemma checks_are_exact_witness :
  checkRegistrationArgs 65536 4096 = makeError hipObjSuccess <->
    65536 <> 0 /\ 0 < 4096 <= 2 ^ 32 /\ 65536 + 4096 < 2 ^ 64.
Proof. apply (checks_are_exact 65536 4096 0 None); lia. Defined.

(** A transfer succeeds only when every step of it has: the token for the
    caller's range was built and sent; the application returned a reply
    that reports success; the leased connection was connected to the peer
    that the reply names, if any; a completion that reports success was then
    polled on it; and the GPU was synchronized when the transfer went to its
    memory. Otherwise it returns an RDMA or an S3 error, and no other. *)
Theorem transfer_success `{E : World} `{B : BuildConfig} (id index buf : nat) (size offset : Z)
    (ops : hipObjOps_t) (g : Process) (err : hipObjError_t) (connected : bool) (g' : Process)
    (H : leased_transfer id index buf size offset ops g = (inl (err, connected), g')) :
  (exists e, err = makeError e /\ (e = hipObjSuccess \/ e = hipObjRdmaError \/ e = hipObjS3Error)) /\
  (err = makeError hipObjSuccess -> transfer_ran id index buf size offset ops connected g g').
Proof. by apply leased_transfer_inv. Qed.

Lemma transfer_success_witness :
  exists connected g',
    @leased_transfer (lab working) _ 0 15 0 4096 0 (@plain_ops (lab working) (lit "200")) leased_process =
      (inl (makeError hipObjSuccess, connected), g') /\
    @transfer_ran (lab working) _ 0 15 0 4096 0 (@plain_ops (lab working) (lit "200")) connected
      leased_process g'.
Proof.
  set (x := @leased_transfer (lab working) _ 0 15 0 4096 0 (@plain_ops (lab working) (lit "200")) leased_process).
  assert (fst x = inl (makeError hipObjSuccess, false)) as Hx by (vm_compute; reflexivity).
  assert (x = (inl (makeError hipObjSuccess, false), snd x)) as H by (rewrite <- Hx; apply surjective_pairing).
  exists false, (snd x). split; [exact H|].
  apply (proj2 (@transfer_success (lab working) _ 0 15 0 4096 0 _ _ _ _ _ H) eq_refl).
Defined.



(** The reply is read within the transfer's buffer: whatever the
    application's callback says it wrote, the library looks at no more than
    the 512 bytes it lent, a callback that fails gives no reply, and the
    reply's status is that of its text. *)
Theorem reply_within_buffer (ops : hipObjOps_t) (recv : chars -> G (Z * chars * Z)) (g g1 : Process)
    (st : Z) (buffer : chars) (len : Z) (Hrecv : recvReply ops = Some recv)
    (Hrun : recv (replicate kReplyBufLen (chr 0)) g = (inl (st, buffer, len), g1)) :
  exists r, receiveRdmaReplyRaw ops (replicate kReplyBufLen (chr 0)) g = (inl r, g1) /\
    match r with
    | Some reply => st = 0 /\ len <= 512 /\ (List.length (text reply) <= 512)%nat /\
        text reply `prefix_of` take 512 buffer /\ decodeRdmaReply (text reply) = Some (status reply)
    | None => st <> 0 \/ 512 < len \/ decodeRdmaReply (take (Z.to_nat len) (take 512 buffer)) = None
    end.
Proof.
  unfold receiveRdmaReplyRaw. rewrite Hrecv. rewrite bool_decide_eq_false_2 by done.
  unfold mbind, M_bind. rewrite Hrun. eexists. split; [reflexivity|].
  rewrite length_replicate. destruct (received_reply kReplyBufLen st buffer len) as [r|] eqn:Hr.
  - by apply received_reply_spec in Hr.
  - unfold received_reply in Hr. destruct (Z.eqb_spec st 0); [|by left]. cbn [negb] in Hr.
    destruct (Z.ltb_spec (Z.of_nat kReplyBufLen) len); [right; left; done|].
    right. right. by case_match.
Qed.

Lemma reply_within_buffer_witness :
  exists r, receiveRdmaReplyRaw (@plain_ops failing_world (lit "204")) (replicate kReplyBufLen (chr 0))
    initial_process = (inl r, initial_process) /\ (exists x, r = Some x /\ text x = lit "204").
Proof.
  destruct (reply_within_buffer (@plain_ops failing_world (lit "204")) _ initial_process initial_process
              0 _ 3 eq_refl eq_refl) as (r & H1 & _).
  exists r. split; [exact H1|]. vm_compute in H1. injection H1 as <-. eexists. split; reflexivity.
Defined.

(** A buffer that a call in progress uses can't be unregistered, so its
    registration stays for as long as the call needs it: while anything
    besides the map holds the entry, [hipObjBufDeregister()] returns Busy,
    also from within a callback, and the entry stays where it is. *)
Theorem buffer_in_use_is_busy `{E : World} (bad : stop -> Prop) (F : Frame) (g : Process) (id n : nat)
    (i : Instance_t) (devPtr : Z) (entry : nat) (HI : Inv (hold_ent entry F) g)
    (Hc : g_current g = Some id) (Hi : g_insts g !! id = Some (i, n))
    (He : entries_ (buffers i) !! devPtr = Some entry) (Hp : devPtr <> 0) :
  wp bad (hipObjBufDeregister devPtr) (fun r g' =>
    r = makeError hipObjBusy /\ Inv (hold_ent entry F) g' /\
    exists e k, m_ents (g_mem g') !! entry = Some (e, S k)) g.
Proof.
  eapply wp_mono; [by eapply deregister_shared|]. cbv beta. intros r g' [-> HI'].
  split_and!; [done..|]. by apply refs_Some, Inv_held_ent with F.
Qed.

Lemma buffer_in_use_is_busy_witness :
  fst (@hipObjBufDeregister (lab working) 65536 registered_process) = inl (makeError hipObjSuccess) /\
  wp (fun _ => False) (@hipObjBufDeregister (lab working) 65536) (fun r g' =>
    r = makeError hipObjBusy /\ Inv (hold_ent 0 no_frame) g' /\
    exists e k, m_ents (g_mem g') !! 0%nat = Some (e, S k)) using_process.
Proof.
  split; [vm_compute; reflexivity|].
  assert (exists i n, g_insts using_process !! 0%nat = Some (i, n) /\
                      entries_ (buffers i) !! 65536 = Some 0%nat) as (i & n & Hi & He).
  { destruct (g_insts using_process !! 0%nat) as [[i n]|] eqn:Hi.
    - exists i, n. split; [reflexivity|]. vm_compute in Hi. injection Hi as <- _. vm_compute. reflexivity.
    - vm_compute in Hi. discriminate. }
  refine (@buffer_in_use_is_busy (lab working) (fun _ => False) no_frame using_process 0 n i 65536 0
            using_process_ok _ Hi He _); [vm_compute; reflexivity|discriminate].
Defined.

(** [hipObjInit()] is all or nothing. It succeeds only when there was no
    instance, and leaves one that's complete: as many connections as the
    options ask for, all free, and no buffers. When it fails, at whichever
    step, everything it had opened is closed again, and the process is as
    it was, but for libibverbs, which stays loaded. *)
Theorem init_all_or_nothing `{E : World} `{B : BuildConfig} (F : Frame) (config : option hipObjConfig_t)
    (g : Process) (HI : Inv F g) :
  wp out_of_fuel (@hipObjInit E SysfsTopology config) (init_outcome g) g.
Proof.
  apply (hipObjInit_outcome (T := SysfsTopology)) with (F := F); [|done].
  apply SysfsTopology_ok. by left.
Qed.

Lemma init_all_or_nothing_witness :
  wp out_of_fuel (@hipObjInit (lab working) (@SysfsTopology (lab working)) (Some demo_config))
    (init_outcome initial_process) initial_process.
Proof. exact (@init_all_or_nothing (lab working) lab_build no_frame _ initial_process Inv_initial). Defined.



(** One path forgets a copy that may be running: when the copy was
    started and its event can't be recorded, the call fails without having
    waited, and keeps no track of the copy, so unregistering the buffer
    succeeds, and frees the staging buffer that the copy still reads. *)
Theorem record_failure_frees_running_copy :
  exists g hostBuf before between after r1 r2,
    sync_and_unregister initial_process =
      (inl [hipObjSuccess; hipObjSuccess; hipObjInternalError; hipObjSuccess], g) /\
    m_trace (g_mem g) =
      after ++ Ev (hostFree hostBuf) r1 :: between ++
      Ev (memcpyAsync 64 hostBuf 1024 hipMemcpyHostToDevice) r2 :: before /\
    r2 = hipSuccess /\ forallb (fun e => negb (waits_for_copy e)) between = true.
Proof.
  exists (snd (sync_and_unregister initial_process)), 4203, (drop 5 (m_trace (g_mem (snd (sync_and_unregister initial_process))))),
    (take 3 (drop 1 (m_trace (g_mem (snd (sync_and_unregister initial_process)))))), [], 0, 0.
  split_and!; vm_compute; reflexivity.
Qed.
