(* ===== verification/Transfers.v ===== *)
(** * What a transfer that succeeds has done

    [hipObjGet()] and [hipObjPut()], from their first step to their last
    ([src/hipobj.cpp]): the theorem follows a successful call through its
    staging copy and its RDMA transfer, in the order of the code. *)

From Stdlib Require Import Ascii String.
From stdpp Require Import base numbers list gmap.
From S2P Require Import Prelude.
From S2P Require Import Token.
From S2P Require Import IbvCore.
From S2P Require Import World.
From S2P Require Import Topology.
From S2P Require Import Transport.
From S2P Require Import Pool.
From S2P Require Import Buffer.
From S2P Require Import Abandoned.
From S2P Require Import State.
From S2P Require Import Invariant.
From S2P Require Import Control.
From S2P Require Import Api.
From S2P Require Import Safety.
From S2P Require Import Behaviour.

(** ** Definitions *)

(** What the wait for a copy whose event is [done] calls *)
Definition is_wait (done : Z) (e : event) : bool :=
  match e with
  | Ev (eventQuery d) _ => d =? done
  | Ev clock_now _ | Ev (sleep_for _) _ => true
  | _ => false
  end.
Definition is_destroy (done : Z) (e : event) : bool :=
  match e with Ev (eventDestroy d) _ => d =? done | _ => false end.

(** A copy that's complete: it was started, an event was recorded after it,
    and the runtime said that the event had been reached; nothing else was
    called in between *)
Definition copied (dst src size : Z) (kind : hipMemcpyKind) (t t' : trace) : Prop :=
  exists done after waits,
    t' = after ++ Ev (eventQuery done) hipSuccess :: waits ++ Ev (eventRecord done) hipSuccess ::
         Ev (memcpyAsync dst src size kind) hipSuccess :: Ev eventCreate (hipSuccess, done) :: t /\
    Forall (fun e => is_wait done e = true) waits /\ Forall (fun e => is_destroy done e = true) after.

(** The caller's range is in the staging buffer, or has been copied from it,
    if the buffer has one *)
Definition staged (buf : nat) (devPtr size offset : Z) (to_device : bool) (g g' : Process) : Prop :=
  exists e, mem (get_entry buf) g = (inl e, g) /\
    if hostBuf e =? 0 then g' = g
    else
      rangeInRegistration offset size (buf_size e) = true /\
      let dev := devPtr + offset in
      let host := hostBuf e + offset in
      if to_device then copied dev host size hipMemcpyHostToDevice (m_trace (g_mem g)) (m_trace (g_mem g'))
      else copied host dev size hipMemcpyDeviceToHost (m_trace (g_mem g)) (m_trace (g_mem g')).

(** The transfer on a connection that was leased for it, and given back *)
Definition transferred `{World} `{BuildConfig} (id buf : nat) (size offset : Z) (ops : hipObjOps_t)
    (g g' : Process) : Prop :=
  exists index connected g1 g2,
    acquire_lease id g = (inl (inl index), g1) /\
    transfer_ran id index buf size offset ops connected g1 g2 /\
    release_lease id index connected g2 = (inl tt, g').

(** What a call does around that, from [g] to [g'], which leaves [g1] to [g2]
    for the copy and the transfer: it holds the current instance and the
    entry of the buffer, which has room for the range, and which no copy
    that was abandoned still uses; and it drops both at the end *)
Record around `{World} (devPtr size offset : Z) (inst buf : nat) (g g1 g2 g' : Process) : Prop := {
  around_start : exists ga gb i e,
    currentInstance g = (inl (Some inst), ga) /\ get_inst inst ga = (inl i, ga) /\
    mem (find (buffers i) devPtr) ga = (inl (Some buf), gb) /\ mem (get_entry buf) gb = (inl e, gb) /\
    checkBufferArgs devPtr (Some e) size offset = makeError hipObjSuccess /\
    checkNoAbandonedCopy inst buf gb = (inl (makeError hipObjSuccess), g1);
  around_end : exists gc, mem (drop_ref buf) g2 = (inl tt, gc) /\ drop_inst inst gc = (inl tt, g');
}.

(** A process that has registered device memory which has to be staged *)
Definition staging_process : Process := snd ((_ ← @hipObjInit no_peer_memory (@SysfsTopology no_peer_memory) (Some demo_config);
  @hipObjBufRegister no_peer_memory 64 1024) initial_process).

(** ** Lemmas *)

Lemma update_inst_trace id f g u g' : update_inst id f g = (inl u, g') -> g_mem g' = g_mem g.
Proof.
  unfold update_inst, read_inst. intros H. apply bind_returns in H as ([i n] & g1 & H & H').
  apply bind_returns in H as (g2 & g3 & [= <- <-] & H). destruct (g_insts g !! id) as [[j k]|]; [|done].
  injection H as _ _ <-. by injection H' as _ <-.
Qed.

Lemma stage_loop_done `{E : World} fuel done deadline t t' :
  stage_loop fuel done deadline t = (inl StageDone, t') ->
  exists waits, t' = Ev (eventQuery done) hipSuccess :: waits ++ t /\ Forall (fun e => is_wait done e = true) waits.
Proof.
  revert t. induction fuel as [|fuel IH]; intros t H; [done|]. cbn [stage_loop] in H.
  apply bind_returns in H as (q & t1 & [= Hq <-] & H). destruct (Z.eqb_spec q hipSuccess) as [->|Hne].
  { injection H as <-. exists []. by rewrite Hq. }
  destruct (negb _); [done|]. apply bind_returns in H as (now & t2 & [= _ <-] & H). destruct (_ <=? _); [done|].
  apply bind_returns in H as (u & t3 & [= _ <-] & H). apply IH in H as (waits & -> & Hw).
  eexists (waits ++ [_; _; _]). split; [by rewrite <- app_assoc|]. apply Forall_app. split; [done|].
  repeat constructor. cbn. apply Z.eqb_refl.
Qed.

Lemma HipEventDeleter_trace `{E : World} done t u t' :
  HipEventDeleter done t = (inl u, t') ->
  exists after, t' = after ++ t /\ Forall (fun e => is_destroy done e = true) after.
Proof.
  unfold HipEventDeleter. destruct (done =? 0).
  { intros [= _ <-]. by exists []. }
  intros H. apply bind_returns in H as (r & t1 & [= _ <-] & [= _ <-]). eexists [_]. split; [done|].
  repeat constructor. cbn. apply Z.eqb_refl.
Qed.

Lemma stage_copied `{E : World} id buf dst src size kind g err g' :
  stageCopyWithDeadline id buf dst src size kind g = (inl err, g') -> opError err = hipObjSuccess ->
  copied dst src size kind (m_trace (g_mem g)) (m_trace (g_mem g')).
Proof.
  unfold stageCopyWithDeadline. intros H Hok.
  apply bind_returns in H as (u & g1 & Hu & H). apply update_inst_trace in Hu as Hg1.
  apply bind_returns in H as ([st done] & g2 & Hc & H). apply outside_returns in Hc as [= Hc' Hg2].
  destruct (Z.eqb_spec st hipSuccess) as [->|Hne]; cbn [negb] in H.
  2:{ by apply bind_returns in H as (u2 & g3 & _ & [= <- _]). }
  apply bind_returns in H as (st & g3 & Hm & H). apply outside_returns in Hm as [= Hm' Hg3].
  apply bind_returns in H as (st2 & g4 & Hr & H).
  destruct (Z.eqb_spec st2 hipSuccess) as [->|Hne]; cbn [negb] in H.
  2:{ apply bind_returns in H as (u2 & g5 & _ & H). by apply bind_returns in H as (u3 & g6 & _ & [= <- _]). }
  destruct (Z.eqb_spec st hipSuccess) as [->|Hne]; [|by injection Hr as ->].
  apply outside_returns in Hr as [= Hr' Hg4].
  apply bind_returns in H as (i & g5 & Hi & H). apply get_inst_same in Hi as ->. cbv zeta in H.
  apply bind_returns in H as (now & g6 & Hn & H). apply outside_returns in Hn as [= Hn' Hg6].
  apply bind_returns in H as (outcome & g7 & Ho & H). apply outside_returns in Ho.
  destruct outcome.
  2:{ apply bind_returns in H as (u2 & g8 & _ & H). by apply bind_returns in H as (u3 & g9 & _ & [= <- _]). }
  2:{ apply bind_returns in H as (u2 & g8 & _ & H). apply bind_returns in H as (u3 & g9 & _ & H).
      by apply bind_returns in H as (u4 & g10 & _ & [= <- _]). }
  apply stage_loop_done in Ho as (waits & Hg7 & Hw).
  apply bind_returns in H as (u2 & g8 & Hd & H). apply outside_returns, HipEventDeleter_trace in Hd as (after & Hg8 & Ha).
  apply bind_returns in H as (u3 & g9 & Hs & [= _ <-]). apply update_inst_trace in Hs as ->.
  exists done, after, (waits ++ [Ev clock_now now]). split_and!; [|apply Forall_app; split; [done|by repeat constructor]|done].
  rewrite Hg8, Hg7, <- Hg6, <- Hg4, <- Hg3, <- Hg2, Hg1. rewrite <- !app_assoc. cbn [app]. congruence.
Qed.

Lemma stageToDevice_staged `{E : World} id devPtr buf size offset g err g' :
  stageToDevice id devPtr buf size offset g = (inl err, g') -> opError err = hipObjSuccess ->
  staged buf devPtr size offset true g g'.
Proof.
  intros H Hok. apply bind_returns in H as (e & g1 & He & H). pose proof (get_entry_same _ _ _ _ He) as ->.
  exists e. split; [done|]. destruct (hostBuf e =? 0); [by injection H|].
  destruct (rangeInRegistration offset size (buf_size e)); [|by injection H as <- _]. split; [done|].
  by apply stage_copied in H.
Qed.

Lemma stageToHost_staged `{E : World} id devPtr buf size offset g err g' :
  stageToHost id devPtr buf size offset g = (inl err, g') -> opError err = hipObjSuccess ->
  staged buf devPtr size offset false g g'.
Proof.
  intros H Hok. apply bind_returns in H as (e & g1 & He & H). pose proof (get_entry_same _ _ _ _ He) as ->.
  exists e. split; [done|]. destruct (hostBuf e =? 0); [by injection H|].
  destruct (rangeInRegistration offset size (buf_size e)); [|by injection H as <- _]. split; [done|].
  by apply stage_copied in H.
Qed.

Lemma runRdmaTransfer_transferred `{E : World} `{B : BuildConfig} id buf size offset ops g err g' :
  runRdmaTransfer id buf size offset ops g = (inl err, g') -> opError err = hipObjSuccess ->
  transferred id buf size offset ops g g'.
Proof.
  intros H Hok. apply bind_returns in H as ([index|e] & g1 & Ha & H); [|by destruct e; injection H as <- _].
  apply bind_returns in H as ([err' connected] & g2 & Hl & H). apply bind_returns in H as ([] & g3 & Hr & H).
  injection H as <- <-. exists index, connected, g1, g2. split_and!; [done| |done].
  destruct (leased_transfer_inv _ _ _ _ _ _ _ _ _ _ Hl) as [(e & -> & _) Hran]. apply Hran. by rewrite <- Hok.
Qed.

Lemma if_ok_inv (err err' : hipObjError_t) (next : G hipObjError_t) g g' :
  if_ok id err next g = (inl err', g') -> opError err' = hipObjSuccess ->
  opError err = hipObjSuccess /\ next g = (inl err', g').
Proof. unfold if_ok. case_bool_decide; [done|]. by intros [= <- _]. Qed.

(** What both functions do around [next] *)
Lemma call_around `{E : World} `{B : BuildConfig} devPtr size offset ops (next : nat -> hipObjOps_t -> nat -> G hipObjError_t)
    g err g' :
  with_instance id (fun inst => with_ops (Some ops) (fun ops =>
    with_checked_buffer id inst devPtr size offset (next inst ops))) g = (inl err, g') ->
  opError err = hipObjSuccess ->
  exists inst buf g1 g2, around devPtr size offset inst buf g g1 g2 g' /\ next inst ops buf g1 = (inl err, g2).
Proof.
  intros H Hok. apply bind_returns in H as ([inst|] & ga & Hcur & H); [|by injection H as <- _].
  apply bind_returns in H as (r & gd & H & Hend). apply bind_returns in Hend as ([] & g3 & Hdrop & [= <- <-]).
  unfold with_ops in H. destruct (_ || _); [by injection H as <- _|].
  apply bind_returns in H as (i & g4 & Hi & H). pose proof (get_inst_same _ _ _ _ Hi) as ->.
  apply bind_returns in H as ([buf|] & gb & Hfind & H).
  2:{ apply bind_returns in H as (r' & g4 & H & Hret). injection H as <- <-.
      apply bind_returns in Hret as ([] & g5 & _ & [= <- _]). unfold checkBufferArgs in Hok. by repeat case_match. }
  apply bind_returns in H as (r' & g2 & H & Hret). apply bind_returns in Hret as ([] & g5 & Href & [= <- <-]).
  apply bind_returns in H as (e & g4 & He & H). pose proof (get_entry_same _ _ _ _ He) as ->.
  apply if_ok_inv in H as [Hargs H]; [|done]. apply bind_returns in H as (err2 & g1 & Hab & H).
  apply if_ok_inv in H as [Hab' H]; [|done]. exists inst, buf, g1, g2. split; [|done]. split.
  - exists ga, gb, i, e. split_and!; [done..| |].
    + revert Hargs. unfold checkBufferArgs. by repeat case_match.
    + assert (err2 = makeError hipObjSuccess) as <-; [|done]. apply bind_returns in Hab as (e2 & g6 & _ & H2).
      destruct (hostBuf e2 =? 0); [by injection H2 as <- _|]. apply bind_returns in H2 as ([] & g7 & _ & H2); by injection H2 as <- _.
  - by exists g5.
Qed.

(** ** Properties *)

(** C3: a transfer that succeeds has done all of its steps, in order. A Get
    held the instance and the buffer's entry, whose range it checked, from
    start to end; leased a connection; sent the token for the range, and got
    a reply that reports success; connected to the peer that the reply
    names, and polled a successful completion; gave the connection back; and
    then copied the range from the staging buffer to the device, if the
    buffer has one, and waited for that copy. A Put has copied the range to
    the staging buffer first, and waited for it, before it leased the
    connection and sent the token. *)
Theorem get_put_success `{E : World} `{B : BuildConfig} (devPtr size offset : Z) (ops : hipObjOps_t)
    (g : Process) (err : hipObjError_t) (g' : Process) (Hok : opError err = hipObjSuccess) :
  (hipObjGet devPtr size offset (Some ops) g = (inl err, g') ->
   exists inst buf g1 g2 g3, around devPtr size offset inst buf g g1 g3 g' /\
     transferred inst buf size offset ops g1 g2 /\ staged buf devPtr size offset true g2 g3) /\
  (hipObjPut devPtr size offset (Some ops) g = (inl err, g') ->
   exists inst buf g1 g2 g3, around devPtr size offset inst buf g g1 g3 g' /\
     staged buf devPtr size offset false g1 g2 /\ transferred inst buf size offset ops g2 g3).
Proof.
  split; intros H.
  - apply (call_around _ _ _ _ (fun inst ops buf => err ← runRdmaTransfer inst buf size offset ops;
      if_ok id err (stageToDevice inst devPtr buf size offset))) in H as (inst & buf & g1 & g3 & Ha & H); [|done].
    apply bind_returns in H as (err2 & g2 & Hrun & H). apply if_ok_inv in H as [Hok2 H]; [|done].
    exists inst, buf, g1, g2, g3. split; [done|]. split; [by eapply runRdmaTransfer_transferred|by eapply stageToDevice_staged].
  - apply (call_around _ _ _ _ (fun inst ops buf => err ← stageToHost inst devPtr buf size offset;
      if_ok id err (runRdmaTransfer inst buf size offset ops))) in H as (inst & buf & g1 & g3 & Ha & H); [|done].
    apply bind_returns in H as (err2 & g2 & Hrun & H). apply if_ok_inv in H as [Hok2 H]; [|done].
    exists inst, buf, g1, g2, g3. split; [done|]. split; [by eapply stageToHost_staged|by eapply runRdmaTransfer_transferred].
Qed.

Lemma get_put_success_witness :
  let ops := @plain_ops no_peer_memory (lit "200") in
  exists g1 g2,
    @hipObjPut no_peer_memory demo_build 64 256 512 (Some ops) staging_process = (inl (makeError hipObjSuccess), g1) /\
    @hipObjGet no_peer_memory demo_build 64 256 512 (Some ops) g1 = (inl (makeError hipObjSuccess), g2) /\
    (exists inst buf h1 h2 h3, @around no_peer_memory 64 256 512 inst buf staging_process h1 h3 g1 /\
       staged buf 64 256 512 false h1 h2 /\ @transferred no_peer_memory demo_build inst buf 256 512 ops h2 h3) /\
    exists inst buf h1 h2 h3, @around no_peer_memory 64 256 512 inst buf g1 h1 h3 g2 /\
       @transferred no_peer_memory demo_build inst buf 256 512 ops h1 h2 /\ staged buf 64 256 512 true h2 h3.
Proof.
  intros ops.
  set (x := @hipObjPut no_peer_memory demo_build 64 256 512 (Some ops) staging_process).
  set (y := @hipObjGet no_peer_memory demo_build 64 256 512 (Some ops) (snd x)).
  assert (fst x = inl (makeError hipObjSuccess)) as Hx by (vm_compute; reflexivity).
  assert (fst y = inl (makeError hipObjSuccess)) as Hy by (vm_compute; reflexivity).
  assert (x = (inl (makeError hipObjSuccess), snd x)) as Hx' by (rewrite <- Hx; apply surjective_pairing).
  assert (y = (inl (makeError hipObjSuccess), snd y)) as Hy' by (rewrite <- Hy; apply surjective_pairing).
  exists (snd x), (snd y). split; [exact Hx'|]. split; [exact Hy'|]. split.
  - exact (proj2 (@get_put_success no_peer_memory demo_build 64 256 512 ops staging_process (makeError hipObjSuccess) (snd x) eq_refl) Hx').
  - exact (proj1 (@get_put_success no_peer_memory demo_build 64 256 512 ops (snd x) (makeError hipObjSuccess) (snd y) eq_refl) Hy').
Defined.
