(* ===== verification/ThrowingCode.v ===== *)
(** * The library's functions, with exceptions

    The functions that allocate or that call the application, with the points
    at which an exception can leave them, and what's destroyed on its way; and
    the public functions with their [catch (...)].  Each has the name of the
    function of [Api], or of the file that has it, with an X.  What they call
    without an X doesn't throw: it's [noexcept], or it allocates nothing, or
    it's a method that only forwards to a C function of libibverbs or HIP. *)

From Stdlib Require Import Ascii String.
From stdpp Require Import base numbers list gmap.
From S2P Require Import Prelude.
From S2P Require Import Exceptions.
From S2P Require Import Parse.
From S2P Require Import Gid.
From S2P Require Import Token.
From S2P Require Import IbvCore.
From S2P Require Import World.
From S2P Require Import Verbs.
From S2P Require Import Topology.
From S2P Require Import Transport.
From S2P Require Import Pool.
From S2P Require Import Buffer.
From S2P Require Import Abandoned.
From S2P Require Import State.
From S2P Require Import Control.
From S2P Require Import Api.

(** ** Definitions *)

Abbreviation WX := (X trace).
Abbreviation HX := (X Mem).
Abbreviation GX := (X Process).

Definition xcalls {A} : WX A -> HX A := xzoom m_trace (fun t m => m <| m_trace := t |>).
Definition xmem {A} : HX A -> GX A := xzoom g_mem (fun m g => g <| g_mem := m |>).
Definition xoutside {A} (m : WX A) : GX A := xmem (xcalls m).
Definition xperform `{World} {A} (c : call A) : WX A := nothrow (perform c).

(** A message is dropped when there's no memory for its text *)
Definition printToX `{World} (d : diagnostic) : WX unit :=
  try_catch (_ ← allocate; xperform (print_stderr d)) tt.

Definition kExceptionError : hipObjError_t := makeError hipObjInternalError.

(** *** Registering memory *)

(** The message for [errno] is a string *)
Definition registerDeviceMemoryX `{World} (pd : ibv_pd) (addr length access : Z) (policy : DmabufPolicy)
    : WX (option ibv_mr) :=
  supported ← (if enabled policy then xperform supportsDmabuf else mret false);
  direct ←
    (if supported : bool then
       '(status, fd, offset) ← xperform (exportDmabuf addr length);
       if negb (status =? 0) then
         _ ← (if debug policy then printToX (ExportDmabufFailed status) else mret tt);
         mret None
       else
         mr ← xperform (reg_dmabuf_mr pd offset length addr fd access);
         match mr with
         | Some mr => _ ← nothrow (close_DmabufFd fd); mret (Some mr)
         | None =>
             err ← xperform get_errno;
             scope (_ ← allocate; _ ← printToX (RegDmabufMrFailed err); mret None)
                   (close_DmabufFd fd)
         end
     else mret None);
  match direct with
  | Some mr => mret (Some mr)
  | None => xperform (reg_mr pd addr length access)
  end.

(** [std::make_shared<const BufEntry>()]; [destroy] is what the arguments
    still own when it can't allocate *)
Definition make_sharedX (e : BufEntry) (destroy : HM unit) : HX nat :=
  _ ← unwinding allocate destroy; nothrow (make_shared e).

(** [entries_[key]] allocates; [entry] is a parameter *)
Definition insert_entryX `{World} (b : BufferMap) (key : Z) (entry : nat) : HX (RegisterResult * BufferMap) :=
  match refusal b key with
  | Some refused => _ ← nothrow (drop_ref entry); mret (refused, b)
  | None =>
      _ ← unwinding allocate (drop_ref entry);
      mret (Registered, b <| entries_ := <[key := entry]> (entries_ b) |>)
  end.

Definition registerBufferX `{World} (b : BufferMap) (devPtr size : Z) (pd : ibv_pd)
    : HX (RegisterResult * BufferMap) :=
  if MAX_MR_SIZE <? size then mret (RegisterFailed, b)
  else
    match precheck b devPtr with
    | Some refused => mret (refused, b)
    | None =>
        direct ← xcalls (registerDeviceMemoryX pd devPtr size rw_access (dmabuf_ b));
        match direct with
        | Some m =>
            entry ← make_sharedX {| hostBuf := 0; mr := Some m; buf_size := size; isDmabuf := true;
                                    remoteAddr := devPtr; leakHostBuf := false |}
                      (calls (IbvMrDeleter (Some m)));
            insert_entryX b devPtr entry
        | None =>
            deviceMemory ← nothrow (calls (isDevicePointer devPtr));
            if deviceMemory && requireGpuDirect_ b then
              _ ← xcalls (printToX (GpuDirectRefused size devPtr));
              mret (RegisterFailed, b)
            else
              _ ← (if deviceMemory : bool then xcalls (printToX (GpuDirectFallback size devPtr)) else mret tt);
              '(err, rawHostBuf) ← nothrow (calls (perform (hostMalloc size)));
              if negb (err =? hipSuccess) || (rawHostBuf =? 0) then mret (RegisterFailed, b)
              else
                stagingMr ← nothrow (calls (perform (reg_mr pd rawHostBuf size rw_access)));
                match stagingMr with
                | None => _ ← nothrow (calls (HostBufDeleter rawHostBuf)); mret (RegisterFailed, b)
                | Some m =>
                    entry ← make_sharedX {| hostBuf := rawHostBuf; mr := Some m; buf_size := size;
                                            isDmabuf := false; remoteAddr := rawHostBuf;
                                            leakHostBuf := false |}
                              (_ ← calls (IbvMrDeleter (Some m)); calls (HostBufDeleter rawHostBuf));
                    insert_entryX b devPtr entry
                end
        end
    end.

Definition registerHostBufferX `{World} (b : BufferMap) (hostPtr size : Z) (pd : ibv_pd)
    : HX (RegisterResult * BufferMap) :=
  if MAX_MR_SIZE <? size then mret (RegisterFailed, b)
  else
    match precheck b hostPtr with
    | Some refused => mret (refused, b)
    | None =>
        mr ← nothrow (calls (perform (reg_mr pd hostPtr size rw_access)));
        match mr with
        | None => mret (RegisterFailed, b)
        | Some m =>
            entry ← make_sharedX {| hostBuf := 0; mr := Some m; buf_size := size; isDmabuf := false;
                                    remoteAddr := hostPtr; leakHostBuf := false |}
                      (calls (IbvMrDeleter (Some m)));
            insert_entryX b hostPtr entry
        end
    end.

(** The map is changed where it is: when [f] throws, it's as it was *)
Definition on_buffersX {A} (id : nat) (f : BufferMap -> HX (A * BufferMap)) : GX A :=
  i ← nothrow (get_inst id);
  '(a, b) ← xmem (f (buffers i));
  _ ← nothrow (update_inst id (fun i => i <| buffers := b |>));
  mret a.

(** *** Abandoned copies *)

(** [over.push_back()] may allocate; the copy it doesn't take stays, and so
    do those after it *)
Fixpoint release_loopX `{World} (entry : option nat) (copies : list Copy)
    : WX (list Copy * list Copy * result bool) :=
  match copies with
  | [] => mret ([], [], Returned false)
  | c :: copies' =>
      if bool_decide (is_Some entry) && negb (bool_decide (entry = Some (copy_entry c))) then
        '(over, stay, running) ← release_loopX entry copies';
        mret (over, c :: stay, running)
      else
        o ← nothrow (isOver c);
        if o : bool then
          pushed ← caught allocate;
          match pushed with
          | Threw => mret ([], c :: copies', Threw)
          | Returned _ =>
              '(over, stay, running) ← release_loopX entry copies';
              mret (c :: over, stay, running)
          end
        else
          '(over, stay, running) ← release_loopX entry copies';
          mret (over, c :: stay, match running with Returned _ => Returned true | Threw => Threw end)
  end.

(** The copies in [over] are released either way *)
Definition release_copiesX `{World} (entry : option nat) (a : AbandonedCopies)
    : HX (result bool * AbandonedCopies) :=
  '(over, stay, running) ← xcalls (release_loopX entry (copies_ a));
  _ ← nothrow (destroy_copies over);
  mret (running, a <| copies_ := stay |>).

Definition reclaimX `{World} (a : AbandonedCopies) : HX (result unit * AbandonedCopies) :=
  '(running, a) ← release_copiesX None a;
  mret (match running with Returned _ => Returned tt | Threw => Threw end, a).

Definition on_abandonedX {A} (id : nat) (f : AbandonedCopies -> HX (result A * AbandonedCopies)) : GX A :=
  i ← nothrow (get_inst id);
  '(x, a) ← xmem (f (abandoned i));
  _ ← nothrow (update_inst id (fun i => i <| abandoned := a |>));
  rethrow x.

Definition checkNoAbandonedCopyX `{World} (id buf : nat) : GX hipObjError_t :=
  e ← nothrow (mem (get_entry buf));
  if hostBuf e =? 0 then mret (makeError hipObjSuccess)
  else
    r ← on_abandonedX id (release_copiesX (Some buf));
    mret (makeError (if r : bool then hipObjBusy else hipObjSuccess)).

(** *** Staging copies *)

(** [reserve()] allocates when there's no room, before it changes anything *)
Definition reserve_throws (id : nat) : GX unit :=
  i ← nothrow (get_inst id);
  if capacity_ (abandoned i) <? copies_size (abandoned i) + reserved_ (abandoned i) + 1
  then allocate else mret tt.

(** After [reserve()], nothing throws *)
Definition stageCopyWithDeadlineX `{World} (id buf : nat) (dst src size : Z) (kind : hipMemcpyKind)
    : GX hipObjError_t :=
  _ ← reserve_throws id;
  _ ← nothrow (update_inst id (fun i => i <| abandoned := reserve (abandoned i) |>));
  '(err, done) ← nothrow (outside (perform eventCreate));
  if negb (err =? hipSuccess) then
    nothrow (_ ← give_back_slot id; mret (makeError hipObjInternalError))
  else
    err ← nothrow (outside (perform (memcpyAsync dst src size kind)));
    err ← nothrow (if err =? hipSuccess then outside (perform (eventRecord done)) else mret err);
    if negb (err =? hipSuccess) then
      nothrow (_ ← outside (HipEventDeleter done); _ ← give_back_slot id; mret (makeError hipObjInternalError))
    else
      i ← nothrow (get_inst id);
      let ms := stageTimeout (options i) in
      now ← nothrow (outside (perform clock_now));
      outcome ← nothrow (outside (stage_loop (stage_fuel ms) done (now + ms)));
      match outcome with
      | StageDone =>
          nothrow (_ ← outside (HipEventDeleter done); _ ← give_back_slot id; mret (makeError hipObjSuccess))
      | StageFailed =>
          nothrow (_ ← outside (HipEventDeleter done); _ ← give_back_slot id; mret (makeError hipObjInternalError))
      | StageTimedOut =>
          _ ← nothrow (mem (copy_ref buf));
          _ ← nothrow (update_inst id (fun i => i <| abandoned := add buf done (abandoned i) |>));
          _ ← xoutside (printToX (StagingTimeout kind size ms));
          mret (makeError hipObjInternalError)
      end.

Definition stageToDeviceX `{World} (id : nat) (devPtr : Z) (buf : nat) (size offset : Z) : GX hipObjError_t :=
  e ← nothrow (mem (get_entry buf));
  if hostBuf e =? 0 then mret (makeError hipObjSuccess)
  else if negb (rangeInRegistration offset size (buf_size e)) then mret (makeError hipObjInvalidValue)
  else stageCopyWithDeadlineX id buf (devPtr + offset) (hostBuf e + offset) size hipMemcpyHostToDevice.

Definition stageToHostX `{World} (id : nat) (devPtr : Z) (buf : nat) (size offset : Z) : GX hipObjError_t :=
  e ← nothrow (mem (get_entry buf));
  if hostBuf e =? 0 then mret (makeError hipObjSuccess)
  else if negb (rangeInRegistration offset size (buf_size e)) then mret (makeError hipObjInvalidValue)
  else stageCopyWithDeadlineX id buf (hostBuf e + offset) (devPtr + offset) size hipMemcpyDeviceToHost.

(** *** Transfers *)

(** Callbacks that may throw *)
Record throwing_ops := {
  xsendRequest : option (chars -> GX Z);
  xrecvReply : option (chars -> GX (Z * chars * Z));
}.

Definition injectRdmaTokenX (ops : throwing_ops) (token : chars) : GX bool :=
  match xsendRequest ops with
  | None => mret false
  | Some send => st ← send token; mret (st =? 0)
  end.

Definition receiveRdmaReplyRawX (ops : throwing_ops) (replyBuf : chars) : GX (option RdmaReply) :=
  match xrecvReply ops with
  | None => mret None
  | Some recv =>
      if bool_decide (replyBuf = []) then mret None
      else
        '(st, buf, replyLen) ← recv replyBuf;
        mret (received_reply (List.length replyBuf) st buf replyLen)
  end.

(** A timeout's message has a string *)
Fixpoint poll_loopX `{World} (fuel : nat) (conn : RcConnection) (expectedOpcode : option ibv_wc_opcode)
    (ms deadline : Z) : WX bool :=
  match fuel with
  | O => nothrow (halt OutOfFuel)
  | S fuel' =>
      now ← xperform clock_now;
      if negb (now <? deadline) then
        _ ← allocate;
        _ ← printToX (NoCompletion ms (ibv_wc_opcode_value <$> expectedOpcode));
        mret false
      else
        '(n, wc) ← xperform (poll_cq (rc_cq conn) 1);
        if n <? 0 then mret false
        else if n =? 0 then
          _ ← xperform (sleep_for 1);
          poll_loopX fuel' conn expectedOpcode ms deadline
        else if negb (bool_decide (wc_status wc = IBV_WC_SUCCESS)) then
          _ ← printToX (CompletionFailed (ibv_wc_status_value (wc_status wc))
                 (ibv_wc_opcode_value (wc_opcode wc)) (vendor_err wc) (wc_wr_id wc));
          mret false
        else
          match expectedOpcode with
          | None => mret true
          | Some op =>
              if bool_decide (wc_opcode wc = op) then mret true
              else poll_loopX fuel' conn expectedOpcode ms deadline
          end
  end.

Definition pollCompletionX `{World} (fuel : nat) (conn : RcConnection)
    (expectedOpcode : option ibv_wc_opcode) (ms : Z) : WX bool :=
  now ← xperform clock_now;
  poll_loopX fuel conn expectedOpcode ms (now + ms).

(** What it does, and whether the lease is connected when it's left *)
Definition finishTransferAfterReplyX `{World} `{BuildConfig} (id index : nat) (reply : chars)
    (requiresDeviceSync : bool) (ms : Z) : GX (result bool * bool) :=
  let finish :=
    conn ← nothrow (get_connection id index);
    ok ← xoutside (pollCompletionX (poll_fuel ms) conn None ms);
    if negb ok then mret false
    else if negb requiresDeviceSync then mret true
    else st ← nothrow (outside (perform deviceSynchronize)); mret (st =? hipSuccess) in
  match parsePeerTokenFromReply reply with
  | Some peerToken =>
      conn ← nothrow (get_connection id index);
      ok ← nothrow (outside (connectRcPeer conn peerToken));
      if negb ok then mret (Returned false, true) else r ← caught finish; mret (r, true)
  | None => r ← caught finish; mret (r, false)
  end.

Definition leased_transferX `{World} `{BuildConfig} (id index buf : nat) (size offset : Z)
    (ops : throwing_ops) : GX (result hipObjError_t * bool) :=
  conn ← nothrow (get_connection id index);
  e ← nothrow (mem (get_entry buf));
  match buildRdmaToken conn e size offset with
  | None => mret (Returned (makeError hipObjRdmaError), false)
  | Some token =>
      sent ← caught (injectRdmaTokenX ops (encodeRdmaToken token));
      match sent with
      | Threw => mret (Threw, false)
      | Returned sent =>
          if negb sent then mret (Returned (makeError hipObjS3Error), false)
          else
            reply ← caught (receiveRdmaReplyRawX ops (replicate kReplyBufLen (chr 0)));
            match reply with
            | Threw => mret (Threw, false)
            | Returned None => mret (Returned (makeError hipObjS3Error), false)
            | Returned (Some reply) =>
                if negb (bool_decide (status reply = Success))
                then mret (Returned (makeError hipObjS3Error), false)
                else
                  e ← nothrow (mem (get_entry buf));
                  i ← nothrow (get_inst id);
                  '(ok, connected) ← finishTransferAfterReplyX id index (text reply) (isDmabuf e)
                                       (pollTimeout (options i));
                  mret (match ok with
                        | Threw => Threw
                        | Returned ok => Returned (makeError (if ok : bool then hipObjSuccess else hipObjRdmaError))
                        end, connected)
            end
      end
  end.

(** The lease ends either way *)
Definition runRdmaTransferX `{World} `{BuildConfig} (id buf : nat) (size offset : Z)
    (ops : throwing_ops) : GX hipObjError_t :=
  acquired ← nothrow (acquire_lease id);
  match acquired with
  | inr err => mret (acquireError err)
  | inl index =>
      '(err, connected) ← leased_transferX id index buf size offset ops;
      _ ← nothrow (release_lease id index connected);
      rethrow err
  end.

(** *** Opening the device

    With the topology that reads sysfs.  Names, paths and streams allocate. *)

Definition nic_infoX `{World} (name : chars) (p : Z) : WX NicInfo :=
  let device_path := path_append (path_append sysfs_infiniband name) (lit "device") in
  _ ← allocate;
  resolved ← xperform (fs_canonical device_path);
  _ ← allocate;
  numa_file ← xperform (fs_read (path_append device_path (lit "numa_node")));
  mret {| dev_name := name;
          pcie_bus_id := match resolved with Some path => path_filename path | None => [] end;
          numa_node := match numa_file with
                       | Some s => Z.max (default (-1) (istream_int s)) 0
                       | None => -1
                       end;
          nic_port_num := p |}.

Fixpoint active_portX `{World} (fuel : nat) (ctx : ibv_context) (name : chars) (phys_port_cnt p : Z)
    : WX (option NicInfo) :=
  match fuel with
  | O => nothrow (halt OutOfFuel)
  | S fuel' =>
      if negb (p <=? phys_port_cnt) then mret None
      else
        '(st, port_attr) ← xperform (query_port ctx p);
        if negb (st =? 0) then active_portX fuel' ctx name phys_port_cnt (wrapu 8 (p + 1))
        else if negb (bool_decide (port_state port_attr = IBV_PORT_ACTIVE)) &&
                negb (bool_decide (port_state port_attr = IBV_PORT_ACTIVE_DEFER))
        then active_portX fuel' ctx name phys_port_cnt (wrapu 8 (p + 1))
        else info ← nic_infoX name p; _ ← allocate; mret (Some info)
  end.

(** [ctx] is closed when its turn ends *)
Fixpoint enumerate_devicesX `{World} (hcaList : chars) (devs : list Z) : WX (list NicInfo) :=
  match devs with
  | [] => mret []
  | dev :: devs' =>
      if dev =? 0 then mret []
      else
        name ← xperform (get_device_name dev);
        match name with
        | None => enumerate_devicesX hcaList devs'
        | Some name =>
            if negb (bool_decide (hcaList = [])) && negb (HcaListIncludes hcaList name)
            then enumerate_devicesX hcaList devs'
            else
              ctx ← xperform (open_device dev);
              match ctx with
              | None => enumerate_devicesX hcaList devs'
              | Some ctx =>
                  info ← scope (
                    '(st, attr) ← xperform (query_device ctx);
                    if negb (st =? 0) then mret None
                    else active_portX port_fuel ctx name (phys_port_cnt attr) 1) (IbvContextDeleter (Some ctx));
                  rest ← enumerate_devicesX hcaList devs';
                  mret (option_list info ++ rest)
              end
        end
  end.

Definition sysfs_enumerateX `{World} (hcaList : chars) : WX (list NicInfo) :=
  '(dev_list, num_devs) ← xperform get_device_list;
  match dev_list with
  | None => mret []
  | Some l =>
      scope (if num_devs <=? 0 then mret []
             else enumerate_devicesX hcaList (deviceSpan dev_list num_devs))
            (IbvDeviceListDeleter dev_list)
  end.

Definition sysfs_roceVersionX `{World} (devName : chars) (portNum gidIndex : Z) : WX RoceVersion :=
  let path := path_append (path_append (path_append (path_append (path_append
                sysfs_infiniband devName) (lit "ports")) (to_string portNum))
                (lit "gid_attrs/types")) (to_string gidIndex) in
  _ ← allocate;
  f ← xperform (fs_read path);
  match f with
  | None => mret RoceVersion_Unknown
  | Some contents =>
      _ ← allocate;
      mret (match getline contents with
            | None => RoceVersion_Unknown
            | Some line =>
                if contains_text (lit "RoCE v2") line then RoceVersion_V2
                else if contains_text (lit "IB/RoCE v1") line || contains_text (lit "RoCE v1") line
                then RoceVersion_V1
                else RoceVersion_Unknown
            end)
  end.

Fixpoint gid_candidatesX `{World} (ctx : ibv_context) (port_num : Z) (indexes : list Z) : WX (list GidCandidate) :=
  match indexes with
  | [] => mret []
  | i :: indexes' =>
      '(st, gid) ← xperform (query_gid ctx port_num i);
      if negb (st =? 0) then gid_candidatesX ctx port_num indexes'
      else if negb (IsConfiguredGid (toGid gid)) then gid_candidatesX ctx port_num indexes'
      else
        v ← sysfs_roceVersionX (cStringView (ctx_device_name ctx)) port_num i;
        _ ← allocate;
        cs ← gid_candidatesX ctx port_num indexes';
        mret ({| cand_index := i; cand_gid := toGid gid; cand_roceVersion := v |} :: cs)
  end.

Definition SelectBestGidX `{World} (ctx : ibv_context) (port_num : Z) : WX (option Z) :=
  '(st, port_attr) ← xperform (query_port ctx port_num);
  if negb (st =? 0) then mret None
  else
    candidates ← gid_candidatesX ctx port_num (seqZ 0 (gid_tbl_len port_attr));
    mret (PickBestGid candidates).

(** The GPU's bus id, and then the bus numbers that are compared, are strings *)
Definition GetClosestNicToGpuX `{World} (gpuIndex : Z) (hcaList : chars) : WX (option RdmaNic) :=
  '(err, gpu_bus_id) ← xperform (deviceGetPCIBusId kPciBusIdBufLen gpuIndex);
  if negb (err =? hipSuccess) then mret None
  else
    let gpu_bus := cStringViewN gpu_bus_id (Z.to_nat kPciBusIdBufLen) in
    _ ← allocate;
    devices ← sysfs_enumerateX hcaList;
    _ ← allocate;
    mret (closestNic devices gpu_bus).

Definition openRdmaDeviceX `{World} (nicIndex : Z) : WX (option RdmaDevice) :=
  '(devList, numDevs) ← xperform get_device_list;
  if bool_decide (devList = None) || (numDevs <=? 0) || (nicIndex <? 0) || (numDevs <=? nicIndex)
  then _ ← nothrow (IbvDeviceListDeleter devList); mret None
  else
    let dev := nth (Z.to_nat nicIndex) (deviceSpan devList numDevs) 0 in
    if dev =? 0 then _ ← nothrow (IbvDeviceListDeleter devList); mret None
    else
      ctx ← xperform (open_device dev);
      _ ← nothrow (IbvDeviceListDeleter devList);
      match ctx with
      | None => mret None
      | Some ctx =>
          pd ← xperform (alloc_pd ctx);
          match pd with
          | None => _ ← nothrow (destroy_device_parts None ctx); mret None
          | Some pd =>
              '(st, portAttr) ← xperform (query_port ctx kPortNum);
              if negb (st =? 0) then _ ← nothrow (destroy_device_parts (Some pd) ctx); mret None
              else
                best ← unwinding (SelectBestGidX ctx kPortNum) (destroy_device_parts (Some pd) ctx);
                let gidIndex := default 0 best in
                '(st, localGid) ← xperform (query_gid ctx kPortNum gidIndex);
                if negb (st =? 0) then _ ← nothrow (destroy_device_parts (Some pd) ctx); mret None
                else
                  '(st, devAttr) ← xperform (query_device ctx);
                  let vendorId := if st =? 0 then Some (vendor_id devAttr) else None in
                  mret (Some {| dev_context := ctx; dev_pd := pd; dev_portNum := kPortNum;
                                dev_gidIndex := gidIndex; dev_localGid := localGid;
                                dev_vendorId := vendorId |})
          end
      end.

Definition openRdmaDeviceByNameX `{World} (devName : chars) : WX (option RdmaDevice) :=
  if bool_decide (devName = []) then mret None
  else
    '(devList, numDevs) ← xperform get_device_list;
    if bool_decide (devList = None) || (numDevs <=? 0)
    then _ ← nothrow (IbvDeviceListDeleter devList); mret None
    else
      nicIndex ← nothrow (find_device (deviceSpan devList numDevs) devName 0);
      if nicIndex <? 0 then _ ← nothrow (IbvDeviceListDeleter devList); mret None
      else scope (openRdmaDeviceX nicIndex) (IbvDeviceListDeleter devList).

(** *** Initialization *)

(** Building [LoadedVerbs], and then [SystemPlatform], around the library.
    When the initializer of a function's static variable throws, the next
    call runs it again. *)
Definition makeSystemPlatformX `{World} : WX (option LoadedVerbs) :=
  verbs ← nothrow loadLibibverbs;
  match verbs with
  | None => mret None
  | Some v => _ ← unwinding allocate (DlCloseDeleter (library_ v)); mret (Some v)
  end.

Definition systemPlatformX `{World} : GX (option LoadedVerbs) :=
  g ← nothrow get_state;
  match g_platform g with
  | Some platform => mret platform
  | None =>
      platform ← xoutside makeSystemPlatformX;
      _ ← nothrow (modify (fun g => g <| g_platform := Some platform |>));
      mret platform
  end.

(** The NIC hint's copy *)
Definition choose_nicX `{World} (gpu : Z) (hint : chars) : WX (option RdmaNic) :=
  nic ← (if 0 <=? gpu then GetClosestNicToGpuX gpu hint else mret None);
  match nic with
  | Some nic => mret (Some nic)
  | None =>
      if negb (bool_decide (hint = [])) then _ ← allocate; mret (Some {| nic_index := 0; nic_name := hint |})
      else mret None
  end.

(** The device is shared, the hint copied, the instance allocated, and its
    pool's vectors, in this order; the token connection, once there is one,
    is destroyed before the device *)
Definition build_instanceX `{World} (config : hipObjConfig_t) (opts : Options) : WX (Instance_t + hipObjError_t) :=
  let hint := default [] (nicHint config) in
  gpu ← nothrow (choose_gpu config (negb (bool_decide (hint = []))));
  match gpu with
  | inr err => mret (inr err)
  | inl gpu =>
      nic ← choose_nicX gpu hint;
      match nic with
      | None => mret (inr (makeError hipObjNicNotFound))
      | Some nic =>
          opened ← openRdmaDeviceByNameX (nic_name nic);
          match opened with
          | None => mret (inr (makeError hipObjRdmaError))
          | Some dev =>
              _ ← unwinding allocate (destroy_RdmaDevice dev);
              tok ← nothrow (createRcConnection dev kCqSize kMaxSendWr kMaxRecvWr);
              match tok with
              | None => _ ← nothrow (destroy_RdmaDevice dev); mret (inr (makeError hipObjRdmaError))
              | Some tok =>
                  let resolved := {| res_gpuDevice := gpu; res_nicHint := hint;
                                     res_nicIndex := nic_index nic |} in
                  _ ← unwinding allocate (_ ← destroy_RcConnection tok; destroy_RdmaDevice dev);
                  instance ← nothrow (new_Instance opts resolved dev tok);
                  mret (inl instance)
              end
          end
      end
  end.

Definition initWithX `{World} (config : hipObjConfig_t) (opts : Options) : GX hipObjError_t :=
  have ← nothrow haveInstance;
  if have : bool then mret (makeError hipObjAlreadyInitialized)
  else
    built ← xoutside (build_instanceX config opts);
    match built with
    | inr err => mret err
    | inl instance =>
        nothrow (
          id ← make_shared_inst instance;
          if negb (pool_size (pool instance) =? maxTransfers opts)
          then _ ← drop_inst id; mret (makeError hipObjRdmaError)
          else
            _ ← modify (fun g => g <| g_current := Some id |>);
            mret (makeError hipObjSuccess))
    end.

(** *** The public functions *)

Definition with_instanceX `{World} {A} (fail : hipObjError_t -> A) (body : nat -> GX A) : GX A :=
  instance ← nothrow currentInstance;
  match instance with
  | None => mret (fail (makeError hipObjNotInitialized))
  | Some id => scope (body id) (drop_inst id)
  end.

Definition with_bufferX `{World} {A} (id : nat) (devPtr : Z) (body : option nat -> GX A) : GX A :=
  i ← nothrow (get_inst id);
  buf ← nothrow (mem (find (buffers i) devPtr));
  scope (body buf) (match buf with Some e => mem (drop_ref e) | None => mret tt end).

Definition if_okX {A} (fail : hipObjError_t -> A) (err : hipObjError_t) (next : GX A) : GX A :=
  if bool_decide (opError err = hipObjSuccess) then next else mret (fail err).

Definition hipObjInitX `{World} (config : option hipObjConfig_t) : GX hipObjError_t :=
  try_catch (
    match config with
    | None => mret (makeError hipObjInvalidValue)
    | Some config =>
        if negb (flags config =? 0) || (gpuDevice config <? -1) then mret (makeError hipObjInvalidValue)
        else
          have ← nothrow haveInstance;
          if have : bool then mret (makeError hipObjAlreadyInitialized)
          else
            platform ← systemPlatformX;
            match platform with
            | None => mret (makeError hipObjRdmaError)
            | Some _ =>
                opts ← nothrow (outside (parseOptions (fun name => perform (getenv name))));
                initWithX config opts
            end
    end) kExceptionError.

Definition hipObjShutdownX `{World} : GX hipObjError_t :=
  try_catch (nothrow hipObjShutdown) kExceptionError.

Definition hipObjBufRegisterX `{World} (devPtr size : Z) : GX hipObjError_t :=
  try_catch (
    with_instanceX id (fun inst =>
      if_okX id (checkRegistrationArgs devPtr size) (
        valid ← nothrow (outside (isValidDeviceRange devPtr size));
        if negb valid then mret (makeError hipObjInvalidValue)
        else
          i ← nothrow (get_inst inst);
          r ← on_buffersX inst (fun b => registerBufferX b devPtr size (dev_pd (device i)));
          mret (registrationError r)))) kExceptionError.

Definition hipObjBufRegisterHostX `{World} (hostPtr size : Z) : GX hipObjError_t :=
  try_catch (
    with_instanceX id (fun inst =>
      if_okX id (checkRegistrationArgs hostPtr size) (
        i ← nothrow (get_inst inst);
        r ← on_buffersX inst (fun b => registerHostBufferX b hostPtr size (dev_pd (device i)));
        mret (registrationError r)))) kExceptionError.

Definition hipObjBufDeregisterX `{World} (devPtr : Z) : GX hipObjError_t :=
  try_catch (
    with_instanceX id (fun inst =>
      if devPtr =? 0 then mret (makeError hipObjInvalidValue)
      else
        _ ← on_abandonedX inst reclaimX;
        result ← nothrow (on_buffers inst (fun b => deregisterBuffer b devPtr));
        mret (match result with
              | Deregistered => makeError hipObjSuccess
              | NotRegistered => makeError hipObjBufNotRegistered
              | DeregisterBusy => makeError hipObjBusy
              end))) kExceptionError.

Definition with_checked_bufferX `{World} {A} (fail : hipObjError_t -> A) (inst : nat)
    (devPtr size offset : Z) (next : nat -> GX A) : GX A :=
  with_bufferX inst devPtr (fun buf =>
    match buf with
    | None => mret (fail (checkBufferArgs devPtr None size offset))
    | Some b =>
        e ← nothrow (mem (get_entry b));
        if_okX fail (checkBufferArgs devPtr (Some e) size offset) (
          err ← checkNoAbandonedCopyX inst b;
          if_okX fail err (next b))
    end).

Definition with_opsX (ops : option throwing_ops) (next : throwing_ops -> GX hipObjError_t) : GX hipObjError_t :=
  match ops with
  | None => mret (makeError hipObjInvalidValue)
  | Some o =>
      if bool_decide (xsendRequest o = None) || bool_decide (xrecvReply o = None)
      then mret (makeError hipObjInvalidValue)
      else next o
  end.

Definition hipObjGetX `{World} `{BuildConfig} (devPtr size offset : Z) (ops : option throwing_ops)
    : GX hipObjError_t :=
  try_catch (
    with_instanceX id (fun inst =>
      with_opsX ops (fun ops =>
        with_checked_bufferX id inst devPtr size offset (fun buf =>
          err ← runRdmaTransferX inst buf size offset ops;
          if_okX id err (stageToDeviceX inst devPtr buf size offset))))) kExceptionError.

Definition hipObjPutX `{World} `{BuildConfig} (devPtr size offset : Z) (ops : option throwing_ops)
    : GX hipObjError_t :=
  try_catch (
    with_instanceX id (fun inst =>
      with_opsX ops (fun ops =>
        with_checked_bufferX id inst devPtr size offset (fun buf =>
          err ← stageToHostX inst devPtr buf size offset;
          if_okX id err (runRdmaTransferX inst buf size offset ops))))) kExceptionError.

Definition hipObjBufSyncX `{World} (devPtr size offset direction : Z) : GX hipObjError_t :=
  try_catch (
    with_instanceX id (fun inst =>
      if negb (direction =? HIPOBJ_SYNC_TO_HOST) && negb (direction =? HIPOBJ_SYNC_TO_DEVICE)
      then mret (makeError hipObjInvalidValue)
      else
        with_checked_bufferX id inst devPtr size offset (fun buf =>
          if direction =? HIPOBJ_SYNC_TO_DEVICE then stageToDeviceX inst devPtr buf size offset
          else stageToHostX inst devPtr buf size offset))) kExceptionError.

(** [*outToken] is set last *)
Definition hipObjGetRdmaTokenX `{World} (devPtr size op : Z) (outToken : bool)
    : GX (hipObjError_t * option chars) :=
  let fail e := (e, None) in
  try_catch (
    with_instanceX fail (fun inst =>
      if negb outToken || (negb (op =? HIPOBJ_RDMA_OP_PUT) && negb (op =? HIPOBJ_RDMA_OP_GET))
      then mret (fail (makeError hipObjInvalidValue))
      else
        with_checked_bufferX fail inst devPtr size 0 (fun buf =>
          i ← nothrow (get_inst inst);
          e ← nothrow (mem (get_entry buf));
          match buildRdmaToken (tokenConn i) e size 0 with
          | None => mret (fail (makeError hipObjRdmaError))
          | Some token => _ ← allocate; mret (makeError hipObjSuccess, Some (encodeRdmaTokenHex token))
          end))) (fail kExceptionError).

(** Callbacks that don't throw *)
Definition no_throw_ops (ops : hipObjOps_t) : throwing_ops :=
  {| xsendRequest := (fun send token => nothrow (send token)) <$> sendRequest ops;
     xrecvReply := (fun recv buf => nothrow (recv buf)) <$> recvReply ops |}.

(** ** Lemmas

    When no allocation fails, each function is the one without an X. *)

Section agreeing.
Context `{E : World} `{B : BuildConfig}.

Lemma agrees_xcalls {A} (m : WX A) m' : agrees m m' -> agrees (xcalls m) (calls m').
Proof. apply agrees_xzoom. Qed.
Lemma agrees_xmem {A} (m : HX A) m' : agrees m m' -> agrees (xmem m) (mem m').
Proof. apply agrees_xzoom. Qed.
Lemma agrees_xoutside {A} (m : WX A) m' : agrees m m' -> agrees (xoutside m) (outside m').
Proof. intros Hm. by apply agrees_xmem, agrees_xcalls. Qed.
Lemma agrees_xperform {A} (c : call A) : agrees (xperform c) (perform c).
Proof. apply agrees_nothrow. Qed.

Lemma agrees_printToX d : agrees (printToX d) (perform (print_stderr d)).
Proof. apply agrees_try, agrees_allocate, agrees_xperform. Qed.

Ltac xstep :=
  first [ agree_step
        | match goal with
          | |- agrees (printToX _) (perform _) => apply agrees_printToX
          | |- agrees (xperform _) (perform _) => apply agrees_xperform
          | |- agrees (xcalls _) (calls _) => apply agrees_xcalls
          | |- agrees (xmem _) (mem _) => apply agrees_xmem
          | |- agrees (xoutside _) (outside _) => apply agrees_xoutside
          end ].
Ltac xrun := repeat xstep.

Lemma registerDeviceMemoryX_agrees pd addr length access policy :
  agrees (registerDeviceMemoryX pd addr length access policy) (registerDeviceMemory pd addr length access policy).
Proof.
  unfold registerDeviceMemoryX, registerDeviceMemory. xrun.
  match goal with |- agrees _ (?p ≫= _) => apply (agrees_ext _ (r ← (_ ← p; mret None); _ ← close_DmabufFd z1; mret r)) end.
  - apply agrees_scope. xrun.
  - done.
Qed.

Lemma insert_entryX_agrees b key entry : agrees (insert_entryX b key entry) (insert_entry b key entry).
Proof. unfold insert_entryX, insert_entry. xrun. Qed.

Lemma make_sharedX_agrees e destroy : agrees (make_sharedX e destroy) (make_shared e).
Proof. by apply agrees_allocating. Qed.

Lemma agrees_make_insert b key e destroy :
  agrees (entry ← make_sharedX e destroy; insert_entryX b key entry) (entry ← make_shared e; insert_entry b key entry).
Proof. apply agrees_bind; [apply make_sharedX_agrees|intros ?; apply insert_entryX_agrees]. Qed.

Lemma registerBufferX_agrees b p n pd : agrees (registerBufferX b p n pd) (registerBuffer b p n pd).
Proof.
  unfold registerBufferX, registerBuffer. xrun;
    first [apply agrees_make_insert|apply make_sharedX_agrees|apply insert_entryX_agrees|apply registerDeviceMemoryX_agrees].
Qed.

Lemma registerHostBufferX_agrees b p n pd : agrees (registerHostBufferX b p n pd) (registerHostBuffer b p n pd).
Proof. unfold registerHostBufferX, registerHostBuffer. xrun; first [apply make_sharedX_agrees|apply insert_entryX_agrees]. Qed.

Lemma on_buffersX_agrees {A} id (f : BufferMap -> HX (A * BufferMap)) f' :
  (forall b, agrees (f b) (f' b)) -> agrees (on_buffersX id f) (on_buffers id f').
Proof. intros Hf. unfold on_buffersX, on_buffers. xrun. apply Hf. Qed.

Lemma release_loopX_agrees entry cs :
  agrees (release_loopX entry cs) ('(over, stay, run) ← release_loop entry cs; mret (over, stay, Returned run)).
Proof.
  induction cs as [|c cs IH]; intros t; [done|]. cbn [release_loopX release_loop].
  unfold nothrow, caught, mbind, X_bind, M_bind. cbn [fst snd]. destruct (_ && _).
  - rewrite (agrees_halts _ _ _ IH). unfold mbind, M_bind.
    destruct (release_loop entry cs t) as [[[[over stay] run]|e] t']; reflexivity.
  - change ((t, @nil bool).1) with t. destruct (isOver c t) as [[[]|e] t1]; [..|reflexivity]; cbn;
      rewrite (agrees_halts _ _ _ IH); unfold mbind, M_bind;
      destruct (release_loop entry cs t1) as [[[[over stay] run]|e] t']; reflexivity.
Qed.

Lemma release_copiesX_agrees entry a :
  agrees (release_copiesX entry a) ('(run, a) ← release_copies entry a; mret (Returned run, a)).
Proof.
  eapply (agrees_ext _ ('(over, stay, run) ← calls ('(over, stay, run) ← release_loop entry (copies_ a); mret (over, stay, Returned run));
                        _ ← destroy_copies over; mret (run, a <| copies_ := stay |>))).
  - unfold release_copiesX. xrun. apply release_loopX_agrees.
  - intros m. unfold release_copies, calls, zoom, mbind, M_bind.
    destruct (release_loop entry (copies_ a) (m_trace m)) as [[[[over stay] run]|e] t]; [|reflexivity]. cbn.
    destruct (destroy_copies over _) as [[[]|e] m']; reflexivity.
Qed.

Lemma on_abandonedX_agrees {A} id (f : AbandonedCopies -> HX (result A * AbandonedCopies)) f' :
  (forall a, agrees (f a) ('(x, a) ← f' a; mret (Returned x, a))) -> agrees (on_abandonedX id f) (on_abandoned id f').
Proof.
  intros Hf. unfold on_abandonedX, on_abandoned. apply agrees_bind; [apply agrees_nothrow|]. intros i.
  intros g. unfold mbind, X_bind, M_bind. rewrite (agrees_halts _ _ _ (agrees_xmem _ _ (Hf (abandoned i)))).
  unfold mem, zoom, nothrow, mbind, M_bind. cbn [fst snd].
  destruct (f' (abandoned i) (g_mem g)) as [[[x a]|e] m]; [cbn|reflexivity].
  destruct (update_inst id _ _) as [[[]|e] g']; reflexivity.
Qed.

Lemma checkNoAbandonedCopyX_agrees id buf : agrees (checkNoAbandonedCopyX id buf) (checkNoAbandonedCopy id buf).
Proof.
  unfold checkNoAbandonedCopyX, checkNoAbandonedCopy. xrun. apply on_abandonedX_agrees. intros. apply release_copiesX_agrees.
Qed.

Lemma reserve_throws_agrees id : agrees (reserve_throws id) (_ ← get_inst id; mret tt).
Proof. unfold reserve_throws. xrun; done. Qed.

(** Looking at an instance does nothing that changing it doesn't *)
Lemma get_then_update {A} id f (k : unit -> G A) g :
  (_ ← (_ ← get_inst id; mret tt); (update_inst id f ≫= k)) g = (update_inst id f ≫= k) g.
Proof.
  unfold update_inst, get_inst, read_inst, mbind, M_bind, get_state, mret, M_ret.
  destruct (g_insts g !! id) as [[i n]|] eqn:Hi; [|done]. by rewrite Hi.
Qed.

Lemma stageCopyWithDeadlineX_agrees id buf dst src n kind :
  agrees (stageCopyWithDeadlineX id buf dst src n kind) (stageCopyWithDeadline id buf dst src n kind).
Proof.
  eapply agrees_ext; [apply agrees_bind; [apply reserve_throws_agrees|intros u]|].
  - instantiate (1 := fun _ => stageCopyWithDeadline id buf dst src n kind). cbv beta. clear u.
    unfold stageCopyWithDeadline. cbv zeta. xrun.
  - intros g. apply get_then_update.
Qed.

Lemma stageToDeviceX_agrees id p buf n off : agrees (stageToDeviceX id p buf n off) (stageToDevice id p buf n off).
Proof. unfold stageToDeviceX, stageToDevice. xrun. apply stageCopyWithDeadlineX_agrees. Qed.

Lemma stageToHostX_agrees id p buf n off : agrees (stageToHostX id p buf n off) (stageToHost id p buf n off).
Proof. unfold stageToHostX, stageToHost. xrun. apply stageCopyWithDeadlineX_agrees. Qed.

Lemma poll_loopX_agrees fuel conn op ms deadline :
  agrees (poll_loopX fuel conn op ms deadline) (poll_loop fuel conn op ms deadline).
Proof. induction fuel as [|fuel IH]; cbn [poll_loopX poll_loop]; [done|]. xrun; apply IH. Qed.

Lemma pollCompletionX_agrees fuel conn op ms : agrees (pollCompletionX fuel conn op ms) (pollCompletion fuel conn op ms).
Proof. unfold pollCompletionX, pollCompletion. xrun. apply poll_loopX_agrees. Qed.

(** With the result wrapped as [caught] does *)
Definition wrapped {A C} (m : G (A * C)) : G (result A * C) := r ← m; mret (Returned (fst r), snd r).

Lemma finishTransferAfterReplyX_agrees id index reply sync ms :
  agrees (finishTransferAfterReplyX id index reply sync ms)
         (wrapped (finishTransferAfterReply id index reply sync ms)).
Proof.
  unfold finishTransferAfterReplyX, finishTransferAfterReply.
  set (fin := conn ← get_connection id index; _). set (finX := conn ← nothrow (get_connection id index); _).
  assert (agrees finX fin) as Hfin by (unfold finX, fin; xrun; apply pollCompletionX_agrees).
  clearbody fin finX. destruct (parsePeerTokenFromReply reply) as [peer|].
  - eapply agrees_ext.
    { apply agrees_bind; [apply agrees_nothrow|intros conn]. apply agrees_bind; [apply agrees_nothrow|intros ok].
      instantiate (1 := fun ok => if negb ok then mret (Returned false, true) else r ← fin; mret (Returned r, true)).
      cbn beta. xrun. apply Hfin. }
    intros g. unfold wrapped, mbind, M_bind. destruct (get_connection id index g) as [[conn|e] g1]; [|done].
    destruct (outside _ g1) as [[ok|e] g2]; [|done]. destruct ok; [cbn|done].
    destruct (fin g2) as [[r|e] g3]; reflexivity.
  - eapply agrees_ext; [apply agrees_caught_bind; [exact Hfin|intros ok; apply agrees_ret]|].
    intros g. unfold wrapped, mbind, M_bind. destruct (fin g) as [[r|e] g3]; reflexivity.
Qed.

Lemma injectRdmaTokenX_agrees ops token : agrees (injectRdmaTokenX (no_throw_ops ops) token) (injectRdmaToken ops token).
Proof. unfold injectRdmaTokenX, injectRdmaToken. cbn. destruct (sendRequest ops); cbn; xrun. Qed.

Lemma receiveRdmaReplyRawX_agrees ops buf :
  agrees (receiveRdmaReplyRawX (no_throw_ops ops) buf) (receiveRdmaReplyRaw ops buf).
Proof. unfold receiveRdmaReplyRawX, receiveRdmaReplyRaw. cbn. destruct (recvReply ops); cbn; xrun. Qed.

Lemma agrees_wrapped_bind {A C D} (m : GX A) m' (k : A -> GX (result C * D)) k' :
  agrees m m' -> (forall a, agrees (k a) (wrapped (k' a))) -> agrees (m ≫= k) (wrapped (m' ≫= k')).
Proof.
  intros Hm Hk. eapply agrees_ext; [apply agrees_bind; [exact Hm|exact Hk]|].
  intros g. unfold wrapped, mbind, M_bind. destruct (m' g) as [[a|e] g']; reflexivity.
Qed.

Lemma agrees_wrapped_caught {A C D} (m : GX A) m' (k : result A -> GX (result C * D)) k' :
  agrees m m' -> (forall a, agrees (k (Returned a)) (wrapped (k' a))) -> agrees (caught m ≫= k) (wrapped (m' ≫= k')).
Proof.
  intros Hm Hk. eapply agrees_ext; [apply agrees_caught_bind; [exact Hm|exact Hk]|].
  intros g. unfold wrapped, mbind, M_bind. destruct (m' g) as [[a|e] g']; reflexivity.
Qed.

(** What comes after it only has to agree on what's returned *)
Lemma agrees_unwrap {A C D} (m : GX (result A * C)) m' (k : result A * C -> GX D) k' :
  agrees m (wrapped m') -> (forall a c, agrees (k (Returned a, c)) (k' (a, c))) -> agrees (m ≫= k) (m' ≫= k').
Proof.
  intros Hm Hk g. unfold mbind, X_bind, M_bind, nothrow. rewrite (agrees_halts _ _ _ Hm).
  unfold wrapped, mbind, M_bind. cbn [fst snd]. destruct (m' g) as [[[a c]|e] g']; [apply Hk|done].
Qed.

Lemma leased_transferX_agrees id index buf n off ops :
  agrees (leased_transferX id index buf n off (no_throw_ops ops)) (wrapped (leased_transfer id index buf n off ops)).
Proof.
  unfold leased_transferX, leased_transfer.
  repeat (apply agrees_wrapped_bind; [apply agrees_nothrow|intros ?]).
  destruct (buildRdmaToken _ _ _ _) as [token|]; [|done].
  apply agrees_wrapped_caught; [apply injectRdmaTokenX_agrees|]. intros sent. destruct sent; cbn [negb]; [|done].
  apply agrees_wrapped_caught; [apply receiveRdmaReplyRawX_agrees|]. intros [reply|]; [|done].
  destruct (negb _); [done|]. repeat (apply agrees_wrapped_bind; [apply agrees_nothrow|intros ?]).
  unfold wrapped at 1. eapply agrees_ext.
  { apply agrees_unwrap; [apply finishTransferAfterReplyX_agrees|]. intros ok c.
    instantiate (1 := fun r => mret (Returned (makeError (if fst r : bool then hipObjSuccess else hipObjRdmaError)), snd r)). done. }
  intros g. unfold mbind, M_bind. destruct (finishTransferAfterReply _ _ _ _ _ g) as [[[[] c]|e] g']; reflexivity.
Qed.

Lemma runRdmaTransferX_agrees id buf n off ops :
  agrees (runRdmaTransferX id buf n off (no_throw_ops ops)) (runRdmaTransfer id buf n off ops).
Proof.
  unfold runRdmaTransferX, runRdmaTransfer. apply agrees_bind; [apply agrees_nothrow|]. intros [index|err]; [|done].
  apply agrees_unwrap; [apply leased_transferX_agrees|]. intros err c. cbn beta iota. xrun. done.
Qed.

(** *** Opening the device, and initialization *)

Lemma nic_infoX_agrees name p : agrees (nic_infoX name p) (nic_info name p).
Proof. unfold nic_infoX, nic_info. cbv zeta. xrun. Qed.

Lemma active_portX_agrees fuel ctx name n p : agrees (active_portX fuel ctx name n p) (active_port fuel ctx name n p).
Proof.
  revert p. induction fuel as [|fuel IH]; intros p; cbn [active_portX active_port]; [done|].
  xrun; first [apply IH|apply nic_infoX_agrees].
Qed.

(** A block that ends, and what comes after it *)
Lemma agrees_scope_bind {S A C} (body : X S A) m' destroy (k : A -> X S C) k' :
  agrees body m' -> (forall a, agrees (k a) (k' a)) ->
  agrees (scope body destroy ≫= k) (a ← m'; _ ← destroy; k' a).
Proof.
  intros Hb Hk. eapply agrees_ext; [apply agrees_bind; [by apply agrees_scope|exact Hk]|].
  intros s. unfold mbind, M_bind. destruct (m' s) as [[a|e] s']; [|done]. by destruct (destroy s') as [[[]|e] s2].
Qed.

Lemma enumerate_devicesX_agrees hcaList devs : agrees (enumerate_devicesX hcaList devs) (enumerate_devices hcaList devs).
Proof.
  induction devs as [|dev devs IH]; cbn [enumerate_devicesX enumerate_devices]; [done|].
  xrun; try apply IH.
  match goal with |- agrees (scope (_ (query_device ?c) ≫= _) _ ≫= _) _ => rename c into ctx end.
  eapply agrees_ext.
  { apply (agrees_scope_bind _ ('(st, attr) ← perform (query_device ctx);
             if negb (st =? 0) then mret None else active_port port_fuel ctx l (phys_port_cnt attr) 1) _ _
            (fun info => rest ← enumerate_devices hcaList devs; mret (option_list info ++ rest))).
    - xrun. apply active_portX_agrees.
    - intros info. xrun. apply IH. }
  intros t. unfold mbind, M_bind. destruct (perform (query_device ctx) t) as [[[st attr]|e] t1]; reflexivity.
Qed.

Lemma sysfs_enumerateX_agrees hcaList : agrees (sysfs_enumerateX hcaList) (sysfs_enumerate hcaList).
Proof. unfold sysfs_enumerateX, sysfs_enumerate. xrun. apply enumerate_devicesX_agrees. Qed.

Lemma sysfs_roceVersionX_agrees name p i : agrees (sysfs_roceVersionX name p i) (sysfs_roceVersion name p i).
Proof. unfold sysfs_roceVersionX, sysfs_roceVersion. cbv zeta. xrun; repeat case_match; done. Qed.

#[local] Existing Instance SysfsTopology.

Lemma gid_candidatesX_agrees ctx p ids : agrees (gid_candidatesX ctx p ids) (gid_candidates ctx p ids).
Proof.
  induction ids as [|i ids IH]; cbn [gid_candidatesX gid_candidates]; [done|].
  xrun; first [apply IH|apply sysfs_roceVersionX_agrees].
Qed.

Lemma SelectBestGidX_agrees ctx p : agrees (SelectBestGidX ctx p) (SelectBestGid ctx p).
Proof. unfold SelectBestGidX, SelectBestGid, AutoSelectGidIndex. xrun. apply gid_candidatesX_agrees. Qed.

Lemma GetClosestNicToGpuX_agrees gpu hcaList : agrees (GetClosestNicToGpuX gpu hcaList) (GetClosestNicToGpu gpu hcaList).
Proof. unfold GetClosestNicToGpuX, GetClosestNicToGpu. xrun. apply sysfs_enumerateX_agrees. Qed.

Lemma openRdmaDeviceX_agrees i : agrees (openRdmaDeviceX i) (openRdmaDevice i).
Proof. unfold openRdmaDeviceX, openRdmaDevice. cbv zeta. xrun. apply SelectBestGidX_agrees. Qed.

Lemma openRdmaDeviceByNameX_agrees name : agrees (openRdmaDeviceByNameX name) (openRdmaDeviceByName name).
Proof. unfold openRdmaDeviceByNameX, openRdmaDeviceByName. xrun. apply openRdmaDeviceX_agrees. Qed.

Lemma makeSystemPlatformX_agrees : agrees makeSystemPlatformX loadLibibverbs.
Proof.
  eapply agrees_ext.
  { unfold makeSystemPlatformX. apply agrees_bind; [apply agrees_nothrow|intros v]. instantiate (1 := mret). destruct v; done. }
  intros t. unfold mbind, M_bind. destruct (loadLibibverbs t) as [[v|e] t']; reflexivity.
Qed.

Lemma systemPlatformX_agrees : agrees systemPlatformX systemPlatform.
Proof. unfold systemPlatformX, systemPlatform. xrun. apply makeSystemPlatformX_agrees. Qed.

Lemma choose_nicX_agrees gpu hint : agrees (choose_nicX gpu hint) (choose_nic gpu hint).
Proof. unfold choose_nicX, choose_nic. xrun; try done; apply GetClosestNicToGpuX_agrees. Qed.

Lemma build_instanceX_agrees c opts : agrees (build_instanceX c opts) (build_instance c opts).
Proof.
  unfold build_instanceX, build_instance. cbv zeta.
  xrun; first [apply choose_nicX_agrees|apply openRdmaDeviceByNameX_agrees].
Qed.

Lemma initWithX_agrees c opts : agrees (initWithX c opts) (initWith c opts).
Proof. unfold initWithX, initWith. xrun. apply build_instanceX_agrees. Qed.

(** *** The public functions *)

Lemma with_instanceX_agrees {A} (fail : hipObjError_t -> A) body body' :
  (forall id, agrees (body id) (body' id)) -> agrees (with_instanceX fail body) (with_instance fail body').
Proof. intros Hb. unfold with_instanceX, with_instance. xrun. apply Hb. Qed.

Lemma with_bufferX_agrees {A} id p (body body' : option nat -> _ A) :
  (forall buf, agrees (body buf) (body' buf)) -> agrees (with_bufferX id p body) (with_buffer id p body').
Proof.
  intros Hb. unfold with_bufferX, with_buffer. xrun. apply Hb.
Qed.

Lemma if_okX_agrees {A} (fail : hipObjError_t -> A) err next next' :
  agrees next next' -> agrees (if_okX fail err next) (if_ok fail err next').
Proof. intros Hn. unfold if_okX, if_ok. by case_match. Qed.

Lemma with_checked_bufferX_agrees {A} (fail : hipObjError_t -> A) id p n off next next' :
  (forall buf, agrees (next buf) (next' buf)) ->
  agrees (with_checked_bufferX fail id p n off next) (with_checked_buffer fail id p n off next').
Proof.
  intros Hn. apply with_bufferX_agrees. intros [b|]; [|done]. apply agrees_bind; [done|intros e].
  apply if_okX_agrees, agrees_bind; [apply checkNoAbandonedCopyX_agrees|intros err]. apply if_okX_agrees, Hn.
Qed.

Lemma with_opsX_agrees ops next next' :
  (forall o, agrees (next (no_throw_ops o)) (next' o)) ->
  agrees (with_opsX (no_throw_ops <$> ops) next) (with_ops ops next').
Proof.
  intros Hn. unfold with_opsX, with_ops. destruct ops as [[[send|] [recv|]]|]; cbn; done.
Qed.

Lemma reclaimX_agrees a : agrees (reclaimX a) ('(x, a) ← (a ← reclaim a; mret (tt, a)); mret (Returned x, a)).
Proof.
  unfold reclaimX. eapply agrees_ext.
  { apply agrees_bind; [apply release_copiesX_agrees|]. intros [r a'].
    instantiate (1 := fun '(r, a) => mret (match r with Returned _ => Returned tt | Threw => Threw end, a)). done. }
  intros m. unfold reclaim, mbind, M_bind. destruct (release_copies None a m) as [[[r a']|e] m']; reflexivity.
Qed.

Ltac xapi_step :=
  match goal with
  | |- agrees (with_instanceX _ _) _ => apply with_instanceX_agrees; intros ?
  | |- agrees (if_okX _ _ _) _ => apply if_okX_agrees
  | |- agrees (with_opsX _ _) _ => apply with_opsX_agrees; intros ?
  | |- agrees (with_checked_bufferX _ _ _ _ _ _) _ => apply with_checked_bufferX_agrees; intros ?
  | |- agrees (on_buffersX _ _) _ => apply on_buffersX_agrees; intros ?
  | |- agrees (on_abandonedX _ _) _ => apply on_abandonedX_agrees; intros ?
  | |- agrees (registerBufferX _ _ _ _) _ => apply registerBufferX_agrees
  | |- agrees (registerHostBufferX _ _ _ _) _ => apply registerHostBufferX_agrees
  | |- agrees (reclaimX _) _ => apply reclaimX_agrees
  | |- agrees (runRdmaTransferX _ _ _ _ _) _ => apply runRdmaTransferX_agrees
  | |- agrees (stageToDeviceX _ _ _ _ _) _ => apply stageToDeviceX_agrees
  | |- agrees (stageToHostX _ _ _ _ _) _ => apply stageToHostX_agrees
  | |- agrees systemPlatformX _ => apply systemPlatformX_agrees
  | |- agrees (initWithX _ _) _ => apply initWithX_agrees
  | |- _ => xstep
  end.

Lemma hipObjGetRdmaTokenX_agrees p n op out : agrees (hipObjGetRdmaTokenX p n op out) (hipObjGetRdmaToken p n op out).
Proof. unfold hipObjGetRdmaTokenX, hipObjGetRdmaToken. repeat xapi_step. Qed.
(** ** Properties *)

(** C29: the exceptions are all that the functions with an X add: when no
    allocation fails, and the callbacks don't throw, each public function does
    what the one of [Api] does, from every state: it returns the same, leaves
    the same, makes the same calls, or stops for the same reason. *)
Theorem no_failure_no_exception :
  (forall config, agrees (hipObjInitX config) (@hipObjInit _ SysfsTopology config)) /\
  agrees hipObjShutdownX hipObjShutdown /\
  (forall p n, agrees (hipObjBufRegisterX p n) (hipObjBufRegister p n)) /\
  (forall p n, agrees (hipObjBufRegisterHostX p n) (hipObjBufRegisterHost p n)) /\
  (forall p, agrees (hipObjBufDeregisterX p) (hipObjBufDeregister p)) /\
  (forall p n off ops, agrees (hipObjGetX p n off (no_throw_ops <$> ops)) (hipObjGet p n off ops)) /\
  (forall p n off ops, agrees (hipObjPutX p n off (no_throw_ops <$> ops)) (hipObjPut p n off ops)) /\
  (forall p n off dir, agrees (hipObjBufSyncX p n off dir) (hipObjBufSync p n off dir)) /\
  (forall p n op out, agrees (hipObjGetRdmaTokenX p n op out) (hipObjGetRdmaToken p n op out)).
Proof.
  split_and!; intros.
  - unfold hipObjInitX, hipObjInit. repeat xapi_step.
  - by apply agrees_try.
  - unfold hipObjBufRegisterX, hipObjBufRegister. repeat xapi_step.
  - unfold hipObjBufRegisterHostX, hipObjBufRegisterHost. repeat xapi_step.
  - unfold hipObjBufDeregisterX, hipObjBufDeregister. repeat xapi_step.
  - unfold hipObjGetX, hipObjGet. repeat xapi_step.
  - unfold hipObjPutX, hipObjPut. repeat xapi_step.
  - unfold hipObjBufSyncX, hipObjBufSync. repeat xapi_step.
  - apply hipObjGetRdmaTokenX_agrees.
Qed.
End agreeing.
