(* ===== verification/ThrowingSafety.v ===== *)
(** * Exceptions do no harm

    Whatever allocation fails, and whatever callback throws, the library
    releases what it has opened, gives back what it has leased, and keeps its
    invariant; and no exception leaves it.  [ThrowingCode] has the functions. *)

From Stdlib Require Import Ascii String.
From stdpp Require Import base numbers list gmap.
From S2P Require Import Prelude.
From S2P Require Import Exceptions.
From S2P Require Import Token.
From S2P Require Import IbvCore.
From S2P Require Import World.
From S2P Require Import Verbs.
From S2P Require Import Topology.
From S2P Require Import Transport.
From S2P Require Import Pool.
From S2P Require Import Buffer.
From S2P Require Import Abandoned.
From S2P Require Import State.
From S2P Require Import Invariant.
From S2P Require Import Control.
From S2P Require Import Api.
From S2P Require Import ThrowingCode.
From S2P Require Import Safety.
From S2P Require Import Behaviour.

(** ** Definitions *)

(** Calls that open what [own] says, or nothing when they throw *)
Definition xacquires {A} (bad : stop -> Prop) (own : A -> list handle) (m : WX A) : Prop :=
  forall t, wpx bad m (fun a t' => forall h, bal h t' = bal h t + cnt h (own a)) (fun t' => forall h, bal h t' = bal h t) t.

(** Calls that leave open what was open *)
Definition xneutral {A} (bad : stop -> Prop) (m : WX A) : Prop :=
  forall t, wpx bad m (fun _ t' => forall h, bal h t' = bal h t) (fun t' => forall h, bal h t' = bal h t) t.

(** [m] preserves the invariant whether it returns or throws, when no other
    thread has a lease *)
Definition xkeeps (bad : stop -> Prop) (F : Frame) {A} (m : GX A) : Prop :=
  f_elsewhere F = [] -> forall g, Inv F g -> wpx bad m (fun _ => Inv F) (Inv F) g.

(** Calls of an application's own, that leave open what the library opens as
    it was, and may throw *)
Definition throwing_work {A} (m : WX A) : Prop := forall bad, xneutral bad m.

(** The programs of an application that may throw, and catch.  Its callbacks
    are such programs, and what they throw, the function that called them
    catches. *)
Inductive throwing_application `{World} `{BuildConfig} : forall A : Type, GX A -> Prop :=
| thr_ret {A} (a : A) : throwing_application A (mret a)
| thr_bind {A B} (m : GX A) (k : A -> GX B) :
    throwing_application A m -> (forall a, throwing_application B (k a)) -> throwing_application B (m ≫= k)
| thr_throw {A} : throwing_application A throw
| thr_caught {A} (m : GX A) : throwing_application A m -> throwing_application (result A) (caught m)
| thr_own {A} (m : WX A) : throwing_work m -> throwing_application A (xoutside m)
| thr_keep f : throwing_application unit (nothrow (modify (fun g => g <| g_app := f (g_app g) |>)))
| thr_recall : throwing_application chars (nothrow (g ← get_state; mret (g_app g)))
| thr_init config : throwing_application _ (hipObjInitX config)
| thr_shutdown : throwing_application _ hipObjShutdownX
| thr_register devPtr size : throwing_application _ (hipObjBufRegisterX devPtr size)
| thr_register_host hostPtr size : throwing_application _ (hipObjBufRegisterHostX hostPtr size)
| thr_deregister devPtr : throwing_application _ (hipObjBufDeregisterX devPtr)
| thr_get devPtr size offset ops :
    (forall o send token, ops = Some o -> xsendRequest o = Some send -> throwing_application _ (send token)) ->
    (forall o recv buf, ops = Some o -> xrecvReply o = Some recv -> throwing_application _ (recv buf)) ->
    throwing_application _ (hipObjGetX devPtr size offset ops)
| thr_put devPtr size offset ops :
    (forall o send token, ops = Some o -> xsendRequest o = Some send -> throwing_application _ (send token)) ->
    (forall o recv buf, ops = Some o -> xrecvReply o = Some recv -> throwing_application _ (recv buf)) ->
    throwing_application _ (hipObjPutX devPtr size offset ops)
| thr_sync devPtr size offset direction : throwing_application _ (hipObjBufSyncX devPtr size offset direction)
| thr_token devPtr size op outToken : throwing_application _ (hipObjGetRdmaTokenX devPtr size op outToken).

(** A program to try things with: its first read's callback throws, and its
    second one's throws for an upload from within *)
Definition throwing_ops_of `{World} (send : chars -> GX Z) : throwing_ops :=
  {| xsendRequest := Some send;
     xrecvReply := Some (fun buf => _ ← xoutside (xperform (application 7)); mret (0, copy_into (lit "200") buf, 3)) |}.

Definition throwing_demo `{World} `{BuildConfig} : GX (list hipObjOpError_t) :=
  a ← hipObjInitX (Some demo_config);
  b ← hipObjBufRegisterX 65536 4096;
  c ← hipObjGetX 65536 4096 0 (Some (throwing_ops_of (fun _ => throw)));
  d ← hipObjGetX 65536 4096 0 (Some (throwing_ops_of (fun _ =>
        e ← hipObjBufDeregisterX 65536; mret (if bool_decide (opError e = hipObjBusy) then 0 else 1))));
  mret (opError <$> [a; b; c; d]).

(** What a registration returns, and what it leaves *)
Definition register_outcome (p : Z) (g : Process) (r : hipObjError_t) (g' : Process) : Prop :=
  if decide (r = makeError hipObjSuccess) then
    exists id i n, g_current g' = Some id /\ g_insts g' !! id = Some (i, n) /\ is_Some (entries_ (buffers i) !! p)
  else unchanged g g'.

(** No exception leaves [m] *)
Definition noexcept {S A} (m : X S A) : Prop := forall s, fst (m s) <> inl Threw.

(** ** Lemmas *)

(** *** What doesn't throw *)

Section noexcept.
Context {S : Type}.

Lemma noexcept_ret {A} (a : A) : noexcept (mret a : X S A).
Proof. done. Qed.

Lemma noexcept_nothrow {A} (m : M S A) : noexcept (nothrow m).
Proof. intros s. unfold nothrow. by destruct (m (fst s)) as [[a|e] s']. Qed.

Lemma noexcept_bind {A B} (m : X S A) (k : A -> X S B) :
  noexcept m -> (forall a, noexcept (k a)) -> noexcept (m ≫= k).
Proof.
  intros Hm Hk s. specialize (Hm s). unfold mbind, X_bind. destruct (m s) as [[[a|]|e] s']; [apply Hk|done..].
Qed.

Lemma noexcept_caught {A} (m : X S A) : noexcept (caught m).
Proof. intros s. unfold caught. by destruct (m s) as [[r|e] s']. Qed.

Lemma noexcept_try {A} (m : X S A) handler : noexcept (try_catch m handler).
Proof. apply noexcept_bind; [apply noexcept_caught|]. intros []; apply noexcept_ret. Qed.

Lemma wpx_noexcept {A} bad (m : X S A) Q T (s : S) : noexcept m -> wpx bad m Q T s -> wpx bad m Q (fun _ => False) s.
Proof.
  intros Hn Hm fs. specialize (Hm fs). specialize (Hn (s, fs)). unfold wp in *.
  by destruct (m (s, fs)) as [[[a|]|e] s'].
Qed.
End noexcept.

Ltac noexcept_step :=
  match goal with
  | |- noexcept (mbind _ _) => apply noexcept_bind; [|intros ?]
  | |- noexcept (mret _) => apply noexcept_ret
  | |- noexcept (nothrow _) => apply noexcept_nothrow
  | |- noexcept (caught _) => apply noexcept_caught
  | |- noexcept (try_catch _ _) => apply noexcept_try
  | |- noexcept (let '_ := ?x in _) => destruct x
  | |- noexcept (if ?b then _ else _) => destruct b
  | |- noexcept (match ?x with _ => _ end) => destruct x
  end; cbn beta iota.

(** *** Calls *)

(** A message is printed, or dropped *)
Lemma wpx_printToX `{E : World} bad d (Q : unit -> trace -> Prop) T t :
  (forall t', (forall h, bal h t' = bal h t) -> Q tt t') -> wpx bad (printToX d) Q T t.
Proof.
  intros HQ. apply wpx_try, wpx_bind, wpx_allocate; [|by apply HQ].
  apply wpx_nothrow, wp_perform. intros []. apply HQ. intros h. cbn [bal delta]. lia.
Qed.

(** [xw] runs a program one step *)
Ltac xw :=
  match goal with
  | |- wpx _ (mbind _ _) _ _ _ => apply wpx_bind
  | |- wpx _ (mret _) _ _ _ => apply wpx_ret
  | |- wpx _ throw _ _ _ => apply wpx_throw
  | |- wpx _ allocate _ _ _ => apply wpx_allocate
  | |- wpx _ (xperform _) _ _ _ => apply wpx_nothrow, wp_perform; intros ?
  | |- wpx _ (printToX _) _ _ _ => apply wpx_printToX; intros ? ?
  | |- wpx _ (nothrow _) _ _ _ => apply wpx_nothrow
  | |- wpx _ (caught _) _ _ _ => apply wpx_caught
  | |- wpx _ (scope _ _) _ _ _ => apply wpx_scope
  | |- wpx _ (unwinding _ _) _ _ _ => apply wpx_unwinding
  | |- wpx _ (try_catch _ _) _ _ _ => apply wpx_try
  | |- wpx _ (if ?b then _ else _) _ _ _ => destruct b eqn:?
  | |- wpx _ (match ?x with _ => _ end) _ _ _ => destruct x eqn:?
  | |- wp _ _ _ _ => wstep
  end; simplify_eq; cbn [fst snd].
Ltac xwrun := repeat xw.

Section calls.
Context `{E : World} (bad : stop -> Prop).

Lemma wpx_neutral {A} (m : WX A) (Q : A -> trace -> Prop) (T : trace -> Prop) t :
  xneutral bad m -> (forall a t', (forall h, bal h t' = bal h t) -> Q a t') ->
  (forall t', (forall h, bal h t' = bal h t) -> T t') -> wpx bad m Q T t.
Proof. intros Hm HQ HT. eapply wpx_mono; [apply Hm|exact HQ|exact HT]. Qed.

Lemma wpx_acquires {A} own (m : WX A) (Q : A -> trace -> Prop) (T : trace -> Prop) t :
  xacquires bad own m -> (forall a t', (forall h, bal h t' = bal h t + cnt h (own a)) -> Q a t') ->
  (forall t', (forall h, bal h t' = bal h t) -> T t') -> wpx bad m Q T t.
Proof. intros Hm HQ HT. eapply wpx_mono; [apply Hm|exact HQ|exact HT]. Qed.

Lemma registerDeviceMemoryX_acquires pd a n acc pol : xacquires bad own_mr (registerDeviceMemoryX pd a n acc pol).
Proof.
  intros t. unfold registerDeviceMemoryX. xw.
  assert (forall t1 : trace, (forall h, bal h t1 = bal h t) ->
    wpx bad (xperform (reg_mr pd a n acc))
       (fun o t' => forall h, bal h t' = bal h t + cnt h (own_mr o)) (fun t' => forall h, bal h t' = bal h t) t1) as Hplain.
  { intros t1 H1. xw. destruct r; unfold own_mr; bal_solve. }
  eapply (wpx_neutral (if enabled pol then xperform supportsDmabuf else mret false)).
  { intros t1. xwrun; bal_solve. }
  2:{ bal_solve. }
  intros sup t1 H1. xw. destruct sup; [|xw; by apply Hplain].
  xw. xw. destruct r as [[st fd] off]. xw.
  { xw. eapply (wpx_neutral (if debug pol then printToX (ExportDmabufFailed st) else mret tt)).
    { intros t2. xwrun; bal_solve. }
    - intros _ t2 H2. xw. apply Hplain. bools. intros h. rewrite H2. cbn [bal delta].
      rewrite (proj2 (Z.eqb_neq st 0)) by done. rewrite H1. lia.
    - intros t2 H2 h. rewrite H2. bools. cbn [bal delta]. rewrite (proj2 (Z.eqb_neq st 0)) by done. rewrite H1. lia. }
  bools. subst st. unfold close_DmabufFd. xw. xw. destruct r as [m|].
  - xwrun. unfold own_mr. bal_solve.
  - xw. xw. xw. xw. xw.
    + xw. xw. xw. xw. xw. xw. apply Hplain. bal_solve.
    + xwrun. bal_solve.
Qed.

Lemma nic_infoX_neutral name p : xneutral bad (nic_infoX name p).
Proof. intros t. unfold nic_infoX. cbv zeta. xwrun; bal_solve. Qed.

Lemma active_portX_neutral fuel ctx name cnt p :
  bad OutOfFuel \/ (0 <= p /\ cnt < 255 /\ Z.max 0 (cnt + 1 - p) < Z.of_nat fuel) ->
  xneutral bad (active_portX fuel ctx name cnt p).
Proof.
  revert p. induction fuel as [|fuel IH]; intros p Hf t; cbn [active_portX].
  - apply wpx_nothrow, wp_halt. destruct Hf; [done|lia].
  - destruct (Z.leb_spec p cnt) as [Hp|Hp]; cbn [negb]; [|by xw].
    assert (forall t' : trace, (forall h, bal h t' = bal h t) ->
            wpx bad (active_portX fuel ctx name cnt (wrapu 8 (p + 1)))
               (fun _ t' => forall h, bal h t' = bal h t) (fun t' => forall h, bal h t' = bal h t) t') as Hnext.
    { intros t' Ht'. eapply wpx_neutral; [apply IH|intros ? ? H h; by rewrite H, Ht'|intros ? H h; by rewrite H, Ht'].
      destruct Hf as [|(Hp0 & Hc & Hm)]; [by left|right]. rewrite wrapu_small by (change (2 ^ 8) with 256; lia). lia. }
    xw. xw. destruct r as [st attr].
    destruct (negb (st =? 0)); [by apply Hnext|].
    destruct (negb _ && negb _); [by apply Hnext|].
    xw. eapply wpx_neutral; [apply nic_infoX_neutral|..].
    + intros info t1 H1. xwrun; intros h; by rewrite H1.
    + intros t1 H1 h. by rewrite H1.
Qed.

Hypothesis Hports : bad OutOfFuel \/ PortsFit E.

Lemma enumerate_devicesX_neutral hcaList devs : xneutral bad (enumerate_devicesX hcaList devs).
Proof.
  induction devs as [|dev devs IH]; intros t; cbn [enumerate_devicesX]; [by xw|].
  xw; [by xw|]. xw. xw.
  assert (forall t' : trace, (forall h, bal h t' = bal h t) ->
          wpx bad (enumerate_devicesX hcaList devs)
             (fun _ t' => forall h, bal h t' = bal h t) (fun t' => forall h, bal h t' = bal h t) t') as Hnext.
  { intros t' Ht'. eapply wpx_neutral; [apply IH|..]; intros; bal_solve. }
  destruct r as [name|]; [|by apply Hnext].
  destruct (negb _ && negb _); [by apply Hnext|].
  xw. xw. destruct r as [ctx|]; [|by apply Hnext].
  xw. xw. xw. apply wpx_nothrow, wp_perform_eq. destruct (respond _ (query_device ctx)) as [st attr] eqn:Hq.
  eapply (wpx_neutral (if negb (st =? 0) then mret None
      else active_portX port_fuel ctx name (phys_port_cnt attr) 1)).
  { destruct (negb (st =? 0)); [by intros ?; xw|]. apply active_portX_neutral.
    destruct Hports as [|Hp]; [by left|right].
    pose proof (ports_fit (Ev (open_device dev) (Some ctx) :: Ev (get_device_name dev) (Some name) :: t) ctx) as Hf.
    rewrite Hq in Hf. cbn [snd] in Hf. unfold port_fuel. lia. }
  - intros info t1 H1. apply wp_IbvContextDeleter. intros t2 H2.
    xw. eapply wpx_neutral; [apply IH|..]; intros; xwrun; bal_solve.
  - intros t1 H1. apply wp_IbvContextDeleter. intros t2 H2. bal_solve.
Qed.

Lemma sysfs_enumerateX_neutral hca : xneutral bad (sysfs_enumerateX hca).
Proof.
  intros t. unfold sysfs_enumerateX. xw. xw. destruct r as [[l|] num]; [|by xw].
  xw. eapply (wpx_neutral (if num <=? 0 then mret [] else enumerate_devicesX hca (deviceSpan (Some l) num))).
  { destruct (num <=? 0); [by intros ?; xw|]. apply enumerate_devicesX_neutral. }
  all: intros; apply wp_IbvDeviceListDeleter; intros t2 H2; bal_solve.
Qed.

Lemma sysfs_roceVersionX_neutral name p i : xneutral bad (sysfs_roceVersionX name p i).
Proof. intros t. unfold sysfs_roceVersionX. cbv zeta. xwrun; bal_solve. Qed.

Lemma gid_candidatesX_neutral ctx p ids : xneutral bad (gid_candidatesX ctx p ids).
Proof.
  induction ids as [|i ids IH]; intros t; cbn [gid_candidatesX]; [by xw|].
  xw. xw. destruct r as [st gid]. xw; [eapply wpx_neutral; [apply IH|..]; bal_solve|].
  xw; [eapply wpx_neutral; [apply IH|..]; bal_solve|].
  xw. eapply wpx_neutral; [apply sysfs_roceVersionX_neutral|..]; [intros v t1 H1|bal_solve].
  xw. xw; [|bal_solve]. xw. eapply wpx_neutral; [apply IH|..]; intros; xwrun; bal_solve.
Qed.

Lemma SelectBestGidX_neutral ctx p : xneutral bad (SelectBestGidX ctx p).
Proof.
  intros t. unfold SelectBestGidX. xw. xw. destruct r as [st attr]. xw; [by xw|].
  xw. eapply wpx_neutral; [apply gid_candidatesX_neutral|..]; intros; xwrun; bal_solve.
Qed.

Lemma GetClosestNicToGpuX_neutral gpu hca : xneutral bad (GetClosestNicToGpuX gpu hca).
Proof.
  intros t. unfold GetClosestNicToGpuX. xw. xw. destruct r as [err id]. xw; [by xw|]. xw. xw; [|bal_solve].
  xw. eapply wpx_neutral; [apply sysfs_enumerateX_neutral|..]; intros; xwrun; bal_solve.
Qed.
Lemma openRdmaDeviceX_acquires n : xacquires bad (own_opt own_device) (openRdmaDeviceX n).
Proof.
  intros t. unfold openRdmaDeviceX. xw. xw. destruct r as [devs num]. xw.
  { xw. xw. apply wp_IbvDeviceListDeleter. intros t1 H1. xw. destruct devs; bal_solve. }
  destruct devs as [l|]; [|done]. cbv zeta. xw.
  { xw. xw. apply wp_IbvDeviceListDeleter. intros t1 H1. xw. bal_solve. }
  xw. xw. xw. xw. apply wp_IbvDeviceListDeleter. intros t1 H1.
  destruct r as [ctx|]; [|xw; bal_solve].
  xw. xw. destruct r as [pd|].
  2:{ xw. xw. apply wp_destroy_device_parts. intros t2 H2. xw. bal_solve. }
  xw. xw. destruct r as [st attr]. xw.
  { xw. xw. apply wp_destroy_device_parts. intros t2 H2. xw. bal_solve. }
  xw. xw. eapply wpx_neutral; [apply SelectBestGidX_neutral|..].
  - intros best t2 H2. xw. xw. destruct r as [st' gid]. xw.
    { xw. xw. apply wp_destroy_device_parts. intros t3 H3. xw. bal_solve. }
    xw. xw. destruct r as [st3 dattr]. cbv zeta. xw. cbn [own_opt]. unfold own_device.
    cbn [dev_pd dev_context]. bal_solve.
  - intros t2 H2. apply wp_destroy_device_parts. intros t3 H3. bal_solve.
Qed.

Lemma openRdmaDeviceByNameX_acquires name : xacquires bad (own_opt own_device) (openRdmaDeviceByNameX name).
Proof.
  intros t. unfold openRdmaDeviceByNameX. xw; [xw; bal_solve|].
  xw. xw. destruct r as [devs num]. xw.
  { xw. xw. apply wp_IbvDeviceListDeleter. intros t1 H1. xw. destruct devs; bal_solve. }
  destruct devs as [l|]; [|done].
  xw. xw. eapply wp_neutral; [apply find_device_neutral|]. intros n t1 H1. xw.
  { xw. xw. apply wp_IbvDeviceListDeleter. intros t2 H2. xw. bal_solve. }
  xw. eapply wpx_acquires; [apply openRdmaDeviceX_acquires|..];
    intros; apply wp_IbvDeviceListDeleter; intros t3 H3; bal_solve.
Qed.

Lemma makeSystemPlatformX_acquires : xacquires bad own_verbs makeSystemPlatformX.
Proof.
  intros t. unfold makeSystemPlatformX. xw. xw. eapply wp_mono; [apply loadLibibverbs_spec|]. cbv beta.
  intros [v|] t1 [H1 Hv]; [|by xw]. xw. xw. xw; [by xw|].
  unfold DlCloseDeleter. xw; xwrun; intros h; cbn [bal delta]; rewrite H1; cbn [own_verbs]; unfold h_library.
  - rewrite Heqb. cbn. lia.
  - rewrite Heqb. cbn [cnt foldr]. unfold one. lia.
Qed.

Lemma choose_nicX_neutral gpu hint : xneutral bad (choose_nicX gpu hint).
Proof.
  intros t. unfold choose_nicX. xw. eapply (wpx_neutral (if 0 <=? gpu then _ else _)).
  { destruct (0 <=? gpu); [apply GetClosestNicToGpuX_neutral|by intros ?; xw]. }
  - intros nic t1 H1. xwrun; bal_solve.
  - bal_solve.
Qed.

Lemma build_instanceX_spec c opts t :
  maxTransfers opts < 2 ^ 64 ->
  wpx bad (build_instanceX c opts) (fun r t' =>
    (forall h, bal h t' = bal h t + cnt h (own_built r)) /\ built_ok (maxTransfers opts) r)
    (fun t' => forall h, bal h t' = bal h t) t.
Proof.
  intros Hmax. unfold build_instanceX. cbv zeta. xw. xw.
  eapply (wp_mono _ _ (fun r t' => (forall h, bal h t' = bal h t) /\
            match r with inr e => opError e <> hipObjSuccess | inl _ => True end)).
  { unfold choose_gpu. wrun; try destruct r; wrun; (split; [bal_solve|done]). }
  cbv beta. intros [gpu|e] t1 [H1 He]; [|xw; split; [unfold own_built; bal_solve|done]].
  xw. eapply wpx_neutral; [apply choose_nicX_neutral| |bal_solve]. intros nic t2 H2.
  destruct nic as [nic|]; [|xw; split; [unfold own_built; bal_solve|done]].
  xw. eapply wpx_acquires; [apply openRdmaDeviceByNameX_acquires| |bal_solve]. intros dev t3 H3.
  destruct dev as [dev|]; [|xw; split; [unfold own_built; bal_solve|done]].
  xw. xw. xw.
  2:{ apply wp_destroy_RdmaDevice. intros t4 H4. bal_solve. }
  xw. xw. eapply wp_acquires; [apply createRcConnection_acquires|]. intros tok t4 H4.
  destruct tok as [tok|].
  2:{ xw. xw. apply wp_destroy_RdmaDevice. intros t5 H5. xw. split; [unfold own_built; bal_solve|done]. }
  xw. xw. xw.
  2:{ apply wp_bind, wp_destroy_RcConnection. intros t5 H5. apply wp_destroy_RdmaDevice. intros t6 H6. bal_solve. }
  xw. xw. unfold new_Instance. wstep. eapply wp_mono; [by apply new_pool_spec|]. cbv beta.
  intros p t5 (H5 & Hp & Hcl & _ & Hfree). wstep. xw. split.
  - intros h. cbn [own_built]. rewrite H5, H4, H3, H2, H1, cnt_own_instance.
    cbn [set_field options config device tokenConn pool buffers abandoned copies_ capacity_ reserved_].
    change (cnt h (own_copies (copies_ new_AbandonedCopies))) with 0. cbn [own_opt]. lia.
  - split_and!; try done.
Qed.
End calls.

(** *** Registering memory *)

(** What a registration that throws leaves: the memory as it was, but for
    calls that left open what was open, and the numbers of entries that are
    gone *)
Definition undone (m m' : Mem) : Prop :=
  exists t n, (m_next m <= n)%nat /\ (forall h, bal h t = bal h (m_trace m)) /\ m' = m <| m_trace := t |> <| m_next := n |>.

Section memory.
Context `{E : World} (bad : stop -> Prop).

Lemma undone_step m m' : mem_ok m -> undone m m' -> mem_step none none m m'.
Proof.
  intros [A1 A2 A3] (t & n & Hn & Hb & ->). split; cbn.
  - split; cbn; [done| |done]. intros id Hid. apply A2. lia.
  - intros id. unfold refs, none. cbn. lia.
  - intros h. change (unowned h (m <| m_trace := t |>) = unowned h m + none h). rewrite unowned_calls, Hb. unfold none. lia.
  - done.
  - intros id e k _ He. by exists e, k.
Qed.

Lemma undone_calls m t : (forall h, bal h t = bal h (m_trace m)) -> undone m (m <| m_trace := t |>).
Proof. intros Hb. exists t, (m_next m). by destruct m. Qed.

Lemma wp_calls_at {A} (m : W A) (Q : A -> Mem -> Prop) mm t :
  wp bad m (fun a t' => Q a (mm <| m_trace := t' |>)) t -> wp bad (calls m) Q (mm <| m_trace := t |>).
Proof. intros HQ. unfold calls. apply wp_zoom. exact HQ. Qed.

Lemma wpx_xcalls_at {A} (m : WX A) (Q : A -> Mem -> Prop) T mm t :
  wpx bad m (fun a t' => Q a (mm <| m_trace := t' |>)) (fun t' => T (mm <| m_trace := t' |>)) t ->
  wpx bad (xcalls m) Q T (mm <| m_trace := t |>).
Proof. intros HQ. unfold xcalls. apply wpx_xzoom. exact HQ. Qed.

(** An entry that was just made, and isn't inserted *)
Lemma wp_drop_new e Q m t :
  mem_ok m -> leakHostBuf e = false -> (forall h, bal h t = bal h (m_trace m) + cnt h (own_entry e)) ->
  (forall m', undone m m' -> Q tt m') ->
  wp bad (drop_ref (m_next m)) Q
    (m <| m_trace := t |> <| m_ents := <[m_next m := (e, 1%nat)]> (m_ents m) |> <| m_next := S (m_next m) |>).
Proof.
  intros Hok Hleak Hb HQ. unfold drop_ref, read_entry. apply wp_bind, wp_bind, wp_get. cbn.
  rewrite lookup_insert_eq. apply wp_ret, wp_bind, wp_modify. cbn.
  rewrite delete_insert_id by (by apply (mem_fresh m)).
  unfold destroy_BufEntry. rewrite Hleak. apply wp_bind, wp_ret, wp_bind.
  match goal with |- wp _ _ _ ?s => change s with (m <| m_next := S (m_next m) |> <| m_trace := t |>) end.
  apply wp_calls_at, wp_IbvMrDeleter. intros t1 H1.
  apply wp_calls_at, wp_HostBufDeleter. intros t2 H2. apply HQ. exists t2, (S (m_next m)). split_and!; [lia| |done].
  intros h. rewrite H2, H1, Hb. unfold own_entry. rewrite cnt_app. lia.
Qed.

(** Making an entry, and inserting it *)
Lemma wpx_make_insertX b key e destroy Q T m t :
  mem_ok m -> leakHostBuf e = false -> (forall h, bal h t = bal h (m_trace m) + cnt h (own_entry e)) ->
  (forall R, (forall t', (forall h, bal h t' = bal h (m_trace m)) -> R tt (m <| m_trace := t' |>)) ->
     wp bad destroy R (m <| m_trace := t |>)) ->
  refusal b key = None ->
  (forall b' m', map_step none m b m' b' -> is_Some (entries_ b' !! key) -> Q (Registered, b') m') ->
  (forall m', undone m m' -> T m') ->
  wpx bad (entry ← make_sharedX e destroy; insert_entryX b key entry) Q T (m <| m_trace := t |>).
Proof.
  intros Hok Hleak Hb Hd Hr HQ HT. unfold make_sharedX, insert_entryX. rewrite Hr.
  apply wpx_bind, wpx_bind, wpx_unwinding, wpx_allocate.
  2:{ apply Hd. intros t' Ht'. by apply HT, undone_calls. }
  assert (mem_step none (fun h => cnt h (own_entry e)) m (m <| m_trace := t |>)) as S1.
  { split; cbn; [by destruct Hok; split|..|done|].
    - intros id. unfold refs, none. cbn. lia.
    - intros h. rewrite unowned_calls, Hb. lia.
    - intros id x k _ He. by exists x, k. }
  pose proof (wp_make_insert bad b key e (fun r m' => exists b', r = (Registered, b') /\ map_step none m b m' b')
    _ _ _ S1 (fun _ => eq_refl) Hr) as Hins.
  unfold wp, mbind, M_bind in Hins. cbn in Hins. unfold insert_entry in Hins. rewrite Hr in Hins. cbn in Hins.
  destruct Hins as (b' & Hb' & Hmap); [by eauto|]. injection Hb' as <-.
  apply wpx_nothrow. unfold make_shared. apply wp_bind, wp_get, wp_bind, wp_put, wp_ret. cbn.
  apply wpx_bind, wpx_unwinding, wpx_allocate.
  { apply wpx_ret, HQ; [done|]. exists (m_next m). apply lookup_insert_eq. }
  by apply wp_drop_new.
Qed.

Lemma refused_not_registered b key r : refusal b key = Some r -> r <> Registered.
Proof. unfold refusal. repeat case_match; intros; by simplify_eq. Qed.

Lemma map_step_undone b m m' : mem_ok m -> undone m m' -> map_step none m b m' b.
Proof. intros Hok Hu. by apply map_step_mem, undone_step. Qed.

(** The entry that's about to be made owns what has been opened *)
Lemma wpx_registerBufferX b p n pd Q T m :
  mem_ok m -> (forall b' m', map_step none m b m' b' -> is_Some (entries_ b' !! p) -> Q (Registered, b') m') ->
  (forall r m', r <> Registered -> undone m m' -> Q (r, b) m') -> (forall m', undone m m' -> T m') ->
  wpx bad (registerBufferX b p n pd) Q T m.
Proof.
  intros Hok HQ HR HT. unfold registerBufferX.
  assert (forall r t, r <> Registered -> (forall h, bal h t = bal h (m_trace m)) -> Q (r, b) (m <| m_trace := t |>)) as Hno
    by (intros; by apply HR, undone_calls).
  assert (m = m <| m_trace := m_trace m |>) as Hm by by destruct m.
  xw; [xw; rewrite Hm; by apply Hno|]. unfold precheck.
  destruct (refusal b p) as [r|] eqn:Hr; [xw; rewrite Hm; apply Hno; [by eapply refused_not_registered|done]|].
  rewrite Hm. xw. apply wpx_xcalls_at. eapply wpx_acquires; [apply registerDeviceMemoryX_acquires|..].
  2:{ intros t1 H1. by apply HT, undone_calls. }
  intros [x|] t1 H1; cbn [own_mr] in H1.
  { apply wpx_make_insertX; [done..| |done|by apply HQ|done].
    intros R Hd. apply wp_calls_at, wp_IbvMrDeleter. intros t2 H2. apply Hd. intros h. rewrite H2, H1. lia. }
  assert (forall h, bal h t1 = bal h (m_trace m)) as H1' by (intros h; rewrite H1; cbn; lia). clear H1.
  xw. xw. apply wp_calls_at. eapply wp_neutral; [apply isDevicePointer_neutral|]. intros dev t2 H2.
  destruct (dev && requireGpuDirect_ b).
  { xw. apply wpx_xcalls_at, wpx_printToX. intros t3 H3. xw. apply Hno; [done|]. intros h. rewrite H3, H2, H1'. lia. }
  xw. eapply (wpx_mono _ _ (fun _ m' => exists t3, m' = m <| m_trace := t3 |> /\ forall h, bal h t3 = bal h (m_trace m))
    _ (fun _ => False)); [| |done].
  { destruct dev.
    - apply wpx_xcalls_at, wpx_printToX. intros t3 H3. eexists. split; [reflexivity|]. intros h. rewrite H3, H2, H1'. lia.
    - apply wpx_ret. exists t2. split; [done|]. intros h. by rewrite H2, H1'. }
  cbv beta. intros _ m3 (t3 & -> & H3). xw. xw. apply wp_calls_at, wp_perform. intros [err q].
  destruct (err =? hipSuccess) eqn:Herr; cbn [negb orb].
  2:{ xw. apply Hno; [done|]. intros h. cbn [bal delta fst snd]. rewrite Herr, H3. lia. }
  destruct (q =? 0) eqn:Hq.
  { xw. apply Hno; [done|]. intros h. cbn [bal delta fst snd]. rewrite Herr, H3. unfold h_hostbuf. rewrite Hq. cbn. lia. }
  xw. xw. apply wp_calls_at, wp_perform. intros [x|].
  - apply wpx_make_insertX; [done..| | |done|by apply HQ|done].
    + intros h. cbn [bal delta fst snd]. rewrite Herr, H3. unfold own_entry.
      cbn [mr hostBuf]. rewrite cnt_app. cbn [cnt foldr]. unfold one. lia.
    + intros R Hd. apply wp_bind, wp_calls_at, wp_IbvMrDeleter. intros t4 H4. apply wp_calls_at, wp_HostBufDeleter.
      intros t5 H5. apply Hd. intros h. rewrite H5, H4. cbn [bal delta fst snd]. rewrite Herr, H3.
      cbn [cnt foldr]. unfold one. lia.
  - xw. xw. apply wp_calls_at, wp_HostBufDeleter. intros t5 H5. xw. apply Hno; [done|].
    intros h. rewrite H5. cbn [bal delta fst snd]. rewrite Herr, H3. lia.
Qed.

Lemma wpx_registerHostBufferX b p n pd Q T m :
  mem_ok m -> (forall b' m', map_step none m b m' b' -> is_Some (entries_ b' !! p) -> Q (Registered, b') m') ->
  (forall r m', r <> Registered -> undone m m' -> Q (r, b) m') -> (forall m', undone m m' -> T m') ->
  wpx bad (registerHostBufferX b p n pd) Q T m.
Proof.
  intros Hok HQ HR HT. unfold registerHostBufferX.
  assert (forall r t, r <> Registered -> (forall h, bal h t = bal h (m_trace m)) -> Q (r, b) (m <| m_trace := t |>)) as Hno
    by (intros; by apply HR, undone_calls).
  assert (m = m <| m_trace := m_trace m |>) as Hm by by destruct m.
  xw; [xw; rewrite Hm; by apply Hno|]. unfold precheck.
  destruct (refusal b p) as [r|] eqn:Hr; [xw; rewrite Hm; apply Hno; [by eapply refused_not_registered|done]|].
  rewrite Hm. xw. xw. apply wp_calls_at, wp_perform. intros [x|].
  - apply wpx_make_insertX; [done..| | |done|by apply HQ|done].
    + intros h. cbn [bal delta]. unfold own_entry. cbn. unfold one. lia.
    + intros R Hd. apply wp_calls_at, wp_IbvMrDeleter. intros t2 H2. apply Hd. intros h. rewrite H2.
      cbn [bal delta cnt foldr]. unfold one. lia.
  - xw. apply Hno; [done|]. intros h. cbn [bal delta]. lia.
Qed.

(** *** Abandoned copies *)

(** The copies that stay, and those that are released, are all there were *)
Lemma release_loopX_spec entry cs t :
  wpx bad (release_loopX entry cs) (fun r t' =>
    (forall h, bal h t' = bal h t) /\ split_of None cs (fst (fst r)) (snd (fst r)) false)
    (fun _ => False) t.
Proof.
  revert t. induction cs as [|c cs IH]; intros t; cbn [release_loopX].
  { xw. split; [done|]. by split_and!. }
  assert (forall over stay, split_of None cs over stay false -> split_of None (c :: cs) (c :: over) stay false) as Hover.
  { intros over stay (H1 & H2 & H3 & _). split_and!; [..|done|done].
    - intros h. rewrite !own_copies_cons, H1. lia.
    - intros id. rewrite !copy_refs_cons, H2. lia.
    - simpl. lia. }
  assert (forall over stay, split_of None cs over stay false -> split_of None (c :: cs) over (c :: stay) false) as Hstay.
  { intros over stay (H1 & H2 & H3 & _). split_and!; [..|done|done].
    - intros h. rewrite !own_copies_cons, H1. lia.
    - intros id. rewrite !copy_refs_cons, H2. lia.
    - simpl. lia. }
  xw.
  - xw. eapply wpx_mono; [apply IH| |done]. cbv beta. intros [[over stay] run] t1 [Hb Hs]. xw. split; [done|]. by apply Hstay.
  - xw. xw. eapply wp_neutral; [apply isOver_neutral|]. intros o t1 Ho. destruct o.
    + xw. xw. xw.
      * xw. eapply wpx_mono; [apply IH| |done]. cbv beta. intros [[over stay] run] t2 [Hb Hs]. xw.
        split; [intros h; by rewrite Hb, Ho|]. by apply Hover.
      * xw. split; [done|]. split_and!; try done; cbn; lia.
    + xw. eapply wpx_mono; [apply IH| |done]. cbv beta. intros [[over stay] run] t2 [Hb Hs]. xw.
      split; [intros h; by rewrite Hb, Ho|]. by apply Hstay.
Qed.

Lemma wpx_release_copiesX entry a Q T m :
  mem_ok m -> (forall id, copy_refs id (copies_ a) <= refs id m) ->
  (forall r a' m',
     mem_step (fun id => copy_refs id (copies_ a') - copy_refs id (copies_ a))
              (fun h => cnt h (own_copies (copies_ a')) - cnt h (own_copies (copies_ a))) m m' ->
     capacity_ a' = capacity_ a -> reserved_ a' = reserved_ a -> copies_size a' <= copies_size a ->
     Q (r, a') m') ->
  wpx bad (release_copiesX entry a) Q T m.
Proof.
  intros Hok Hr HQ. unfold release_copiesX.
  assert (m = m <| m_trace := m_trace m |>) as Hm by by destruct m.
  rewrite Hm. xw. apply wpx_xcalls_at. eapply wpx_mono; [apply release_loopX_spec| |done]. cbv beta.
  intros [[over stay] run] t [Hb (H1 & H2 & H3 & _)]. cbn [fst snd] in *.
  pose proof (undone_step _ _ Hok (undone_calls _ _ Hb)) as S1.
  xw. xw. apply wp_destroy_copies; [apply S1| |].
  { intros id. destruct S1 as [_ S1 _ _ _]. rewrite S1. specialize (Hr id). rewrite H2 in Hr.
    pose proof (cnt_nonneg id (copy_entry <$> stay)). unfold none, copy_refs in *. lia. }
  intros m2 S2. xw. apply HQ; try done.
  - step_done; simpl; [rewrite H2; lia|rewrite H1; lia].
  - unfold copies_size. simpl. lia.
Qed.
End memory.

(** *** Programs that keep the invariant *)

Section xkeeps.
Context `{E : World} `{B : BuildConfig} (bad : stop -> Prop).
Implicit Types F : Frame.

Lemma Inv_calls F g t :
  Inv F g -> (forall h, bal h t = bal h (m_trace (g_mem g))) -> Inv F (g <| g_mem := (g_mem g) <| m_trace := t |> |>).
Proof.
  intros HI Hb. rewrite <- (frame_eta F). apply Inv_mem; [done|].
  eapply mem_step_ext; [apply calls_step; [apply HI|done]| |done]. intros; cbv beta; unfold none; lia.
Qed.

Lemma xkeeps_ret F {A} (a : A) : xkeeps bad F (mret a).
Proof. intros _ g HI. by apply wpx_ret. Qed.

Lemma xkeeps_throw F {A} : xkeeps bad F (throw (A := A)).
Proof. intros _ g HI. by apply wpx_throw. Qed.

Lemma xkeeps_rethrow F {A} (r : result A) : xkeeps bad F (rethrow r).
Proof. destruct r; [apply xkeeps_ret|apply xkeeps_throw]. Qed.

Lemma xkeeps_allocate F : xkeeps bad F allocate.
Proof. intros _ g HI. by apply wpx_allocate. Qed.

Lemma xkeeps_bind F {A D} (m : GX A) (k : A -> GX D) :
  xkeeps bad F m -> (forall a, xkeeps bad F (k a)) -> xkeeps bad F (m ≫= k).
Proof.
  intros Hm Hk Hal g HI. apply wpx_bind. eapply wpx_mono; [by apply Hm|..]; cbv beta; [|done]. intros a g' HI'. by apply Hk.
Qed.

Lemma xkeeps_nothrow F {A} (m : G A) : keeps bad F m -> xkeeps bad F (nothrow m).
Proof. intros Hm Hal g HI. apply wpx_nothrow. by apply Hm. Qed.

Lemma xkeeps_caught F {A} (m : GX A) : xkeeps bad F m -> xkeeps bad F (caught m).
Proof. intros Hm Hal g HI. apply wpx_caught. by apply Hm. Qed.

Lemma xkeeps_try F {A} (m : GX A) handler : xkeeps bad F m -> xkeeps bad F (try_catch m handler).
Proof. intros Hm Hal g HI. apply wpx_try. by apply Hm. Qed.

Lemma xkeeps_if_okX F {A} (fail : hipObjError_t -> A) err next :
  xkeeps bad F next -> xkeeps bad F (if_okX fail err next).
Proof. intros Hn. unfold if_okX. case_bool_decide; [done|apply xkeeps_ret]. Qed.

Lemma xkeeps_xoutside F {A} (m : WX A) : xneutral bad m -> xkeeps bad F (xoutside m).
Proof.
  intros Hm _ g HI. unfold xoutside, xmem, xcalls. apply wpx_xzoom, wpx_xzoom.
  eapply wpx_neutral; [exact Hm|..]; intros; by apply Inv_calls.
Qed.

(** *** Operations on an instance *)

Lemma wpx_xmem_at g id n {A} (x : HX A) i m (Q : A -> Process -> Prop) T :
  wpx bad x (fun a m' => Q a (at_inst g id n i m')) (fun m' => T (at_inst g id n i m')) m ->
  wpx bad (xmem x) Q T (at_inst g id n i m).
Proof. intros HQ. unfold xmem. by apply wpx_xzoom. Qed.

(** Memory that changed, and an instance that didn't *)
Lemma Inv_at_undone F g id i n m' :
  Inv F g -> g_insts g !! id = Some (i, n) -> undone (g_mem g) m' -> Inv F (at_inst g id n i m').
Proof.
  intros HI Hi Hu. pose proof (undone_step _ _ (inv_mem _ _ HI) Hu) as Hs.
  apply Inv_at with i; [done..| |exact (inv_insts _ _ HI _ _ _ Hi)].
  eapply mem_step_ext; [exact Hs|..]; intros; cbv beta; unfold none; lia.
Qed.

Lemma wpx_on_buffersX_at g id n {A} (f : BufferMap -> HX (A * BufferMap)) i m (Q : A -> Process -> Prop) T :
  wpx bad (f (buffers i)) (fun r m' => Q (fst r) (at_inst g id n (i <| buffers := snd r |>) m'))
    (fun m' => T (at_inst g id n i m')) m ->
  wpx bad (on_buffersX id f) Q T (at_inst g id n i m).
Proof.
  intros HQ. unfold on_buffersX. apply wpx_bind, wpx_nothrow, wp_get_at, wpx_bind, wpx_xmem_at.
  eapply wpx_mono; [exact HQ|..]; cbv beta; [|done]. intros [a b] m' H. by apply wpx_bind, wpx_nothrow, wp_update_at, wpx_ret.
Qed.

Lemma xkeeps_on_buffersX F {A} id (f : BufferMap -> HX (A * BufferMap)) :
  id ∈ f_insts F ->
  (forall b m Q T, mem_ok m -> map_alive b m ->
     (forall r b' m', map_step none m b m' b' -> Q (r, b') m') -> (forall m', undone m m' -> T m') -> wpx bad (f b) Q T m) ->
  xkeeps bad F (on_buffersX id f).
Proof.
  intros Hid Hf _ g HI. destruct (Inv_held _ _ _ HI Hid) as (i & n & Hi).
  rewrite (at_inst_start _ _ _ _ Hi) at 1. apply wpx_on_buffersX_at.
  destruct (Inv_alive _ _ _ _ _ HI Hi) as [Ha _].
  apply Hf; [apply HI|done|..]; [|by intros; eapply Inv_at_undone]. intros r b m' [Hm Hb _].
  destruct (inv_insts _ _ HI _ _ _ Hi) as [K1 K2 K3 K4].
  apply Inv_at with i; [done..| |split; cbn; auto].
  eapply mem_step_ext; [exact Hm|..].
  - intros e. unfold inst_refs, none. cbn. lia.
  - intros h. rewrite !cnt_own_instance. isimpl. unfold none. lia.
Qed.

Lemma xkeeps_on_abandonedX F {A} id (f : AbandonedCopies -> HX (result A * AbandonedCopies)) :
  id ∈ f_insts F ->
  (forall a m Q T, mem_ok m -> (forall e, copy_refs e (copies_ a) <= refs e m) ->
     (forall r a' m',
        mem_step (fun e => copy_refs e (copies_ a') - copy_refs e (copies_ a))
                 (fun h => cnt h (own_copies (copies_ a')) - cnt h (own_copies (copies_ a))) m m' ->
        capacity_ a' = capacity_ a -> reserved_ a' = reserved_ a -> copies_size a' <= copies_size a ->
        Q (r, a') m') -> wpx bad (f a) Q T m) ->
  xkeeps bad F (on_abandonedX id f).
Proof.
  intros Hid Hf Hal g HI. destruct (Inv_held _ _ _ HI Hid) as (i & n & Hi).
  rewrite (at_inst_start _ _ _ _ Hi) at 1. unfold on_abandonedX. apply wpx_bind, wpx_nothrow, wp_get_at.
  apply wpx_bind, wpx_xmem_at. destruct (Inv_alive _ _ _ _ _ HI Hi) as [_ Hc].
  apply Hf; [apply HI|done|]. intros r a m' Hm Hcap Hres Hsz.
  apply wpx_bind, wpx_nothrow, wp_update_at. apply xkeeps_rethrow; [done|].
  destruct (inv_insts _ _ HI _ _ _ Hi) as [K1 K2 K3 K4]. apply Inv_at with i; [done..| |].
  - eapply mem_step_ext; [exact Hm|..].
    + intros e. unfold inst_refs. cbn. lia.
    + intros h. rewrite !cnt_own_instance. isimpl. lia.
  - split; cbn; [done|done| |congruence]. unfold roomy in *. rewrite Hcap, Hres. lia.
Qed.

(** *** Scopes *)

Lemma xkeeps_with_instanceX F {A} (fail : hipObjError_t -> A) body :
  (forall id, xkeeps bad (hold_inst id F) (body id)) -> xkeeps bad F (with_instanceX fail body).
Proof.
  intros Hb Hal g HI. unfold with_instanceX. apply wpx_bind, wpx_nothrow. apply (wp_currentInstance _ _ F); [done|..].
  - intros _. by apply wpx_ret.
  - intros id g1 _ HI1. apply wpx_scope. eapply wpx_mono; [by apply Hb|..]; cbv beta; intros;
      (eapply wp_mono; [apply (keeps_drop_inst _ F)|]; [done|by destruct HI|by intros]).
Qed.

Lemma xkeeps_with_bufferX F {A} id p (body : option nat -> GX A) :
  id ∈ f_insts F -> xkeeps bad F (body None) -> (forall e, xkeeps bad (hold_ent e F) (body (Some e))) ->
  xkeeps bad F (with_bufferX id p body).
Proof.
  intros Hid HN HS Hal g HI. unfold with_bufferX.
  apply wpx_bind, wpx_nothrow. destruct (Inv_held _ _ _ HI Hid) as (i & n & Hi).
  assert (forall (Q : option nat -> Process -> Prop), (forall g', Inv F g' -> Q None g') ->
            (forall e g', Inv (hold_ent e F) g' -> Q (Some e) g') -> wp bad (mem (find (buffers i) p)) Q g) as Hfind.
  { intros Q H1 H2. pose proof (wp_find_held bad F id p Q g HI Hid H1 H2) as Hw. revert Hw.
    unfold wp, get_inst, read_inst, mbind, M_bind, get_state. by rewrite Hi. }
  eapply wp_get_inst; [exact Hi|]. apply wpx_bind, wpx_nothrow, Hfind.
  - intros g1 HI1. apply wpx_scope. eapply wpx_mono; [by apply HN|..]; cbv beta; intros; by apply wp_ret.
  - intros e g1 HI1. apply wpx_scope. eapply wpx_mono; [by apply HS|..]; cbv beta; intros;
      (apply (wp_drop_held _ _ _ F); [done|]; by intros).
Qed.
End xkeeps.

(** The steps that [xkeeps] is closed under *)
Ltac xkstep :=
  match goal with
  | |- xkeeps _ _ (mbind _ _) => apply xkeeps_bind; [|intros ?]
  | |- xkeeps _ _ (mret _) => apply xkeeps_ret
  | |- xkeeps _ _ throw => apply xkeeps_throw
  | |- xkeeps _ _ (rethrow _) => apply xkeeps_rethrow
  | |- xkeeps _ _ allocate => apply xkeeps_allocate
  | |- xkeeps _ _ (caught _) => apply xkeeps_caught
  | |- xkeeps _ _ (try_catch _ _) => apply xkeeps_try
  | |- xkeeps _ _ (nothrow _) => apply xkeeps_nothrow
  | |- xkeeps _ _ (if_okX _ _ _) => apply xkeeps_if_okX
  | |- xkeeps _ _ (with_instanceX _ _) => apply xkeeps_with_instanceX; intros ?
  | |- xkeeps _ _ (let '_ := ?x in _) => destruct x eqn:?
  | |- xkeeps _ _ (if ?b then _ else _) => destruct b eqn:?
  | |- xkeeps _ _ (match ?x with _ => _ end) => destruct x eqn:?
  | |- keeps _ _ _ => kstep
  end; cbn beta iota.
Ltac xkrun := repeat xkstep.

Section transfers.
Context `{E : World} `{B : BuildConfig} (bad : stop -> Prop).
Context (Hclock : bad OutOfFuel \/ SteadyClock E) (Hports : bad OutOfFuel \/ PortsFit E).
Implicit Types F : Frame.

Lemma xkeeps_checkNoAbandonedCopyX F id buf :
  id ∈ f_insts F -> buf ∈ f_ents F -> xkeeps bad F (checkNoAbandonedCopyX id buf).
Proof.
  intros Hid Hbuf. unfold checkNoAbandonedCopyX. xkrun.
  all: apply xkeeps_on_abandonedX; [done|]; intros; by apply wpx_release_copiesX.
Qed.

(** The wait for a copy, as [stage_wait] has it *)
Lemma wpx_stage_wait F done ms (k : StageOutcome -> GX hipObjError_t) Q T g :
  Inv F g -> (forall o g', Inv F g' -> wpx bad (k o) Q T g') ->
  wpx bad (now ← nothrow (outside (perform clock_now));
           o ← nothrow (outside (stage_loop (stage_fuel ms) done (now + ms))); k o) Q T g.
Proof.
  intros HI Hk. apply wpx_nothrow_bind. rewrite <- outside_bind.
  eapply wp_outside_neutral; [by apply (stage_wait_neutral bad)|exact HI|exact Hk].
Qed.

Lemma xkeeps_stageCopyWithDeadlineX F id buf dst src size kind :
  id ∈ f_insts F -> buf ∈ f_ents F -> xkeeps bad F (stageCopyWithDeadlineX id buf dst src size kind).
Proof.
  intros Hid Hbuf. unfold stageCopyWithDeadlineX. apply xkeeps_bind; [unfold reserve_throws; xkrun|]. intros _ _ g HI.
  pose proof (inv_frame _ _ HI) as HF. apply wpx_bind, wpx_nothrow, (wp_reserve bad F); [done..|]. intros g1 HI1.
  apply wpx_bind, wpx_nothrow, (wp_outside_acquires bad (hold_slot id F) created); [apply eventCreate_acquires|done|].
  intros [err done] g2 HI2. unfold created in HI2. cbn [fst snd] in HI2.
  destruct (err =? hipSuccess); cbn [negb]; [|by apply wpx_nothrow, keeps_give_back_slot].
  change (hold_open _ _) with (hold_slot id (hold_open (h_event done) F)) in HI2.
  apply wpx_bind, wpx_nothrow. eapply wp_outside_neutral; [apply memcpyAsync_neutral|exact HI2|]. intros err1 g3 HI3.
  apply wpx_bind, wpx_nothrow. eapply (wp_mono _ _ (fun _ => Inv (hold_slot id (hold_open (h_event done) F)))).
  { destruct (err1 =? hipSuccess); [|by apply wp_ret].
    eapply wp_outside_neutral; [apply eventRecord_neutral|exact HI3|]. auto. }
  cbv beta. intros err2 g4 HI4. destruct (err2 =? hipSuccess); cbn [negb]; [|by apply wpx_nothrow, keeps_end_copy].
  destruct (Inv_held _ _ id HI4) as (i & n & Hi); [done|]. apply wpx_bind, wpx_nothrow. eapply wp_get_inst; [done|].
  cbv zeta. set (ms := stageTimeout (options i)). 
  apply (wpx_stage_wait (hold_slot id (hold_open (h_event done) F))); [exact HI4|]. intros outcome g5 HI5.
  destruct outcome; [by apply wpx_nothrow, keeps_end_copy|by apply wpx_nothrow, keeps_end_copy|].
  apply wpx_bind, wpx_nothrow, (wp_copy_held bad (hold_slot id (hold_open (h_event done) F)) buf); [exact HI5|done|].
  intros g6 HI6. apply wpx_bind, wpx_nothrow, (wp_abandon bad F id buf done); [exact HI6|done|]. intros g7 HI7.
  apply wpx_bind. unfold xoutside, xmem, xcalls. apply wpx_xzoom, wpx_xzoom, wpx_printToX. intros t Ht.
  by apply wpx_ret, Inv_calls.
Qed.

Lemma xkeeps_stageToDeviceX F id p buf size offset :
  id ∈ f_insts F -> buf ∈ f_ents F -> xkeeps bad F (stageToDeviceX id p buf size offset).
Proof. intros Hid Hbuf. unfold stageToDeviceX. xkrun; by apply xkeeps_stageCopyWithDeadlineX. Qed.

Lemma xkeeps_stageToHostX F id p buf size offset :
  id ∈ f_insts F -> buf ∈ f_ents F -> xkeeps bad F (stageToHostX id p buf size offset).
Proof. intros Hid Hbuf. unfold stageToHostX. xkrun; by apply xkeeps_stageCopyWithDeadlineX. Qed.

(** The loop ends at its deadline, as [poll_loop] does *)
Lemma poll_loopX_neutral fuel conn ms deadline t :
  bad OutOfFuel \/ (SteadyClock E /\ deadline - clock_low t < Z.of_nat fuel) ->
  (0 < fuel)%nat ->
  wpx bad (poll_loopX fuel conn None ms deadline) (fun _ t' => forall h, bal h t' = bal h t)
    (fun t' => forall h, bal h t' = bal h t) t.
Proof.
  revert t. induction fuel as [|fuel IH]; intros t Hf Hpos; [lia|]. cbn [poll_loopX].
  xw. apply wpx_nothrow, wp_perform_eq. set (now := respond t clock_now). xw.
  { xwrun; bal_solve. }
  assert (now < deadline) as Hnow by (by destruct (Z.ltb_spec now deadline)).
  xw. xw. destruct r as [n wc]. xw; [xw; bal_solve|].
  xw; [|xwrun; bal_solve]. xw. xw.
  set (t' := Ev _ _ :: _). destruct (decide (fuel = O)) as [->|Hne].
  { destruct Hf as [Hf|[Hs Hf]]; [by apply wpx_nothrow, wp_halt|]. pose proof (steady t) as Hst.
    fold now in Hst. lia. }
  eapply wpx_mono; [apply IH; [|lia]|..].
  - destruct Hf as [Hf|[Hs Hf]]; [by left|right]. split; [done|].
    pose proof (steady t) as Hst. fold now in Hst. cbn [t' clock_low]. lia.
  - cbv beta. subst t'. bal_solve.
  - cbv beta. subst t'. bal_solve.
Qed.

Lemma pollCompletionX_neutral conn ms : xneutral bad (pollCompletionX (poll_fuel ms) conn None ms).
Proof.
  intros t. unfold pollCompletionX. xw. apply wpx_nothrow, wp_perform_eq.
  eapply wpx_mono; [apply poll_loopX_neutral|..]; [|unfold poll_fuel; lia|bal_solve..].
  destruct Hclock as [Hf|Hs]; [by left|right]. split; [done|]. cbn [clock_low]. unfold poll_fuel. lia.
Qed.

Lemma xkeeps_finishTransferAfterReplyX F id index reply sync ms :
  (id, index) ∈ f_leases F -> xkeeps bad F (finishTransferAfterReplyX id index reply sync ms).
Proof.
  intros Hl. unfold finishTransferAfterReplyX. cbv zeta.
  xkrun; first [apply xkeeps_xoutside, pollCompletionX_neutral | apply keeps_of, preserves_outside].
  all: first [apply connectRcPeer_neutral | intros t; wstep; bal_solve].
Qed.

Definition throwing_ops_keep F (o : throwing_ops) : Prop :=
  (forall send token, xsendRequest o = Some send -> xkeeps bad F (send token)) /\
  (forall recv buf, xrecvReply o = Some recv -> xkeeps bad F (recv buf)).

Lemma xkeeps_leased_transferX F id index buf size offset o :
  (id, index) ∈ f_leases F -> buf ∈ f_ents F -> id ∈ f_insts F -> throwing_ops_keep F o ->
  xkeeps bad F (leased_transferX id index buf size offset o).
Proof.
  intros Hl Hbuf Hid [Hs Hr]. unfold leased_transferX, injectRdmaTokenX, receiveRdmaReplyRawX.
  xkrun; [by eapply Hs|by eapply Hr|by apply xkeeps_finishTransferAfterReplyX].
Qed.

Lemma leased_transferX_noexcept id index buf size offset o : noexcept (leased_transferX id index buf size offset o).
Proof. unfold leased_transferX, finishTransferAfterReplyX. cbv zeta. repeat noexcept_step. Qed.

(** The lease is given back whatever happens while it lasts *)
Lemma xkeeps_runRdmaTransferX F id buf size offset o :
  buf ∈ f_ents F -> id ∈ f_insts F -> (forall F, throwing_ops_keep F o) ->
  xkeeps bad F (runRdmaTransferX id buf size offset o).
Proof.
  intros Hbuf Hid Ho Hal g HI. unfold runRdmaTransferX. apply wpx_bind, wpx_nothrow.
  apply (wp_acquire_lease bad F); [done|done|done|intros err; by apply wpx_ret|].
  intros index g1 HI1. apply wpx_bind. eapply wpx_mono.
  { eapply wpx_noexcept; [apply leased_transferX_noexcept|].
    apply (xkeeps_leased_transferX (hold_lease id index F)); [left|done|done|apply Ho|exact Hal|exact HI1]. }
  2:{ by intros. }
  cbv beta. intros [err connected] g2 HI2.
  apply wpx_bind, wpx_nothrow, (wp_release_lease bad F); [done|by destruct HI|]. intros g3 HI3. by apply xkeeps_rethrow.
Qed.
End transfers.

Section throwing_api.
Context `{E : World} `{B : BuildConfig} (bad : stop -> Prop).
Context (Hclock : bad OutOfFuel \/ SteadyClock E) (Hports : bad OutOfFuel \/ PortsFit E).
Implicit Types F : Frame.

Lemma xkeeps_with_checked_bufferX F {A} (fail : hipObjError_t -> A) id p size offset next :
  id ∈ f_insts F -> (forall e, xkeeps bad (hold_ent e F) (next e)) ->
  xkeeps bad F (with_checked_bufferX fail id p size offset next).
Proof.
  intros Hid Hn. unfold with_checked_bufferX. apply xkeeps_with_bufferX; [done|apply xkeeps_ret|].
  intros e. xkrun; [|done]. apply xkeeps_checkNoAbandonedCopyX; in_frame.
Qed.

Lemma xkeeps_with_opsX F ops next :
  (forall o, ops = Some o -> xkeeps bad F (next o)) -> xkeeps bad F (with_opsX ops next).
Proof. intros Hn. unfold with_opsX. xkrun. auto. Qed.

(** *** Init *)

Lemma systemPlatformX_unchanged F Q T g :
  Inv F g -> (forall v g', Inv F g' -> unchanged g g' -> Q v g') -> (forall g', Inv F g' -> unchanged g g' -> T g') ->
  wpx bad systemPlatformX Q T g.
Proof.
  intros HI HQ HT. unfold systemPlatformX. apply wpx_bind, wpx_nothrow, wp_get.
  destruct (g_platform g) as [p|] eqn:Hp; [by apply wpx_ret, HQ; [|apply unchanged_refl]|].
  apply wpx_bind. unfold xoutside, xmem, xcalls. apply wpx_xzoom, wpx_xzoom.
  eapply wpx_acquires; [apply makeSystemPlatformX_acquires|..].
  2:{ intros t Hb. by apply HT; [apply Inv_calls|apply unchanged_calls]. }
  intros v t Hb. apply wpx_bind, wpx_nothrow, wp_modify, wpx_ret, HQ.
  - destruct HI as [A1 A2 A3 A4 A5 A6 A7 A8 A9]. split; gsimpl; try done.
    + destruct A1; by split.
    + intros h. rewrite unowned_calls, Hb, A6, Hp. unfold own_platform. cbn [cnt foldr]. lia.
  - split; try done. intros h. unfold opened. gsimpl. cbn [m_trace set_field]. rewrite Hb, Hp. unfold own_platform.
    cbn [cnt foldr]. lia.
Qed.

(** An instance that's built is published, or dropped *)
Lemma wpx_build F c opts Q g :
  maxTransfers opts < 2 ^ 64 -> Inv F g ->
  (forall r g1, g_current g1 = g_current g ->
    match r with
    | inl i => forall R, (forall id g2, Inv (hold_inst id F) g2 -> g_current g2 = g_current g1 -> R id g2) ->
                 wp bad (make_shared_inst i) R g1
    | inr _ => Inv F g1
    end -> Q r g1) ->
  wpx bad (xoutside (build_instanceX c opts)) Q (Inv F) g.
Proof.
  intros Hmax HI HQ. unfold xoutside, xmem, xcalls. apply wpx_xzoom, wpx_xzoom.
  eapply wpx_mono; [by apply build_instanceX_spec|..]; cbv beta.
  2:{ intros t Hb. by apply Inv_calls. }
  intros r t [Hb Hr]. apply HQ; [done|].
  assert (mem_step none (fun h => cnt h (own_built r)) (g_mem g) ((g_mem g) <| m_trace := t |>)) as Hs.
  { destruct (inv_mem _ _ HI) as [A1 A2 A3]. split; cbn; try done.
    - intros e. unfold refs, none. cbn. lia.
    - intros h. rewrite unowned_calls, Hb. lia.
    - intros e b k _ He. by exists b, k. }
  destruct r as [i|e].
  - destruct Hr as (Hok & Hrefs & _). intros R Hd. unfold make_shared_inst.
    apply wp_bind, wp_get, wp_bind, wp_put, wp_ret, Hd; [|done]. exact (Inv_add_inst _ _ _ _ HI Hs Hrefs Hok).
  - by apply Inv_calls; [|intros h; rewrite Hb; cbn; lia].
Qed.

Lemma xkeeps_initWithX F c opts : maxTransfers opts < 2 ^ 64 -> xkeeps bad F (initWithX c opts).
Proof.
  intros Hmax Hal g HI. unfold initWithX. apply wpx_bind, wpx_nothrow, (wp_haveInstance bad F); [done| |].
  2:{ intros g' HI'. by apply wpx_ret. }
  intros Hc. cbv iota. apply wpx_bind, wpx_build; [done..|]. intros [i|e] g1 Hc1 Hr; [|by apply wpx_ret].
  apply wpx_nothrow, wp_bind, Hr. intros id g2 HI2 Hc2. destruct (negb _); apply wp_bind.
  - eapply wp_mono; [apply (keeps_drop_inst bad F); [exact HI2|by destruct HI]|]. cbv beta. intros _ g' HI'. by apply wp_ret.
  - apply wp_modify, wp_ret. apply Inv_publish; [done|congruence|by destruct HI].
Qed.

Lemma xkeeps_hipObjInitX F c : xkeeps bad F (hipObjInitX c).
Proof.
  apply xkeeps_try. intros Hal g HI. destruct c as [c|]; [|by apply wpx_ret].
  destruct (_ || _); [by apply wpx_ret|]. apply wpx_bind, wpx_nothrow, (wp_haveInstance bad F); [done| |].
  2:{ intros g' HI'. by apply wpx_ret. }
  intros Hc. cbv iota. apply wpx_bind, (systemPlatformX_unchanged F); [done| |done]. intros [v|] g1 HI1 _; [|by apply wpx_ret].
  apply wpx_bind, wpx_nothrow, wp_mem. unfold calls. apply wp_zoom, wp_parseOptions.
  intros o t Hb (? & ? & ? & ? & ? & ->). apply xkeeps_initWithX; [|done|by apply Inv_calls].
  pose proof (proj1 (options_from_transfers x x0 x1 x2 x3)) as Ht. unfold kMaxTransfers in Ht. lia.
Qed.

(** *** Applications *)

Lemma xkeeps_application A (m : GX A) : throwing_application A m -> forall F, xkeeps bad F m.
Proof.
  induction 1 as [A a|A D m k _ IHm _ IHk|A|A m _ IHm|A m Hm|f| |c| |p n|p n|p|p n off ops _ IHs _ IHr
                 |p n off ops _ IHs _ IHr|p n off dir|p n op out]; intros F.
  - apply xkeeps_ret.
  - by apply xkeeps_bind.
  - apply xkeeps_throw.
  - by apply xkeeps_caught.
  - apply xkeeps_xoutside, Hm.
  - apply xkeeps_nothrow. intros _ g HI. apply wp_modify. destruct HI. by constructor.
  - apply xkeeps_nothrow. intros _ g HI. by apply wp_bind, wp_get, wp_ret.
  - apply xkeeps_hipObjInitX.
  - unfold hipObjShutdownX. xkrun. apply keeps_hipObjShutdown.
  - unfold hipObjBufRegisterX. xkrun.
    + apply keeps_of, preserves_outside, isValidDeviceRange_neutral.
    + apply xkeeps_on_buffersX; [in_frame|]. intros. apply wpx_registerBufferX; auto using map_step_undone.
  - unfold hipObjBufRegisterHostX. xkrun.
    apply xkeeps_on_buffersX; [in_frame|]. intros. apply wpx_registerHostBufferX; auto using map_step_undone.
  - unfold hipObjBufDeregisterX. xkrun.
    + apply xkeeps_on_abandonedX; [in_frame|]. intros a m Q T Hok Hc HQ. unfold reclaimX.
      apply wpx_bind, wpx_release_copiesX; [done|done|]. intros. by apply wpx_ret, HQ.
    + apply keeps_of, preserves_on_buffers; [in_frame|]. intros b m Q Hok Ha HQ. apply wp_deregisterBuffer; auto.
  - unfold hipObjGetX. xkrun. apply xkeeps_with_opsX. intros o Ho.
    apply xkeeps_with_checked_bufferX; [in_frame|]. intros e. xkrun.
    + apply xkeeps_runRdmaTransferX; [done|in_frame..|]. intros F'. split; eauto.
    + apply xkeeps_stageToDeviceX; [done|in_frame..].
  - unfold hipObjPutX. xkrun. apply xkeeps_with_opsX. intros o Ho.
    apply xkeeps_with_checked_bufferX; [in_frame|]. intros e. xkrun.
    + apply xkeeps_stageToHostX; [done|in_frame..].
    + apply xkeeps_runRdmaTransferX; [done|in_frame..|]. intros F'. split; eauto.
  - unfold hipObjBufSyncX. xkrun. apply xkeeps_with_checked_bufferX; [in_frame|]. intros e.
    xkrun; [apply xkeeps_stageToDeviceX|apply xkeeps_stageToHostX]; first [done|in_frame].
  - unfold hipObjGetRdmaTokenX. xkrun. apply xkeeps_with_checked_bufferX; [in_frame|]. intros e. xkrun.
Qed.
End throwing_api.

(** *** All or nothing *)

Section outcomes.
Context `{E : World} `{B : BuildConfig} (bad : stop -> Prop) (Hports : bad OutOfFuel \/ PortsFit E).
Implicit Types F : Frame.

Lemma wp_drop_shared_at g id n i m (Q : unit -> Process -> Prop) :
  Q tt (at_inst g id (S n) i m) -> wp bad (drop_inst id) Q (at_inst g id (S (S n)) i m).
Proof.
  intros HQ. unfold drop_inst, read_inst. apply wp_bind, wp_bind, wp_get. unfold at_inst at 1. gsimpl.
  rewrite lookup_insert_eq. apply wp_ret. unfold write_inst. apply wp_modify.
  unfold at_inst in *. gsimpl. by rewrite insert_insert_eq.
Qed.

(** Where a call on the instance is when it gives its reference back *)
Definition leaves (g : Process) (id n : nat) (R : Process -> Prop) (g' : Process) : Prop :=
  exists i m, g' = at_inst g id (S (S n)) i m /\ R (at_inst g id (S n) i m).

Lemma wpx_with_instanceX_at F g {A} (fail : hipObjError_t -> A) body Q T :
  Inv F g -> (g_current g = None -> Q (fail (makeError hipObjNotInitialized)) g) ->
  (forall id i n, g_current g = Some id -> g_insts g !! id = Some (i, S n) ->
     wpx bad (body id) (fun a => leaves g id n (Q a)) (leaves g id n T) (at_inst g id (S (S n)) i (g_mem g))) ->
  wpx bad (with_instanceX fail body) Q T g.
Proof.
  intros HI HN HS. unfold with_instanceX. apply wpx_bind, wpx_nothrow.
  destruct (g_current g) as [id|] eqn:Hc.
  2:{ unfold currentInstance. apply wp_bind, wp_get. rewrite Hc. by apply wp_ret, wpx_ret, HN. }
  destruct (g_insts g !! id) as [[i [|n]]|] eqn:Hi.
  - pose proof (inv_counted _ _ HI _ _ _ Hi). lia.
  - eapply wp_currentInstance_run; [done..|]. apply wpx_scope.
    change (g <| g_insts := _ |>) with (at_inst g id (S (S n)) i (g_mem g)).
    eapply wpx_mono; [by apply HS|..]; cbv beta; [intros a g' | intros g']; intros (i' & m' & -> & HR);
      by apply wp_drop_shared_at.
  - pose proof (inv_irefs _ _ HI id) as Hr. unfold irefs, current_refs in Hr.
    rewrite Hi, Hc, decide_True in Hr by done. pose proof (cnt_nonneg id (f_insts F)). lia.
Qed.

Lemma unchanged_at g id i n m' :
  g_insts g !! id = Some (i, n) -> undone (g_mem g) m' -> unchanged g (at_inst g id n i m').
Proof.
  intros Hi (t & k & _ & Hb & ->). split; try done; unfold at_inst; gsimpl.
  - by rewrite insert_id.
  - intros h. unfold opened. gsimpl. cbn [m_trace set_field]. by rewrite Hb.
Qed.

Lemma undone_trans m1 m2 m3 : undone m1 m2 -> undone m2 m3 -> undone m1 m3.
Proof.
  intros (t1 & n1 & H1 & B1 & ->) (t2 & n2 & H2 & B2 & ->). cbn [m_next m_trace set_field] in *.
  exists t2, n2. split_and!; [lia| |by destruct m1]. intros h. by rewrite B2, B1.
Qed.

Lemma failed_register p g g' e :
  e <> makeError hipObjSuccess -> unchanged g g' -> register_outcome p g e g'.
Proof. intros He Hu. unfold register_outcome. by case_decide. Qed.

(** What both registrations do once their arguments are checked *)
Lemma wpx_registering_at g id i n m p (f : BufferMap -> HX (RegisterResult * BufferMap)) :
  g_current g = Some id -> g_insts g !! id = Some (i, S n) -> undone (g_mem g) m ->
  (forall (Q : RegisterResult * BufferMap -> Mem -> Prop) (T : Mem -> Prop),
     (forall b' m', is_Some (entries_ b' !! p) -> Q (Registered, b') m') ->
     (forall r m', r <> Registered -> undone m m' -> Q (r, buffers i) m') -> (forall m', undone m m' -> T m') ->
     wpx bad (f (buffers i)) Q T m) ->
  wpx bad (r ← on_buffersX id f; mret (registrationError r))
    (fun e => leaves g id n (register_outcome p g e)) (leaves g id n (unchanged g)) (at_inst g id (S (S n)) i m).
Proof.
  intros Hc Hi Hm Hf. apply wpx_bind, wpx_on_buffersX_at.
  assert (forall m', undone m m' -> unchanged g (at_inst g id (S n) i m')) as Hun.
  { intros m' Hm'. apply unchanged_at; [done|]. by eapply undone_trans. }
  apply Hf.
  - intros b' m' Hp. apply wpx_ret. do 2 eexists. split; [reflexivity|]. cbn [fst snd registrationError].
    unfold register_outcome. rewrite decide_True by done. do 3 eexists. split; [exact Hc|].
    split; [apply lookup_insert_eq|done].
  - intros r m' Hr Hm'. apply wpx_ret. exists i, m'. cbn [fst snd]. split; [by destruct i|].
    apply failed_register; [by destruct r|by apply Hun].
  - intros m' Hm'. exists i, m'. split; [done|]. by apply Hun.
Qed.

(** One that's refused before *)
Lemma wpx_refused_at g id i n m p (e : hipObjError_t) :
  g_insts g !! id = Some (i, S n) -> undone (g_mem g) m -> e <> makeError hipObjSuccess ->
  wpx bad (mret e) (fun e => leaves g id n (register_outcome p g e)) (leaves g id n (unchanged g))
    (at_inst g id (S (S n)) i m).
Proof. intros Hi Hm He. apply wpx_ret. exists i, m. split; [done|]. by apply failed_register; [|apply unchanged_at]. Qed.

Lemma undone_refl m : undone m m.
Proof. exists (m_trace m), (m_next m). by destruct m. Qed.

Lemma wpx_if_okX_at g id i n m p (err : hipObjError_t) (next : GX hipObjError_t) :
  g_insts g !! id = Some (i, S n) -> undone (g_mem g) m ->
  wpx bad next (fun e => leaves g id n (register_outcome p g e)) (leaves g id n (unchanged g)) (at_inst g id (S (S n)) i m) ->
  wpx bad (if_okX (fun e => e) err next) (fun e => leaves g id n (register_outcome p g e)) (leaves g id n (unchanged g))
    (at_inst g id (S (S n)) i m).
Proof.
  intros Hi Hm Hn. unfold if_okX. case_bool_decide as He; [done|]. apply wpx_refused_at; [done..|]. by intros ->.
Qed.

(** Their exception is caught, when they've ended *)
Lemma wpx_register_outcome F g p (body : nat -> GX hipObjError_t) :
  Inv F g ->
  (forall id i n, g_current g = Some id -> g_insts g !! id = Some (i, S n) ->
     wpx bad (body id) (fun e => leaves g id n (register_outcome p g e)) (leaves g id n (unchanged g))
       (at_inst g id (S (S n)) i (g_mem g))) ->
  wpx bad (try_catch (with_instanceX (fun e => e) body) kExceptionError) (register_outcome p g) (fun _ => False) g.
Proof.
  intros HI Hb. apply wpx_noexcept with (T := fun _ => False); [apply noexcept_try|]. apply wpx_try.
  eapply wpx_mono;
    [apply (wpx_with_instanceX_at F g (fun e => e) body (register_outcome p g) (unchanged g)); [done| |exact Hb]|done|].
  - intros _. apply failed_register; [done|apply unchanged_refl].
  - intros g' Hu. by apply failed_register.
Qed.

Lemma hipObjBufRegisterX_outcome F p n g :
  Inv F g -> wpx bad (hipObjBufRegisterX p n) (register_outcome p g) (fun _ => False) g.
Proof.
  intros HI. apply (wpx_register_outcome F); [done|]. intros id i k Hc Hi.
  apply wpx_if_okX_at; [done|apply undone_refl|]. apply wpx_bind, wpx_nothrow.
  unfold outside. apply wp_mem_at. assert (g_mem g = (g_mem g) <| m_trace := m_trace (g_mem g) |>) as Hm by by destruct (g_mem g).
  rewrite Hm at 1. apply wp_calls_at. eapply wp_neutral; [apply isValidDeviceRange_neutral|]. intros v t Ht.
  pose proof (undone_calls _ _ Ht) as Hu. destruct v; cbn [negb]; [|by apply wpx_refused_at].
  apply wpx_bind, wpx_nothrow, wp_get_at. apply wpx_registering_at; [done..|].
  intros Q T HQ HR HT. apply wpx_registerBufferX; auto. destruct (inv_mem _ _ HI). by split.
Qed.

Lemma hipObjBufRegisterHostX_outcome F p n g :
  Inv F g -> wpx bad (hipObjBufRegisterHostX p n) (register_outcome p g) (fun _ => False) g.
Proof.
  intros HI. apply (wpx_register_outcome F); [done|]. intros id i k Hc Hi.
  apply wpx_if_okX_at; [done|apply undone_refl|].
  apply wpx_bind, wpx_nothrow, wp_get_at. apply wpx_registering_at; [done..|apply undone_refl|].
  intros Q T HQ HR HT. apply wpx_registerHostBufferX; auto. apply HI.
Qed.

(** One that fails when there was no instance *)
Lemma failed_init g g' e : g_current g = None -> opError e <> hipObjSuccess -> unchanged g g' -> init_outcome g e g'.
Proof. intros Hc He Hu. unfold init_outcome. rewrite decide_False by done. split; [done|by rewrite Hc]. Qed.

Lemma initWithX_outcome F c opts g :
  Inv F g -> g_current g = None -> maxTransfers opts < 2 ^ 64 ->
  wpx bad (initWithX c opts) (init_outcome g) (unchanged g) g.
Proof.
  intros HI Hc Hmax. unfold initWithX. apply wpx_bind, wpx_nothrow.
  unfold wp. rewrite (haveInstance_run F g HI), Hc, bool_decide_eq_false_2 by (by intros [? ?]).
  apply wpx_bind. unfold xoutside, xmem, xcalls. apply wpx_xzoom, wpx_xzoom.
  eapply wpx_mono; [by apply build_instanceX_spec|..]; cbv beta; [|intros; by apply unchanged_calls].
  intros r t [Hb Hr]. destruct r as [i|e]; [by apply wpx_nothrow, (publish_outcome bad F)|].
  apply wpx_ret, failed_init; [done..|]. apply unchanged_calls. intros h. rewrite Hb. cbn [own_built cnt foldr]. lia.
Qed.

Lemma hipObjInitX_outcome F c g : Inv F g -> wpx bad (hipObjInitX c) (init_outcome g) (fun _ => False) g.
Proof.
  intros HI. apply wpx_noexcept with (T := fun _ => False); [apply noexcept_try|]. apply wpx_try.
  assert (forall e, e <> hipObjSuccess ->
            (g_current g <> None -> e <> hipObjInvalidValue -> e = hipObjAlreadyInitialized) ->
            init_outcome g (makeError e) g) as Hfail.
  { intros e He Hcur. unfold init_outcome. rewrite decide_False by done. split; [apply unchanged_refl|].
    intros H1 H2. f_equal. apply Hcur; [done|]. by intros ->. }
  destruct c as [c|]; [|by apply wpx_ret, Hfail].
  destruct (_ || _); [by apply wpx_ret, Hfail|]. apply wpx_bind, wpx_nothrow.
  unfold wp. rewrite (haveInstance_run F g HI). destruct (g_current g) as [id|] eqn:Hc.
  { rewrite bool_decide_eq_true_2 by by eexists. by apply wpx_ret, Hfail. }
  rewrite bool_decide_eq_false_2 by (by intros [? ?]).
  apply wpx_bind, (systemPlatformX_unchanged bad F); [done|..]; [intros [v|] g1 HI1 Hu|intros g1 HI1 Hu].
  2,3: by first [apply wpx_ret|idtac]; apply failed_init.
  apply wpx_bind, wpx_nothrow, wp_mem, wp_zoom, wp_parseOptions. intros o t Hb (a & b & d & e & f & ->).
  assert (unchanged g (g1 <| g_mem := (g_mem g1) <| m_trace := t |> |>)) as Hu'
    by (eapply unchanged_trans; [done|by apply unchanged_calls]).
  eapply wpx_mono; [apply (initWithX_outcome F)|..].
  - by apply Inv_calls.
  - by rewrite (same_current _ _ Hu').
  - pose proof (proj1 (options_from_transfers a b d e f)) as Ht. unfold kMaxTransfers in Ht. lia.
  - intros r g2. by apply init_outcome_unchanged.
  - intros g2 Hu2. apply failed_init; [done..|]. by eapply unchanged_trans.
Qed.
End outcomes.

(** Takes a program apart, down to the calls it makes *)
Ltac thr_step :=
  match goal with
  | |- throwing_application _ (mbind _ _) => apply thr_bind; [|intros ?]
  | |- throwing_application _ (mret _) => apply thr_ret
  | |- throwing_application _ throw => apply thr_throw
  | |- throwing_application _ (xoutside (xperform _)) => apply thr_own; intros bad t; xw; bal_solve
  | |- throwing_application _ (hipObjInitX _) => apply thr_init
  | |- throwing_application _ (hipObjBufRegisterX _ _) => apply thr_register
  | |- throwing_application _ (hipObjBufDeregisterX _) => apply thr_deregister
  | |- throwing_application _ (hipObjGetX _ _ _ _) => apply thr_get; intros ? ? ? [= <-] [= <-]
  | |- throwing_application _ (let '_ := ?x in _) => destruct x
  | |- throwing_application _ (if ?b then _ else _) => destruct b
  end.

Lemma throwing_demo_application `{E : World} `{B : BuildConfig} : throwing_application _ throwing_demo.
Proof. unfold throwing_demo, throwing_ops_of. repeat thr_step. Qed.

(** No exception leaves a public function *)
Lemma public_functions_noexcept `{E : World} `{B : BuildConfig} :
  (forall c, noexcept (hipObjInitX c)) /\ noexcept hipObjShutdownX /\
  (forall p n, noexcept (hipObjBufRegisterX p n)) /\ (forall p n, noexcept (hipObjBufRegisterHostX p n)) /\
  (forall p, noexcept (hipObjBufDeregisterX p)) /\ (forall p n o ops, noexcept (hipObjGetX p n o ops)) /\
  (forall p n o ops, noexcept (hipObjPutX p n o ops)) /\ (forall p n o d, noexcept (hipObjBufSyncX p n o d)) /\
  (forall p n op out, noexcept (hipObjGetRdmaTokenX p n op out)).
Proof. split_and!; intros; apply noexcept_try. Qed.

(** ** Properties *)

(** C4: exceptions do no harm. Whichever allocations fail, and wherever the
    application's code throws, its callbacks included, an application leaves
    the library with its invariant: every reference is counted, what's open
    has one owner, and each connection is free or leased to a transfer that's
    in progress. It never waits for itself, and uses nothing that was
    released; and with a clock that doesn't go back, and fewer than 255 ports
    on each device, it ends, with a value or with an exception of its own. *)
Theorem exceptions_are_contained `{E : World} `{B : BuildConfig} {A} (m : GX A) (Hm : throwing_application A m) :
  wpx out_of_fuel m (fun _ => Inv no_frame) (Inv no_frame) initial_process /\
  (SteadyClock E -> PortsFit E -> forall fs, exists r s, m (initial_process, fs) = (inl r, s)).
Proof.
  split; [by apply (xkeeps_application out_of_fuel); [left|left| |reflexivity|apply Inv_initial]|].
  intros Hc Hp fs. assert (wpx never m (fun _ => Inv no_frame) (Inv no_frame) initial_process) as H.
  { by apply (xkeeps_application never); [right|right| |reflexivity|apply Inv_initial]. }
  specialize (H fs). unfold wp in H. destruct (m (initial_process, fs)) as [[r|e] s]; [by exists r, s|done].
Qed.

Lemma exceptions_are_contained_witness :
  fst (@throwing_demo (lab working) demo_build (initial_process, [])) =
    inl (Returned [hipObjSuccess; hipObjSuccess; hipObjInternalError; hipObjSuccess]) /\
  fst (@throwing_demo (lab working) demo_build (initial_process, replicate 10 false ++ [true])) =
    inl (Returned [hipObjSuccess; hipObjInternalError; hipObjBufNotRegistered; hipObjBufNotRegistered]) /\
  wpx out_of_fuel (@throwing_demo (lab working) demo_build) (fun _ => Inv no_frame) (Inv no_frame) initial_process.
Proof.
  split; [vm_compute; reflexivity|]. split; [vm_compute; reflexivity|].
  exact (proj1 (@exceptions_are_contained (lab working) demo_build _ throwing_demo throwing_demo_application)).
Defined.

(** C20: the calls that build something are all or nothing, even when they run
    out of memory. [hipObjInit()] publishes a complete instance, or closes
    whatever it had opened, and leaves no instance; [hipObjBufRegister()] and
    [hipObjBufRegisterHost()] add the buffer to the instance's registrations,
    or leave them, and what's open, as they were. None lets an exception
    out. *)
Theorem calls_are_all_or_nothing `{E : World} `{B : BuildConfig} (F : Frame) (config : option hipObjConfig_t)
    (ptr size : Z) (g : Process) (HI : Inv F g) :
  wpx out_of_fuel (hipObjInitX config) (init_outcome g) (fun _ => False) g /\
  wpx out_of_fuel (hipObjBufRegisterX ptr size) (register_outcome ptr g) (fun _ => False) g /\
  wpx out_of_fuel (hipObjBufRegisterHostX ptr size) (register_outcome ptr g) (fun _ => False) g.
Proof.
  split_and!.
  - by apply (hipObjInitX_outcome out_of_fuel (or_introl eq_refl) F).
  - by apply (hipObjBufRegisterX_outcome out_of_fuel F).
  - by apply (hipObjBufRegisterHostX_outcome out_of_fuel F).
Qed.

Lemma calls_are_all_or_nothing_witness :
  wpx out_of_fuel (@hipObjInitX (lab working) (Some demo_config)) (init_outcome initial_process) (fun _ => False)
    initial_process /\
  wpx out_of_fuel (@hipObjBufRegisterX (lab working) 131072 4096) (register_outcome 131072 registered_process)
    (fun _ => False) registered_process.
Proof.
  split.
  - exact (proj1 (@calls_are_all_or_nothing (lab working) demo_build no_frame (Some demo_config) 0 0 _ Inv_initial)).
  - exact (proj1 (proj2 (@calls_are_all_or_nothing (lab working) demo_build no_frame None 131072 4096 _ registered_process_ok))).
Defined.
