(* ===== verification/RdmaServer.v ===== *)
(** * The test server's transfers
    ([test/integration/rdma-test-server/rdma_server.h],
    [test/integration/rdma-test-server/rdma_server.cpp])

    One connection serves every request, through one staging buffer.  The
    server's state is passed along: a transfer returns it as the reset that
    follows it leaves it. *)

From Stdlib Require Import Ascii String.
From stdpp Require Import base numbers list.
From S2P Require Import Prelude.
From S2P Require Import Parse.
From S2P Require Import Gid.
From S2P Require Import Token.
From S2P Require Import TokenHeader.
From S2P Require Import IbvCore.
From S2P Require Import World.
From S2P Require Import Topology.
From S2P Require Import Transport.

(** ** Definitions *)

Module RdmaTestServer.

Definition rdmaFail `{World} {A} (op why : chars) : W (option A) :=
  _ ← perform (print_stderr (Message (lit "hipobj-rdma-test-server: " ++ op ++ lit " failed: " ++ why)));
  mret None.

(** In milliseconds *)
Definition kCompletionTimeout : Z := 10 * 1000.
Definition kCqSize : Z := 256.
Definition kMaxSendWr : Z := 128.
Definition kMaxRecvWr : Z := 128.
Definition kStagingSize : Z := 64 * 1024 * 1024.

(** Each turn of the wait that goes on takes a millisecond, or takes a
    completion off the queue, which holds at most this many *)
Definition completion_fuel : nat := (poll_fuel kCompletionTimeout + Z.to_nat kCqSize)%nat.

Definition buildServerToken (conn : RcConnection) : RdmaToken :=
  {| tok_qpNum := qp_num (rc_qp conn);
     tok_gid := toGid (dev_localGid (rc_device conn));
     tok_rkey := 0; tok_remoteAddr := 0; tok_length := 0;
     tok_transport := RC; tok_portNum := 0; tok_lid := 0 |}.

(** The work request for [size] bytes of the MR and of the client's buffer *)
Definition rdma_wr (id : Z) (opcode : ibv_wr_opcode) (localMr : ibv_mr) (size : Z)
    (clientToken : RdmaToken) : ibv_send_wr :=
  {| wr_id := id;
     sg_list := [{| sge_addr := mr_buf localMr; sge_length := wrapu 32 size; lkey := mr_lkey localMr |}];
     num_sge := 1; wr_opcode := opcode; send_flags := IBV_SEND_SIGNALED;
     rdma_remote_addr := tok_remoteAddr clientToken; rdma_rkey := tok_rkey clientToken |}.

Definition postRdmaWrite `{World} (conn : RcConnection) (localMr : ibv_mr) (size : Z)
    (clientToken : RdmaToken) : W bool :=
  st ← perform (post_send (rc_qp conn) (rdma_wr 1 IBV_WR_RDMA_WRITE localMr size clientToken));
  if negb (st =? 0) then mret false
  else pollCompletion completion_fuel conn (Some IBV_WC_RDMA_WRITE) kCompletionTimeout.

Definition postRdmaRead `{World} (conn : RcConnection) (localMr : ibv_mr) (size : Z)
    (clientToken : RdmaToken) : W bool :=
  st ← perform (post_send (rc_qp conn) (rdma_wr 2 IBV_WR_RDMA_READ localMr size clientToken));
  if negb (st =? 0) then mret false
  else pollCompletion completion_fuel conn (Some IBV_WC_RDMA_READ) kCompletionTimeout.

(** [stagingBuf] is the address of the vector's elements *)
Record Impl := {
  im_device : RdmaDevice;
  stagingBuf : Z;
  stagingMr : ibv_mr;
  im_conn : option RcConnection;
}.

Definition createConnection `{World} (rdmaDevice : RdmaDevice) : W (option RcConnection) :=
  createRcConnection rdmaDevice kCqSize kMaxSendWr kMaxRecvWr.

Definition destroy_conn `{World} (conn : option RcConnection) : W unit :=
  match conn with Some c => destroy_RcConnection c | None => mret tt end.

(** [~Impl()]: its members, in reverse *)
Definition destroy_Impl `{World} (i : Impl) : W unit :=
  _ ← destroy_conn (im_conn i);
  _ ← IbvMrDeleter (Some (stagingMr i));
  _ ← perform (free_buffer (stagingBuf i));
  destroy_RdmaDevice (im_device i).

Definition with_conn (i : Impl) (c : option RcConnection) : Impl :=
  {| im_device := im_device i; stagingBuf := stagingBuf i; stagingMr := stagingMr i; im_conn := c |}.

Definition resetQp `{World} (i : Impl) : W Impl :=
  match im_conn i with
  | None => mret i
  | Some c =>
      _ ← destroy_RcConnection c;
      fresh ← createConnection (im_device i);
      match fresh with
      | None =>
          _ ← perform (print_stderr (Message (lit "hipobj-rdma-test-server: could not rebuild the RC QP; the server can no longer serve RDMA")));
          mret (with_conn i None)
      | Some c => mret (with_conn i (Some c))
      end
  end.

(** The constructor; [verbs] is whether the pointer isn't null *)
Definition new_RdmaTestServer `{World} `{NicTopology} (verbs : bool) : W (option Impl) :=
  if negb verbs then mret None
  else
    device ← openRdmaDevice 0;
    match device with
    | None => mret None
    | Some device =>
        buf ← perform (new_buffer kStagingSize);
        mr ← perform (reg_mr (dev_pd device) buf kStagingSize
               (foldl Z.lor IBV_ACCESS_LOCAL_WRITE [IBV_ACCESS_REMOTE_READ; IBV_ACCESS_REMOTE_WRITE]));
        match mr with
        | None => _ ← perform (free_buffer buf); _ ← destroy_RdmaDevice device; mret None
        | Some mr =>
            conn ← createConnection device;
            let impl := {| im_device := device; stagingBuf := buf; stagingMr := mr; im_conn := conn |} in
            match conn with
            | None => _ ← destroy_Impl impl; mret None
            | Some _ => mret (Some impl)
            end
        end
    end.

Definition isReady (impl_ : option Impl) : bool :=
  match impl_ with Some i => bool_decide (is_Some (im_conn i)) | None => false end.

(** [ReadResult] *)
Record ReadResult := { rr_data : chars; replyHeader : chars }.

(** Runs [body], and then [resetQp()], whatever the result *)
Definition with_reset `{World} {A} (i : Impl) (body : W A) : W (A * option Impl) :=
  r ← body; i ← resetQp i; mret (r, Some i).

(** How many bytes a GET transfers *)
Definition write_size (header : TokenHeader) (data : chars) : Z :=
  if th_length header =? 0 then Z.of_nat (List.length data) else th_length header.

(** [printTo()] of the three numbers *)
Definition get_refused (xferSize size : Z) : chars :=
  lit "hipobj-rdma-test-server: GET failed: " ++ to_string xferSize ++ lit " bytes requested of a " ++
  to_string size ++ lit " byte object, " ++ to_string kStagingSize ++ lit " byte staging buffer".

Definition rdmaWriteToClient `{World} `{BuildConfig} (impl_ : option Impl) (header : TokenHeader)
    (data : chars) : W (option chars * option Impl) :=
  match impl_ with
  | Some ({| im_conn := Some conn |} as i) =>
      let clientToken := th_token header in
      let xferSize := write_size header data in
      if (Z.of_nat (List.length data) <? xferSize) || (kStagingSize <? xferSize) then
        _ ← perform (print_stderr (Message (get_refused xferSize (Z.of_nat (List.length data)))));
        mret (None, impl_)
      else
        _ ← perform (write_buffer (stagingBuf i) (take (Z.to_nat xferSize) data));
        with_reset i (
          ok ← connectRcPeer conn clientToken;
          if negb ok then rdmaFail (lit "GET") (lit "could not connect the RC QP to the client")
          else
            ok ← postRdmaWrite conn (stagingMr i) xferSize clientToken;
            if negb ok then rdmaFail (lit "GET") (lit "RDMA WRITE to the client buffer did not complete")
            else mret (Some (encodeReplyWithPeerToken kHttpOk (buildServerToken conn))))
  | _ => r ← rdmaFail (lit "GET") (lit "server RDMA not initialised"); mret (r, impl_)
  end.

(** How many bytes a PUT transfers *)
Definition read_size (header : TokenHeader) (size : Z) : Z :=
  let xferSize := th_length header in
  let xferSize := if negb (size =? 0) then size else xferSize in
  if xferSize =? 0 then tok_length (th_token header) else xferSize.

Definition put_refused (xferSize : Z) : chars :=
  lit "hipobj-rdma-test-server: PUT failed: " ++ to_string xferSize ++ lit " bytes exceeds the " ++
  to_string kStagingSize ++ lit " byte staging buffer".

Definition rdmaReadFromClient `{World} `{BuildConfig} (impl_ : option Impl) (header : TokenHeader)
    (size : Z) : W (option ReadResult * option Impl) :=
  match impl_ with
  | Some ({| im_conn := Some conn |} as i) =>
      let clientToken := th_token header in
      let xferSize := read_size header size in
      if kStagingSize <? xferSize then
        _ ← perform (print_stderr (Message (put_refused xferSize)));
        mret (None, impl_)
      else
        with_reset i (
          ok ← connectRcPeer conn clientToken;
          if negb ok then rdmaFail (lit "PUT") (lit "could not connect the RC QP to the client")
          else
            ok ← postRdmaRead conn (stagingMr i) xferSize clientToken;
            if negb ok then rdmaFail (lit "PUT") (lit "RDMA READ from the client buffer did not complete")
            else
              received ← perform (read_buffer (stagingBuf i) xferSize);
              mret (Some {| rr_data := received;
                            replyHeader := encodeReplyWithPeerToken kHttpOk (buildServerToken conn) |}))
  | _ => r ← rdmaFail (lit "PUT") (lit "server RDMA not initialised"); mret (r, impl_)
  end.

(** What a server owns, and what holds of it between transfers: its
    connection, if it has one, is on its device, and has a QP in INIT *)
Definition own_impl (i : Impl) : list handle :=
  own_opt own_conn (im_conn i) ++ [HMr (mr_addr (stagingMr i)); HBuffer (stagingBuf i)] ++ own_device (im_device i).

Definition impl_ok (t : trace) (impl_ : option Impl) : Prop :=
  forall i c, impl_ = Some i -> im_conn i = Some c ->
    rc_device c = im_device i /\ qp_track (rc_qp c) t = Some IBV_QPS_INIT.

(** ** Lemmas *)

Ltac bal_unfold ::= unfold own_impl, own_opt, own_device, own_conn in *;
  cbn [dev_pd dev_context rc_qp rc_cq own_impl im_device stagingBuf stagingMr im_conn with_conn own_opt] in *.

Section server.
Context `{E : World} `{B : BuildConfig} (bad : stop -> Prop).

(** What a program leaves as it was: what's open, and the QPs' states; and
    what came before it stays in the trace *)
Record calm (t t' : trace) : Prop := {
  calm_bal : forall h, bal h t' = bal h t;
  calm_track : forall qp, qp_track qp t' = qp_track qp t;
  calm_posted : last_posted t' = last_posted t;
  calm_suffix : t `suffix_of` t';
}.

Lemma calm_refl t : calm t t.
Proof. by split. Qed.

Lemma calm_trans t1 t2 t3 : calm t1 t2 -> calm t2 t3 -> calm t1 t3.
Proof.
  intros [H1 H2 H3 H4] [H5 H6 H7 H8].
  split; [intros; by rewrite H5|intros; by rewrite H6|congruence|by etransitivity].
Qed.

(** The calls that create or change no QP, and post nothing *)
Definition calm_call {A} (c : call A) : bool :=
  match c with create_qp _ _ | modify_qp _ _ _ | post_send _ _ => false | _ => true end.

Lemma calm_event {A} (c : call A) r t :
  (forall h, delta h (Ev c r) = 0) -> calm_call c = true -> calm t (Ev c r :: t).
Proof.
  intros Hd Ho. split; [intros h; cbn [bal]; by rewrite Hd| | |by exists [Ev c r]].
  - intros qp. cbn [qp_track]. apply qp_next_off. by destruct c.
  - by destruct c.
Qed.

Lemma wp_calm_event {A} (c : call A) Q t :
  (forall r h, delta h (Ev c r) = 0) -> calm_call c = true ->
  (forall r t', calm t t' -> t' = Ev c r :: t -> Q r t') -> wp bad (perform c) Q t.
Proof. intros Hd Ho HQ. apply wp_perform. intros r. apply HQ; [by apply calm_event|done]. Qed.

Lemma poll_loop_calm fuel c op ms deadline t :
  bad OutOfFuel \/ (SteadyClock E /\ OwnCompletions E /\ deadline - clock_low t < Z.of_nat fuel) ->
  (0 < fuel)%nat -> (completion_of <$> last_posted t) = Some op ->
  wp bad (poll_loop fuel c (Some op) ms deadline) (fun ok t' => calm t t') t.
Proof.
  revert t. induction fuel as [|fuel IH]; intros t Hf Hpos Hl; [lia|]. cbn [poll_loop].
  wstep. apply wp_perform_eq. set (now := respond t clock_now).
  assert (calm t (Ev clock_now now :: t)) as H1 by by apply calm_event.
  wstep. { wstep. apply wp_calm_event; [done..|]. intros r t' Ht _. wstep. by eapply calm_trans. }
  assert (now < deadline) as Hnow by (by destruct (Z.ltb_spec now deadline)).
  wstep. apply wp_perform_eq. set (t1 := Ev clock_now now :: t) in *.
  destruct (respond t1 (poll_cq (rc_cq c) 1)) as [n wc] eqn:Hp.
  assert (calm t (Ev (poll_cq (rc_cq c) 1) (n, wc) :: t1)) as H2
    by (eapply calm_trans; [done|by apply calm_event]).
  set (t2 := Ev _ _ :: t1) in *. wstep; [by wstep|].
  assert (forall t3, calm t t3 ->
            bad OutOfFuel \/ (SteadyClock E /\ OwnCompletions E /\ now + 1 <= clock_low t3) ->
            wp bad (poll_loop fuel c (Some op) ms deadline) (fun ok t' => calm t t') t3) as Hloop.
  { intros t3 Ht3 Hb. destruct (decide (fuel = O)) as [->|Hne].
    - destruct Hb as [Hb|(Hs & _ & Hb)]; [by apply wp_halt|]. destruct Hf as [Hf|Hf]; [by apply wp_halt|].
      exfalso. pose proof (steady t). fold now in H. lia.
    - eapply wp_mono; [apply IH; [|lia|by rewrite (calm_posted _ _ Ht3)]|].
      + destruct Hf as [Hf|(Hs & Ho & Hf)]; [by left|]. destruct Hb as [Hb|(_ & _ & Hb)]; [by left|right].
        split_and!; [done|done|]. pose proof (steady t). fold now in H. lia.
      + cbv beta. intros ok t'. by apply calm_trans. }
  wstep.
  - wstep. apply wp_calm_event; [done..|]. intros r t3 Ht3 ->. apply Hloop; [by eapply calm_trans|].
    destruct Hf as [Hf|(Hs & Ho & Hf)]; [by left|right]. split_and!; [done|done|]. cbn. lia.
  - wstep. { wstep. apply wp_calm_event; [done..|]. intros r t' Ht _. wstep. by eapply calm_trans. }
    wstep; [by wstep|]. apply Hloop; [done|]. destruct Hf as [Hf|(Hs & Ho & Hf)]; [by left|].
    exfalso. apply fmap_Some in Hl as (wop & Hl & ->). rewrite <- (calm_posted _ _ H1) in Hl.
    bools. pose proof (own_completions t1 (rc_cq c) wop Hl) as Hw. rewrite Hp in Hw. apply Heqb3, Hw; [lia|done].
Qed.

Lemma pollCompletion_calm c op t :
  bad OutOfFuel \/ (SteadyClock E /\ OwnCompletions E) -> (completion_of <$> last_posted t) = Some op ->
  wp bad (pollCompletion completion_fuel c (Some op) kCompletionTimeout) (fun ok t' => calm t t') t.
Proof.
  intros Hf Hl. unfold pollCompletion. wstep. apply wp_perform_eq.
  eapply wp_mono; [apply poll_loop_calm|].
  - destruct Hf as [Hf|[Hs Ho]]; [by left|right]. split_and!; [done|done|]. cbn [clock_low].
    unfold completion_fuel, poll_fuel. lia.
  - unfold completion_fuel, poll_fuel. lia.
  - done.
  - cbv beta. intros ok t'. apply calm_trans. by apply calm_event.
Qed.
Ltac grow := repeat apply suffix_cons_r; done.

Lemma connectRcPeer_grows c peer t :
  wp bad (connectRcPeer c peer) (fun _ t' => (forall h, bal h t' = bal h t) /\ t `suffix_of` t') t.
Proof.
  apply wp_conj; [apply connectRcPeer_neutral|].
  unfold connectRcPeer, transitionQpToRtr, transitionQpToRts. wrun; grow.
Qed.

Lemma createConnection_spec d t :
  wp bad (createConnection d) (fun c t' =>
    (forall h, bal h t' = bal h t + cnt h (own_opt own_conn c)) /\ t `suffix_of` t' /\
    (forall conn, c = Some conn -> rc_device conn = d /\ qp_track (rc_qp conn) t' = Some IBV_QPS_INIT)) t.
Proof.
  unfold createConnection. apply wp_conj; [apply createRcConnection_acquires|].
  apply wp_conj; [|apply createRcConnection_state].
  unfold createRcConnection, transitionQpToInit, destroy_RcConnection, IbvQpDeleter, IbvCqDeleter.
  wrun; grow.
Qed.

Lemma wp_resetQp i c Q t :
  im_conn i = Some c ->
  (forall i' t' after r, i' = with_conn i (im_conn i') ->
     t' = after ++ [Ev (destroy_qp (rc_qp c)) r] ++ t ->
     (forall h, bal h t' = bal h t - cnt h (own_impl i) + cnt h (own_impl i')) ->
     impl_ok t' (Some i') -> Q i' t') ->
  wp bad (resetQp i) Q t.
Proof.
  intros Hc HQ. unfold resetQp. rewrite Hc. unfold destroy_RcConnection, IbvQpDeleter, IbvCqDeleter.
  do 9 wstep. eapply wp_mono; [apply createConnection_spec|]. cbv beta.
  intros fresh t1 (Hb & [k ->] & Hq). destruct fresh as [c'|].
  - wstep. eapply (HQ _ _ (k ++ [_])); [done|by rewrite <- app_assoc| |].
    + intros h. specialize (Hb h). destruct i as [dev b m cn]. cbn in Hc. subst cn.
      cbn [bal delta] in Hb. bal_unfold. rewrite ?cnt_app in *. cbn [cnt foldr] in *. unfold one in *. lia.
    + intros j d [= <-] [= <-]. by apply Hq.
  - wstep. wstep. wstep. eapply (HQ _ _ (_ :: k ++ [_])); [done|cbn; by rewrite <- app_assoc| |].
    + intros h. specialize (Hb h). destruct i as [dev b m cn]. cbn in Hc. subst cn.
      cbn [bal delta] in *. bal_unfold. rewrite ?cnt_app in *. cbn [cnt foldr] in *. unfold one in *. lia.
    + by intros j d [= <-].
Qed.

Lemma wp_with_reset {A} i c (body : W A) (P : A -> trace -> Prop) (Q : A * option Impl -> trace -> Prop) t :
  im_conn i = Some c ->
  wp bad body (fun r t' => (forall h, bal h t' = bal h t) /\ P r t') t ->
  (forall r i' t1 t' after d, P r t1 -> i' = with_conn i (im_conn i') ->
     t' = after ++ [Ev (destroy_qp (rc_qp c)) d] ++ t1 ->
     (forall h, bal h t' = bal h t - cnt h (own_impl i) + cnt h (own_impl i')) ->
     impl_ok t' (Some i') -> Q (r, Some i') t') ->
  wp bad (with_reset i body) Q t.
Proof.
  intros Hc Hb HQ. unfold with_reset. wstep. eapply wp_mono; [exact Hb|]. cbv beta. intros r t1 [Hb1 HP].
  wstep. eapply wp_resetQp; [done|]. intros i' t' after d Hi Ht Hbal Hok. wstep.
  eapply HQ; [done|done|done| |done]. intros h. by rewrite Hbal, Hb1.
Qed.

Lemma rdmaFail_calm {A} op why t :
  wp bad (@rdmaFail E A op why) (fun r t' => r = None /\ calm t t') t.
Proof.
  unfold rdmaFail. wstep. apply wp_calm_event; [done..|]. intros r t' Ht _. by wstep.
Qed.

(** Posting, and waiting for it *)
Definition posted (conn : RcConnection) (wr : ibv_send_wr) (ok : bool) (t t' : trace) : Prop :=
  (forall h, bal h t' = bal h t) /\ t `suffix_of` t' /\
  (ok = true -> exists after, t' = after ++ [Ev (post_send (rc_qp conn) wr) 0] ++ t).

Lemma post_spec conn wr op t :
  bad OutOfFuel \/ (SteadyClock E /\ OwnCompletions E) -> completion_of (wr_opcode wr) = op ->
  wp bad (st ← perform (post_send (rc_qp conn) wr);
          if negb (st =? 0) then mret false
          else pollCompletion completion_fuel conn (Some op) kCompletionTimeout)
     (fun ok t' => posted conn wr ok t t') t.
Proof.
  intros Hf Hop. wstep. wstep. wstep.
  - wstep. split_and!; [by intros h|grow|done].
  - bools. subst r. eapply wp_mono; [apply pollCompletion_calm; done|]. cbv beta.
    intros ok t' [Hb _ _ [k ->]].
    split_and!; [intros h; by rewrite Hb|by apply suffix_app_r, suffix_cons_r|]. intros _. by exists k.
Qed.
(** What a transfer leaves of the server *)
Definition kept (i : Impl) (impl_ : option Impl) (t t' : trace) : Prop :=
  exists i', impl_ = Some i' /\ i' = with_conn i (im_conn i') /\ impl_ok t' impl_ /\
    forall h, bal h t' = bal h t - cnt h (own_impl i) + cnt h (own_impl i').

Lemma with_conn_same i c : im_conn i = c -> i = with_conn i c.
Proof. intros <-. by destruct i. Qed.

Lemma kept_calm i t t' : impl_ok t (Some i) -> calm t t' -> kept i (Some i) t t'.
Proof.
  intros Hok [Hb Hq _ _]. exists i. split_and!; [done|by apply with_conn_same| |].
  - intros j c [= <-] Hc. rewrite Hq. by apply Hok.
  - intros h. rewrite Hb. lia.
Qed.

(** A GET that succeeded: the staged bytes, the write that was posted, and
    the reset that followed *)
Definition write_done (i : Impl) (c : RcConnection) (header : TokenHeader) (data : chars)
    (reply : chars) (t t' : trace) : Prop :=
  let n := write_size header data in
  n <= Z.of_nat (List.length data) /\ n <= kStagingSize /\
  reply = encodeReplyWithPeerToken kHttpOk (buildServerToken c) /\
  exists after later mid d w, t' =
    after ++ [Ev (destroy_qp (rc_qp c)) d] ++ later ++
    [Ev (post_send (rc_qp c) (rdma_wr 1 IBV_WR_RDMA_WRITE (stagingMr i) n (th_token header))) 0] ++ mid ++
    [Ev (write_buffer (stagingBuf i) (take (Z.to_nat n) data)) w] ++ t.

Lemma rdmaWriteToClient_spec i c header data t :
  im_conn i = Some c -> impl_ok t (Some i) ->
  bad OutOfFuel \/ (SteadyClock E /\ OwnCompletions E) ->
  wp bad (rdmaWriteToClient (Some i) header data) (fun x t' =>
    kept i (snd x) t t' /\
    match fst x with Some reply => write_done i c header data reply t t' | None => True end) t.
Proof.
  intros Hc Hok Hf. destruct i as [dev buf m cn]. cbn in Hc. subst cn. cbn [rdmaWriteToClient].
  set (i := {| im_device := dev |}) in *. wstep.
  { wstep. apply wp_calm_event; [done..|]. intros r t' Ht _. wstep. split; [by apply kept_calm|done]. }
  bools. wstep. wstep. set (t0 := Ev _ r :: t).
  eapply (wp_with_reset _ c _ (fun r t1 => match r with
    | Some reply => reply = encodeReplyWithPeerToken kHttpOk (buildServerToken c) /\ exists later mid, t1 =
        later ++ [Ev (post_send (rc_qp c) (rdma_wr 1 IBV_WR_RDMA_WRITE m (write_size header data) (th_token header))) 0]
          ++ mid ++ t0
    | None => True end)); [done| |].
  - wstep. eapply wp_mono; [apply connectRcPeer_grows|]. cbv beta. intros ok t1 [Hb1 [mid ->]]. wstep.
    { eapply wp_mono; [apply rdmaFail_calm|]. cbv beta. intros x t2 [-> [Hb2 _ _ _]].
      split; [|done]. intros h. by rewrite Hb2, Hb1. }
    wstep. eapply wp_mono; [by apply post_spec|]. cbv beta. intros ok2 t2 (Hb2 & _ & Hp). wstep.
    { eapply wp_mono; [apply rdmaFail_calm|]. cbv beta. intros x t3 [-> [Hb3 _ _ _]].
      split; [|done]. intros h. by rewrite Hb3, Hb2, Hb1. }
    wstep. split; [intros h; by rewrite Hb2, Hb1|]. split; [done|].
    bools. destruct (Hp ltac:(done)) as [later ->]. by exists later, mid.
  - intros r1 i' t1 t' after d Hp Hi -> Hb Hok'. cbn [fst snd]. split.
    + exists i'. split_and!; [done|done|done|]. intros h. rewrite Hb. subst t0. cbn [bal delta]. lia.
    + destruct r1 as [reply|]; [|done]. destruct Hp as (-> & later & mid & ->).
      split_and!; [lia|lia|done|]. exists after, later, mid, d, r. done.
Qed.

(** A PUT that succeeded: the read that was posted, what it left in the
    staging buffer, and the reset that followed *)
Definition read_done (i : Impl) (c : RcConnection) (header : TokenHeader) (size : Z)
    (result : ReadResult) (t t' : trace) : Prop :=
  let n := read_size header size in
  n <= kStagingSize /\ replyHeader result = encodeReplyWithPeerToken kHttpOk (buildServerToken c) /\
  exists after later mid d, t' =
    after ++ [Ev (destroy_qp (rc_qp c)) d] ++ [Ev (read_buffer (stagingBuf i) n) (rr_data result)] ++ later ++
    [Ev (post_send (rc_qp c) (rdma_wr 2 IBV_WR_RDMA_READ (stagingMr i) n (th_token header))) 0] ++ mid ++ t.

Lemma rdmaReadFromClient_spec i c header size t :
  im_conn i = Some c -> impl_ok t (Some i) ->
  bad OutOfFuel \/ (SteadyClock E /\ OwnCompletions E) ->
  wp bad (rdmaReadFromClient (Some i) header size) (fun x t' =>
    kept i (snd x) t t' /\
    match fst x with Some result => read_done i c header size result t t' | None => True end) t.
Proof.
  intros Hc Hok Hf. destruct i as [dev buf m cn]. cbn in Hc. subst cn. cbn [rdmaReadFromClient].
  set (i := {| im_device := dev |}) in *. wstep.
  { wstep. apply wp_calm_event; [done..|]. intros r t' Ht _. wstep. split; [by apply kept_calm|done]. }
  bools.
  eapply (wp_with_reset _ c _ (fun r t1 => match r with
    | Some result => replyHeader result = encodeReplyWithPeerToken kHttpOk (buildServerToken c) /\
        exists later mid, t1 =
        [Ev (read_buffer buf (read_size header size)) (rr_data result)] ++ later ++
        [Ev (post_send (rc_qp c) (rdma_wr 2 IBV_WR_RDMA_READ m (read_size header size) (th_token header))) 0]
          ++ mid ++ t
    | None => True end)); [done| |].
  - wstep. eapply wp_mono; [apply connectRcPeer_grows|]. cbv beta. intros ok t1 [Hb1 [mid ->]]. wstep.
    { eapply wp_mono; [apply rdmaFail_calm|]. cbv beta. intros x t2 [-> [Hb2 _ _ _]].
      split; [|done]. intros h. by rewrite Hb2, Hb1. }
    wstep. eapply wp_mono; [by apply post_spec|]. cbv beta. intros ok2 t2 (Hb2 & _ & Hp). wstep.
    { eapply wp_mono; [apply rdmaFail_calm|]. cbv beta. intros x t3 [-> [Hb3 _ _ _]].
      split; [|done]. intros h. by rewrite Hb3, Hb2, Hb1. }
    wstep. apply wp_calm_event; [done..|]. intros bytes t3 [Hb3 _ _ _] ->. wstep.
    split; [intros h; by rewrite Hb3, Hb2, Hb1|]. split; [done|].
    bools. destruct (Hp ltac:(done)) as [later ->]. by exists later, mid.
  - intros r1 i' t1 t' after d Hp Hi -> Hb Hok'. cbn [fst snd]. split.
    + exists i'. by split_and!.
    + destruct r1 as [result|]; [|done]. destruct Hp as (Hr & later & mid & ->).
      split_and!; [lia|done|]. exists after, later, mid, d. done.
Qed.

Lemma wp_destroy_Impl i Q t :
  (forall t', (forall h, bal h t' = bal h t - cnt h (own_impl i)) -> Q tt t') -> wp bad (destroy_Impl i) Q t.
Proof.
  intros HQ. unfold destroy_Impl, destroy_conn. wstep.
  eapply (wp_mono _ _ (fun _ t1 => forall h, bal h t1 = bal h t - cnt h (own_opt own_conn (im_conn i)))).
  { destruct (im_conn i) as [c|]; [by apply wp_destroy_RcConnection|wstep; bal_solve]. }
  cbv beta. intros _ t1 H1. wstep. apply wp_IbvMrDeleter. intros t2 H2. wstep. wstep.
  apply wp_destroy_RdmaDevice. intros t3 H3. apply HQ. destruct i as [dev b m [c|]]; bal_solve.
Qed.

Lemma new_RdmaTestServer_spec `{T : NicTopology} `{!TopologyOk bad T} verbs t :
  wp bad (new_RdmaTestServer verbs) (fun impl_ t' =>
    (forall h, bal h t' = bal h t + cnt h (own_opt own_impl impl_)) /\ impl_ok t' impl_ /\
    (forall i, impl_ = Some i -> isReady impl_ = true)) t.
Proof.
  assert (forall t', (forall h, bal h t' = bal h t) ->
            (forall h, bal h t' = bal h t + cnt h (own_opt own_impl None)) /\ impl_ok t' None /\
            (forall i : Impl, None = Some i -> isReady None = true)) as Hnone.
  { intros t' Ht. split_and!; [intros h; rewrite Ht; cbn; lia|by intros ? ?|done]. }
  unfold new_RdmaTestServer. wstep; [wstep; by apply Hnone|].
  wstep. eapply wp_acquires; [apply openRdmaDevice_acquires; apply _|]. intros dev t1 H1.
  destruct dev as [dev|]; [|wstep; apply Hnone; intros h; rewrite H1; cbn; lia].
  wstep. wstep. wstep. wstep. destruct r0 as [m|].
  2: { wstep. wstep. wstep. apply wp_destroy_RdmaDevice. intros t2 H2. wstep. apply Hnone. bal_solve. }
  wstep. eapply wp_mono; [apply createConnection_spec|]. cbv beta. intros c t2 (H2 & _ & Hc).
  destruct c as [c|].
  - wstep. split_and!; [bal_solve| |done]. intros i d [= <-] [= <-]. by apply Hc.
  - wstep. apply wp_destroy_Impl. intros t3 H3. wstep. apply Hnone. bal_solve.
Qed.
End server.

(** *** Any number of requests *)

(** The transfer of one request *)
Inductive transfer := GetTransfer (header : TokenHeader) (data : chars) | PutTransfer (header : TokenHeader) (size : Z).

Definition run_transfer `{World} `{BuildConfig} (impl_ : option Impl) (x : transfer) : W (option Impl) :=
  match x with
  | GetTransfer header data => '(_, impl_) ← rdmaWriteToClient impl_ header data; mret impl_
  | PutTransfer header size => '(_, impl_) ← rdmaReadFromClient impl_ header size; mret impl_
  end.

Fixpoint run_transfers `{World} `{BuildConfig} (impl_ : option Impl) (xs : list transfer) : W (option Impl) :=
  match xs with
  | [] => mret impl_
  | x :: xs => impl_ ← run_transfer impl_ x; run_transfers impl_ xs
  end.

(** What a transfer leaves: the server is fit for the next one, and owns what
    was opened *)
Definition fit (impl_ impl' : option Impl) (t t' : trace) : Prop :=
  impl_ok t' impl' /\
  forall h, bal h t' - cnt h (own_opt own_impl impl') = bal h t - cnt h (own_opt own_impl impl_).

Lemma kept_fit i impl' t t' : kept i impl' t t' -> fit (Some i) impl' t t'.
Proof. intros (i' & -> & _ & Hok & Hb). split; [done|]. intros h. rewrite Hb. cbn [own_opt]. lia. Qed.

Lemma calm_fit impl_ t t' : impl_ok t impl_ -> calm t t' -> fit impl_ impl_ t t'.
Proof.
  intros Hok [Hb Hq _ _]. split; [|intros h; by rewrite Hb].
  intros i c Hi Hc. rewrite Hq. by apply Hok.
Qed.

Lemma run_transfer_spec `{E : World} `{B : BuildConfig} (HC : SteadyClock E) (HO : OwnCompletions E)
    (bad : stop -> Prop) impl_ x t :
  impl_ok t impl_ -> wp bad (run_transfer impl_ x) (fun impl' t' => fit impl_ impl' t t') t.
Proof.
  intros Hok.
  assert (forall A (op why : chars), wp bad (r ← @rdmaFail E A op why; mret (r, impl_))
            (fun x t' => fit impl_ (snd x) t t') t) as Hfail.
  { intros A op why. wstep. eapply wp_mono; [apply rdmaFail_calm|]. cbv beta. intros r t' [_ Ht].
    wstep. by apply calm_fit. }
  destruct x as [header data|header size]; cbn [run_transfer]; wstep.
  - eapply wp_mono with (P := fun x t' => fit impl_ (snd x) t t'); [|by intros [r impl'] t' H; wstep].
    destruct impl_ as [[dev b m [c|]]|]; [|apply Hfail..].
    eapply wp_mono; [apply rdmaWriteToClient_spec with (c := c); auto|]. cbv beta. intros [r impl'] t' [Hk _].
    by apply kept_fit.
  - eapply wp_mono with (P := fun x t' => fit impl_ (snd x) t t'); [|by intros [r impl'] t' H; wstep].
    destruct impl_ as [[dev b m [c|]]|]; [|apply Hfail..].
    eapply wp_mono; [apply rdmaReadFromClient_spec with (c := c); auto|]. cbv beta. intros [r impl'] t' [Hk _].
    by apply kept_fit.
Qed.

Lemma run_transfers_spec `{E : World} `{B : BuildConfig} (HC : SteadyClock E) (HO : OwnCompletions E)
    (bad : stop -> Prop) xs impl_ t :
  impl_ok t impl_ -> wp bad (run_transfers impl_ xs) (fun impl' t' => fit impl_ impl' t t') t.
Proof.
  revert impl_ t. induction xs as [|x xs IH]; intros impl_ t Hok; cbn [run_transfers].
  { wstep. apply calm_fit; [done|apply calm_refl]. }
  wstep. eapply wp_mono; [by apply run_transfer_spec|]. cbv beta. intros impl' t' [Hok' Hb].
  eapply wp_mono; [by apply IH|]. cbv beta. intros impl2 t2 [Hok2 Hb2]. split; [done|].
  intros h. by rewrite Hb2.
Qed.

(** A server to try things with: what the constructor makes of the working
    world *)
Definition lab_build : BuildConfig := {| HIPOBJ_BNXT := true; HIPOBJ_IONIC := true |}.
Definition lab_server : option Impl * trace :=
  match @new_RdmaTestServer (lab working) (@SysfsTopology (lab working)) true [] with
  | (inl impl_, t) => (impl_, t)
  | (inr _, t) => (None, t)
  end.
Definition lab_impl : option Impl := fst lab_server.
Definition lab_trace : trace := snd lab_server.

Lemma lab_impl_ok : impl_ok lab_trace lab_impl.
Proof.
  pose proof (@new_RdmaTestServer_spec (lab working) (fun e => e = OutOfFuel) (@SysfsTopology (lab working))
    (SysfsTopology_ok _ (or_introl eq_refl)) true []) as H.
  unfold lab_impl, lab_trace, lab_server. unfold wp in H.
  destruct (new_RdmaTestServer true []) as [[impl_|e] t]; [apply H|by intros i c].
Qed.

(** The work requests that a trace posted *)
Definition posts (t : trace) : list ibv_send_wr :=
  flat_map (fun e => match e with Ev (post_send _ wr) _ => [wr] | _ => [] end) t.
Definition wr_length (wr : ibv_send_wr) : Z := foldr (fun sge n => sge_length sge + n) 0 (sg_list wr).

(** ** Properties *)

(** One failed transfer doesn't wedge the server, and nothing leaks:
    starting from the constructor, any number of requests of any kind end,
    and leave a server that owns exactly what's open and whose connection,
    unless it couldn't be rebuilt, is fresh, with a QP in INIT that the next
    client can be connected to. *)
Theorem server_survives_transfers `{E : World} `{B : BuildConfig} (HC : SteadyClock E) (HO : OwnCompletions E)
    (HP : PortsFit E) (verbs : bool) (xs : list transfer) (t : trace) :
  wp (fun _ => False) (impl_ ← @new_RdmaTestServer E SysfsTopology verbs; run_transfers impl_ xs)
    (fun impl_ t' => impl_ok t' impl_ /\ forall h, bal h t' = bal h t + cnt h (own_opt own_impl impl_)) t.
Proof.
  assert (TopologyOk (fun _ => False) SysfsTopology) as HT by (apply SysfsTopology_ok; by right).
  wstep. eapply wp_mono; [apply new_RdmaTestServer_spec; apply _|]. cbv beta. intros impl_ t1 (Hb & Hok & _).
  eapply wp_mono; [by apply run_transfers_spec|]. cbv beta. intros impl' t2 [Hok' Hb'].
  split; [done|]. intros h. specialize (Hb h). specialize (Hb' h). lia.
Qed.

#[local] Existing Instance lab_build.

Lemma server_survives_transfers_witness :
  let E := lab (working <| set_modify := 1 |>) in
  wp (fun _ => False) (impl_ ← @new_RdmaTestServer E SysfsTopology true;
                       run_transfers impl_ [GetTransfer {| th_token := golden_token; th_length := 0 |} (lit "object");
                                            PutTransfer {| th_token := golden_token; th_length := 5 |} 0])
    (fun impl_ t' => impl_ok t' impl_ /\ forall h, bal h t' = bal h [] + cnt h (own_opt own_impl impl_)) [].
Proof. refine (@server_survives_transfers (lab (working <| set_modify := 1 |>)) lab_build _ _ _ true _ []); apply _. Defined.

(** What a GET did of its own by the trace [t'], from [t]: the object's
    first bytes were copied to the staging buffer, and then posted as one
    write to the client's buffer *)
Definition get_wrote (i : Impl) (c : RcConnection) (header : TokenHeader) (data : chars) (t t' : trace) : Prop :=
  let n := write_size header data in
  0 <= n <= Z.of_nat (List.length data) /\
  exists after mid wr w, t' = after ++ [Ev (post_send (rc_qp c) wr) 0] ++ mid ++
      [Ev (write_buffer (stagingBuf i) (take (Z.to_nat n) data)) w] ++ t /\
    wr_opcode wr = IBV_WR_RDMA_WRITE /\ wr_length wr = n /\
    map sge_addr (sg_list wr) = [mr_buf (stagingMr i)] /\
    rdma_remote_addr wr = tok_remoteAddr (th_token header) /\ rdma_rkey wr = tok_rkey (th_token header).



(** The peer token of a reply names a QP that no longer exists when the
    reply is sent: the reset that follows every transfer destroys the QP
    that the token was built from, before the reply gets to the client that
    is to connect to it. *)
Theorem reply_names_destroyed_qp `{E : World} `{B : BuildConfig} (HC : SteadyClock E) (HO : OwnCompletions E)
    (i : Impl) (c : RcConnection) (header : TokenHeader) (data : chars) (t : trace)
    (Hc : im_conn i = Some c) (Hok : impl_ok t (Some i)) :
  wp (fun _ => False) (rdmaWriteToClient (Some i) header data) (fun x t' => forall reply, fst x = Some reply ->
    exists after d before, reply = encodeReplyWithPeerToken kHttpOk (buildServerToken c) /\
      tok_qpNum (buildServerToken c) = qp_num (rc_qp c) /\
      t' = after ++ [Ev (destroy_qp (rc_qp c)) d] ++ before) t.
Proof.
  eapply wp_mono; [apply rdmaWriteToClient_spec with (c := c); auto|]. cbv beta. intros [r impl'] t' [_ Hw] reply Hr.
  cbn [fst] in *. subst r. destruct Hw as (_ & _ & -> & after & later & mid & d & w & ->).
  by eexists after, d, _.
Qed.

(** A GET without a suffix ignores the token's length: a client that
    offers 16 bytes is sent all of a larger object, past the range that its
    token gives access to. *)
Theorem get_overruns_token :
  exists token data reply impl' t',
    parseTokenHeader (encodeRdmaToken token) = Some {| th_token := token; th_length := 0 |} /\
    @rdmaWriteToClient (lab working) lab_build lab_impl {| th_token := token; th_length := 0 |} data lab_trace =
      (inl (Some reply, impl'), t') /\
    exists wr, posts t' = [wr] /\ rdma_remote_addr wr = tok_remoteAddr token /\ tok_length token < wr_length wr.
Proof.
  set (token := golden_token <| tok_length := 16 |>). set (data := replicate 32 "x"%char).
  set (run := @rdmaWriteToClient (lab working) lab_build lab_impl {| th_token := token; th_length := 0 |} data lab_trace).
  assert (match run with
          | (inl (Some _, _), t') => match posts t' with
              | [wr] => (rdma_remote_addr wr =? tok_remoteAddr token) && (tok_length token <? wr_length wr)
              | _ => false end
          | _ => false end = true) as H by (vm_compute; reflexivity).
  exists token, data. destruct run as [[[[reply|] impl']|e] t'] eqn:Hr; [|discriminate H..].
  exists reply, impl', t'.
  split; [vm_compute; reflexivity|]. split; [exact Hr|].
  clear Hr. destruct (posts t') as [|wr [|? ?]]; [done| |done]. exists wr. bools. done.
Qed.
End RdmaTestServer.
