(* ===== verification/TestServer.v ===== *)
(** * The test server ([test/integration/rdma-test-server/main.cpp])

    The objects it stores, the handler of its requests, and [main()]: the
    port its arguments give, and the requests it serves once it's listening.
    Requests are handled one after the other here; the threads they come
    from are in the file [HttpThreads]. *)

From Stdlib Require Import Ascii String.
From stdpp Require Import base numbers list gmap strings.
From S2P Require Import Prelude.
From S2P Require Import Parse.
From S2P Require Import Token.
From S2P Require Import Text.
From S2P Require Import TokenHeader.
From S2P Require Import Http.
From S2P Require Import IbvCore.
From S2P Require Import World.
From S2P Require Import Verbs.
From S2P Require Import Topology.
From S2P Require Import Transport.
From S2P Require Import RdmaServer.
Import Status.
Import RdmaTestServer.

(** ** Definitions *)

Definition kDefaultPort : Z := 9000.

(** What a request can read and write: the objects, and the RDMA server *)
Record Server := {
  objects : gmap chars chars;
  rdma : option Impl;
  srv_trace : trace;
}.

#[export] Instance eta_Server : Eta Server := fun s =>
  {| objects := objects s; rdma := rdma s; srv_trace := srv_trace s |}.

(** A call of the RDMA server, which can replace its connection *)
Definition on_rdma {A} (m : option Impl -> W (A * option Impl)) : M Server A := fun s =>
  match m (rdma s) (srv_trace s) with
  | (inl (a, impl_), t) => (inl a, s <| rdma := impl_ |> <| srv_trace := t |>)
  | (inr e, t) => (inr e, s <| srv_trace := t |>)
  end.

Definition objectKey (path : chars) : chars :=
  match path with
  | c :: path' => if decide (c = "/"%char) then path' else path
  | [] => path
  end.

(** What a response holds, besides the [HttpResponse{}] it starts from *)
Definition answer (status : Z) (headers : gmap chars chars) (body : chars) : HttpResponse :=
  {| resp_status := status; resp_headers := headers; resp_body := body |}.

Definition location_body : chars :=
  lit "<?xml version=" ++ [chr 34] ++ lit "1.0" ++ [chr 34] ++ lit " encoding=" ++ [chr 34] ++ lit "UTF-8" ++ [chr 34] ++
  lit "?><LocationConstraint xmlns=" ++ [chr 34] ++ lit "http://s3.amazonaws.com/doc/2006-03-01/" ++ [chr 34] ++
  lit ">us-east-1</LocationConstraint>".

Definition test_etag : chars := [chr 34] ++ lit "test" ++ [chr 34].

Definition not_found : HttpResponse := answer kHttpNotFound ∅ (lit "not found").
Definition not_allowed : HttpResponse := answer kHttpMethodNotAllowed ∅ (lit "method not allowed").
Definition put_ok : HttpResponse := answer kHttpOk {[ lit "etag" := test_etag ]} [].

Definition is_method (name : string) (req : HttpRequest) : bool := bool_decide (method req = lit name).

(** A request that's served over HTTP alone *)
Definition serve_http (key : chars) (req : HttpRequest) : M Server HttpResponse :=
  if is_method "PUT" req then
    _ ← modify (fun s => s <| objects ::= <[key := req_body req]> |>);
    mret put_ok
  else if is_method "GET" req then
    s ← get_state;
    match objects s !! key with
    | None => mret not_found
    | Some data => mret (answer kHttpOk ∅ data)
    end
  else mret not_allowed.

(** One whose data moves over RDMA *)
Definition serve_rdma `{World} `{BuildConfig} (key : chars) (token : TokenHeader) (req : HttpRequest)
    : M Server HttpResponse :=
  if is_method "PUT" req then
    read ← on_rdma (fun impl_ => rdmaReadFromClient impl_ token (contentLength req));
    match read with
    | None => mret (answer kHttpInternalServerError ∅ (lit "RDMA PUT failed"))
    | Some read =>
        _ ← modify (fun s => s <| objects ::= <[key := rr_data read]> |>);
        mret (answer kHttpOk (<[lit "etag" := test_etag]> {[ lit "x-amz-rdma-reply" := replyHeader read ]}) [])
    end
  else if is_method "GET" req then
    s ← get_state;
    match objects s !! key with
    | None => mret not_found
    | Some data =>
        reply ← on_rdma (fun impl_ => rdmaWriteToClient impl_ token data);
        match reply with
        | None => mret (answer kHttpInternalServerError ∅ (lit "RDMA GET failed"))
        | Some reply =>
            mret (answer kHttpOk
              (<[lit "x-amz-rdma-bytes-transferred" := to_string (Z.of_nat (List.length data))]>
                 {[ lit "x-amz-rdma-reply" := reply ]}) [])
        end
    end
  else mret not_allowed.

(** The requests that need no object *)
Definition is_health (req : HttpRequest) : bool := is_method "GET" req && bool_decide (path req = lit "/health").
Definition is_location (req : HttpRequest) : bool :=
  is_method "GET" req && bool_decide (is_Some (find_str (lit "?location") (path req))).

(** The lambda that [main()] sets as the handler *)
Definition handler `{World} `{BuildConfig} (req : HttpRequest) : M Server HttpResponse :=
  if is_health req then mret (answer kHttpOk ∅ (lit "ok"))
  else if is_location req then
    mret (answer kHttpOk {[ lit "Content-Type" := lit "application/xml" ]} location_body)
  else
    let key := objectKey (path req) in
    s ← get_state;
    match req_headers req !! lit "x-amz-rdma-token", isReady (rdma s) with
    | Some value, true =>
        match parseTokenHeader value with
        | None => mret (answer kHttpBadRequest ∅ (lit "malformed x-amz-rdma-token"))
        | Some token => serve_rdma key token req
        end
    | _, _ => serve_http key req
    end.

Definition usage `{World} (prog : chars) : W unit :=
  perform (print_stderr (Message (lit "usage: " ++ prog ++ lit " [port]"))).

(** The port that the arguments after the program's name give; nothing, after
    a message, when one's no port *)
Fixpoint listen_port `{World} (prog : chars) (port : Z) (args : list chars) : W (option Z) :=
  match args with
  | [] => mret (Some port)
  | arg :: args =>
      let invalid := _ ← perform (print_stderr (Message (lit "hipobj-rdma-test-server: invalid port " ++ arg)));
                     _ ← usage prog; mret None in
      if bool_decide (head arg = Some "-"%char) then
        _ ← perform (print_stderr (Message (lit "hipobj-rdma-test-server: unknown option " ++ arg)));
        _ ← usage prog; mret None
      else
        match parseNumber uint16_t arg kDefaultNumberBase with
        | Some value => if value =? 0 then invalid else listen_port prog value args
        | None => invalid
        end
  end.

(** The server that [main()] makes before it listens, and what owns the
    libibverbs functions, which outlives it *)
Definition make_server `{World} `{BuildConfig} `{NicTopology} : W (option LoadedVerbs * option Impl) :=
  verbs ← loadLibibverbs;
  impl_ ← new_RdmaTestServer (bool_decide (is_Some verbs));
  _ ← (if isReady impl_ then mret tt
       else perform (print_stderr (Message (lit "hipobj-rdma-test-server: RDMA not available — running in HTTP-only mode"))));
  mret (verbs, impl_).

(** Connections, each served by [handleConnection()]: how the bytes arrive,
    and how the socket takes the answer *)
Fixpoint serve `{World} `{BuildConfig} (conns : list (list turn * list send_turn))
    : M Server (list (option chars)) :=
  match conns with
  | [] => mret []
  | (turns, sends) :: conns =>
      out ← handleConnection handler turns sends;
      outs ← serve conns;
      mret (out :: outs)
  end.

(** ** Lemmas *)

(** What a request may do to the objects: store one, under its own path, when
    it's a PUT that's answered with 200 *)
Definition stores (req : HttpRequest) (resp : HttpResponse) (before after : gmap chars chars) : Prop :=
  after = before \/
  (method req = lit "PUT" /\ resp_status resp = kHttpOk /\
   exists data, after = <[objectKey (path req) := data]> before).

(** What the server answers with *)
Definition answered (resp : HttpResponse) : Prop :=
  resp_status resp ∈ [kHttpOk; kHttpBadRequest; kHttpNotFound; kHttpMethodNotAllowed; kHttpInternalServerError].

(** What holds of the server between requests, and what it owns *)
Definition server_fit (s s' : Server) : Prop :=
  fit (rdma s) (rdma s') (srv_trace s) (srv_trace s').

Ltac in_list := repeat first [left; done | right].

Section handler.
Context `{E : World} `{B : BuildConfig} (HC : SteadyClock E) (HO : OwnCompletions E) (bad : stop -> Prop).

Lemma server_fit_refl s : impl_ok (srv_trace s) (rdma s) -> server_fit s s.
Proof. intros H. apply calm_fit; [done|apply calm_refl]. Qed.

Lemma wp_on_rdma {A} (m : option Impl -> W (A * option Impl)) (Q : A -> Server -> Prop) s :
  wp bad (m (rdma s)) (fun x t => Q (fst x) (s <| rdma := snd x |> <| srv_trace := t |>)) (srv_trace s) ->
  wp bad (on_rdma m) Q s.
Proof. unfold wp, on_rdma. destruct (m (rdma s) (srv_trace s)) as [[[a i]|e] t]; done. Qed.

Lemma write_fit impl_ header data t :
  impl_ok t impl_ ->
  wp bad (rdmaWriteToClient impl_ header data) (fun x t' => fit impl_ (snd x) t t') t.
Proof.
  intros H. pose proof (run_transfer_spec HC HO bad impl_ (GetTransfer header data) t H) as Hr.
  cbn [run_transfer] in Hr. unfold wp, mbind, M_bind in *.
  by destruct (rdmaWriteToClient impl_ header data t) as [[[r i]|e] t'].
Qed.

Lemma read_fit impl_ header size t :
  impl_ok t impl_ ->
  wp bad (rdmaReadFromClient impl_ header size) (fun x t' => fit impl_ (snd x) t t') t.
Proof.
  intros H. pose proof (run_transfer_spec HC HO bad impl_ (PutTransfer header size) t H) as Hr.
  cbn [run_transfer] in Hr. unfold wp, mbind, M_bind in *.
  by destruct (rdmaReadFromClient impl_ header size t) as [[[r i]|e] t'].
Qed.

Lemma is_method_true name req : is_method name req = true -> method req = lit name.
Proof. unfold is_method. intros H. by bools. Qed.

Definition handled (req : HttpRequest) (s : Server) (resp : HttpResponse) (s' : Server) : Prop :=
  answered resp /\ stores req resp (objects s) (objects s') /\ server_fit s s'.

Lemma handled_same req s resp : impl_ok (srv_trace s) (rdma s) -> answered resp -> handled req s resp s.
Proof. intros Hs Ha. split_and!; [done|by left|by apply server_fit_refl]. Qed.

Lemma serve_http_spec req s :
  impl_ok (srv_trace s) (rdma s) ->
  wp bad (serve_http (objectKey (path req)) req) (handled req s) s.
Proof.
  intros Hs. unfold serve_http. destruct (is_method "PUT" req) eqn:Hm.
  - apply is_method_true in Hm. apply wp_bind, wp_modify, wp_ret. split_and!; [in_list| |exact (server_fit_refl s Hs)].
    right. split_and!; [done|done|]. by exists (req_body req).
  - destruct (is_method "GET" req).
    + apply wp_bind, wp_get. destruct (objects s !! _); (apply wp_ret, handled_same; [done|in_list]).
    + apply wp_ret, handled_same; [done|in_list].
Qed.

Lemma serve_rdma_spec token req s :
  impl_ok (srv_trace s) (rdma s) ->
  wp bad (serve_rdma (objectKey (path req)) token req) (handled req s) s.
Proof.
  intros Hs. unfold serve_rdma. destruct (is_method "PUT" req) eqn:Hm.
  - apply is_method_true in Hm. apply wp_bind, wp_on_rdma. eapply wp_mono; [by apply read_fit|].
    cbv beta. intros [[read|] impl'] t' Hf; cbn [fst snd].
    + apply wp_bind, wp_modify, wp_ret. split_and!; [in_list| |exact Hf].
      right. split_and!; [done|done|]. by exists (rr_data read).
    + apply wp_ret. split_and!; [in_list|by left|exact Hf].
  - destruct (is_method "GET" req).
    + apply wp_bind, wp_get. destruct (objects s !! _) as [data|]; [|apply wp_ret, handled_same; [done|in_list]].
      apply wp_bind, wp_on_rdma. eapply wp_mono; [by apply write_fit|].
      cbv beta. intros [[reply|] impl'] t' Hf; cbn [fst snd]; apply wp_ret;
        (split_and!; [in_list|by left|exact Hf]).
    + apply wp_ret, handled_same; [done|in_list].
Qed.

Lemma handler_spec req s :
  impl_ok (srv_trace s) (rdma s) -> wp bad (handler req) (handled req s) s.
Proof.
  intros Hs. unfold handler. destruct (is_health req); [apply wp_ret, handled_same; [done|in_list]|].
  destruct (is_location req); [apply wp_ret, handled_same; [done|in_list]|].
  apply wp_bind, wp_get. destruct (req_headers req !! _) as [v|]; [|by apply serve_http_spec].
  destruct (isReady _); [|by apply serve_http_spec].
  destruct (parseTokenHeader v); [by apply serve_rdma_spec|]. apply wp_ret, handled_same; [done|in_list].
Qed.
End handler.

(** The handler, for requests that are served over HTTP alone *)
Definition http_only (req : HttpRequest) (s : Server) : Prop :=
  req_headers req !! lit "x-amz-rdma-token" = None \/ isReady (rdma s) = false.

Lemma handler_http `{World} `{BuildConfig} req s :
  is_health req = false -> is_location req = false -> http_only req s ->
  handler req s = serve_http (objectKey (path req)) req s.
Proof.
  intros Hh Hl Ho. unfold handler. rewrite Hh, Hl. unfold mbind, M_bind, get_state.
  destruct Ho as [->| ->]; [done|]. by destruct (req_headers req !! _).
Qed.

(** A connection whose socket takes all that's sent *)
Lemma handleConnection_answers {S} (h : HttpRequest -> M S HttpResponse) turns sends req resp s s' :
  receive_request turns = Some req -> h req s = (inl resp, s') ->
  fst (sendAll (serializeResponse resp) sends) = true ->
  handleConnection h turns sends s = (inl (Some (snd (sendAll (serializeResponse resp) sends))), s').
Proof. intros Hr Hh Hs. unfold handleConnection. rewrite Hr. unfold mbind, M_bind. by rewrite Hh. Qed.

(** [main()], from its start until it has served some connections *)
Definition run_server `{World} `{BuildConfig} `{NicTopology} (conns : list (list turn * list send_turn))
    : M Server (option LoadedVerbs * list (option chars)) :=
  '(verbs, impl_) ← zoom srv_trace (fun t s => s <| srv_trace := t |>) make_server;
  _ ← modify (fun s => s <| rdma := impl_ |>);
  outs ← serve conns;
  mret (verbs, outs).

Definition started : Server := {| objects := ∅; rdma := None; srv_trace := [] |}.

Lemma handleConnection_spec {S} bad (h : HttpRequest -> M S HttpResponse) turns sends (P : S -> Prop) s :
  P s -> (forall req, wp bad (h req) (fun _ s' => P s') s) ->
  wp bad (handleConnection h turns sends) (fun out s' => P s' /\ (out = None <-> receive_request turns = None)) s.
Proof.
  intros Hs Hh. unfold handleConnection. destruct (receive_request turns) as [req|]; [|by apply wp_ret].
  apply wp_bind. eapply wp_mono; [apply Hh|]. cbv beta. intros resp s' HP. by apply wp_ret.
Qed.

(** Which connections get an answer *)
Definition answers (conns : list (list turn * list send_turn)) (outs : list (option chars)) : Prop :=
  Forall2 (fun conn out => out = None <-> receive_request (fst conn) = None) conns outs.

Lemma serve_spec `{E : World} `{B : BuildConfig} (HC : SteadyClock E) (HO : OwnCompletions E) bad conns s :
  impl_ok (srv_trace s) (rdma s) ->
  wp bad (serve conns) (fun outs s' => server_fit s s' /\ answers conns outs) s.
Proof.
  revert s. induction conns as [|[turns sends] conns IH]; intros s Hs; cbn [serve].
  { apply wp_ret. split; [by apply server_fit_refl|constructor]. }
  apply wp_bind. eapply wp_mono; [apply handleConnection_spec with (P := server_fit s)|].
  - by apply server_fit_refl.
  - intros req. eapply wp_mono; [by apply handler_spec|]. by intros resp s' (_ & _ & H).
  - cbv beta. intros out s1 [[Hok1 Hb1] Ho]. apply wp_bind. eapply wp_mono; [by apply IH|]. cbv beta.
    intros outs s2 [[Hok2 Hb2] Hos]. apply wp_ret. split; [|by constructor].
    split; [done|]. intros h. by rewrite Hb2.
Qed.

Lemma make_server_spec `{E : World} `{B : BuildConfig} bad `{T : NicTopology} `{!TopologyOk bad T} t :
  wp bad make_server (fun x t' =>
    impl_ok t' (snd x) /\
    forall h, bal h t' = bal h t + cnt h (own_opt own_impl (snd x)) + cnt h (own_verbs (fst x))) t.
Proof.
  unfold make_server. wstep. eapply wp_mono; [apply loadLibibverbs_spec|]. cbv beta. intros verbs t1 [H1 _].
  wstep. eapply wp_mono; [apply new_RdmaTestServer_spec; apply _|]. cbv beta. intros impl_ t2 (H2 & Hok & _).
  assert (forall h, bal h t2 = bal h t + cnt h (own_opt own_impl impl_) + cnt h (own_verbs verbs)) as Hb.
  { intros h. rewrite H2, H1. lia. }
  wstep. destruct (isReady impl_); [by do 2 wstep|].
  apply wp_calm_event; [done..|]. intros r t3 [Hb3 Hq _ _] _. wstep. split.
  - intros i c Hi Hc. rewrite Hq. by apply Hok.
  - intros h. rewrite Hb3. apply Hb.
Qed.

(** ** Properties *)

(** C7: the server serves whatever it's sent: from [main()]'s start, any
    sequence of connections, with any bytes on them, is served to its end;
    a connection gets an answer just when it brought a whole request; and
    what's open afterwards is what the RDMA server owns, and libibverbs,
    with a QP that the next client can be connected to. *)
Theorem test_server_serves `{E : World} `{B : BuildConfig} (HC : SteadyClock E) (HO : OwnCompletions E)
    (HP : PortsFit E) (conns : list (list turn * list send_turn)) :
  wp (fun _ => False) (@run_server E B SysfsTopology conns) (fun x s =>
    answers conns (snd x) /\ impl_ok (srv_trace s) (rdma s) /\
    forall h, bal h (srv_trace s) = cnt h (own_opt own_impl (rdma s)) + cnt h (own_verbs (fst x))) started.
Proof.
  assert (TopologyOk (fun _ => False) SysfsTopology) as HT by (apply SysfsTopology_ok; by right).
  unfold run_server. apply wp_bind, wp_zoom. eapply wp_mono; [apply make_server_spec; apply _|]. cbv beta.
  intros [verbs impl_] t1 [Hok Hb]. cbn [fst snd] in *. apply wp_bind, wp_modify, wp_bind.
  eapply wp_mono; [by apply serve_spec|]. cbv beta. intros outs s [[Hok' Hb'] Ha]. apply wp_ret. cbn [fst snd].
  split_and!; [done|done|]. intros h. specialize (Hb h). specialize (Hb' h). cbn in Hb, Hb'. lia.
Qed.

#[local] Existing Instance lab_build.

Lemma test_server_serves_witness :
  wp (fun _ => False) (@run_server (lab working) lab_build (@SysfsTopology (lab working)) [([Got (lit "GET /health")], [])]) (fun x s =>
    answers [([Got (lit "GET /health")], [])] (snd x) /\ impl_ok (srv_trace s) (rdma s) /\
    forall h, bal h (srv_trace s) = cnt h (own_opt own_impl (rdma s)) + cnt h (own_verbs (fst x))) started.
Proof. exact (@test_server_serves (lab working) lab_build _ _ (lab_ports working) [([Got (lit "GET /health")], [])]). Defined.

(** C28: the handler answers every request, and stores only what it says it
    stored: whatever the request, and whatever becomes of its transfer, the
    answer has one of five codes, and the objects are as before, unless it's
    a PUT that's answered with 200, which replaced the object of its own
    path and no other. *)
Theorem handler_answers `{E : World} `{B : BuildConfig} (HC : SteadyClock E) (HO : OwnCompletions E)
    (req : HttpRequest) (s : Server) (Hs : impl_ok (srv_trace s) (rdma s)) :
  wp (fun _ => False) (handler req) (fun resp s' =>
    answered resp /\ stores req resp (objects s) (objects s') /\ impl_ok (srv_trace s') (rdma s')) s.
Proof.
  eapply wp_mono; [by apply handler_spec|]. by intros resp s' (Ha & Hst & Hok & _).
Qed.

(** A server that's ready for RDMA, with an object *)
Definition ready_server : Server :=
  {| objects := {[ lit "bucket/key" := lit "0123456789" ]}; rdma := lab_impl; srv_trace := lab_trace |}.
Definition get_request (token : chars) : HttpRequest :=
  {| method := lit "GET"; path := lit "/bucket/key"; req_headers := {[ lit "x-amz-rdma-token" := token ]};
     req_body := []; contentLength := 0 |}.

Lemma handler_answers_witness :
  wp (fun _ => False) (@handler (lab working) lab_build (get_request (lit "none"))) (fun resp s' =>
    answered resp /\ stores (get_request (lit "none")) resp (objects ready_server) (objects s') /\
    impl_ok (srv_trace s') (rdma s')) ready_server.
Proof. exact (@handler_answers (lab working) lab_build _ _ (get_request (lit "none")) ready_server lab_impl_ok). Defined.

(** A request as a client writes it, without a token, on a connection that
    takes all of the answer [resp] *)
Definition plain_request (meth target : chars) (headers : list (chars * chars)) (body : chars)
    (resp : HttpResponse) (conn : list turn * list send_turn) : Prop :=
  is_word meth /\ is_word target /\ Forall header_ok headers /\
  declared_length (kept_headers headers) = Some (Z.of_nat (List.length body)) /\
  kept_headers headers !! lit "x-amz-rdma-token" = None /\
  only_data (fst conn) /\ data_of (fst conn) = request_head meth target headers ++ body /\
  (List.length (request_head meth target headers ++ body) <= kMaxHeaderBytes)%nat /\
  fst (sendAll (serializeResponse resp) (snd conn)) = true.

Lemma plain_request_served `{World} `{BuildConfig} meth target headers body resp conn s s' :
  plain_request meth target headers body resp conn ->
  (meth = lit "GET" -> target <> lit "/health" /\ find_str (lit "?location") target = None) ->
  (forall hs n, serve_http (objectKey target)
     {| method := meth; path := target; req_headers := hs; req_body := body; contentLength := n |} s = (inl resp, s')) ->
  handleConnection handler (fst conn) (snd conn) s = (inl (Some (serializeResponse resp)), s').
Proof.
  intros (Hm & Ht & Hh & Hl & Hk & Hd & Hdata & Hfit & Hsend) Hget Hs.
  pose proof (sendAll_prefix (serializeResponse resp) (snd conn)) as Hp.
  pose proof (receive_request_render _ _ _ _ _ Hm Ht Hh Hl Hd Hdata Hfit) as Hr.
  assert (Hr' := handleConnection_answers handler (fst conn) (snd conn) _ resp s s' Hr). rewrite Hr'; [| |done].
  - destruct (sendAll _ (snd conn)) as [ok out]. cbn [fst snd] in *. subst ok. destruct Hp as [_ Hp].
    by rewrite (proj1 Hp).
  - rewrite handler_http; [apply Hs| | |by left].
    + unfold is_health, is_method. cbn [method path]. case_bool_decide as H1; [|done].
      rewrite bool_decide_eq_false_2; [done|]. by apply Hget.
    + unfold is_location, is_method. cbn [method path]. case_bool_decide as H1; [|done].
      destruct (Hget H1) as [_ ->]. done.
Qed.


#[export] Instance plain_request_dec meth target headers body resp conn :
  Decision (plain_request meth target headers body resp conn).
Proof. unfold plain_request. repeat (apply and_dec; [apply _|]). apply _. Defined.

(** A client that puts an object, and one that gets it, each in pieces *)
Definition put_conn : list turn * list send_turn :=
  ([Got (take 30 put_head); Again; Got (drop 30 put_head ++ lit "he"); Got (lit "llo")], [Sent 7; SendAgain; Sent 200]).
Definition get_head : chars := request_head (lit "GET") (lit "/bucket/key") [(lit "Host", lit "s3")].
Definition get_conn : list turn * list send_turn := ([Got get_head], [Sent 100]).


(** The bytes that a GET reports aren't those it moved: a token header can
    ask for the first 4 bytes of an object of 10, and has 4 written to its
    buffer, but the answer says that 10 were transferred. *)
Theorem get_reports_object_size :
  exists token resp s' wr,
    parseTokenHeader (encodeRdmaToken golden_token ++ lit ":0:4") = Some {| th_token := token; th_length := 4 |} /\
    @handler (lab working) lab_build (get_request (encodeRdmaToken golden_token ++ lit ":0:4")) ready_server = (inl resp, s') /\
    resp_status resp = kHttpOk /\ resp_headers resp !! lit "x-amz-rdma-bytes-transferred" = Some (lit "10") /\
    posts (srv_trace s') = [wr] /\ wr_length wr = 4.
Proof.
  set (run := @handler (lab working) lab_build (get_request (encodeRdmaToken golden_token ++ lit ":0:4")) ready_server).
  assert (match run with
          | (inl resp, s') => match posts (srv_trace s') with
              | [wr] => bool_decide (resp_status resp = kHttpOk /\ wr_length wr = 4 /\
                          resp_headers resp !! lit "x-amz-rdma-bytes-transferred" = Some (lit "10"))
              | _ => false end
          | _ => false end = true) as H by (vm_compute; reflexivity).
  destruct run as [[resp|e] s'] eqn:Hr; [|discriminate H].
  exists (golden_token <| tok_length := 4 |>), resp, s'. clearbody run.
  destruct (posts (srv_trace s')) as [|wr [|? ?]] eqn:Hp; [discriminate H| |discriminate H].
  apply bool_decide_eq_true in H as (Hs & Hw & Hh). exists wr. split_and!; [vm_compute; reflexivity|done..].
Qed.
