(* ===== verification/TestMain.v ===== *)
(** * The test server's socket and [main()]
      ([test/common/unique-fd.h],
      [test/integration/rdma-test-server/http_server.cpp],
      [test/integration/rdma-test-server/main.cpp])

    What happens until the server listens: the owning descriptor, the
    constructor of [HttpServer], and [main()], which doesn't return once the
    accept loop has started.  [TestServer] has what the handler does then,
    and [HttpThreads] the threads. *)

From Stdlib Require Import Ascii String.
From stdpp Require Import base numbers list gmap.
From S2P Require Import Prelude.
From S2P Require Import Parse.
From S2P Require Import Token.
From S2P Require Import IbvCore.
From S2P Require Import World.
From S2P Require Import Verbs.
From S2P Require Import Topology.
From S2P Require Import Transport.
From S2P Require Import RdmaServer.
From S2P Require Import TestServer.
Import RdmaTestServer.

(** ** Definitions *)

(** *** [UniqueFd]

    A descriptor that's owned; a negative one owns nothing. *)
Definition fd_ok (fd : Z) : bool := 0 <=? fd.

(** What it returns, and what's left *)
Definition UniqueFd_release (fd : Z) : Z * Z := (fd, -1).

(** Owns [fd] from then on *)
Definition UniqueFd_reset `{World} (old fd : Z) : W Z :=
  _ ← (if fd_ok old then _ ← perform (close_fd old); mret tt else mret tt); mret fd.

Definition destroy_UniqueFd `{World} (fd : Z) : W unit := _ ← UniqueFd_reset fd (-1); mret tt.

(** Moves [other] into [fd]: what's in each afterwards *)
Definition UniqueFd_assign `{World} (fd other : Z) : W (Z * Z) :=
  let '(released, other) := UniqueFd_release other in
  fd ← UniqueFd_reset fd released; mret (fd, other).

(** *** [HttpServer] *)

Definition kListenBacklog : Z := 64.

Section main.
Context `{World} `{BuildConfig} `{NicTopology}.
(** [std::generic_category().message()] *)
Variable error_message : Z -> chars.

(** The constructor: [listen_fd_]. [listen()]'s result isn't looked at. *)
Definition new_HttpServer (port : Z) : W Z :=
  fd ← perform socket_create;
  if negb (fd_ok fd) then mret fd
  else
    _ ← perform (set_reuseaddr fd);
    bound ← perform (bind_port fd (wrapu 16 port));
    if negb (bound =? 0) then
      err ← perform get_errno;
      _ ← perform (print_stderr (Message (lit "hipobj-rdma-test-server: cannot bind port " ++ to_string port ++ lit ": " ++
                                          error_message err)));
      UniqueFd_reset fd (-1)
    else _ ← perform (listen_on fd kListenBacklog); mret fd.

(** Whether the accept loop's thread was started *)
Definition startThreaded (listen_fd : Z) : bool := fd_ok listen_fd.

(** [stop()] does nothing before [startThreaded()] has started the loop *)
Definition destroy_HttpServer (listen_fd : Z) : W unit := destroy_UniqueFd listen_fd.

(** *** [main()] *)

(** It returns a status, or serves until it's killed *)
Inductive outcome_of_main :=
| Exited (status : Z)
| Serving (port listen_fd : Z) (verbs : option LoadedVerbs) (impl_ : option Impl).

Definition destroy_RdmaTestServer (impl_ : option Impl) : W unit :=
  match impl_ with Some i => destroy_Impl i | None => mret tt end.
Definition destroy_LoadedVerbs (verbs : option LoadedVerbs) : W unit :=
  match verbs with Some v => DlCloseDeleter (library_ v) | None => mret tt end.

Definition test_server_main (args : list chars) : W outcome_of_main :=
  let prog := default (lit "hipobj-rdma-test-server") (head args) in
  port ← listen_port prog kDefaultPort (tail args);
  match port with
  | None => mret (Exited 2)
  | Some port =>
      '(verbs, impl_) ← make_server;
      listen_fd ← new_HttpServer port;
      if negb (startThreaded listen_fd) then
        _ ← perform (print_stderr (Message (lit "hipobj-rdma-test-server: not listening on port " ++ to_string port)));
        _ ← destroy_HttpServer listen_fd;
        _ ← destroy_RdmaTestServer impl_;
        _ ← destroy_LoadedVerbs verbs;
        mret (Exited 1)
      else
        _ ← perform (print_stdout (lit "hipobj-rdma-test-server listening on port " ++ to_string port));
        mret (Serving port listen_fd verbs impl_)
  end.
End main.

(** The port that the arguments ask for: the last one, if all are ports *)
Definition is_port (arg : chars) (port : Z) : Prop := numeral uint16_t 10 arg port /\ port <> 0.

(** ** Lemmas *)

Section server.
Context `{E : World} `{B : BuildConfig} (bad : stop -> Prop) `{T : NicTopology} `{!TopologyOk bad T}.
Variable error_message : Z -> chars.

(** The trace has grown, and left the QPs alone *)
Definition same_qps (t t' : trace) : Prop := forall q, qp_track q t' = qp_track q t.

Lemma wp_UniqueFd_reset old fd t :
  wp bad (UniqueFd_reset old fd)
    (fun r t' => r = fd /\ (forall h, bal h t' = bal h t - cnt h (h_socket old)) /\ same_qps t t') t.
Proof.
  unfold UniqueFd_reset, h_socket, fd_ok. destruct (0 <=? old) eqn:Hold; wrun; split_and!; try done; intros h.
  - cbn [bal delta]. unfold h_socket. rewrite Hold. lia.
  - cbn. lia.
Qed.

Lemma new_HttpServer_spec port t :
  wp bad (new_HttpServer error_message port) (fun fd t' =>
    (forall h, bal h t' = bal h t + cnt h (h_socket fd)) /\ same_qps t t' /\
    (fd_ok fd = true -> exists t1 t2, t' = t1 ++ Ev (bind_port fd (wrapu 16 port)) 0 :: t2)) t.
Proof.
  unfold new_HttpServer. wstep. wstep. destruct (fd_ok r) eqn:Hfd; cbn [negb].
  - wstep. wstep. wstep. wstep. destruct (r1 =? 0) eqn:Hb; cbn [negb].
    + bools. subst r1. wstep. wstep. wstep. split_and!; [bal_solve|done|]. intros _. by eexists [_], _.
    + wstep. wstep. wstep. wstep. eapply wp_mono; [apply wp_UniqueFd_reset|]. cbv beta. intros fd t' (-> & Hb' & Hq).
      split_and!; [|intros q; by rewrite Hq|done]. intros h. rewrite Hb'. cbn [bal delta]. unfold h_socket. cbn. lia.
  - wstep. split_and!; [bal_solve|done|by rewrite Hfd].
Qed.

Lemma listen_port_spec prog port args t :
  wp bad (listen_port prog port args) (fun p t' =>
    (forall h, bal h t' = bal h t) /\ same_qps t t' /\
    match p with
    | Some p => args = [] /\ p = port \/ exists arg, List.last args [] = arg /\ args <> [] /\ is_port arg p
    | None => ~ Forall (fun arg => exists p, is_port arg p) args
    end) t.
Proof.
  revert port. induction args as [|arg args IH]; intros port; cbn [listen_port].
  { wstep. split_and!; [done|done|by left]. }
  assert (forall p, parseNumber uint16_t arg kDefaultNumberBase = Some p <-> numeral uint16_t 10 arg p) as Hnum.
  { intros p. rewrite parseNumber_numeral. split; [by intros [_ ?]|]. intros Hn. by split. }
  assert (forall text, (forall p, ~ is_port arg p) ->
    wp bad (_ ← perform (print_stderr (Message text)); _ ← usage prog; mret None) (fun (p : option Z) t' =>
      (forall h, bal h t' = bal h t) /\ same_qps t t' /\
      match p with
      | Some p => arg :: args = [] /\ p = port \/ exists arg', List.last (arg :: args) [] = arg' /\ arg :: args <> [] /\ is_port arg' p
      | None => ~ Forall (fun arg => exists p, is_port arg p) (arg :: args)
      end) t) as Hnone.
  { intros text Hno. unfold usage. wrun. split_and!; [bal_solve|done|]. intros Hall. inversion Hall as [|? ? [p Hp]]; subst.
    by apply (Hno p). }
  case_bool_decide as Hdash.
  { apply Hnone. intros p [Hn _]. apply Hnum in Hn. destruct arg as [|c arg]; [done|]. injection Hdash as ->. done. }
  destruct (parseNumber uint16_t arg kDefaultNumberBase) as [v|] eqn:Hv.
  2:{ apply Hnone. intros p [Hn _]. apply Hnum in Hn. congruence. }
  destruct (v =? 0) eqn:Hz; bools.
  { apply Hnone. intros p [Hn Hp]. apply Hnum in Hn. congruence. }
  eapply wp_mono; [apply IH|]. cbv beta. intros [p|] t' (Hb & Hq & Hp); (split_and!; [done|done|]).
  - right. destruct Hp as [[-> ->]|(arg' & Hl & Hne & Hp)].
    + exists arg. split_and!; [done|done|]. split; [by apply Hnum|done].
    + exists arg'. split_and!; [by destruct args|done|done].
  - intros Hall. apply Hp. by inversion Hall.
Qed.

Lemma wp_destroy_RdmaTestServer impl_ Q t :
  (forall t', (forall h, bal h t' = bal h t - cnt h (own_opt own_impl impl_)) -> Q tt t') ->
  wp bad (destroy_RdmaTestServer impl_) Q t.
Proof.
  intros HQ. destruct impl_ as [i|]; [by apply wp_destroy_Impl|]. apply wp_ret, HQ. intros h. change (cnt h (own_opt own_impl None)) with 0. lia.
Qed.

Lemma wp_destroy_LoadedVerbs verbs Q t :
  (forall t', (forall h, bal h t' = bal h t - cnt h (own_verbs verbs)) -> Q tt t') ->
  wp bad (destroy_LoadedVerbs verbs) Q t.
Proof.
  intros HQ. destruct verbs as [v|]; [|apply wp_ret, HQ; intros h; change (cnt h (own_verbs None)) with 0; lia].
  unfold destroy_LoadedVerbs, DlCloseDeleter. destruct (library_ v =? 0) eqn:Hv; wrun; apply HQ; intros h; cbn [bal delta own_verbs];
    unfold h_library; rewrite Hv, ?cnt_nil; lia.
Qed.
End server.

Lemma port_range args port :
  args = [] /\ port = kDefaultPort \/ (exists arg, List.last args [] = arg /\ args <> [] /\ is_port arg port) -> 0 < port < 2 ^ 16.
Proof.
  intros [[_ ->]|(arg & _ & _ & [Hn Hz])]; [done|]. assert (in_range uint16_t port = true) as Hr by by destruct Hn.
  unfold in_range in Hr. apply andb_true_iff in Hr as [H1%Z.leb_le H2%Z.leb_le]. cbn in H1, H2. lia.
Qed.

(** ** Properties *)


#[local] Existing Instance lab_build.


(** A world in which a port is another server's by the time of [listen()] *)
Definition taken : World := fun t A c =>
  match c in call A return A with
  | listen_on _ _ => -1
  | c => @respond (lab working) t _ c
  end.

(** A server that isn't listening says that it is: [listen()] can fail after
    [bind()] has succeeded, since SO_REUSEADDR lets two sockets be bound to a
    port on which neither listens yet, and its result isn't looked at. *)
Theorem dead_server_looks_ready :
  (forall t fd n, @respond taken t _ (listen_on fd n) = -1) /\
  exists fd verbs impl_ t,
    @test_server_main taken lab_build (@SysfsTopology taken) to_string [lit "server"] [] = (inl (Serving 9000 fd verbs impl_), t) /\
    head t = Some (Ev (print_stdout (lit "hipobj-rdma-test-server listening on port 9000")) tt).
Proof. split; [done|]. vm_compute. by do 4 eexists. Qed.
