(* ===== verification/ServerThreads.v ===== *)
(** * Many requests at once

    The test server serves each connection on a thread of its own, so the
    handler ([main.cpp]) and the transfers ([rdma_server.cpp]) run on many.
    Here they're programs of threads.  The handler locks the objects while it
    uses them, and nothing else: an action on the RDMA server's state uses
    what it finds there, and the reference [conn] to the one connection that
    the server has is followed each time it's used. *)

From Stdlib Require Import Ascii String.
From stdpp Require Import base numbers list gmap.
From S2P Require Import Prelude.
From S2P Require Import Programs.
From S2P Require Import Parse.
From S2P Require Import Token.
From S2P Require Import Text.
From S2P Require Import TokenHeader.
From S2P Require Import Http.
From S2P Require Import IbvCore.
From S2P Require Import World.
From S2P Require Import Transport.
From S2P Require Import RdmaServer.
From S2P Require Import TestServer.
Import Status.
Import RdmaTestServer.

(** ** Definitions *)

Definition on_world {A} (m : W A) : M Server A := zoom srv_trace (fun t s => s <| srv_trace := t |>) m.

(** [*impl_->conn] *)
Definition the_conn : M Server RcConnection :=
  s ← get_state;
  match rdma s ≫= im_conn with
  | Some c => mret c
  | None => halt Undefined
  end.

Definition with_the_conn {A} (f : RcConnection -> W A) : M Server A := c ← the_conn; on_world (f c).

(** [conn.reset()], if there's a connection *)
Definition drop_conn `{World} : M Server bool :=
  s ← get_state;
  match rdma s with
  | Some i =>
      match im_conn i with
      | Some c =>
          _ ← on_world (destroy_RcConnection c);
          _ ← modify (fun s => s <| rdma := Some (with_conn i None) |>);
          mret true
      | None => mret false
      end
  | None => halt Undefined
  end.

(** [conn.emplace()], which destroys the connection that's there, if any *)
Definition emplace_conn `{World} (fresh : RcConnection) : M Server unit :=
  s ← get_state;
  match rdma s with
  | Some i => _ ← on_world (destroy_conn (im_conn i)); modify (fun s => s <| rdma := Some (with_conn i (Some fresh)) |>)
  | None => halt Undefined
  end.

Definition resetQpT `{World} (i : Impl) : prog Server unit :=
  had ← act drop_conn;
  if negb had then mret tt
  else
    fresh ← act (on_world (createConnection (im_device i)));
    match fresh with
    | None =>
        act (on_world (perform (print_stderr (Message (lit "hipobj-rdma-test-server: could not rebuild the RC QP; the server can no longer serve RDMA")))))
    | Some c => act (emplace_conn c)
    end.

(** Runs [p], and then [resetQp()], whatever the result *)
Definition with_resetT `{World} {A} (i : Impl) (p : prog Server A) : prog Server A :=
  r ← p; _ ← resetQpT i; mret r.

(** [impl_], when it has a connection *)
Definition ready_impl : M Server (option Impl) :=
  s ← get_state; mret (i ← rdma s; _ ← im_conn i; Some i).

Definition rdmaWriteToClientT `{World} `{BuildConfig} (header : TokenHeader) (data : chars)
    : prog Server (option chars) :=
  impl_ ← act ready_impl;
  match impl_ with
  | None => act (on_world (rdmaFail (lit "GET") (lit "server RDMA not initialised")))
  | Some i =>
      let clientToken := th_token header in
      let xferSize := write_size header data in
      if (Z.of_nat (List.length data) <? xferSize) || (kStagingSize <? xferSize) then
        _ ← act (on_world (perform (print_stderr (Message (get_refused xferSize (Z.of_nat (List.length data)))))));
        mret None
      else
        _ ← act (on_world (perform (write_buffer (stagingBuf i) (take (Z.to_nat xferSize) data))));
        with_resetT i (
          ok ← act (with_the_conn (fun conn => connectRcPeer conn clientToken));
          if negb ok then act (on_world (rdmaFail (lit "GET") (lit "could not connect the RC QP to the client")))
          else
            ok ← act (with_the_conn (fun conn => postRdmaWrite conn (stagingMr i) xferSize clientToken));
            if negb ok then act (on_world (rdmaFail (lit "GET") (lit "RDMA WRITE to the client buffer did not complete")))
            else conn ← act the_conn; mret (Some (encodeReplyWithPeerToken kHttpOk (buildServerToken conn))))
  end.

Definition rdmaReadFromClientT `{World} `{BuildConfig} (header : TokenHeader) (size : Z)
    : prog Server (option ReadResult) :=
  impl_ ← act ready_impl;
  match impl_ with
  | None => act (on_world (rdmaFail (lit "PUT") (lit "server RDMA not initialised")))
  | Some i =>
      let clientToken := th_token header in
      let xferSize := read_size header size in
      if kStagingSize <? xferSize then
        _ ← act (on_world (perform (print_stderr (Message (put_refused xferSize))))); mret None
      else
        with_resetT i (
          ok ← act (with_the_conn (fun conn => connectRcPeer conn clientToken));
          if negb ok then act (on_world (rdmaFail (lit "PUT") (lit "could not connect the RC QP to the client")))
          else
            ok ← act (with_the_conn (fun conn => postRdmaRead conn (stagingMr i) xferSize clientToken));
            if negb ok then act (on_world (rdmaFail (lit "PUT") (lit "RDMA READ from the client buffer did not complete")))
            else
              received ← act (on_world (perform (read_buffer (stagingBuf i) xferSize)));
              conn ← act the_conn;
              mret (Some {| rr_data := received; replyHeader := encodeReplyWithPeerToken kHttpOk (buildServerToken conn) |}))
  end.

(** What's done while [objects_mu] is held *)
Definition store (key data : chars) : M Server unit := modify (fun s => s <| objects ::= <[key := data]> |>).
Definition fetch (key : chars) : M Server (option chars) := s ← get_state; mret (objects s !! key).

Definition serve_httpT (key : chars) (req : HttpRequest) : prog Server HttpResponse :=
  if is_method "PUT" req then _ ← act (store key (req_body req)); mret put_ok
  else if is_method "GET" req then
    data ← act (fetch key);
    mret (match data with None => not_found | Some data => answer kHttpOk ∅ data end)
  else mret not_allowed.

Definition serve_rdmaT `{World} `{BuildConfig} (key : chars) (token : TokenHeader) (req : HttpRequest)
    : prog Server HttpResponse :=
  if is_method "PUT" req then
    read ← rdmaReadFromClientT token (contentLength req);
    match read with
    | None => mret (answer kHttpInternalServerError ∅ (lit "RDMA PUT failed"))
    | Some read =>
        _ ← act (store key (rr_data read));
        mret (answer kHttpOk (<[lit "etag" := test_etag]> {[ lit "x-amz-rdma-reply" := replyHeader read ]}) [])
    end
  else if is_method "GET" req then
    data ← act (fetch key);
    match data with
    | None => mret not_found
    | Some data =>
        reply ← rdmaWriteToClientT token data;
        mret (match reply with
              | None => answer kHttpInternalServerError ∅ (lit "RDMA GET failed")
              | Some reply =>
                  answer kHttpOk
                    (<[lit "x-amz-rdma-bytes-transferred" := to_string (Z.of_nat (List.length data))]>
                       {[ lit "x-amz-rdma-reply" := reply ]}) []
              end)
    end
  else mret not_allowed.

Definition handlerT `{World} `{BuildConfig} (req : HttpRequest) : prog Server HttpResponse :=
  if is_health req then mret (answer kHttpOk ∅ (lit "ok"))
  else if is_location req then
    mret (answer kHttpOk {[ lit "Content-Type" := lit "application/xml" ]} location_body)
  else
    let key := objectKey (path req) in
    match req_headers req !! lit "x-amz-rdma-token" with
    | None => serve_httpT key req
    | Some value =>
        ready ← act (s ← get_state; mret (isReady (rdma s)));
        if negb ready then serve_httpT key req
        else
          match parseTokenHeader value with
          | None => mret (answer kHttpBadRequest ∅ (lit "malformed x-amz-rdma-token"))
          | Some token => serve_rdmaT key token req
          end
    end.

(** The requests, one after the other in an order: the number of each, with
    its response *)
Fixpoint in_order `{World} `{BuildConfig} (reqs : list HttpRequest) (ts : list nat) : M Server (list (nat * HttpResponse)) :=
  match ts with
  | [] => mret []
  | t :: ts =>
      match reqs !! t with
      | None => in_order reqs ts
      | Some req => resp ← handler req; rest ← in_order reqs ts; mret ((t, resp) :: rest)
      end
  end.

(** Servers and requests to try things with *)
Definition plain_request (meth target body : chars) : HttpRequest :=
  {| method := meth; path := target; req_headers := ∅; req_body := body; contentLength := Z.of_nat (List.length body) |}.

Definition two_objects : gmap chars chars := {[ lit "a" := lit "first"; lit "b" := lit "other" ]}.
Definition http_server : Server := {| objects := two_objects; rdma := None; srv_trace := [] |}.
Definition ready_server : Server := {| objects := two_objects; rdma := lab_impl; srv_trace := lab_trace |}.

Definition rdma_get (target : chars) (token : RdmaToken) : HttpRequest :=
  {| method := lit "GET"; path := target; req_headers := {[ lit "x-amz-rdma-token" := encodeRdmaToken token ]};
     req_body := []; contentLength := 0 |}.
Definition other_token : RdmaToken := override golden_token 12288 64.

(** The RDMA writes that a trace posted, the last one first: the client's
    address, and what the staging buffer at [buf] held then *)
Fixpoint sent_from (buf : Z) (t : trace) : list (Z * chars) :=
  match t with
  | [] => []
  | Ev (post_send _ wr) _ :: t => (rdma_remote_addr wr, last_written buf t) :: sent_from buf t
  | _ :: t => sent_from buf t
  end.

Definition mixed_gets : list (prog Server HttpResponse) :=
  @handlerT (lab working) lab_build <$> [rdma_get (lit "/a") golden_token; rdma_get (lit "/b") other_token].

(** The first request stages its object, then the second one does, and then
    each goes on to its end *)
Definition mixing_turns : list nat :=
  replicate 4 0%nat ++ replicate 4 1%nat ++ replicate 10 0%nat ++ replicate 10 1%nat.

Definition lab_staging : Z := from_option stagingBuf 0 lab_impl.

Definition mix_up (c : config Server HttpResponse) : bool :=
  match c with
  | (s', [Ret r1; Ret r2]) =>
      bool_decide (resp_status r1 = kHttpOk /\ resp_status r2 = kHttpOk /\
        (stagingBuf <$> rdma ready_server) = Some lab_staging /\
        sent_from lab_staging (srv_trace s') =
          [(tok_remoteAddr other_token, lit "other"); (tok_remoteAddr golden_token, lit "other")])
  | _ => false
  end.

(** ** Lemmas *)

Section alone.
Context `{E : World} `{B : BuildConfig}.

(** The state once calls have been made *)
Definition at_trace (s : Server) (t : trace) : Server := s <| srv_trace := t |>.

(** The connection that transfers use *)
Definition conn_at (s : Server) (i : Impl) (c : RcConnection) : Prop := rdma s = Some i /\ im_conn i = Some c.

Lemma conn_at_trace s i c t : conn_at s i c -> conn_at (at_trace s t) i c.
Proof. done. Qed.

Lemma on_world_run {A} (m : W A) s :
  outcome (on_world m s) = match outcome (m (srv_trace s)) with inl (a, t) => inl (a, at_trace s t) | inr e => inr e end.
Proof. unfold on_world, zoom. by destruct (m (srv_trace s)) as [[a|e] t]. Qed.

Lemma on_rdma_run {A} (m : option Impl -> W (A * option Impl)) s :
  outcome (on_rdma m s) =
  match outcome (m (rdma s) (srv_trace s)) with
  | inl (a, impl_, t) => inl (a, at_trace (s <| rdma := impl_ |>) t)
  | inr e => inr e
  end.
Proof. unfold on_rdma. by destruct (m (rdma s) (srv_trace s)) as [[[a i]|e] t]. Qed.

Lemma the_conn_run s i c : conn_at s i c -> the_conn s = (inl c, s).
Proof. intros [Hi Hc]. unfold the_conn, mbind, M_bind, get_state. rewrite Hi. cbn. by rewrite Hc. Qed.

Lemma with_the_conn_run {A} s i c (f : RcConnection -> W A) :
  conn_at s i c ->
  outcome (with_the_conn f s) =
  match outcome (f c (srv_trace s)) with inl (a, t) => inl (a, at_trace s t) | inr e => inr e end.
Proof.
  intros Hc. unfold with_the_conn. rewrite outcome_bind, (the_conn_run _ _ _ Hc). cbn [outcome]. apply on_world_run.
Qed.

Lemma act_run {X A} (m : M Server X) (k : X -> prog Server A) s :
  outcome (alone (act m ≫= k) s) =
  match outcome (m s) with inl (x, s') => outcome (alone (k x) s') | inr e => inr e end.
Proof. rewrite alone_bind_run. by rewrite (alone_act m s). Qed.

Lemma act_alone_run {X} (m : M Server X) s : outcome (alone (act m) s) = outcome (m s).
Proof. apply (alone_act m s). Qed.

(** *** The transfers *)

Lemma drop_conn_run s i c :
  conn_at s i c ->
  outcome (drop_conn s) =
  match outcome (destroy_RcConnection c (srv_trace s)) with
  | inl (_, t) => inl (true, at_trace (s <| rdma := Some (with_conn i None) |>) t)
  | inr e => inr e
  end.
Proof.
  intros [Hi Hc]. unfold drop_conn. rewrite outcome_bind. cbn [outcome get_state]. rewrite Hi, Hc.
  rewrite outcome_bind, on_world_run. by destruct (outcome (destroy_RcConnection c (srv_trace s))) as [[[] t]|].
Qed.

Lemma emplace_conn_run s i c :
  rdma s = Some (with_conn i None) ->
  outcome (emplace_conn c s) = inl (tt, s <| rdma := Some (with_conn i (Some c)) |>).
Proof.
  intros Hi. unfold emplace_conn. rewrite outcome_bind. cbn [outcome get_state]. rewrite Hi.
  rewrite outcome_bind, on_world_run. cbn. by destruct s.
Qed.

Lemma resetQp_run s i c :
  conn_at s i c ->
  outcome (alone (resetQpT i) s) =
  match outcome (resetQp i (srv_trace s)) with
  | inl (i', t) => inl (tt, at_trace (s <| rdma := Some i' |>) t)
  | inr e => inr e
  end.
Proof.
  intros Hat. pose proof Hat as [Hi Hc]. unfold resetQpT, resetQp. rewrite Hc, act_run, (drop_conn_run _ _ _ Hat), outcome_bind.
  destruct (outcome (destroy_RcConnection c (srv_trace s))) as [[[] t]|]; [|done]. cbn [negb].
  rewrite act_run, on_world_run, outcome_bind. cbn [at_trace srv_trace set_field].
  destruct (outcome (createConnection (im_device i) t)) as [[[fresh|] t']|]; [| |done].
  - rewrite act_alone_run. erewrite emplace_conn_run by done. done.
  - rewrite act_alone_run, on_world_run, outcome_bind. cbn [at_trace srv_trace set_field].
    by destruct (outcome (perform _ t')) as [[[] t2]|].
Qed.

(** With no other thread, and whatever calls came before, [p] does what
    [body] does, and leaves the connection as it is *)
Definition does {A} (s : Server) (p : prog Server A) (body : W A) : Prop := forall t,
  outcome (alone p (at_trace s t)) =
  match outcome (body t) with inl (a, t) => inl (a, at_trace s t) | inr e => inr e end.

Lemma does_ret {A} s (a : A) : does s (mret a) (mret a).
Proof. done. Qed.

Lemma does_world {A} s (m : W A) : does s (act (on_world m)) m.
Proof. intros t. by rewrite act_alone_run, on_world_run. Qed.

Lemma does_world_bind {X A} s (f : W X) (g : X -> prog Server A) (k : X -> W A) :
  (forall x, does s (g x) (k x)) -> does s (act (on_world f) ≫= g) (x ← f; k x).
Proof.
  intros Hk t. rewrite act_run, on_world_run, outcome_bind. cbn [at_trace srv_trace set_field].
  destruct (outcome (f t)) as [[x t']|]; [apply Hk|done].
Qed.

Lemma does_conn_bind {X A} s i c (f : RcConnection -> W X) (g : X -> prog Server A) (k : X -> W A) :
  conn_at s i c -> (forall x, does s (g x) (k x)) -> does s (act (with_the_conn f) ≫= g) (x ← f c; k x).
Proof.
  intros Hc Hk t. rewrite act_run, (with_the_conn_run _ _ _ _ (conn_at_trace _ _ _ t Hc)), outcome_bind.
  cbn [at_trace srv_trace set_field]. destruct (outcome (f c t)) as [[x t']|]; [apply Hk|done].
Qed.

Lemma does_conn {A} s i c (f : RcConnection -> A) :
  conn_at s i c -> does s (conn ← act the_conn; mret (f conn)) (mret (f c)).
Proof. intros Hc t. rewrite act_run, (the_conn_run _ _ _ (conn_at_trace _ _ _ t Hc)). done. Qed.

Lemma does_if {A} s (b : bool) (p q : prog Server A) (m n : W A) :
  does s p m -> does s q n -> does s (if b then p else q) (if b then m else n).
Proof. by destruct b. Qed.

(** What ends with [resetQp()], in both *)
Lemma with_reset_run {A} s i c (p : prog Server A) (body : W A) t :
  conn_at s i c -> does s p body ->
  outcome (alone (with_resetT i p) (at_trace s t)) =
  match outcome (with_reset i body t) with
  | inl (a, impl_, t) => inl (a, at_trace (s <| rdma := impl_ |>) t)
  | inr e => inr e
  end.
Proof.
  intros Hc Hp. unfold with_resetT, with_reset. rewrite alone_bind_run, Hp, outcome_bind.
  destruct (outcome (body t)) as [[a t1]|]; [|done].
  rewrite alone_bind_run, (resetQp_run _ _ _ (conn_at_trace _ _ _ t1 Hc)), outcome_bind.
  cbn [at_trace srv_trace set_field]. by destruct (outcome (resetQp i t1)) as [[i' t2]|].
Qed.

(** What's done without the connection *)
Lemma no_conn_run {A} s (p : prog Server A) (body : W A) :
  does s p body ->
  outcome (alone p s) =
  match outcome ((r ← body; mret (r, rdma s)) (srv_trace s)) with
  | inl (a, impl_, t) => inl (a, at_trace (s <| rdma := impl_ |>) t)
  | inr e => inr e
  end.
Proof.
  intros Hp. specialize (Hp (srv_trace s)). replace (at_trace s (srv_trace s)) with s in Hp at 1 by by destruct s.
  rewrite Hp, outcome_bind. destruct (outcome (body (srv_trace s))) as [[a t]|]; [|done]. by destruct s.
Qed.

Lemma ready_impl_run s : outcome (ready_impl s) = inl (i ← rdma s; _ ← im_conn i; Some i, s).
Proof. done. Qed.

Lemma rdmaWriteToClient_alone header data :
  alone (rdmaWriteToClientT header data) ≡ on_rdma (fun impl_ => rdmaWriteToClient impl_ header data).
Proof.
  intros s. unfold rdmaWriteToClientT. rewrite act_run, ready_impl_run, on_rdma_run. unfold rdmaWriteToClient.
  destruct (rdma s) as [[dev buf m [c|]]|] eqn:Hi; cbn [mbind option_bind im_conn stagingBuf stagingMr].
  2-3: rewrite <- Hi; apply no_conn_run, does_world.
  set (i := {| im_device := dev |}) in *. assert (conn_at s i c) as Hc by done. rewrite <- Hi.
  destruct (_ || _).
  - rewrite (no_conn_run _ _ (_ ← perform _; mret None)) by (apply does_world_bind; intros; apply does_ret).
    by rewrite bind_assoc.
  - rewrite act_run, on_world_run, outcome_bind.
    destruct (outcome (perform (write_buffer _ _) (srv_trace s))) as [[u t]|]; [|done].
    apply (with_reset_run s i c); [done|].
    apply (does_conn_bind s i c (fun conn => connectRcPeer conn (th_token header))); [done|]. intros ok.
    apply does_if; [apply does_world|].
    apply (does_conn_bind s i c (fun conn => postRdmaWrite conn m (write_size header data) (th_token header))); [done|].
    intros ok'. apply does_if; [apply does_world|]. by apply (does_conn s i c).
Qed.

Lemma rdmaReadFromClient_alone header size :
  alone (rdmaReadFromClientT header size) ≡ on_rdma (fun impl_ => rdmaReadFromClient impl_ header size).
Proof.
  intros s. unfold rdmaReadFromClientT. rewrite act_run, ready_impl_run, on_rdma_run. unfold rdmaReadFromClient.
  destruct (rdma s) as [[dev buf m [c|]]|] eqn:Hi; cbn [mbind option_bind im_conn stagingBuf stagingMr].
  2-3: rewrite <- Hi; apply no_conn_run, does_world.
  set (i := {| im_device := dev |}) in *. assert (conn_at s i c) as Hc by done. rewrite <- Hi.
  destruct (_ <? _).
  - rewrite (no_conn_run _ _ (_ ← perform _; mret None)) by (apply does_world_bind; intros; apply does_ret).
    by rewrite bind_assoc.
  - replace s with (at_trace s (srv_trace s)) at 1 by by destruct s.
    apply (with_reset_run s i c); [done|].
    apply (does_conn_bind s i c (fun conn => connectRcPeer conn (th_token header))); [done|]. intros ok.
    apply does_if; [apply does_world|].
    apply (does_conn_bind s i c (fun conn => postRdmaRead conn m (read_size header size) (th_token header))); [done|].
    intros ok'. apply does_if; [apply does_world|]. apply does_world_bind. intros received. by apply (does_conn s i c).
Qed.
(** *** The handler *)

Lemma fetch_run key s : outcome (fetch key s) = inl (objects s !! key, s).
Proof. done. Qed.

Lemma serve_http_alone key req : alone (serve_httpT key req) ≡ serve_http key req.
Proof.
  intros s. unfold serve_httpT, serve_http. destruct (is_method "PUT" req); [done|].
  destruct (is_method "GET" req); [|done]. rewrite act_run, fetch_run, outcome_bind. cbn [outcome get_state].
  by destruct (objects s !! key).
Qed.

Lemma serve_rdma_alone key token req : alone (serve_rdmaT key token req) ≡ serve_rdma key token req.
Proof.
  unfold serve_rdmaT, serve_rdma. destruct (is_method "PUT" req).
  { astep; [apply rdmaReadFromClient_alone|]. destruct a as [read|]; [|done]. astep. done. }
  destruct (is_method "GET" req); [|done]. intros s. rewrite act_run, fetch_run, outcome_bind.
  cbn [outcome get_state].
  destruct (objects s !! key) as [data|]; [|done]. rewrite alone_bind_run, (rdmaWriteToClient_alone token data s), outcome_bind.
  by destruct (outcome (on_rdma _ s)) as [[[reply|] s']|].
Qed.

Lemma handler_alone req : alone (handlerT req) ≡ handler req.
Proof.
  unfold handlerT, handler. destruct (is_health req); [done|]. destruct (is_location req); [done|]. intros s.
  rewrite outcome_bind. cbn [outcome get_state]. destruct (req_headers req !! _) as [value|]; [|apply serve_http_alone].
  rewrite act_run. cbn [outcome]. change (outcome ((s ← get_state; mret (isReady (rdma s))) s)) with
    (@inl (bool * Server) stop (isReady (rdma s), s)). cbv iota.
  destruct (isReady (rdma s)); [|apply serve_http_alone]. cbn [negb].
  destruct (parseTokenHeader value); [apply serve_rdma_alone|done].
Qed.
End alone.

(** *** Requests over HTTP alone *)

Section http.
Context `{E : World} `{B : BuildConfig} (reqs : list HttpRequest) (s0 : Server).
Context (Hhttp : forall req, req ∈ reqs -> http_only req s0).

(** A request that hasn't been served *)
Definition waiting (req : HttpRequest) (p : prog Server HttpResponse) : Prop :=
  p = handlerT req \/
  (p = serve_httpT (objectKey (path req)) req /\ is_health req = false /\ is_location req = false).

(** The requests in [ts] have been served in that order, and no other *)
Record served_in (ts : list nat) (outs : list (nat * HttpResponse)) (s : Server)
    (ps : list (prog Server HttpResponse)) : Prop := {
  served_run : in_order reqs ts s0 = (inl outs, s);
  served_rdma : rdma s = rdma s0;
  served_nodup : NoDup ts;
  served_outs : outs.*1 = ts;
  served_range : forall t, t ∈ ts -> (t < List.length reqs)%nat;
  served_len : List.length ps = List.length reqs;
  served_each : forall t req p, reqs !! t = Some req -> ps !! t = Some p ->
    if decide (t ∈ ts) then exists resp, p = Ret resp /\ (t, resp) ∈ outs else waiting req p;
}.

Lemma in_order_app ts ts' s outs s1 outs' s2 :
  in_order reqs ts s = (inl outs, s1) -> in_order reqs ts' s1 = (inl outs', s2) ->
  in_order reqs (ts ++ ts') s = (inl (outs ++ outs'), s2).
Proof.
  revert s outs. induction ts as [|t ts IH]; intros s outs; cbn [in_order app].
  { by intros [= <- <-]. }
  destruct (reqs !! t) as [req|]; [|apply IH].
  intros (resp & s3 & H1 & (rest & s4 & H2 & [= <- <-])%bind_returns)%bind_returns H3.
  unfold mbind, M_bind. rewrite H1. by rewrite (IH _ _ H2 H3).
Qed.

(** An action of a request's either serves it, or finds the server without
    RDMA *)
Lemma serve_http_progress key req s p' s' :
  progress (serve_httpT key req) s = Some (p', s') ->
  exists resp, p' = Ret resp /\ serve_http key req s = (inl resp, s') /\ rdma s' = rdma s.
Proof.
  unfold serve_httpT, serve_http. destruct (is_method "PUT" req).
  { intros [= <- <-]. by exists put_ok. }
  destruct (is_method "GET" req); [|done]. intros [= <- <-].
  eexists. split; [done|]. split; [|done]. unfold mbind, M_bind, get_state. by destruct (objects s !! key).
Qed.

Lemma waiting_progress req p s p' s' :
  waiting req p -> http_only req s -> progress p s = Some (p', s') ->
  (s' = s /\ waiting req p') \/
  exists resp, p' = Ret resp /\ handler req s = (inl resp, s') /\ rdma s' = rdma s.
Proof.
  intros Hw Ho Hp.
  assert (forall q, is_health req = false -> is_location req = false -> progress (serve_httpT (objectKey (path req)) req) s = Some q ->
            exists resp, fst q = Ret resp /\ handler req s = (inl resp, snd q) /\ rdma (snd q) = rdma s) as Hserve.
  { intros [q sq] Hh Hl Hq. destruct (serve_http_progress _ _ _ _ _ Hq) as (resp & -> & Hr & Hs).
    exists resp. by rewrite (handler_http req s Hh Hl Ho). }
  destruct Hw as [->|(-> & Hh & Hl)]; [|right; by apply (Hserve (p', s'))].
  unfold handlerT in Hp. destruct (is_health req) eqn:Hh; [done|]. destruct (is_location req) eqn:Hl; [done|].
  destruct (req_headers req !! _) as [v|] eqn:Hv; [|right; by apply (Hserve (p', s'))].
  destruct Ho as [Ho|Ho]; [congruence|]. left. injection Hp as <- <-. split; [done|]. rewrite Ho. by right.
Qed.

Lemma served_turn ts outs s ps ps' s' :
  served_in ts outs s ps -> interleave (s, ps) (s', ps') -> exists ts' outs', served_in ts' outs' s' ps'.
Proof.
  intros [H1 H2 H3 Houts Hrange H4 H5] (t & p & p' & Hp & Hprog & ->)%interleave_inv.
  assert (is_Some (reqs !! t)) as [req Hreq].
  { apply lookup_lt_is_Some_2. rewrite <- H4. by eapply lookup_lt_Some. }
  pose proof (H5 t req p Hreq Hp) as Ht. destruct (decide (t ∈ ts)) as [Hin|Hin].
  { by destruct Ht as (resp & -> & _). }
  assert (http_only req s) as Ho.
  { destruct (Hhttp req) as [?|?]; [by eapply list_elem_of_lookup_2|by left|right]. by rewrite H2. }
  assert (forall u, u <> t -> forall q, <[t := p']> ps !! u = Some q -> ps !! u = Some q) as Hother.
  { intros u Hne q. by rewrite list_lookup_insert_ne. }
  assert (<[t := p']> ps !! t = Some p') as Hsame by (apply list_lookup_insert_eq; by eapply lookup_lt_Some).
  destruct (waiting_progress _ _ _ _ _ Ht Ho Hprog) as [[-> Hw]|(resp & -> & Hh & Hr)].
  - exists ts, outs. split; [done..|by rewrite length_insert|]. intros u req' q Hu Hq.
    destruct (decide (u = t)) as [->|Hne]; [|by apply (H5 u); [|apply Hother]].
    rewrite Hsame in Hq. simplify_eq. by rewrite decide_False.
  - exists (ts ++ [t]), (outs ++ [(t, resp)]). split.
    + eapply in_order_app; [exact H1|]. cbn. rewrite Hreq. unfold mbind, M_bind. by rewrite Hh.
    + by rewrite Hr.
    + apply NoDup_app. split_and!; [done| |apply NoDup_singleton]. by intros u Hu ->%list_elem_of_singleton.
    + by rewrite fmap_app, Houts.
    + intros u [Hu|Hu]%elem_of_app; [by apply Hrange|]. apply list_elem_of_singleton in Hu as ->. by eapply lookup_lt_Some.
    + by rewrite length_insert.
    + intros u req' q Hu Hq. destruct (decide (u = t)) as [->|Hne].
      * rewrite Hsame in Hq. simplify_eq. rewrite decide_True by (apply elem_of_app; right; by left).
        exists resp. split; [done|]. apply elem_of_app. right. by left.
      * specialize (H5 u req' q Hu (Hother u Hne q Hq)). destruct (decide (u ∈ ts)) as [Hu'|Hu'].
        { destruct H5 as (r & -> & Hr'). rewrite decide_True by (apply elem_of_app; by left).
          exists r. split; [done|]. apply elem_of_app. by left. }
        rewrite decide_False; [done|]. by intros [?|?%list_elem_of_singleton]%elem_of_app.
Qed.
Lemma served_start : served_in [] [] s0 (handlerT <$> reqs).
Proof.
  split; [done|done|constructor|done|by intros t ?%elem_of_nil|by rewrite length_fmap|].
  intros t req p Hreq Hp. rewrite decide_False by (intros ?%elem_of_nil; done).
  rewrite list_lookup_fmap, Hreq in Hp. injection Hp as <-. by left.
Qed.

Lemma served_steps c c' :
  rtc interleave c c' -> (exists ts outs, served_in ts outs (fst c) (snd c)) ->
  exists ts outs, served_in ts outs (fst c') (snd c').
Proof.
  induction 1 as [c|[s1 p1] [s2 p2] c3 Hstep _ IH]; [done|]. intros (ts & outs & Hs). apply IH. by eapply served_turn.
Qed.

(** A request that's answered without an action *)
Lemma waiting_answered req resp s :
  waiting req (Ret resp) -> http_only req s -> handler req s = (inl resp, s).
Proof.
  intros Hw Ho. assert (outcome (handler req s) = inl (resp, s)) as H.
  { destruct Hw as [Hw|(Hw & Hh & Hl)]; [by rewrite <- (handler_alone req s), <- Hw|].
    by rewrite (handler_http req s Hh Hl Ho), <- (serve_http_alone _ req s), <- Hw. }
  unfold outcome in H. destruct (handler req s) as [[r|e] s']; by simplify_eq.
Qed.

(** Requests that read and write nothing can come last *)
Lemma idle_in_order s (resps : list HttpResponse) l :
  (forall t, t ∈ l -> exists req resp, reqs !! t = Some req /\ resps !! t = Some resp /\ handler req s = (inl resp, s)) ->
  exists outs, in_order reqs l s = (inl outs, s) /\ outs.*1 = l /\
    forall t resp, (t, resp) ∈ outs -> resps !! t = Some resp.
Proof.
  induction l as [|t l IH]; intros Hl.
  { exists []. split_and!; [done|done|]. by intros t resp ?%elem_of_nil. }
  destruct IH as (outs & H1 & H2 & H3); [intros u Hu; apply Hl; by right|].
  destruct (Hl t) as (req & resp & Hreq & Hresp & Hh); [by left|]. exists ((t, resp) :: outs). split_and!.
  - cbn. rewrite Hreq. unfold mbind, M_bind. by rewrite Hh, H1.
  - cbn. by rewrite H2.
  - intros u r [[= -> ->]|Hu]%elem_of_cons; [done|by apply H3].
Qed.

Lemma nodup_fst {A} (l : list (nat * A)) t x y : NoDup l.*1 -> (t, x) ∈ l -> (t, y) ∈ l -> x = y.
Proof.
  induction l as [|[u z] l IH]; cbn; [by intros _ ?%elem_of_nil|]. intros [Hu Hl]%NoDup_cons.
  intros [[= -> ->]|Hx]%elem_of_cons [[= Hy]|Hy]%elem_of_cons; [done| | |by apply IH].
  - destruct Hu. apply list_elem_of_fmap. by exists (u, y).
  - subst. destruct Hu. apply list_elem_of_fmap. by exists (u, x).
Qed.
End http.

Lemma mixed_up : mix_up (take_turns mixing_turns (ready_server, mixed_gets)) = true.
Proof. vm_compute. reflexivity. Qed.

Lemma mix_up_spec c :
  mix_up c = true ->
  exists s' r1 r2, c = (s', [Ret r1; Ret r2]) /\ resp_status r1 = kHttpOk /\ resp_status r2 = kHttpOk /\
    (stagingBuf <$> rdma ready_server) = Some lab_staging /\
    sent_from lab_staging (srv_trace s') =
      [(tok_remoteAddr other_token, lit "other"); (tok_remoteAddr golden_token, lit "other")].
Proof.
  destruct c as [s' [|[r1| | |] [|[r2| | |] [|]]]]; try discriminate 1.
  intros (H1 & H2 & H3 & H4)%bool_decide_eq_true. exists s', r1, r2. split; [reflexivity|]. exact (conj H1 (conj H2 (conj H3 H4))).
Qed.

(** ** Properties *)

(** C27: requests that are served over HTTP alone are atomic. However the
    threads that serve them take turns, once all are done, the responses
    and the server's state are those of serving them one after the other, in
    some order. *)
Theorem http_requests_linearize `{E : World} `{B : BuildConfig} (reqs : list HttpRequest) (s0 s' : Server)
    (resps : list HttpResponse) (Hhttp : forall req, req ∈ reqs -> http_only req s0)
    (Hrun : rtc interleave (s0, handlerT <$> reqs) (s', Ret <$> resps)) :
  exists ts outs, ts ≡ₚ seq 0 (List.length reqs) /\ in_order reqs ts s0 = (inl outs, s') /\ outs.*1 = ts /\
    forall t resp, (t, resp) ∈ outs -> resps !! t = Some resp.
Proof.
  destruct (served_steps reqs s0 Hhttp _ _ Hrun) as (ts & outs & [H1 H2 H3 H4 H5 H6 H7]).
  { exists [], []. apply served_start. }
  cbn [fst snd] in *. rewrite length_fmap in H6.
  set (rest := filter (fun t => t ∉ ts) (seq 0 (List.length reqs))).
  destruct (idle_in_order reqs s' resps rest) as (outs' & R1 & R2 & R3).
  { intros t [Ht Hr]%list_elem_of_filter. apply elem_of_seq in Hr.
    destruct (lookup_lt_is_Some_2 reqs t) as [req Hreq]; [lia|]. destruct (lookup_lt_is_Some_2 resps t) as [resp Hresp]; [lia|].
    exists req, resp. split_and!; [done|done|]. pose proof (H7 t req (Ret resp) Hreq) as Hw.
    rewrite list_lookup_fmap, Hresp in Hw. specialize (Hw eq_refl). rewrite decide_False in Hw by done.
    apply waiting_answered; [done|]. destruct (Hhttp req) as [?|?]; [by eapply list_elem_of_lookup_2|by left|right; by rewrite H2]. }
  exists (ts ++ rest), (outs ++ outs'). split_and!.
  - apply NoDup_Permutation; [|apply NoDup_seq|].
    + apply NoDup_app. split_and!; [done| |apply NoDup_filter, NoDup_seq]. by intros t Ht [? _]%list_elem_of_filter.
    + intros t. rewrite elem_of_app, elem_of_seq. unfold rest. rewrite list_elem_of_filter, elem_of_seq.
      split; [intros [Ht%H5|[_ Ht]]; lia|]. intros Ht. destruct (decide (t ∈ ts)); [by left|by right].
  - by eapply in_order_app.
  - by rewrite fmap_app, H4, R2.
  - intros t resp [Ht|Ht]%elem_of_app; [|by apply R3].
    assert (t ∈ ts) as Hin by (rewrite <- H4; apply list_elem_of_fmap; by exists (t, resp)).
    destruct (lookup_lt_is_Some_2 reqs t) as [req Hreq]; [by apply H5|].
    destruct (lookup_lt_is_Some_2 resps t) as [r Hr]; [rewrite H6; by apply H5|].
    pose proof (H7 t req (Ret r) Hreq) as Hw. rewrite list_lookup_fmap, Hr in Hw. specialize (Hw eq_refl).
    rewrite decide_True in Hw by done. destruct Hw as (r' & [= <-] & Hr'). rewrite Hr.
    f_equal. eapply nodup_fst; [|exact Hr'|exact Ht]. by rewrite H4.
Qed.

Lemma http_requests_linearize_witness :
  let reqs := [plain_request (lit "PUT") (lit "/a") (lit "new"); plain_request (lit "GET") (lit "/a") []] in
  exists s' ts outs, ts ≡ₚ [0%nat; 1%nat] /\ @in_order (lab working) lab_build reqs ts http_server = (inl outs, s') /\
    (1%nat, answer kHttpOk ∅ (lit "first")) ∈ outs.
Proof.
  intros reqs.
  set (c := take_turns [1%nat; 0%nat] (http_server, @handlerT (lab working) lab_build <$> reqs)).
  assert (c = (fst c, Ret <$> [put_ok; answer kHttpOk ∅ (lit "first")])) as Hc by (vm_compute; reflexivity).
  pose proof (take_turns_interleave [1%nat; 0%nat] (http_server, @handlerT (lab working) lab_build <$> reqs)) as Hrun.
  fold c in Hrun. rewrite Hc in Hrun.
  destruct (@http_requests_linearize (lab working) lab_build reqs http_server (fst c) _
    ltac:(intros; by right) Hrun) as (ts & outs & H1 & H2 & H3 & H4).
  exists (fst c), ts, outs. split; [exact H1|]. split; [exact H2|].
  assert (1%nat ∈ outs.*1) as ([t resp] & Ht & Hin)%list_elem_of_fmap.
  { rewrite H3, H1. right. by left. }
  cbn in Ht. subst t. specialize (H4 _ _ Hin) as [= <-]. exact Hin.
Defined.

(** Requests whose data moves over RDMA aren't: the transfers share one
    staging buffer and one connection, and no lock. Two GETs of different
    objects at once can both be answered with 200, and yet the client that
    asked for the first object is sent the bytes of the other, which have
    taken its place in the staging buffer. *)
Theorem concurrent_gets_mix_objects :
  exists s' r1 r2 buf,
    rtc (@interleave Server HttpResponse)
      (ready_server, mixed_gets) (s', [Ret r1; Ret r2]) /\
    resp_status r1 = kHttpOk /\ resp_status r2 = kHttpOk /\ (stagingBuf <$> rdma ready_server) = Some buf /\
    objects ready_server !! lit "a" = Some (lit "first") /\
    sent_from buf (srv_trace s') =
      [(tok_remoteAddr other_token, lit "other"); (tok_remoteAddr golden_token, lit "other")].
Proof.
  pose proof (take_turns_interleave mixing_turns (ready_server, mixed_gets)) as Hrun.
  destruct (mix_up_spec _ mixed_up) as (s' & r1 & r2 & Hc & H1 & H2 & H3 & H4). rewrite Hc in Hrun.
  exists s', r1, r2, lab_staging. split; [exact Hrun|]. split; [exact H1|]. split; [exact H2|]. split; [exact H3|].
  split; [vm_compute; reflexivity|exact H4].
Qed.
