(* ===== verification/CurlOps.v ===== *)
(** * The examples' S3 client ([examples/s3_curl_ops.h],
      [examples/s3_curl_ops.cpp])

    The callbacks that carry a token and a reply over HTTP with libcurl, as
    programs of an application.  [lastReply], the array of 512 characters in
    the context, is the application's memory, [g_app]: the C string that's in
    it.  A transfer of libcurl's is one call, whose result has the header
    lines that the header callback got. *)

From Stdlib Require Import Ascii String.
From stdpp Require Import base numbers list gmap.
From S2P Require Import Prelude.
From S2P Require Import Parse.
From S2P Require Import Token.
From S2P Require Import Text.
From S2P Require Import IbvCore.
From S2P Require Import World.
From S2P Require Import Topology.
From S2P Require Import Transport.
From S2P Require Import Buffer.
From S2P Require Import State.
From S2P Require Import Invariant.
From S2P Require Import Control.
From S2P Require Import Api.
From S2P Require Import Safety.

(** ** Definitions *)

(** What a request reads of the context; a null string is [None] *)
Record hipObjS3CurlCtx := {
  ctx_endpoint : option chars;
  ctx_bucket : option chars;
  ctx_object : option chars;
  isPut : bool;
}.

Definition kLastReplyLen : nat := 512.

(** *** Resources *)

Definition CurlEasyDeleter `{World} (curl : Z) : W unit :=
  if curl =? 0 then mret tt else perform (curl_easy_cleanup curl).
Definition CurlSlistDeleter `{World} (list : Z) : W unit :=
  if list =? 0 then mret tt else perform (curl_slist_free_all list).

(** Whether it was appended, and the list that the [CurlSlistPtr] owns *)
Definition appendHeader `{World} (list : Z) (header : chars) : W (bool * Z) :=
  head ← perform (curl_slist_append list header);
  if head =? 0 then mret (false, list)
  else mret (true, if list =? 0 then head else list).

(** *** The header callback *)

(** The name is made lower case, and what follows the first colon is left *)
Fixpoint lower_name (line : chars) : chars :=
  match line with
  | [] => []
  | c :: line => lower c :: (if decide (lower c = ":"%char) then line else lower_name line)
  end.

Definition is_reply_end (c : ascii) : bool := (code c =? 13) || (code c =? 10) || (code c =? 32).

Definition reply_prefix : chars := lit "x-amz-rdma-reply:".

(** [snprintf()] into [lastReply], with the format ["%s"] *)
Definition store_reply (val : chars) : chars := take (kLastReplyLen - 1) (cStringView val).

(** What's in [lastReply] afterwards, from what was in it *)
Definition headerCallback (last : chars) (buffer : chars) : chars :=
  let line := lower_name buffer in
  if starts_with reply_prefix line then
    let val := remove_trailing is_reply_end (drop (List.length reply_prefix) line) in
    store_reply (skip_while (fun c => code c =? 32) val)
  else last.

(** The lines of a response, one after the other, after [lastReply] was
    emptied *)
Definition reply_of (lines : list chars) : chars := foldl headerCallback [] lines.

(** *** The URL *)

Definition drop_slash (url : chars) : chars :=
  match last url with
  | Some c => if decide (c = "/"%char) then take (List.length url - 1) url else url
  | None => url
  end.

Definition buildUrl (cfg : hipObjS3CurlCtx) : chars :=
  drop_slash (default (lit "http://127.0.0.1:9000") (ctx_endpoint cfg)) ++
  lit "/" ++ default (lit "test") (ctx_bucket cfg) ++ lit "/" ++ default (lit "object") (ctx_object cfg).

(** [-1] when libcurl can't tell *)
Definition responseCode (r : curl_result) : Z := default (-1) (curl_code r).

(** *** The callbacks *)

(** [curl_easy_perform()], and what becomes of it: what the callback returns,
    and what's in [lastReply] *)
Definition perform_request `{World} (cfg : hipObjS3CurlCtx) (curl headers : Z) : W (Z * chars) :=
  rc ← perform (curl_easy_perform curl headers (buildUrl cfg) (lit (if isPut cfg then "PUT" else "GET")));
  let lastReply := reply_of (curl_lines rc) in
  let httpCode := if curl_ok rc then responseCode rc else -1 in
  if negb (curl_ok rc) then mret (-1, lastReply)
  else if (httpCode <? 200) || (300 <=? httpCode) then
    _ ← perform (print_stderr (Message (lit "hipObjS3CurlSendRequest: HTTP " ++ to_string httpCode)));
    mret (-1, lastReply)
  else if bool_decide (lastReply = []) then
    _ ← perform (print_stderr (Message (lit "hipObjS3CurlSendRequest: missing x-amz-rdma-reply header")));
    mret (-1, lastReply)
  else mret (0, lastReply).

(** The request, and what's in [lastReply], if it was emptied.  A C string
    ends at the first NUL. *)
Definition send_request `{World} (cfg : hipObjS3CurlCtx) (token : chars) : W (Z * option chars) :=
  curl ← perform curl_easy_init;
  if curl =? 0 then mret (-1, None)
  else
    let headerToken := lit "x-amz-rdma-token: " ++ token in
    '(ok, headers) ← appendHeader 0 (cStringView headerToken);
    '(ok, headers) ← (if ok : bool then appendHeader headers (lit "Content-Length: 0") else mret (false, headers));
    if negb ok then
      _ ← CurlSlistDeleter headers; _ ← CurlEasyDeleter curl; mret (-1, None)
    else
      '(rc, lastReply) ← perform_request cfg curl headers;
      _ ← CurlSlistDeleter headers;
      _ ← CurlEasyDeleter curl;
      mret (rc, Some lastReply).

(** [ctx] isn't null where the examples use this *)
Definition hipObjS3CurlSendRequest `{World} (cfg : hipObjS3CurlCtx) (token : chars) : G Z :=
  '(rc, lastReply) ← outside (send_request cfg token);
  _ ← match lastReply with
      | Some last => modify (fun g => g <| g_app := last |>)
      | None => mret tt
      end;
  mret rc.

(** What the callback makes of [lastReply] and the reply buffer *)
Definition recv_reply (lastReply reply : chars) : Z * chars * Z :=
  let len := List.length lastReply in
  if Nat.ltb (List.length reply) len then (-1, reply, Z.of_nat (List.length reply))
  else (0, copy_into lastReply reply, Z.of_nat len).

Definition hipObjS3CurlRecvReply (reply : chars) : G (Z * chars * Z) :=
  lastReply ← (g ← get_state; mret (g_app g));
  mret (recv_reply lastReply reply).

Definition curl_ops `{World} (cfg : hipObjS3CurlCtx) : hipObjOps_t :=
  {| sendRequest := Some (hipObjS3CurlSendRequest cfg); recvReply := Some hipObjS3CurlRecvReply |}.

(** *** libcurl's objects *)

(** The easy handles and header lists that are open: those created less
    those destroyed.  An append to no list creates one. *)
Inductive curl_object := CurlEasy (addr : Z) | CurlSlist (addr : Z).

#[export] Instance curl_object_eq_dec : EqDecision curl_object.
Proof. solve_decision. Defined.

Definition is_object (h x : curl_object) : Z := if decide (h = x) then 1 else 0.

Definition curl_delta (h : curl_object) (e : event) : Z :=
  match e with
  | Ev curl_easy_init p => if p =? 0 then 0 else is_object h (CurlEasy p)
  | Ev (curl_easy_cleanup p) _ => - is_object h (CurlEasy p)
  | Ev (curl_slist_append list _) p => if (list =? 0) && negb (p =? 0) then is_object h (CurlSlist p) else 0
  | Ev (curl_slist_free_all p) _ => - is_object h (CurlSlist p)
  | _ => 0
  end.

Fixpoint curl_open (h : curl_object) (t : trace) : Z :=
  match t with
  | [] => 0
  | e :: t => curl_delta h e + curl_open h t
  end.

(** ** Lemmas *)

Section curl.
Context `{E : World} (bad : stop -> Prop).

(** What a request does: it succeeds only when a transfer of libcurl's did,
    with a 2xx status and a reply, and leaves none of libcurl's objects *)
Definition requested (cfg : hipObjS3CurlCtx) (st : Z) (last : option chars) (t t' : trace) : Prop :=
  (forall h, curl_open h t' = curl_open h t) /\ (forall h, bal h t' = bal h t) /\
  (st = -1 \/
   st = 0 /\ exists curl headers rc after before reply, last = Some reply /\
     t' = after ++ [Ev (curl_easy_perform curl headers (buildUrl cfg) (lit (if isPut cfg then "PUT" else "GET"))) rc]
            ++ before ++ t /\
     curl_ok rc = true /\ 200 <= responseCode rc < 300 /\ reply = reply_of (curl_lines rc) /\ reply <> []).

Lemma store_reply_length v : (List.length (store_reply v) < kLastReplyLen)%nat.
Proof. unfold store_reply, kLastReplyLen. rewrite length_take. lia. Qed.

Lemma headerCallback_length last line :
  (List.length last < kLastReplyLen)%nat -> (List.length (headerCallback last line) < kLastReplyLen)%nat.
Proof. unfold headerCallback. destruct (starts_with _ _); [intros _; apply store_reply_length|done]. Qed.

Lemma reply_of_length lines : (List.length (reply_of lines) < kLastReplyLen)%nat.
Proof.
  unfold reply_of. induction lines as [|line lines IH] using rev_ind; [cbn; unfold kLastReplyLen; lia|].
  rewrite foldl_snoc. by apply headerCallback_length.
Qed.

Ltac curl_cases :=
  repeat first
    [ progress cbn [curl_open curl_delta bal delta negb andb]
    | match goal with H : (?x =? 0) = _ |- context [?x =? 0] => rewrite H end
    | rewrite Z.eqb_refl ]; lia.

Lemma requested_failed cfg last t t' :
  (forall h, curl_open h t' = curl_open h t) -> (forall h, bal h t' = bal h t) -> requested cfg (-1) last t t'.
Proof. intros H1 H2. split_and!; [done|done|by left]. Qed.

Lemma send_request_spec cfg token t :
  wp bad (send_request cfg token) (fun x t' => requested cfg (fst x) (snd x) t t') t.
Proof.
  unfold send_request, appendHeader, perform_request, CurlSlistDeleter, CurlEasyDeleter.
  wrun; change (0 =? 0) with true in *; cbv iota in *; try congruence;
    repeat match goal with
    | H : (?x =? 0) = false, K : context [if ?x =? 0 then _ else _] |- _ => rewrite H in K
    | H : (?x =? 0) = false |- context [if ?x =? 0 then _ else _] => rewrite H
    end; try congruence;
    try (apply requested_failed; intros h; curl_cases).
  split_and!; [intros h; curl_cases..|]. right. split; [done|].
  eexists r, r0, r2, [_; _], [_; _; _], _. bools.
  repeat match goal with H : curl_ok _ = true |- _ => rewrite H in *; clear H end. split_and!; done.
Qed.
End curl.


(** Both callbacks are programs of an application, so the theorems of
    [Safety] are about the transfers that use them *)
Lemma SendRequest_application `{E : World} `{B : BuildConfig} cfg token :
  is_application (hipObjS3CurlSendRequest cfg token).
Proof.
  unfold hipObjS3CurlSendRequest. repeat app_step.
  apply app_own. intros bad t. eapply wp_mono; [apply send_request_spec|]. by intros x t' (_ & H & _).
Qed.

Lemma RecvReply_application `{E : World} `{B : BuildConfig} reply :
  is_application (hipObjS3CurlRecvReply reply).
Proof. unfold hipObjS3CurlRecvReply. apply app_bind; [apply app_recall|intros last; apply app_ret]. Qed.

(** What of [lastReply] gets through, into a buffer of the library's size *)
Lemma recv_reply_received last :
  (List.length last < kReplyBufLen)%nat ->
  let '(st, buf, len) := recv_reply last (replicate kReplyBufLen (chr 0)) in
  received_reply kReplyBufLen st buf len =
    match decodeRdmaReply last with Some s => Some {| text := last; status := s |} | None => None end.
Proof.
  intros Hl. unfold recv_reply. rewrite length_replicate, (proj2 (Nat.ltb_ge _ _)) by lia.
  unfold received_reply. cbn [Z.eqb negb]. rewrite (proj2 (Z.ltb_ge _ _)) by lia.
  unfold copy_into. rewrite Nat2Z.id, take_take, Nat.min_l by lia. by rewrite take_app_length.
Qed.

(** *** The reply's line *)

(** A name that's ours in lower case is found whatever its case *)
Lemma lower_name_app name rest :
  Forall (fun c => lower c <> ":"%char) name -> lower_name (name ++ ":"%char :: rest) = map lower name ++ ":"%char :: rest.
Proof.
  induction 1 as [|c name Hc _ IH]; [reflexivity|]. cbn [app lower_name map]. by rewrite decide_False, IH.
Qed.

Lemma starts_with_app pat s : starts_with pat (pat ++ s) = true.
Proof. apply starts_with_prefix. by exists s. Qed.

(** A line that brings the reply [v] *)
Definition reply_line (name : chars) (v line : chars) : Prop :=
  map lower name = lit "x-amz-rdma-reply" /\ line = name ++ lit ": " ++ v ++ CRLF.

Lemma headerCallback_reply name v line last :
  reply_line name v line -> remove_trailing is_reply_end v = v -> no_nul v -> hd_error v <> Some " "%char ->
  (List.length v < kLastReplyLen)%nat -> headerCallback last line = v.
Proof.
  intros [Hn ->] Ht Hnul Hsp Hl. unfold headerCallback.
  change (lit ": " ++ v ++ CRLF) with (":"%char :: lit " " ++ v ++ CRLF).
  rewrite lower_name_app.
  2:{ apply (Forall_map lower (fun c => c <> ":"%char)). rewrite Hn. apply (bool_decide_unpack _). reflexivity. }
  rewrite Hn. change (lit "x-amz-rdma-reply" ++ ":"%char :: lit " " ++ v ++ CRLF) with (reply_prefix ++ lit " " ++ v ++ CRLF).
  rewrite starts_with_app, drop_app_length, app_assoc, remove_trailing_ending by (repeat constructor).
  assert (skip_while (fun c => code c =? 32) (remove_trailing is_reply_end (lit " " ++ v)) = v) as ->.
  { cbn [lit list_ascii_of_string app remove_trailing]. rewrite Ht. destruct v as [|c v]; [done|].
    cbn [skip_while]. change (code " "%char =? 32) with true. cbn [skip_while]. destruct (Z.eqb_spec (code c) 32) as [Hc|]; [|done].
    exfalso. apply Hsp. cbn. f_equal. apply code_inj. by rewrite Hc. }
  unfold store_reply. rewrite cStringView_id by done. apply take_ge. lia.
Qed.

(** The reply of the test server's, as text *)
Definition reply_char (c : ascii) : Prop := is_Some (base_digit 16 c) \/ c = ":"%char.

Lemma reply_char_spec c : reply_char c -> is_reply_end c = false /\ code c <> 0 /\ c <> " "%char.
Proof.
  intros H. assert (forall d, ~ reply_char d -> c <> d) as Hne by (by intros d Hd ->).
  assert (forall z, is_byte z -> c <> chr z -> code c <> z) as Hcode.
  { intros z Hz Hc He. apply Hc. rewrite <- He. by rewrite chr_code. }
  assert (c <> chr 0 /\ c <> chr 10 /\ c <> chr 13 /\ c <> chr 32) as (H0 & H1 & H2 & H3).
  { split_and!; apply Hne; (intros [[d Hd]|He]; [by vm_compute in Hd|discriminate He]). }
  split_and!; [|apply Hcode; [by unfold is_byte|done]|done].
  unfold is_reply_end. rewrite !orb_false_iff, !Z.eqb_neq. unfold is_byte in Hcode. split_and!; apply Hcode; done || lia.
Qed.

Lemma remove_trailing_none p v : Forall (fun c => p c = false) v -> remove_trailing p v = v.
Proof. induction 1 as [|c v Hc _ IH]; [done|]. cbn [remove_trailing]. rewrite IH. destruct v; [by rewrite Hc|done]. Qed.

Lemma headerCallback_plain name v line last :
  reply_line name v line -> Forall reply_char v -> (List.length v < kLastReplyLen)%nat ->
  headerCallback last line = v.
Proof.
  intros Hl Hv Hlen. apply (headerCallback_reply name); [done| | | |done].
  - apply remove_trailing_none. eapply Forall_impl; [exact Hv|]. apply reply_char_spec.
  - eapply Forall_impl; [exact Hv|]. apply reply_char_spec.
  - destruct Hv as [|c v Hc]; [done|]. intros [= Heq]. by eapply reply_char_spec.
Qed.

Lemma peer_reply_plain peer : wf_token peer ->
  Forall reply_char (encodeReplyWithPeerToken 200 peer) /\
  (List.length (encodeReplyWithPeerToken 200 peer) < kLastReplyLen)%nat.
Proof.
  intros (_ & Hg & _). rewrite encodeReply_split. split.
  - change (to_string 200) with (lit "200"). rewrite !Forall_app. split_and!.
    + repeat (constructor; [left; by eexists|]). constructor.
    + constructor; [by right|constructor].
    + eapply Forall_impl; [by eapply hex_pairs_hex, encode_hex_pairs|]. by left.
  - rewrite !length_app, encodeRdmaToken_length by done. vm_compute. lia.
Qed.

(** ** Properties *)

(** A request succeeds only when the reply is there to be received. It
    returns 0 or -1; when it returns 0, libcurl's transfer of the URL's
    object succeeded with a 2xx status, and [lastReply] is what its header
    lines gave, which isn't empty and fits the array; and whatever it
    returns, libcurl's handle and header list are released. *)
Theorem curl_request_outcome `{E : World} (bad : stop -> Prop) (cfg : hipObjS3CurlCtx) (token : chars) (g : Process) :
  wp bad (hipObjS3CurlSendRequest cfg token) (fun st g' =>
    (forall h, curl_open h (m_trace (g_mem g')) = curl_open h (m_trace (g_mem g))) /\
    (st = -1 \/
     st = 0 /\ g_app g' <> [] /\ (List.length (g_app g') < kLastReplyLen)%nat /\
     exists curl headers rc after before,
       m_trace (g_mem g') = after ++
         [Ev (curl_easy_perform curl headers (buildUrl cfg) (lit (if isPut cfg then "PUT" else "GET"))) rc] ++
         before ++ m_trace (g_mem g) /\
       curl_ok rc = true /\ 200 <= responseCode rc < 300 /\ g_app g' = reply_of (curl_lines rc))) g.
Proof.
  unfold hipObjS3CurlSendRequest. apply wp_bind, wp_outside. eapply wp_mono; [apply send_request_spec|].
  cbv beta. intros [st last] t' (Hc & _ & Hr). cbn [fst snd] in *. apply wp_bind.
  destruct last as [last|]; [apply wp_modify|apply wp_ret]; apply wp_ret; (split; [exact Hc|]).
  - destruct Hr as [->|(-> & curl & headers & rc & after & before & reply & [= <-] & -> & Hok & Hst & -> & Hne)]; [by left|].
    right. split_and!; [done|done|apply reply_of_length|]. by exists curl, headers, rc, after, before.
  - destruct Hr as [->|(_ & _ & _ & _ & _ & _ & reply & [=] & _)]. by left.
Qed.

(** C30: the server's reply gets to the library unchanged. When the last
    reply header of the response, whatever the case of its name, holds what
    the test server's encoder writes, the buffer that the library's given
    holds that text, which decodes as a success with the peer's token. *)
Theorem curl_reply_received (peer : RdmaToken) (name line : chars) (before after : list chars)
    (Hwf : wf_token peer) (Hline : reply_line name (encodeReplyWithPeerToken 200 peer) line)
    (Hafter : Forall (fun l => starts_with reply_prefix (lower_name l) = false) after) :
  let '(st, buf, len) := recv_reply (reply_of (before ++ line :: after)) (replicate kReplyBufLen (chr 0)) in
  exists r, received_reply kReplyBufLen st buf len = Some r /\ status r = Success /\
    parsePeerTokenFromReply (text r) = Some peer.
Proof.
  destruct (peer_reply_plain peer Hwf) as [Hv Hl]. set (v := encodeReplyWithPeerToken 200 peer) in *.
  assert (reply_of (before ++ line :: after) = v) as ->.
  { unfold reply_of. rewrite foldl_app. cbn [foldl]. rewrite (headerCallback_plain name v) by done.
    clear -Hafter. induction Hafter as [|l after Hs _ IH]; [done|]. cbn [foldl].
    assert (headerCallback v l = v) as -> by (unfold headerCallback; by rewrite Hs). exact IH. }
  pose proof (recv_reply_received v Hl) as Hr. destruct (recv_reply v _) as [[st buf] len]. rewrite Hr.
  pose proof (parseReply_peer_token 200 peer [] Hwf (Forall_nil_2 _) ltac:(lia)) as Hp. rewrite app_nil_r in Hp.
  fold v in Hp. unfold decodeRdmaReply, parseRdmaReplyHttpCode. rewrite Hp. cbn [Z.eqb].
  eexists. split; [reflexivity|]. split; [done|]. cbn [text]. unfold parsePeerTokenFromReply. by rewrite Hp.
Qed.

Lemma curl_reply_received_witness :
  let '(st, buf, len) := recv_reply (reply_of
      ([lit "HTTP/1.1 200 OK" ++ CRLF] ++ (lit "X-AMZ-Rdma-Reply: " ++ encodeReplyWithPeerToken 200 golden_token ++ CRLF) :: [CRLF]))
    (replicate kReplyBufLen (chr 0)) in
  exists r, received_reply kReplyBufLen st buf len = Some r /\ status r = Success /\
    parsePeerTokenFromReply (text r) = Some golden_token.
Proof.
  apply (curl_reply_received golden_token (lit "X-AMZ-Rdma-Reply")); [exact golden_token_wf|by split|].
  constructor; [reflexivity|constructor].
Defined.
