(* ===== verification/Examples.v ===== *)
(** * The example programs ([examples/get-object.cpp],
      [examples/put-object.cpp], and the test on versions of
      [examples/get-version.cpp])

    Each [main()] as a program of an application.  The two transfers differ
    in the call they make and in their messages; [put] says which it is.
    The guards' destructors run, in the reverse order, on each way out. *)

From Stdlib Require Import Ascii String.
From stdpp Require Import base numbers list gmap.
From S2P Require Import Prelude.
From S2P Require Import Parse.
From S2P Require Import Token.
From S2P Require Import IbvCore.
From S2P Require Import World.
From S2P Require Import Topology.
From S2P Require Import Transport.
From S2P Require Import Buffer.
From S2P Require Import State.
From S2P Require Import Invariant.
From S2P Require Import Control.
From S2P Require Import Api.
From S2P Require Import Safety.
From S2P Require Import Behaviour.
From S2P Require Import CurlOps.

(** ** Definitions *)

(** [strtoull()] with the base 10, for a string that starts with a digit: the
    value, whether it was out of range, and what follows the digits *)
Definition strtoull (s : chars) : Z * bool * chars :=
  let ds := digit_prefix 10 s in
  let n := digits_value 10 ds in
  (Z.min n (ity_max uint64_t), ity_max uint64_t <? n, drop (List.length ds) s).

Definition parseSize (arg : chars) : Z :=
  match arg with
  | [] => 0
  | c :: _ =>
      if (code c <? 48) || (57 <? code c) then 0
      else
        let '(n, erange, tail) := strtoull arg in
        if erange || negb (bool_decide (tail = [])) || negb (wrapu 64 n =? n) then 0 else n
  end.

(** What the arguments after the size say: [--live], the endpoint, the
    bucket, and the object *)
Definition live_args (args : list chars) : bool * chars * chars * chars :=
  let stub := (false, lit "http://127.0.0.1:9000", lit "test", lit "object") in
  match args with
  | flag :: url :: more =>
      if bool_decide (flag = lit "--live") then
        match more with
        | [] => (true, url, lit "test", lit "object")
        | [bucket] => (true, url, bucket, lit "object")
        | bucket :: object :: _ => (true, url, bucket, object)
        end
      else stub
  | _ => stub
  end.

Definition say `{World} (text : chars) : G unit := outside (perform (print_stderr (Message text))).

(** *** The callbacks without a server *)

Definition stubSendRequest `{World} (put : bool) (token : chars) : G Z :=
  _ ← say ((if put then lit "[put-object] would send RDMA token (" else lit "[get-object] would send RDMA token (") ++
           to_string (Z.of_nat (List.length token)) ++
           (if put then lit " bytes) via S3 PUT x-amz-rdma-token" else lit " bytes) via S3 GET x-amz-rdma-token"));
  mret 0.

Definition stubRecvReply (reply : chars) : G (Z * chars * Z) :=
  mret (recv_reply (lit "501") reply).

Definition stub_ops `{World} (put : bool) : hipObjOps_t :=
  {| sendRequest := Some (stubSendRequest put); recvReply := Some stubRecvReply |}.

(** *** The guards *)

Definition HipFreeDeleter `{World} (ptr : Z) : G unit :=
  if ptr =? 0 then mret tt else _ ← outside (perform (hipFree ptr)); mret tt.
Definition HipObjShutdownGuard `{World} : G unit := _ ← hipObjShutdown; mret tt.
Definition HipObjBufRegistration `{World} (devPtr : Z) : G unit := _ ← hipObjBufDeregister devPtr; mret tt.

(** [CurlGlobal]: [ok_], and what the destructor does *)
Definition CurlGlobal `{World} (init : bool) : G bool :=
  if init then outside (perform curl_global_init) else mret false.
Definition destroy_CurlGlobal `{World} (ok : bool) : G unit :=
  if ok then outside (perform curl_global_cleanup) else mret tt.

(** *** The transfers *)

Definition failed `{World} (name : chars) (e : hipObjError_t) : G Z :=
  _ ← say (name ++ lit " failed: " ++ hipObjGetErrorString (opError e)); mret 1.

Definition transfer_name (put : bool) : chars := if put then lit "hipObjPut" else lit "hipObjGet".

(** From the choice of the callbacks on *)
Definition run_transfer `{World} `{BuildConfig} (put : bool) (devPtr objSize : Z) (ops : hipObjOps_t) : G Z :=
  err ← (if put then hipObjPut devPtr objSize 0 (Some ops) else hipObjGet devPtr objSize 0 (Some ops));
  if negb (bool_decide (opError err = hipObjSuccess)) then failed (transfer_name put) err else mret 0.

(** [have_curl] is whether [HIPOBJ_HAVE_CURL] is defined *)
Definition with_callbacks `{World} `{BuildConfig} (put have_curl live : bool) (cfg : hipObjS3CurlCtx)
    (devPtr objSize : Z) : G Z :=
  if have_curl then
    ok ← CurlGlobal live;
    r ← (if live && negb ok then _ ← say (lit "curl_global_init failed"); mret 1
         else if live then
           (* [hipObjS3CurlCtx curlCtx{}] *)
           _ ← modify (fun g => g <| g_app := [] |>);
           run_transfer put devPtr objSize (curl_ops cfg)
         else run_transfer put devPtr objSize (stub_ops put));
    _ ← destroy_CurlGlobal ok;
    mret r
  else run_transfer put devPtr objSize (stub_ops put).

(** With hipObject initialized *)
Definition with_buffer_memory `{World} `{BuildConfig} (put have_curl live : bool) (cfg : hipObjS3CurlCtx)
    (objSize : Z) : G Z :=
  '(hip_err, devPtr) ← outside (perform (hipMalloc objSize));
  if negb (hip_err =? hipSuccess) then
    _ ← say (lit "hipMalloc failed: " ++ to_string hip_err); mret 1
  else
    err ← hipObjBufRegister devPtr objSize;
    r ← (if negb (bool_decide (opError err = hipObjSuccess)) then failed (lit "hipObjBufRegister") err
         else
           r ← with_callbacks put have_curl live cfg devPtr objSize;
           _ ← HipObjBufRegistration devPtr;
           mret r);
    _ ← HipFreeDeleter devPtr;
    mret r.

Definition example_main `{World} `{BuildConfig} `{NicTopology} (put have_curl : bool) (argv : list chars) : G Z :=
  match argv with
  | prog :: size :: args =>
      let objSize := parseSize size in
      if objSize =? 0 then _ ← say (lit "Invalid object size: " ++ size); mret 1
      else
        let '(live, url, bucket, object) := live_args args in
        nic ← outside (perform (getenv (lit "HIPOBJ_NIC_HINT")));
        err ← hipObjInit (Some {| endpoint := Some url; region := Some (lit "us-east-1"); accessKey := None;
                                  secretKey := None; flags := 0; gpuDevice := 0; nicHint := nic |});
        if negb (bool_decide (opError err = hipObjSuccess)) then failed (lit "hipObjInit") err
        else
          r ← with_buffer_memory put have_curl live
                {| ctx_endpoint := Some url; ctx_bucket := Some bucket; ctx_object := Some object; isPut := put |} objSize;
          _ ← HipObjShutdownGuard;
          mret r
  | _ =>
      _ ← say (lit "Usage: " ++ default [] (head argv) ++ lit " <object-size-bytes> [--live URL [bucket] [object]]");
      mret 1
  end.

(** The two programs *)
Definition get_object_main `{World} `{BuildConfig} `{NicTopology} : bool -> list chars -> G Z := example_main false.
Definition put_object_main `{World} `{BuildConfig} `{NicTopology} : bool -> list chars -> G Z := example_main true.

(** *** [get-version] *)

(** The header's version is the program's own; the library's is what
    [hipObjGetVersion()] stores *)
Definition compatible (headerMajor headerMinor major minor : Z) : bool :=
  (major =? headerMajor) && (if major =? 0 then minor =? headerMinor else headerMinor <=? minor).

(** ** Lemmas *)

Lemma base_digit_10 c : base_digit 10 c = if (code c <? 48) || (57 <? code c) then None else Some (code c - 48).
Proof.
  unfold base_digit, digit_value.
  destruct (Z.leb_spec 48 (code c)), (Z.leb_spec (code c) 57), (Z.ltb_spec (code c) 48), (Z.ltb_spec 57 (code c));
    try lia; cbn [andb orb]; [by rewrite (proj2 (Z.ltb_lt _ _)) by lia|..];
    (destruct ((97 <=? code c) && _) eqn:?; [|destruct ((65 <=? code c) && _) eqn:?; [|done]]);
    bools; by rewrite (proj2 (Z.ltb_ge _ _)) by lia.
Qed.

Lemma drop_nil_length {A} n (l : list A) : (n <= List.length l)%nat -> drop n l = [] <-> n = List.length l.
Proof.
  intros Hn. split; [|intros ->; by apply drop_ge].
  intros H%(f_equal List.length). rewrite length_drop in H. cbn in H. lia.
Qed.

(** *** Failing transfers *)

Lemma ret_returns {S A} (a b : A) (s s' : S) : (mret a : M S A) s = (inl b, s') -> a = b /\ s' = s.
Proof. by intros [= -> ->]. Qed.

(** A program that never returns a success *)
Definition never_ok {S} (m : M S hipObjError_t) : Prop :=
  forall s r s', m s = (inl r, s') -> opError r <> hipObjSuccess.

Lemma never_ok_bind {S A} (m : M S A) k : (forall a, never_ok (k a)) -> never_ok (m ≫= k).
Proof. intros Hk s r s' H. apply bind_returns in H as (a & s1 & _ & H). by eapply Hk. Qed.

Lemma never_ok_error {S} e : e <> hipObjSuccess -> never_ok (S := S) (mret (makeError e)).
Proof. by intros He s r s' [= <- <-]. Qed.

Lemma never_ok_after {S A} (m : M S hipObjError_t) (k : M S A) :
  never_ok m -> never_ok (r ← m; _ ← k; mret r).
Proof.
  intros Hm s r s' H. apply bind_returns in H as (e & s1 & He & H). apply bind_returns in H as (x & s2 & _ & H).
  injection H as <- <-. by eapply Hm.
Qed.

Lemma never_ok_if_ok err (m : G hipObjError_t) : never_ok m -> never_ok (if_ok id err m).
Proof. intros Hm. unfold if_ok. case_bool_decide; [done|]. by intros s r s' [= <- <-]. Qed.

Section stub.
Context `{E : World} `{B : BuildConfig}.

(** A transfer whose reply isn't a success *)
Definition refuses (ops : hipObjOps_t) : Prop :=
  forall recv g g' buffer len r, recvReply ops = Some recv ->
    recv (replicate kReplyBufLen (chr 0)) g = (inl (0, buffer, len), g') ->
    received_reply kReplyBufLen 0 buffer len = Some r -> status r <> Success.

Lemma refused_transfer id buf size offset ops :
  refuses ops -> never_ok (runRdmaTransfer id buf size offset ops).
Proof.
  intros Hr. apply never_ok_bind. intros [index|[]]; [|by apply never_ok_error..].
  intros g r g' H. apply bind_returns in H as ([err connected] & g1 & Hl & H).
  apply bind_returns in H as (x & g2 & _ & H). injection H as <- <-.
  apply leased_transfer_inv in Hl as [(e & -> & _) Hs]. intros He. assert (e = hipObjSuccess) as -> by exact He.
  destruct (Hs eq_refl) as (conn & ? & token & send & g3 & recv & g4 & buffer & len & reply & ? & ? & ? & ? & ? & ? & ? &
    Hrecv & Hrun & Hrep & Hst & _). by eapply Hr.
Qed.

Lemma refused_api (put : bool) devPtr size offset ops :
  refuses ops ->
  never_ok (if put then hipObjPut devPtr size offset (Some ops) else hipObjGet devPtr size offset (Some ops)).
Proof.
  intros Hr. assert (forall body : nat -> G hipObjError_t, (forall i, never_ok (body i)) -> never_ok (with_instance id body)) as Hi.
  { intros body Hb. apply never_ok_bind. intros [i|]; [by apply never_ok_after|by apply never_ok_error]. }
  assert (forall inst next, (forall b, never_ok (next b)) -> never_ok (with_checked_buffer id inst devPtr size offset next)) as Hbuf.
  { intros inst next Hn. apply never_ok_bind. intros i. apply never_ok_bind. intros [b|]; apply never_ok_after.
    - apply never_ok_bind. intros e. apply never_ok_if_ok. apply never_ok_bind. intros err. by apply never_ok_if_ok.
    - unfold checkBufferArgs, id. destruct (_ || _); by apply never_ok_error. }
  destruct put; apply Hi; intros i; cbn [with_ops];
    (destruct (bool_decide _ || bool_decide _); [by apply never_ok_error|]); apply Hbuf; intros b.
  - apply never_ok_bind. intros err. apply never_ok_if_ok. by apply refused_transfer.
  - intros g r g' H. apply bind_returns in H as (err & g1 & He & H).
    apply refused_transfer in He; [|done]. unfold if_ok in H. rewrite bool_decide_eq_false_2 in H by done.
    by injection H as <- <-.
Qed.

Lemma stub_refuses put : refuses (stub_ops put).
Proof.
  intros recv g g' buffer len r [= <-] Hrun Hrep. apply ret_returns in Hrun as [H _].
  pose proof (recv_reply_received (lit "501")) as Hr. rewrite H in Hr. rewrite Hr in Hrep by (vm_compute; lia).
  by injection Hrep as <-.
Qed.
End stub.

(** *** The ways out of [main()] *)

Lemma wp_HipFreeDeleter `{E : World} (bad : stop -> Prop) F p Q g :
  Inv (hold_open (h_device p) F) g -> (forall g', Inv F g' -> Q tt g') -> wp bad (HipFreeDeleter p) Q g.
Proof.
  intros HI HQ. unfold HipFreeDeleter. destruct (p =? 0) eqn:Hp.
  - apply wp_ret, HQ. unfold h_device in HI. rewrite Hp in HI. by rewrite hold_open_nil in HI.
  - apply wp_bind. apply (wp_outside_frees bad F (h_device p)); [done|done|]. intros a g' HI'. by apply wp_ret, HQ.
Qed.

Lemma run_transfer_application `{E : World} `{B : BuildConfig} put p n ops :
  (forall send token, sendRequest ops = Some send -> is_application (send token)) ->
  (forall recv buf, recvReply ops = Some recv -> is_application (recv buf)) ->
  is_application (run_transfer put p n ops).
Proof.
  intros Hs Hr. unfold run_transfer, failed, say. apply app_bind; [|intros err; repeat app_step].
  destruct put; [apply app_put|apply app_get]; intros o ? ? [= <-]; first [apply Hs|apply Hr].
Qed.

Lemma with_callbacks_application `{E : World} `{B : BuildConfig} put have_curl live cfg p n :
  is_application (with_callbacks put have_curl live cfg p n).
Proof.
  assert (is_application (run_transfer put p n (stub_ops put))) as Hstub.
  { apply run_transfer_application; intros ? ? [= <-].
    - unfold stubSendRequest, say. repeat app_step.
    - apply app_ret. }
  assert (is_application (run_transfer put p n (curl_ops cfg))) as Hcurl.
  { apply run_transfer_application; intros ? ? [= <-];
      [apply SendRequest_application|apply RecvReply_application]. }
  unfold with_callbacks, say, CurlGlobal, destroy_CurlGlobal.
  repeat match goal with
  | |- application_program _ (run_transfer _ _ _ (stub_ops _)) => apply Hstub
  | |- application_program _ (run_transfer _ _ _ (curl_ops _)) => apply Hcurl
  | _ => app_step
  end.
Qed.

(** The device memory is the program's own, until it's freed *)
Lemma with_buffer_memory_keeps `{E : World} `{B : BuildConfig} (bad : stop -> Prop) `{!LibraryKeeps bad}
    put have_curl live cfg n F : keeps bad F (with_buffer_memory put have_curl live cfg n).
Proof.
  intros Hok g HI. unfold with_buffer_memory.
  apply wp_bind, (wp_outside_acquires bad F device_memory); [apply hipMalloc_acquires|done|]. intros [err p] g1 HI1.
  cbn beta iota. unfold device_memory in HI1. cbn [fst snd] in HI1. destruct (err =? hipSuccess); cbn [negb].
  - set (F1 := hold_open (h_device p) F) in *.
    apply wp_bind. eapply wp_mono; [by apply (library_keeps _ _ (app_register p n) F1)|]. cbv beta. intros e g2 HI2.
    apply wp_bind. eapply wp_mono.
    { unshelve eapply (library_keeps _ _ _ F1); [|done|exact HI2]. unfold failed, say, HipObjBufRegistration.
      repeat match goal with
      | |- application_program _ (with_callbacks _ _ _ _ _ _) => apply with_callbacks_application
      | _ => app_step
      end. }
    cbv beta. intros r g3 HI3. apply wp_bind, (wp_HipFreeDeleter bad F); [done|]. intros g4 HI4. by apply wp_ret.
  - rewrite hold_open_nil in HI1. refine (library_keeps _ (_ ← say _; mret _) _ F Hok g1 HI1). unfold say. repeat app_step.
Qed.

(** No instance, and nothing in progress *)
Definition settled (g : Process) : Prop := Inv no_frame g /\ g_current g = None.

Section main.
Context `{E : World} `{B : BuildConfig} (bad : stop -> Prop) `{!LibraryKeeps bad}.
Hypothesis Htopology : TopologyOk bad SysfsTopology.

Lemma settled_call {A} (c : call A) (Q : A -> Process -> Prop) g :
  (forall r h, delta h (Ev c r) = 0) -> settled g -> (forall a g', settled g' -> Q a g') ->
  wp bad (outside (perform c)) Q g.
Proof.
  intros Hc [HI Hcur] HQ. pose proof (preserves_outside bad no_frame (perform c) (own_call c Hc bad) g HI) as Hk.
  revert Hk. unfold wp, outside, mem, zoom, calls, perform. intros Hk. apply HQ. by split.
Qed.

Lemma settled_say text (Q : Process -> Prop) (r : Z) g :
  settled g -> (forall g', settled g' -> Q g') -> wp bad (_ ← say text; mret r) (fun r' g' => r' = r /\ Q g') g.
Proof.
  intros Hg HQ. apply wp_bind, settled_call; [done|done|]. intros _ g' Hg'. apply wp_ret. auto.
Qed.

Lemma example_main_spec put have_curl argv g :
  settled g -> wp bad (@example_main E B SysfsTopology put have_curl argv) (fun _ g' => settled g') g.
Proof.
  intros Hg. assert (forall text r g, settled g -> wp bad (_ ← say text; mret r) (fun (_ : Z) g' => settled g') g) as Hsay.
  { intros text r g1 Hg1. eapply wp_mono; [by apply (settled_say text settled r)|]. by intros ? ? [_ ?]. }
  unfold example_main. destruct argv as [|prog [|size args]]; [by apply Hsay..|].
  destruct (_ =? 0); [by apply Hsay|]. destruct (live_args args) as [[[live url] bucket] object].
  apply wp_bind, settled_call; [done|done|]. intros nic g1 [HI1 Hc1]. apply wp_bind.
  eapply wp_mono; [apply wp_conj; [by apply (library_keeps _ _ (app_init _) no_frame)|by apply (hipObjInit_outcome bad no_frame)]|].
  cbv beta. intros err g2 [HI2 Hout]. case_bool_decide as He; cbn [negb].
  - apply wp_bind. eapply wp_mono; [by apply (with_buffer_memory_keeps bad _ _ _ _ _ no_frame)|].
    cbv beta. intros r g3 HI3. apply wp_bind. unfold HipObjShutdownGuard, hipObjShutdown.
    apply wp_bind, wp_bind, (keeps_shutdownInstance bad no_frame); [done|]. intros g4 HI4 Hc4.
    by apply wp_ret, wp_ret, wp_ret.
  - apply Hsay. split; [done|]. unfold init_outcome in Hout. rewrite decide_False in Hout by done.
    destruct Hout as [Hu _]. by rewrite (same_current _ _ Hu).
Qed.
End main.

(** The stub's transfer, as its [main()] runs it *)
Lemma stub_main_fails `{E : World} `{B : BuildConfig} put have_curl cfg n g r g' :
  with_buffer_memory put have_curl false cfg n g = (inl r, g') -> r = 1.
Proof.
  assert (forall p g1 r g2, run_transfer put p n (stub_ops put) g1 = (inl r, g2) -> r = 1) as Hrun.
  { intros p g1 r1 g2 H. apply bind_returns in H as (err & g3 & He & H). apply refused_api in He; [|apply stub_refuses].
    rewrite bool_decide_eq_false_2 in H by done. cbn [negb] in H.
    apply bind_returns in H as (x & g4 & _ & H). by injection H as <- _. }
  assert (forall p g1 r g2, with_callbacks put have_curl false cfg p n g1 = (inl r, g2) -> r = 1) as Hcb.
  { intros p g1 r1 g2 H. unfold with_callbacks in H. destruct have_curl; [|by eapply Hrun].
    apply bind_returns in H as (ok & g3 & _ & H). apply bind_returns in H as (r2 & g4 & Hr & H).
    apply bind_returns in H as (x & g5 & _ & H). injection H as <- _. cbn [andb] in Hr. by eapply Hrun. }
  intros H. unfold with_buffer_memory in H. apply bind_returns in H as ([he p] & g1 & _ & H).
  destruct (negb _).
  { apply bind_returns in H as (x & g2 & _ & H). by injection H as <- _. }
  apply bind_returns in H as (err & g2 & _ & H). apply bind_returns in H as (r1 & g3 & Hr & H).
  apply bind_returns in H as (x & g4 & _ & H). injection H as <- _.
  destruct (negb _).
  - apply bind_returns in Hr as (x1 & g5 & _ & Hr). by injection Hr as <- _.
  - apply bind_returns in Hr as (r2 & g5 & Hr2 & Hr). apply bind_returns in Hr as (x1 & g6 & _ & Hr).
    injection Hr as <- _. by eapply Hcb.
Qed.

(** ** Properties *)

(** The examples' size argument is read as the library reads numbers:
    [strtoull()], with the tests around it, accepts just the texts that
    [parseNumber()] does, and gives the same value; everything else is 0,
    which is refused. *)
Theorem parseSize_is_parseNumber (arg : chars) :
  parseSize arg = default 0 (parseNumber uint64_t arg kDefaultNumberBase).
Proof.
  destruct arg as [|c s]; [done|]. unfold parseNumber, parseSize.
  rewrite bool_decide_eq_false_2 by done. unfold kDefaultNumberBase. change (10 <? kMinNumberBase) with false.
  change (kMaxNumberBase <? 10) with false. cbn [orb]. unfold from_chars, strtoull. cbn [uint64_t ity_signed andb].
  pose proof (digit_prefix_length 10 (c :: s)) as Hlen. pose proof (base_digit_10 c) as Hb.
  destruct (_ || _).
  { cbn [digit_prefix]. rewrite Hb. done. }
  assert (digit_prefix 10 (c :: s) <> []) as Hne by (cbn [digit_prefix]; by rewrite Hb).
  rewrite decide_False by done. set (ds := digit_prefix 10 (c :: s)) in *.
  assert (0 <= digits_value 10 ds) as Hpos.
  { apply digits_value_nonneg; [lia|]. subst ds. generalize (c :: s). intros l.
    induction l as [|d l IH]; cbn [digit_prefix]; [constructor|].
    destruct (base_digit 10 d) eqn:Hd; constructor; [|done]. apply base_digit_range in Hd. lia. }
  change (ity_max uint64_t) with (2 ^ 64 - 1). unfold in_range. change (ity_min _) with 0.
  change (ity_max _) with (2 ^ 64 - 1).
  destruct (Z.ltb_spec (2 ^ 64 - 1) (digits_value 10 ds)) as [Hbig|Hfit].
  - rewrite (proj2 (Z.leb_gt (digits_value 10 ds) _)) by lia. by rewrite andb_false_r.
  - rewrite !(proj2 (Z.leb_le _ _)) by lia. cbn [andb orb negb]. rewrite Nat.add_0_r.
    rewrite Z.min_l, wrapu_small, Z.eqb_refl by lia. cbn [negb orb]. rewrite orb_false_r, (bool_decide_eq_true_2 (errc_ok = errc_ok)) by done.
    destruct (Nat.eqb_spec (List.length ds) (List.length (c :: s))) as [He|Hn].
    + rewrite bool_decide_eq_true_2 by (by apply drop_nil_length). done.
    + rewrite bool_decide_eq_false_2 by (by rewrite drop_nil_length). done.
Qed.


#[local] Existing Instance lab_build.
Definition live_argv : list chars := [lit "get-object"; lit "4096"; lit "--live"; lit "http://127.0.0.1:9000/"].


(** Without a server, an example never claims to have moved an object:
    unless it's asked for a live transfer, [main()] returns 1, whatever the
    library and the devices do, because the stub's reply is that the
    transfer isn't implemented. *)
Theorem stub_never_succeeds `{E : World} `{B : BuildConfig} `{T : NicTopology} (put have_curl : bool)
    (prog size : chars) (args : list chars) (g g' : Process) (r : Z)
    (Hstub : args = [] \/ head args <> Some (lit "--live"))
    (Hrun : example_main put have_curl (prog :: size :: args) g = (inl r, g')) :
  r = 1.
Proof.
  unfold example_main in Hrun.
  assert (exists url bucket object, live_args args = (false, url, bucket, object)) as (url & bucket & object & Hl).
  { unfold live_args. destruct args as [|flag [|u more]]; [by eauto..|]. rewrite bool_decide_eq_false_2; [by eauto|].
    destruct Hstub as [|Hs]; [done|]. by intros ->. }
  rewrite Hl in Hrun. destruct (_ =? 0).
  { apply bind_returns in Hrun as (x & g1 & _ & H). by injection H as <- _. }
  apply bind_returns in Hrun as (nic & g1 & _ & H). apply bind_returns in H as (err & g2 & _ & H).
  destruct (negb _).
  { apply bind_returns in H as (x & g3 & _ & H). by injection H as <- _. }
  apply bind_returns in H as (r1 & g3 & Hr & H). apply bind_returns in H as (x & g4 & _ & H). injection H as <- _.
  by eapply stub_main_fails.
Qed.

Lemma stub_never_succeeds_witness :
  exists g', @example_main (lab working) lab_build (@SysfsTopology (lab working)) true false [lit "put-object"; lit "4096"]
      initial_process = (inl 1, g').
Proof.
  set (run := @example_main (lab working) lab_build (@SysfsTopology (lab working)) true false [lit "put-object"; lit "4096"]
    initial_process).
  assert (match run with (inl _, _) => true | _ => false end = true) as H by (vm_compute; reflexivity).
  destruct run as [[r|e] g'] eqn:Hr; [|discriminate H]. exists g'.
  assert (r = 1) as <-; [|reflexivity].
  exact (@stub_never_succeeds (lab working) lab_build (@SysfsTopology (lab working)) true false (lit "put-object")
    (lit "4096") [] initial_process g' r (or_introl eq_refl) Hr).
Defined.
