(* ===== verification/Tools.v ===== *)
(** * The programs about versions ([tools/hipobj-test-install],
      [examples/get-version.cpp])

    Neither initializes the library.  The library that [get-version] runs
    with can be another than the one it was compiled with: it's the record
    [VersionLibrary]. *)

From Stdlib Require Import Ascii String.
From stdpp Require Import base numbers list.
From S2P Require Import Prelude.
From S2P Require Import Parse.
From S2P Require Import Token.
From S2P Require Import World.
From S2P Require Import Buffer.
From S2P Require Import State.
From S2P Require Import Api.
From S2P Require Import Examples.

(** ** Definitions *)

(** *** [hipobj-test-install] *)

Definition print_out `{World} (text : chars) : W unit := perform (print_stdout text).
Definition print_err `{World} (text : chars) : W unit := perform (print_stderr (Message text)).

(** Both streams can be printed to *)
Definition usage `{World} (print : chars -> W unit) (prog : chars) : W unit :=
  print (lit "usage: " ++ prog ++ lit " [--version] [--help]").

(** The loop over the arguments: [help] and [version], or the argument that
    isn't known *)
Fixpoint scan_args (args : list chars) (help version : bool) : bool * bool + chars :=
  match args with
  | [] => inl (help, version)
  | arg :: args =>
      if bool_decide (arg = lit "--help") then scan_args args true version
      else if bool_decide (arg = lit "--version") then scan_args args help true
      else inr arg
  end.

Definition test_install_main `{World} (versionString : chars) (args : list chars) : W Z :=
  let prog := default (lit "hipobj-test-install") (head args) in
  match scan_args (tail args) false false with
  | inr arg =>
      _ ← print_err (lit "hipobj-test-install: unknown argument " ++ arg);
      _ ← usage print_err prog;
      mret 2
  | inl (help, version) =>
      if help : bool then _ ← usage print_out prog; mret 0
      else if version : bool then
        _ ← print_out (lit "hipobj-test-install (hipObject " ++ versionString ++ lit ")"); mret 0
      else _ ← print_err (lit "hipobj-test-install: the checks aren't implemented yet"); mret 1
  end.

(** *** [get-version] *)

(** The library that's loaded: its text, and what [hipObjGetVersion()]
    returns and stores through its first two pointers, if it does *)
Record VersionLibrary := {
  lv_string : chars;
  lv_result : hipObjError_t;
  lv_major : option Z;
  lv_minor : option Z;
}.

(** The library of this repository *)
Definition this_library : VersionLibrary :=
  let '(major, minor, _) := hipObjGetVersion true true false in
  {| lv_string := hipObjGetVersionString; lv_result := makeError hipObjSuccess; lv_major := major; lv_minor := minor |}.

Definition version_pair (major minor : Z) : chars := to_string major ++ lit "." ++ to_string minor.

(** The header's numbers are macros when the program is compiled *)
Definition get_version_main `{World} (headerMajor headerMinor headerPatch : Z) (library : VersionLibrary) : W Z :=
  _ ← print_out (lit "Compiled with hipObject " ++ version_pair headerMajor headerMinor ++ lit "." ++
                 to_string headerPatch);
  _ ← print_out (lit "Running with hipObject " ++ lv_string library);
  let major := default 0 (lv_major library) in
  let minor := default 0 (lv_minor library) in
  let err := lv_result library in
  if negb (bool_decide (opError err = hipObjSuccess)) then
    _ ← print_err (lit "hipObjGetVersion failed: " ++ hipObjGetErrorString (opError err)); mret 1
  else if negb (compatible headerMajor headerMinor major minor) then
    _ ← print_err (lit "The library (" ++ version_pair major minor ++ lit ") can't be used with the header (" ++
                   version_pair headerMajor headerMinor ++ lit ")");
    mret 1
  else _ ← print_out (lit "The library can be used with the header"); mret 0.

(** ** Lemmas *)

(** What's printed on each stream, in order *)
Definition printed (t : trace) : list chars * list chars :=
  foldr (fun e p => match e with
                    | Ev (print_stdout text) _ => (fst p ++ [text], snd p)
                    | Ev (print_stderr (Message text)) _ => (fst p, snd p ++ [text])
                    | _ => p
                    end) ([], []) t.

(** The options that are known *)
Definition known_arg (arg : chars) : Prop := arg = lit "--help" \/ arg = lit "--version".

Lemma scan_args_known args help version :
  Forall known_arg args ->
  scan_args args help version =
    inl (help || bool_decide (lit "--help" ∈ args), version || bool_decide (lit "--version" ∈ args)).
Proof.
  revert help version. induction args as [|arg args IH]; intros help version Hk; cbn [scan_args].
  { by rewrite !bool_decide_eq_false_2, !orb_false_r by apply not_elem_of_nil. }
  inversion Hk as [|? ? Ha Hk']; subst. destruct Ha as [->| ->].
  - rewrite (bool_decide_eq_true_2 (lit "--help" = _)) by done. rewrite IH by done.
    rewrite (bool_decide_eq_true_2 (lit "--help" ∈ lit "--help" :: args)) by left. rewrite orb_true_r. do 3 f_equal.
    apply bool_decide_ext. rewrite elem_of_cons. split; [by right|by intros [|]].
  - rewrite (bool_decide_eq_false_2 (lit "--version" = _)) by done.
    rewrite (bool_decide_eq_true_2 (lit "--version" = _)) by done. rewrite IH by done.
    rewrite (bool_decide_eq_true_2 (lit "--version" ∈ lit "--version" :: args)) by left. rewrite orb_true_r. do 3 f_equal.
    apply bool_decide_ext. rewrite elem_of_cons. split; [by right|by intros [|]].
Qed.

Lemma scan_args_unknown args help version :
  ~ Forall known_arg args -> exists arg, scan_args args help version = inr arg /\ arg ∈ args /\ ~ known_arg arg.
Proof.
  revert help version. induction args as [|arg args IH]; intros help version Hk; cbn [scan_args]; [by destruct Hk|].
  assert (known_arg arg -> forall h v, exists x, scan_args args h v = inr x /\ x ∈ arg :: args /\ ~ known_arg x) as Hrest.
  { intros Ha h v. destruct (IH h v) as (x & Hs & Hx & Hn); [by contradict Hk; constructor|].
    exists x. split_and!; [done|by right|done]. }
  case_bool_decide; [by apply Hrest; left|]. case_bool_decide; [by apply Hrest; right|].
  exists arg. split_and!; [done|left|]. by intros [|].
Qed.

(** ** Properties *)

(** The installation check's exit status, and where it prints: an unknown
    argument is a usage error, 2, whatever else is there; [--help] goes
    before [--version]; each of the two prints one line on standard output
    and succeeds; and with neither, it fails, since there's no check yet. *)
Theorem test_install_status `{World} (versionString prog : chars) (args : list chars) :
  let '(r, t) := test_install_main versionString (prog :: args) [] in
  (~ Forall known_arg args -> r = inl 2 /\ fst (printed t) = []) /\
  (Forall known_arg args -> lit "--help" ∈ args ->
   r = inl 0 /\ printed t = ([lit "usage: " ++ prog ++ lit " [--version] [--help]"], [])) /\
  (Forall known_arg args -> lit "--help" ∉ args -> lit "--version" ∈ args ->
   r = inl 0 /\ printed t = ([lit "hipobj-test-install (hipObject " ++ versionString ++ lit ")"], [])) /\
  (args = [] -> r = inl 1 /\ fst (printed t) = []).
Proof.
  destruct (test_install_main _ _ _) as [r t] eqn:Hrun. unfold test_install_main in Hrun. cbn [tail head default] in Hrun.
  split_and!.
  - intros Hk. destruct (scan_args_unknown args false false Hk) as (arg & Hs & _). rewrite Hs in Hrun.
    by injection Hrun as <- <-.
  - intros Hk Hh. rewrite scan_args_known, (bool_decide_eq_true_2 (lit "--help" ∈ _)) in Hrun by done.
    by injection Hrun as <- <-.
  - intros Hk Hh Hv. rewrite scan_args_known, (bool_decide_eq_false_2 (lit "--help" ∈ _)),
      (bool_decide_eq_true_2 (lit "--version" ∈ _)) in Hrun by done. by injection Hrun as <- <-.
  - intros ->. by injection Hrun as <- <-.
Qed.

(** [get-version] succeeds just with a library that answers, and whose
    version can be used with the header's; this repository's header and
    library can. *)
Theorem get_version_compatible `{World} (major minor patch : Z) (library : VersionLibrary) (t : trace) :
  (fst (get_version_main major minor patch library t) = inl 0 <->
   opError (lv_result library) = hipObjSuccess /\
   compatible major minor (default 0 (lv_major library)) (default 0 (lv_minor library)) = true) /\
  fst (get_version_main HIPOBJ_VERSION_MAJOR HIPOBJ_VERSION_MINOR HIPOBJ_VERSION_PATCH this_library t) = inl 0.
Proof.
  split; [|reflexivity]. unfold get_version_main, mbind, M_bind, print_out, print_err, perform. cbn.
  case_bool_decide as Hok; cbn; [destruct (compatible _ _ _ _); cbn|]; split; try done; intros [? ?]; done.
Qed.
