(* ===== verification/MinioRdma.v ===== *)
(** * The minio-cpp integration's transfers
      ([integrations/minio-cpp/include/hipobj_minio/context.h],
      [integrations/minio-cpp/include/hipobj_minio/rdma.h],
      [integrations/minio-cpp/src/rdma.cpp],
      [integrations/minio-cpp/src/bytes-transferred.h])

    A transfer is a request to the server, with a token of the library's in a
    header, and what its response says of the data's.  minio-cpp itself, which
    builds and signs the requests, is the class [MinioCpp]. *)

From Stdlib Require Import Ascii String.
From stdpp Require Import base numbers list gmap.
From S2P Require Import Prelude.
From S2P Require Import Parse.
From S2P Require Import Token.
From S2P Require Import IbvCore.
From S2P Require Import World.
From S2P Require Import Topology.
From S2P Require Import Transport.
From S2P Require Import Buffer.
From S2P Require Import State.
From S2P Require Import Invariant.
From S2P Require Import Api.
From S2P Require Import Safety.

(** ** Definitions *)

(** What the integration reads of [minio::s3::BaseUrl] *)
Record BaseUrl := { bu_host : chars; bu_region : chars; bu_https : bool }.

Abbreviation multimap := (list (chars * chars)).

(** What it uses of minio-cpp that isn't a call to the world: URLs, the
    lookups in a multimap, signatures, the tests on arguments, with what they
    change, and the constructors.  [Add()] adds at the end. *)
Class MinioCpp := {
  Url : Type;
  BuildUrl : BaseUrl -> chars -> chars -> multimap -> chars -> chars -> option Url;
  HostHeaderValue : Url -> chars;
  url_path : Url -> chars;
  with_query_string : chars -> Url -> Url;
  url_text : Url -> chars;
  ToAmzDate : Z -> chars;
  Contains : multimap -> chars -> bool;
  GetFront : multimap -> chars -> chars;
  ToQueryString : multimap -> chars;
  SignV4S3 : chars -> chars -> chars -> multimap -> multimap -> chars -> chars -> chars -> Z -> multimap * multimap;
  Trim : chars -> ascii -> chars;
  ValidatePut : s3_args -> option chars * s3_args;
  ValidateGet : s3_args -> option chars * s3_args;
  new_BaseUrl : chars -> bool -> chars -> BaseUrl;
  new_PutObjectArgs : s3_args;
  new_GetObjectArgs : s3_args;
}.

(** [GetFront()] of a header that isn't there is empty *)
Class MinioLaws (C : MinioCpp) := {
  GetFront_absent : forall headers name, Contains headers name = false -> GetFront headers name = [];
}.

Definition kUnsignedPayload : chars := lit "UNSIGNED-PAYLOAD".
Definition kAmzRdmaToken : chars := lit "x-amz-rdma-token".
Definition kAmzRdmaReply : chars := lit "x-amz-rdma-reply".
Definition kAmzRdmaBytesTransferred : chars := lit "x-amz-rdma-bytes-transferred".

Definition kRdmaReplySuccess : Z := 200.
Definition kRdmaReplyNoContent : Z := 204.
Definition kRdmaReplyPartialContent : Z := 206.
Definition kRdmaReplyNotImplemented : Z := 501.
Definition kRdmaConnectTimeoutSecs : Z := 5.
Definition kRdmaTimeoutSecs : Z := 10.
Definition kRdmaMaxAttempts : nat := 2.
Definition kMaxPartNumber : Z := 10000.

Inductive RdmaStatus := Ok | RdmaFailed | RdmaNotSupported.

#[export] Instance RdmaStatus_eq_dec : EqDecision RdmaStatus.
Proof. solve_decision. Defined.

Record RdmaResult := { rdma_status : RdmaStatus; bytes : Z }.

Definition rdma_failed : RdmaResult := {| rdma_status := RdmaFailed; bytes := 0 |}.
Definition rdma_not_supported : RdmaResult := {| rdma_status := RdmaNotSupported; bytes := 0 |}.
Definition rdma_ok (n : Z) : RdmaResult := {| rdma_status := Ok; bytes := n |}.

(** The provider is the world's *)
Record S3RdmaContext := {
  ctx_s3_bucket : chars;
  ctx_s3_object : chars;
  ctx_url : BaseUrl;
  ctx_region : chars;
  uploadId : chars;
  partNumber : Z;
  checksum : chars;
  etag : chars;
}.

#[export] Instance eta_S3RdmaContext : Eta S3RdmaContext := fun r =>
  {| ctx_s3_bucket := ctx_s3_bucket r; ctx_s3_object := ctx_s3_object r; ctx_url := ctx_url r;
     ctx_region := ctx_region r; uploadId := uploadId r; partNumber := partNumber r; checksum := checksum r;
     etag := etag r |}.

(** The process-wide counters *)
Record TransferStats := {
  rdmaPuts : Z; rdmaGets : Z; httpPuts : Z; httpGets : Z; rdmaBytes : Z; httpBytes : Z;
}.

#[export] Instance eta_TransferStats : Eta TransferStats := fun r =>
  {| rdmaPuts := rdmaPuts r; rdmaGets := rdmaGets r; httpPuts := httpPuts r; httpGets := httpGets r;
     rdmaBytes := rdmaBytes r; httpBytes := httpBytes r |}.

Definition no_stats : TransferStats :=
  {| rdmaPuts := 0; rdmaGets := 0; httpPuts := 0; httpGets := 0; rdmaBytes := 0; httpBytes := 0 |}.

(** The integration's own state: [HipObjRuntime]'s members, the counters, and
    the function-local static that [rdmaDebugEnabled()] fills, over the
    library's *)
Record Minio := {
  mn_process : Process;
  initialized_ : bool;
  active_key_ : chars;
  mn_stats : TransferStats;
  mn_debug : option bool;
}.

#[export] Instance eta_Minio : Eta Minio := fun r =>
  {| mn_process := mn_process r; initialized_ := initialized_ r; active_key_ := active_key_ r;
     mn_stats := mn_stats r; mn_debug := mn_debug r |}.

Abbreviation I := (M Minio).

(** The library's functions, and calls *)
Definition lib {A} (m : G A) : I A := zoom mn_process (fun p s => s <| mn_process := p |>) m.
Definition out {A} (m : W A) : I A := lib (outside m).

(** *** Debugging *)

Definition rdmaDebugEnabled `{World} : I bool :=
  s ← get_state;
  match mn_debug s with
  | Some on => mret on
  | None =>
      v ← out (perform (getenv (lit "HIPOBJ_RDMA_DEBUG")));
      let on := match v with Some (c :: _) => negb (bool_decide (c = "0"%char)) | _ => false end in
      _ ← modify (fun s => s <| mn_debug := Some on |>);
      mret on
  end.

Definition rdmaTrace `{World} (line : chars) : I unit :=
  on ← rdmaDebugEnabled;
  if on : bool then out (perform (print_stderr (Message (lit "hipobj: rdma: " ++ line)))) else mret tt.

(** *** Reading a response *)

Definition parseRdmaReply (rdma_reply : chars) : option Z :=
  if bool_decide (rdma_reply = []) then Some kRdmaReplyNotImplemented
  else
    let '(err, httpCode) := hipObjParseRdmaReply (Some rdma_reply) true in
    if negb (bool_decide (opError err = hipObjSuccess)) then None else httpCode.

Definition clientNicFromToken (token : option chars) : chars :=
  let '(err, nicIp) := hipObjTokenClientNic token (Some (replicate INET_ADDRSTRLEN (chr 0))) in
  if negb (bool_decide (opError err = hipObjSuccess)) then [] else cStringView (default [] nicIp).

Definition headerValue `{MinioCpp} (headers : multimap) (name : chars) : option chars :=
  if Contains headers name then Some (GetFront headers name) else None.

Definition parseBytesTransferred (value : option chars) (ifAbsent : Z) : option Z :=
  match value with
  | None => Some ifAbsent
  | Some value => parseNumber uint64_t value kDefaultNumberBase
  end.

(** What [rdmaPut()] makes of a response without an error, and what it leaves
    in the context; it's a failure that's traced when the last is [true] *)
Definition put_result `{MinioCpp} (res : http_response) (size : Z) (sctx : S3RdmaContext)
    : RdmaResult * S3RdmaContext * bool :=
  let tag := GetFront (res_headers res) (lit "etag") in
  if (res_status_code res =? kHttpOk) && negb (bool_decide (tag = []))
  then (rdma_ok size, sctx <| etag := Trim tag (chr 34) |>, false)
  else
    let reply_code := parseRdmaReply (GetFront (res_headers res) kAmzRdmaReply) in
    if bool_decide (reply_code = Some kRdmaReplyNotImplemented) then (rdma_not_supported, sctx, false)
    else if negb (bool_decide (reply_code = Some kRdmaReplySuccess)) &&
            negb (bool_decide (reply_code = Some kRdmaReplyNoContent)) then (rdma_failed, sctx, true)
    else
      let resp_checksum := GetFront (res_headers res) (lit "x-amz-checksum-crc64nvme") in
      let sctx := if negb (bool_decide (resp_checksum = [])) then sctx <| checksum := resp_checksum |> else sctx in
      (rdma_ok size, sctx <| etag := Trim tag (chr 34) |>, false).

(** The same of [rdmaGet()] *)
Definition get_result `{MinioCpp} (res : http_response) (size : Z) : RdmaResult * bool :=
  let reply_code := parseRdmaReply (GetFront (res_headers res) kAmzRdmaReply) in
  if bool_decide (reply_code = Some kRdmaReplyNotImplemented) then (rdma_not_supported, false)
  else if negb (bool_decide (reply_code = Some kRdmaReplySuccess)) &&
          negb (bool_decide (reply_code = Some kRdmaReplyPartialContent)) then (rdma_failed, true)
  else
    match parseBytesTransferred (headerValue (res_headers res) kAmzRdmaBytesTransferred) size with
    | None => (rdma_failed, true)
    | Some bytes => if size <? bytes then (rdma_failed, true) else (rdma_ok bytes, false)
    end.

(** *** The transfers *)

(** A [Request] for the URL, once its headers are signed *)
Definition rdma_request `{MinioCpp} (method : chars) (url : Url) (headers : multimap) (token : option chars) : http_request :=
  let client_nic := clientNicFromToken token in
  {| hr_method := method; hr_url := url_text url; hr_headers := headers;
     hr_connect_timeout := kRdmaConnectTimeoutSecs; hr_timeout := kRdmaTimeoutSecs;
     hr_nic_interface := if negb (bool_decide (client_nic = [])) then Some client_nic else None |}.

Definition when {A} (b : bool) (l : list A) : list A := if b then l else [].

(** The query parameters of an upload's part; nothing, for a part that S3
    doesn't have *)
Definition part_params (sctx : S3RdmaContext) : option multimap :=
  if bool_decide (uploadId sctx = []) then Some []
  else if (partNumber sctx =? 0) || (kMaxPartNumber <? partNumber sctx) then None
  else Some [(lit "uploadId", uploadId sctx); (lit "partNumber", to_string (partNumber sctx))].

(** [token] is the memory at the pointer *)
Definition token_text (token : option chars) : chars := cStringView (default [] token).

Definition put_sign_headers `{MinioCpp} (host rdma_token : chars) (date : Z) (creds : credentials)
    (sctx : S3RdmaContext) : multimap :=
  [(lit "Host", host); (lit "x-amz-date", ToAmzDate date); (lit "x-amz-content-sha256", kUnsignedPayload);
   (kAmzRdmaToken, rdma_token); (lit "Content-Type", lit "application/octet-stream");
   (lit "Content-Length", lit "0")] ++
  when (negb (bool_decide (checksum sctx = []))) [(lit "x-amz-checksum-crc64nvme", checksum sctx)] ++
  when (negb (bool_decide (session_token creds = []))) [(lit "X-Amz-Security-Token", session_token creds)].

Definition get_sign_headers `{MinioCpp} (host rdma_token : chars) (date : Z) (creds : credentials) : multimap :=
  [(lit "Host", host); (lit "x-amz-date", ToAmzDate date); (lit "x-amz-content-sha256", kUnsignedPayload);
   (kAmzRdmaToken, rdma_token)] ++
  when (negb (bool_decide (session_token creds = []))) [(lit "X-Amz-Security-Token", session_token creds)].

Definition rdmaPut `{World} `{MinioCpp} (sctx : S3RdmaContext) (token : option chars) (size : Z)
    : I (RdmaResult * S3RdmaContext) :=
  let rdma_token := token_text token in
  date ← out (perform UtcTime_Now);
  creds ← out (perform Fetch);
  match part_params sctx with
  | None => mret (rdma_failed, sctx)
  | Some query_params =>
      match BuildUrl (ctx_url sctx) (lit "PUT") (ctx_region sctx) query_params (ctx_s3_bucket sctx) (ctx_s3_object sctx) with
      | None => mret (rdma_failed, sctx)
      | Some url =>
          let '(sign_headers, query_params) :=
            SignV4S3 (lit "PUT") (url_path url) (ctx_region sctx)
              (put_sign_headers (HostHeaderValue url) rdma_token date creds sctx) query_params
              (access_key creds) (secret_key creds) kUnsignedPayload date in
          let url := with_query_string (ToQueryString query_params) url in
          res ← out (perform (Execute (rdma_request (lit "PUT") url sign_headers token)));
          if negb (bool_decide (res_error res = [])) then
            _ ← rdmaTrace (lit "put: http failed (status=" ++ to_string (res_status_code res) ++ lit " error='" ++
                           res_error res ++ lit "')");
            mret (rdma_failed, sctx)
          else
            let '(ret, sctx, traced) := put_result res size sctx in
            if traced : bool then
              _ ← rdmaTrace (lit "put: rdma reply " ++
                             to_string (default 0 (parseRdmaReply (GetFront (res_headers res) kAmzRdmaReply))) ++
                             lit " (http status " ++ to_string (res_status_code res) ++ lit ")");
              mret (ret, sctx)
            else mret (ret, sctx)
      end
  end.

Definition rdmaGet `{World} `{MinioCpp} (sctx : S3RdmaContext) (token : option chars) (size : Z) : I RdmaResult :=
  let rdma_token := token_text token in
  date ← out (perform UtcTime_Now);
  creds ← out (perform Fetch);
  match BuildUrl (ctx_url sctx) (lit "GET") (ctx_region sctx) [] (ctx_s3_bucket sctx) (ctx_s3_object sctx) with
  | None => mret rdma_failed
  | Some url =>
      let '(sign_headers, _) :=
        SignV4S3 (lit "GET") (url_path url) (ctx_region sctx)
          (get_sign_headers (HostHeaderValue url) rdma_token date creds) []
          (access_key creds) (secret_key creds) kUnsignedPayload date in
      res ← out (perform (Execute (rdma_request (lit "GET") url sign_headers token)));
      if negb (bool_decide (res_error res = [])) then
        _ ← rdmaTrace (lit "get: http failed (status=" ++ to_string (res_status_code res) ++ lit " error='" ++
                       res_error res ++ lit "')");
        mret rdma_failed
      else
        let reply_code := parseRdmaReply (GetFront (res_headers res) kAmzRdmaReply) in
        let '(ret, traced) := get_result res size in
        if traced : bool then
          _ ← rdmaTrace
                (if negb (bool_decide (reply_code = Some kRdmaReplySuccess)) &&
                    negb (bool_decide (reply_code = Some kRdmaReplyPartialContent))
                 then lit "get: rdma reply " ++ to_string (default 0 reply_code) ++
                      lit " (http status " ++ to_string (res_status_code res) ++ lit ")"
                 else lit "get: malformed or out-of-range " ++ kAmzRdmaBytesTransferred ++ lit " header");
          mret ret
        else mret ret
  end.

(** Whether a transfer moved data, which ends the attempts *)
Definition moved (ret : RdmaResult) : bool :=
  bool_decide (rdma_status ret = Ok) && (0 <? bytes ret).

(** An attempt's token: nothing, after a message, when there's none *)
Definition attempt_token `{World} (name : chars) (buf size op : Z) : I (option chars) :=
  '(terr, token) ← lib (hipObjGetRdmaToken buf size op true);
  if negb (bool_decide (opError terr = hipObjSuccess)) || bool_decide (token = None) then
    _ ← rdmaTrace (name ++ lit ": token: " ++ hipObjGetErrorString (opError terr));
    mret None
  else mret token.

(** A copy to or from the staging buffer; whether it succeeded *)
Definition attempt_sync `{World} (what : chars) (buf size direction : Z) : I bool :=
  serr ← lib (hipObjBufSync buf size 0 direction);
  if negb (bool_decide (opError serr = hipObjSuccess)) then
    _ ← rdmaTrace (what ++ hipObjGetErrorString (opError serr));
    mret false
  else mret true.

Fixpoint put_attempts `{World} `{MinioCpp} (attempts : nat) (ret : RdmaResult) (sctx : S3RdmaContext) (buf size : Z)
    : I (RdmaResult * S3RdmaContext) :=
  match attempts with
  | O => mret (ret, sctx)
  | S attempts =>
      token ← attempt_token (lit "put") buf size HIPOBJ_RDMA_OP_PUT;
      match token with
      | None => mret (rdma_failed, sctx)
      | Some token =>
          staged ← attempt_sync (lit "put: stage to host: ") buf size HIPOBJ_SYNC_TO_HOST;
          if negb staged then mret (rdma_failed, sctx)
          else
            '(ret, sctx) ← rdmaPut sctx (Some token) size;
            if moved ret || bool_decide (rdma_status ret = RdmaNotSupported) then mret (ret, sctx)
            else put_attempts attempts ret sctx buf size
      end
  end.

Definition rdmaPutWithRetry `{World} `{MinioCpp} : S3RdmaContext -> Z -> Z -> I (RdmaResult * S3RdmaContext) :=
  put_attempts kRdmaMaxAttempts rdma_failed.

Fixpoint get_attempts `{World} `{MinioCpp} (attempts : nat) (ret : RdmaResult) (sctx : S3RdmaContext) (buf size : Z)
    : I RdmaResult :=
  match attempts with
  | O => mret ret
  | S attempts =>
      token ← attempt_token (lit "get") buf size HIPOBJ_RDMA_OP_GET;
      match token with
      | None => mret rdma_failed
      | Some token =>
          ret ← rdmaGet sctx (Some token) size;
          if moved ret then
            staged ← attempt_sync (lit "get: stage to device: ") buf size HIPOBJ_SYNC_TO_DEVICE;
            if negb staged then mret rdma_failed else mret ret
          else if bool_decide (rdma_status ret = RdmaNotSupported) then mret ret
          else get_attempts attempts ret sctx buf size
      end
  end.

Definition rdmaGetWithRetry `{World} `{MinioCpp} : S3RdmaContext -> Z -> Z -> I RdmaResult :=
  get_attempts kRdmaMaxAttempts rdma_failed.

(** *** A minio-cpp to try things with *)

Definition find_header (headers : multimap) (name : chars) : option chars :=
  snd <$> List.find (fun kv => bool_decide (map lower (fst kv) = map lower name)) headers.

Definition no_args : s3_args :=
  {| a_bucket := []; a_object := []; a_region := []; a_buf := 0; a_size := None; a_stream := None;
     a_object_size := -1; a_part_size := 0 |}.

Definition lab_minio : MinioCpp := {|
  Url := chars * chars * chars;
  BuildUrl base method region query bucket object := Some (bu_host base, lit "/" ++ bucket ++ lit "/" ++ object, []);
  HostHeaderValue u := fst (fst u);
  url_path u := snd (fst u);
  with_query_string q u := (fst u, q);
  url_text u := lit "http://" ++ fst (fst u) ++ snd (fst u) ++ lit "?" ++ snd u;
  ToAmzDate := to_string;
  Contains headers name := bool_decide (is_Some (find_header headers name));
  GetFront headers name := default [] (find_header headers name);
  ToQueryString query := concat (map (fun kv => fst kv ++ lit "=" ++ snd kv) query);
  SignV4S3 method path region headers query access secret sha date := (headers ++ [(lit "Authorization", access)], query);
  Trim s c := remove_trailing (fun d => bool_decide (d = c)) s;
  ValidatePut args := (None, args);
  ValidateGet args := (None, args);
  new_BaseUrl host https region := {| bu_host := host; bu_region := region; bu_https := https |};
  new_PutObjectArgs := no_args;
  new_GetObjectArgs := no_args;
|}.

#[export] Instance lab_minio_laws : MinioLaws lab_minio.
Proof.
  split. intros headers name H. cbn in *. apply bool_decide_eq_false in H.
  destruct (find_header headers name); [|done]. exfalso. by apply H.
Qed.

Definition lab_context : S3RdmaContext :=
  {| ctx_s3_bucket := lit "bucket"; ctx_s3_object := lit "key";
     ctx_url := {| bu_host := lit "s3"; bu_region := lit "us-east-1"; bu_https := false |};
     ctx_region := lit "us-east-1"; uploadId := []; partNumber := 0; checksum := []; etag := [] |}.

(** A new process of the integration's *)
Definition initial_minio : Minio :=
  {| mn_process := initial_process; initialized_ := false; active_key_ := []; mn_stats := no_stats; mn_debug := None |}.

(** ** Lemmas *)

(** *** Programs that keep the library's invariant *)

(** [m] keeps the invariant, whatever else is held, and leaves the counters
    alone *)
Definition isteady `{World} (bad : stop -> Prop) {A} (m : I A) : Prop :=
  forall F s, f_elsewhere F = [] -> Inv F (mn_process s) ->
    wp bad m (fun _ s' => Inv F (mn_process s') /\ mn_stats s' = mn_stats s) s.

Section steady.
Context `{E : World} `{B : BuildConfig} `{C : MinioCpp} (bad : stop -> Prop) `{!LibraryKeeps bad}.

Lemma isteady_ret {A} (a : A) : isteady bad (mret a).
Proof. intros F s HF HI. by apply wp_ret. Qed.

Lemma isteady_bind {A D} (m : I A) (k : A -> I D) :
  isteady bad m -> (forall a, isteady bad (k a)) -> isteady bad (m ≫= k).
Proof.
  intros Hm Hk F s HF HI. apply wp_bind. eapply wp_mono; [by apply Hm|]. cbv beta. intros a s1 [HI1 Hs1].
  eapply wp_mono; [by apply Hk|]. cbv beta. intros d s2 [HI2 Hs2]. split; [done|congruence].
Qed.

Lemma isteady_lib {A} (m : G A) : is_application m -> isteady bad (lib m).
Proof.
  intros Hm F s HF HI. apply wp_zoom. eapply wp_mono; [by apply (library_keeps _ m Hm F)|]. by intros a p HI'.
Qed.

Lemma isteady_out {A} (c : call A) : (forall r h, delta h (Ev c r) = 0) -> isteady bad (out (perform c)).
Proof. intros Hc. apply isteady_lib, app_own, own_call, Hc. Qed.

Lemma isteady_get {A} (k : Minio -> I A) : (forall s, isteady bad (k s)) -> isteady bad (s ← get_state; k s).
Proof. intros Hk F s HF HI. apply wp_bind, wp_get. by apply Hk. Qed.

Lemma isteady_modify f :
  (forall s, mn_process (f s) = mn_process s /\ mn_stats (f s) = mn_stats s) -> isteady bad (modify f).
Proof. intros Hf F s HF HI. apply wp_modify. destruct (Hf s) as [-> ->]. by split. Qed.

End steady.

Ltac isteady_step :=
  match goal with
  | |- isteady _ (mbind _ get_state) => apply isteady_get; intros ?
  | |- isteady _ (mbind _ _) => apply isteady_bind; [|intros ?]
  | |- isteady _ (mret _) => apply isteady_ret
  | |- isteady _ (out (perform _)) => apply isteady_out; by intros
  | |- isteady _ (modify _) => apply isteady_modify; by intros
  | |- isteady _ (lib _) =>
      apply isteady_lib; [apply _|first [apply app_token|apply app_sync|apply app_shutdown|apply app_init|
                                         apply app_register|apply app_deregister]]
  | |- isteady _ (let '_ := ?x in _) => destruct x
  | |- isteady _ (if ?b then _ else _) => destruct b
  | |- isteady _ (match ?x with _ => _ end) => destruct x
  end; cbn beta iota.

Section transfers.
Context `{E : World} `{B : BuildConfig} `{C : MinioCpp} (bad : stop -> Prop) `{!LibraryKeeps bad}.

Lemma rdmaTrace_steady line : isteady bad (rdmaTrace line).
Proof. unfold rdmaTrace, rdmaDebugEnabled. repeat isteady_step. Qed.

Lemma rdmaPut_steady sctx token size : isteady bad (rdmaPut sctx token size).
Proof. unfold rdmaPut. repeat (apply rdmaTrace_steady || isteady_step). Qed.

Lemma rdmaGet_steady sctx token size : isteady bad (rdmaGet sctx token size).
Proof. unfold rdmaGet. repeat (apply rdmaTrace_steady || isteady_step). Qed.

Lemma put_attempts_steady n ret sctx buf size : isteady bad (put_attempts n ret sctx buf size).
Proof.
  revert ret sctx. induction n as [|n IH]; intros ret sctx; cbn [put_attempts]; [apply isteady_ret|].
  unfold attempt_token, attempt_sync.
  repeat (apply rdmaTrace_steady || apply rdmaPut_steady || apply IH || isteady_step).
Qed.

Lemma get_attempts_steady n ret sctx buf size : isteady bad (get_attempts n ret sctx buf size).
Proof.
  revert ret. induction n as [|n IH]; intros ret; cbn [get_attempts]; [apply isteady_ret|].
  unfold attempt_token, attempt_sync.
  repeat (apply rdmaTrace_steady || apply rdmaGet_steady || apply IH || isteady_step).
Qed.
End transfers.

(** *** What a transfer reports *)

Definition calls_of (s : Minio) : trace := m_trace (g_mem (mn_process s)).

(** The state after a call *)
Definition called {A} (c : call A) (r : A) (s : Minio) : Minio :=
  s <| mn_process ::= fun p => p <| g_mem ::= fun m => m <| m_trace := Ev c r :: m_trace m |> |> |>.

Section report.
Context `{E : World} `{C : MinioCpp} (bad : stop -> Prop).

Lemma wp_out_perform {A} (c : call A) (Q : A -> Minio -> Prop) s :
  (forall r, Q r (called c r s)) -> wp bad (out (perform c)) Q s.
Proof. intros HQ. apply wp_zoom, wp_outside, wp_perform. exact HQ. Qed.

Lemma rdmaTrace_calls line s :
  wp bad (rdmaTrace line) (fun _ s' => calls_of s `suffix_of` calls_of s') s.
Proof.
  unfold rdmaTrace, rdmaDebugEnabled. apply wp_bind, wp_bind, wp_get.
  assert (forall s' on, calls_of s `suffix_of` calls_of s' ->
    wp bad (if on : bool then out (perform (print_stderr (Message (lit "hipobj: rdma: " ++ line)))) else mret tt)
      (fun _ s' => calls_of s `suffix_of` calls_of s') s') as Hp.
  { intros s' [|] Hs; [|by apply wp_ret]. apply wp_out_perform. intros r. by apply suffix_cons_r. }
  destruct (mn_debug s) as [on|]; [apply wp_ret; by apply Hp|].
  apply wp_bind, wp_out_perform. intros v. apply wp_bind, wp_modify, wp_ret, Hp. by apply suffix_cons_r.
Qed.

Lemma suffix_event (e : event) t t' : e :: t `suffix_of` t' -> e ∈ t'.
Proof. intros [k ->]. rewrite elem_of_app. right. by left. Qed.

(** The request that was made, and the response it had *)
Definition asked (method : chars) (token : option chars) (res : http_response) (s' : Minio) : Prop :=
  exists url headers, Ev (Execute (rdma_request method url headers token)) res ∈ calls_of s'.

Lemma rdmaGet_spec sctx token size s :
  wp bad (rdmaGet sctx token size) (fun ret s' =>
    ret = rdma_failed \/
    exists res, asked (lit "GET") token res s' /\ res_error res = [] /\ fst (get_result res size) = ret) s.
Proof.
  unfold rdmaGet. apply wp_bind, wp_out_perform. intros date. apply wp_bind, wp_out_perform. intros creds.
  destruct (BuildUrl _ _ _ _ _ _) as [url|]; [|apply wp_ret; by left].
  destruct (SignV4S3 _ _ _ _ _ _ _ _ _) as [headers query]. apply wp_bind, wp_out_perform. intros res.
  case_bool_decide as He; cbn [negb].
  2:{ apply wp_bind. eapply wp_mono; [apply rdmaTrace_calls|]. intros _ s' _. apply wp_ret. by left. }
  destruct (get_result res size) as [ret tr] eqn:Hr. destruct tr.
  - apply wp_bind. eapply wp_mono; [apply rdmaTrace_calls|]. cbv beta. intros _ s' Hs. apply wp_ret. right.
    exists res. rewrite Hr. split_and!; [|done|done]. exists url, headers. eapply suffix_event. exact Hs.
  - apply wp_ret. right. exists res. rewrite Hr. split_and!; [|done|done]. exists url, headers.
    eapply suffix_event. by exists [].
Qed.

Lemma rdmaPut_spec sctx token size s :
  wp bad (rdmaPut sctx token size) (fun x s' =>
    fst x = rdma_failed \/
    exists res, asked (lit "PUT") token res s' /\ res_error res = [] /\ fst (put_result res size sctx) = x) s.
Proof.
  unfold rdmaPut. apply wp_bind, wp_out_perform. intros date. apply wp_bind, wp_out_perform. intros creds.
  destruct (part_params sctx) as [query|]; [|apply wp_ret; by left].
  destruct (BuildUrl _ _ _ _ _ _) as [url|]; [|apply wp_ret; by left].
  destruct (SignV4S3 _ _ _ _ _ _ _ _ _) as [headers query']. apply wp_bind, wp_out_perform. intros res.
  case_bool_decide as He; cbn [negb].
  2:{ apply wp_bind. eapply wp_mono; [apply rdmaTrace_calls|]. intros _ s' _. apply wp_ret. by left. }
  destruct (put_result res size sctx) as [[ret ctx] tr] eqn:Hr. destruct tr.
  - apply wp_bind. eapply wp_mono; [apply rdmaTrace_calls|]. cbv beta. intros _ s' Hs. apply wp_ret. right.
    exists res. rewrite Hr. split_and!; [|done|done]. eexists _, headers. eapply suffix_event. exact Hs.
  - apply wp_ret. right. exists res. rewrite Hr. split_and!; [|done|done]. eexists _, headers.
    eapply suffix_event. by exists [].
Qed.
End report.

(** How many bytes a response stands for *)
Lemma put_result_bytes `{C : MinioCpp} res size sctx :
  rdma_status (fst (fst (put_result res size sctx))) = Ok -> bytes (fst (fst (put_result res size sctx))) = size.
Proof. unfold put_result. by case_all. Qed.

Lemma get_result_bytes `{C : MinioCpp} res size :
  rdma_status (fst (get_result res size)) = Ok -> bytes (fst (get_result res size)) <= size.
Proof. unfold get_result. case_all; try done. intros _. by bools. Qed.

(** ** Properties *)

(** A GET over RDMA never reports more than the buffer holds, and never
    succeeds unasked: it's a success only when the server was sent the token,
    and answered with a reply of 200 or 206; and the bytes it reports are
    the number in the response's header, or the whole buffer's when there's
    no such header. *)
Theorem rdma_get_reports `{E : World} `{C : MinioCpp} (bad : stop -> Prop) (sctx : S3RdmaContext)
    (token : option chars) (size : Z) (s : Minio) (Hsize : 0 <= size < 2 ^ 64) :
  wp bad (rdmaGet sctx token size) (fun ret s' =>
    0 <= bytes ret <= size /\
    (rdma_status ret = Ok -> exists res code, asked (lit "GET") token res s' /\ res_error res = [] /\
       parseRdmaReply (GetFront (res_headers res) kAmzRdmaReply) = Some code /\ (code = 200 \/ code = 206) /\
       match headerValue (res_headers res) kAmzRdmaBytesTransferred with
       | None => bytes ret = size
       | Some v => numeral uint64_t 10 v (bytes ret)
       end)) s.
Proof.
  eapply wp_mono; [apply rdmaGet_spec|]. cbv beta.
  intros ret s' [->|(res & Ha & He & Hret)]; [cbn; split; [lia|done]|]. unfold get_result in Hret.
  case_bool_decide; [subst ret; cbn; split; [lia|done]|].
  destruct (negb _ && negb _) eqn:Hc; [subst ret; cbn; split; [lia|done]|].
  assert (exists code, parseRdmaReply (GetFront (res_headers res) kAmzRdmaReply) = Some code /\ (code = 200 \/ code = 206))
    as (code & Hcode & Hor).
  { apply andb_false_iff in Hc as [Hc|Hc]; apply negb_false_iff, bool_decide_eq_true in Hc;
      eexists; (split; [exact Hc|]); [by left|by right]. }
  destruct (parseBytesTransferred _ _) as [n|] eqn:Hn; [|subst ret; cbn; split; [lia|done]].
  destruct (Z.ltb_spec size n); cbn [fst] in Hret; subst ret; [cbn; split; [lia|done]|]. cbn [bytes rdma_ok].
  unfold parseBytesTransferred in Hn. destruct (headerValue _ kAmzRdmaBytesTransferred) as [v|] eqn:Hv.
  - apply parseNumber_numeral in Hn as [_ Hn]. split.
    + inversion Hn as [? ds _ _ Hr|]; [|done]. subst. apply in_range_spec in Hr. cbn in Hr. lia.
    + intros _. exists res, code. rewrite Hv. by split_and!.
  - injection Hn as <-. split; [lia|]. intros _. exists res, code. rewrite Hv. by split_and!.
Qed.

Lemma rdma_get_reports_witness :
  fst (@rdmaGet (lab working) lab_minio lab_context (Some (encodeRdmaTokenHex golden_token)) 16 initial_minio) = inl (rdma_ok 16) /\
  wp (fun _ => False) (@rdmaGet (lab working) lab_minio lab_context (Some (encodeRdmaTokenHex golden_token)) 16) (fun ret s' =>
    0 <= bytes ret <= 16 /\
    (rdma_status ret = Ok -> exists res code,
       @asked lab_minio (lit "GET") (Some (encodeRdmaTokenHex golden_token)) res s' /\ res_error res = [] /\
       parseRdmaReply (@GetFront lab_minio (res_headers res) kAmzRdmaReply) = Some code /\ (code = 200 \/ code = 206) /\
       match @headerValue lab_minio (res_headers res) kAmzRdmaBytesTransferred with
       | None => bytes ret = 16
       | Some v => numeral uint64_t 10 v (bytes ret)
       end)) initial_minio.
Proof.
  split; [vm_compute; reflexivity|].
  refine (@rdma_get_reports (lab working) lab_minio (fun _ => False) lab_context (Some (encodeRdmaTokenHex golden_token)) 16
            initial_minio _). lia.
Defined.

(** A PUT over RDMA is called a success without a reply: whatever the
    response's other headers, a status of 200 and an ETag are enough, though
    the header's absence is how a server says that it doesn't do RDMA, and a
    server that doesn't has stored an empty object, since the request's
    [Content-Length] is 0. *)
Theorem put_succeeds_without_reply `{C : MinioCpp} `{!MinioLaws C} (headers : multimap) (size : Z) (sctx : S3RdmaContext)
    (Hreply : Contains headers kAmzRdmaReply = false) (Htag : GetFront headers (lit "etag") <> []) :
  parseRdmaReply (GetFront headers kAmzRdmaReply) = Some kRdmaReplyNotImplemented /\
  fst (fst (put_result {| res_error := []; res_status_code := 200; res_headers := headers |} size sctx)) = rdma_ok size /\
  forall host token date creds,
    (lit "Content-Length", lit "0") ∈ put_sign_headers host token date creds sctx.
Proof.
  rewrite GetFront_absent by done. split; [done|]. split.
  - unfold put_result. cbn [res_headers res_status_code]. by rewrite bool_decide_eq_false_2.
  - intros host token date creds. unfold put_sign_headers. rewrite elem_of_app. left. do 5 right. by left.
Qed.
