(* ===== verification/MinioClient.v ===== *)
(** * The minio-cpp integration's client
      ([integrations/minio-cpp/include/hipobj_minio/client.h],
      [integrations/minio-cpp/src/client.cpp],
      [integrations/minio-cpp/examples/getput-rdma.cpp])

    [PutObject()] and [GetObject()], with what they fall back to, the
    library's initialization that they share, the counters, and the example's
    test pattern. *)

From Stdlib Require Import Ascii String.
From stdpp Require Import base numbers list gmap.
From S2P Require Import Prelude.
From S2P Require Import Parse.
From S2P Require Import Token.
From S2P Require Import IbvCore.
From S2P Require Import World.
From S2P Require Import Topology.
From S2P Require Import Transport.
From S2P Require Import Buffer.
From S2P Require Import State.
From S2P Require Import Invariant.
From S2P Require Import Api.
From S2P Require Import Safety.
From S2P Require Import MinioRdma.

(** ** Definitions *)

(** *** The counters *)

(** An addition to a [std::atomic<uint64_t>] *)
Definition fetch_add (counter n : Z) : Z := wrapu 64 (counter + n).

Definition CountRdmaPut (n : Z) (s : TransferStats) : TransferStats :=
  s <| rdmaPuts ::= fun c => fetch_add c 1 |> <| rdmaBytes ::= fun c => fetch_add c n |>.
Definition CountRdmaGet (n : Z) (s : TransferStats) : TransferStats :=
  s <| rdmaGets ::= fun c => fetch_add c 1 |> <| rdmaBytes ::= fun c => fetch_add c n |>.
Definition CountHttpPut (n : Z) (s : TransferStats) : TransferStats :=
  s <| httpPuts ::= fun c => fetch_add c 1 |> <| httpBytes ::= fun c => fetch_add c n |>.
Definition CountHttpGet (n : Z) (s : TransferStats) : TransferStats :=
  s <| httpGets ::= fun c => fetch_add c 1 |> <| httpBytes ::= fun c => fetch_add c n |>.

Definition count (f : TransferStats -> TransferStats) : I unit := modify (fun s => s <| mn_stats ::= f |>).

Definition TransferStatsSnapshot : I TransferStats := s ← get_state; mret (mn_stats s).
Definition TransferStatsReset : I unit := modify (fun s => s <| mn_stats := no_stats |>).

Definition TransferStatsLine (s : TransferStats) : chars :=
  lit "hipobj-stats: rdma_put=" ++ to_string (rdmaPuts s) ++ lit " rdma_get=" ++ to_string (rdmaGets s) ++
  lit " http_put=" ++ to_string (httpPuts s) ++ lit " http_get=" ++ to_string (httpGets s) ++
  lit " rdma_bytes=" ++ to_string (rdmaBytes s) ++ lit " http_bytes=" ++ to_string (httpBytes s).

(** *** [HipObjRuntime] *)

Definition runtime_key (base_url : BaseUrl) : chars := bu_host base_url ++ lit ":" ++ bu_region base_url.

(** The library's [const char*] members are the strings they point to, up to
    the first NUL *)
Definition EnsureInit `{World} `{NicTopology} (base_url : BaseUrl) : I hipObjError_t :=
  let key := runtime_key base_url in
  s ← get_state;
  if initialized_ s && bool_decide (key = active_key_ s) then mret (makeError hipObjSuccess)
  else
    _ ← (if initialized_ s then
           _ ← lib hipObjShutdown; modify (fun s => s <| initialized_ := false |>)
         else mret tt);
    let endpoint := (if bu_https base_url then lit "https://" else lit "http://") ++ bu_host base_url in
    hint ← out (perform (getenv (lit "HIPOBJ_NIC_HINT")));
    let cfg := {| endpoint := Some (cStringView endpoint); region := Some (cStringView (bu_region base_url));
                  accessKey := None; secretKey := None; flags := 0; gpuDevice := -1;
                  nicHint := match hint with Some (c :: h) => Some (c :: h) | _ => None end |} in
    err ← lib (hipObjInit (Some cfg));
    _ ← (if bool_decide (opError err = hipObjSuccess)
         then modify (fun s => s <| initialized_ := true |> <| active_key_ := key |>)
         else mret tt);
    mret err.

Definition RdmaAvailable : I bool := s ← get_state; mret (initialized_ s).

(** *** Helpers *)

(** [hipGetLastError()], which clears HIP's own error, has no counterpart *)
Definition IsDevicePointer `{World} (ptr : Z) : I bool :=
  '(err, type) ← out (perform (pointerGetAttributes ptr));
  if negb (err =? hipSuccess) then mret false else mret (bool_decide (type = hipMemoryTypeDevice)).

Definition DescribeFailure (result : RdmaResult) : chars :=
  if bool_decide (rdma_status result = RdmaNotSupported) then lit "not supported"
  else if bool_decide (rdma_status result = RdmaFailed) then lit "error"
  else lit "no bytes transferred".

(** [~BufRegistrationPtr()]: a null pointer isn't deregistered *)
Definition BufDeregisterer `{World} (ptr : Z) : I unit :=
  if ptr =? 0 then mret tt else _ ← lib (hipObjBufDeregister ptr); mret tt.

Definition error_response (text : chars) : s3_response := {| s3_error := text; s3_etag := [] |}.
Definition RdmaResponse (tag : chars) : s3_response := {| s3_error := []; s3_etag := tag |}.
Definition is_error (resp : s3_response) : bool := negb (bool_decide (s3_error resp = [])).

(** *** An object's chunks, into a buffer *)

(** [received.append()], and the copy to a buffer of [size] bytes *)
Definition buffered (chunks : list chars) (size : nat) : chars := take size (foldl app [] chunks).

(** The data function that writes each chunk to the buffer: the offset that
    it leaves, and what it writes where *)
Fixpoint streamed (chunks : list chars) (size offset : nat) : list (nat * chars) :=
  match chunks with
  | [] => []
  | chunk :: chunks =>
      let data := take (size - offset) chunk in
      (offset, data) :: streamed chunks size (offset + List.length data)
  end.

Fixpoint write_all `{World} (buf : Z) (writes : list (nat * chars)) : I unit :=
  match writes with
  | [] => mret tt
  | (offset, data) :: writes =>
      _ ← out (perform (write_buffer (buf + Z.of_nat offset) data)); write_all buf writes
  end.

(** The memory at the buffer, after a write to it *)
Definition write_at (mem : chars) (w : nat * chars) : chars :=
  take (fst w) mem ++ snd w ++ drop (fst w + List.length (snd w)) mem.

(** The arguments of an HTTP GET; the data function of each is what's done
    with the chunks that the call returns *)
Definition http_get_args (args : s3_args) : s3_args :=
  {| a_bucket := a_bucket args; a_object := a_object args; a_region := a_region args; a_buf := 0; a_size := None;
     a_stream := a_stream args; a_object_size := a_object_size args; a_part_size := a_part_size args |}.

Definition HttpGetIntoBuffer `{World} (args : s3_args) (size : Z) : I s3_response :=
  '(resp, chunks) ← out (perform (s3_GetObject (http_get_args args)));
  _ ← (if negb (is_error resp)
       then out (perform (write_buffer (a_buf args) (buffered chunks (Z.to_nat size)))) else mret tt);
  _ ← count (CountHttpGet size);
  mret resp.

(** *** [Client] *)

Section client.
Context `{World} `{NicTopology} `{MinioCpp} (base_url : BaseUrl).

Definition rdma_context (args : s3_args) (r : chars) : S3RdmaContext :=
  {| ctx_s3_bucket := a_bucket args; ctx_s3_object := a_object args; ctx_url := base_url; ctx_region := r;
     uploadId := []; partNumber := 0; checksum := []; etag := [] |}.

(** [std::in_range<long>()], where a [long] has 64 bits *)
Definition fits_long (size : Z) : bool := in_range int64_t size.

(** The registration, and the buffer that's to be deregistered: none of the
    application's own registrations *)
Definition register_here (buf size : Z) : I (hipObjError_t + Z) :=
  reg_err ← lib (hipObjBufRegister buf size);
  if negb (bool_decide (opError reg_err = hipObjSuccess)) &&
     negb (bool_decide (opError reg_err = hipObjBufAlreadyRegistered)) then mret (inl reg_err)
  else mret (inr (if bool_decide (opError reg_err = hipObjSuccess) then buf else 0)).

Definition http_put_args (args : s3_args) (stream : put_stream) (size : Z) : s3_args :=
  {| a_bucket := a_bucket args; a_object := a_object args; a_region := a_region args; a_buf := 0; a_size := None;
     a_stream := Some stream; a_object_size := size; a_part_size := 0 |}.

(** With the buffer registered *)
Definition put_registered (args : s3_args) (size : Z) : I s3_response :=
  '(resp, r) ← out (perform (s3_GetRegion (a_bucket args) (a_region args)));
  if is_error resp then mret (error_response (s3_error resp))
  else
    '(ret, ctx) ← rdmaPutWithRetry (rdma_context args r) (a_buf args) size;
    if moved ret then
      _ ← count (CountRdmaPut (bytes ret)); mret (RdmaResponse (etag ctx))
    else
      device ← IsDevicePointer (a_buf args);
      if device : bool then
        mret (error_response (lit "RDMA PUT failed (" ++ DescribeFailure ret ++
                              lit ") and the payload is device memory; no HTTP fallback is possible"))
      else
        _ ← out (perform (print_stderr (Message (lit "hipobj: RDMA PUT failed (" ++ DescribeFailure ret ++
                                                 lit "); falling back to HTTP"))));
        _ ← count (CountHttpPut size);
        out (perform (s3_PutObject (http_put_args args (StreamOfBuffer (a_buf args) size) size))).

Definition PutObject (args : s3_args) : I s3_response :=
  let '(err, args) := ValidatePut args in
  match err with
  | Some err => mret (error_response err)
  | None =>
      if a_buf args =? 0 then out (perform (s3_PutObject args))
      else
        match a_size args with
        | None => mret (error_response (lit "size must be set when buf is set"))
        | Some size =>
            if negb (fits_long size) then mret (error_response (lit "object size is too large"))
            else
              init_err ← EnsureInit base_url;
              if negb (bool_decide (opError init_err = hipObjSuccess)) then
                content ← out (perform (read_buffer (a_buf args) size));
                _ ← count (CountHttpPut size);
                out (perform (s3_PutObject (http_put_args args (StreamOfCopy content) size)))
              else
                registered ← register_here (a_buf args) size;
                match registered with
                | inl reg_err =>
                    mret (error_response (lit "hipObjBufRegister failed: " ++ hipObjGetErrorString (opError reg_err)))
                | inr registration =>
                    resp ← put_registered args size; _ ← BufDeregisterer registration; mret resp
                end
        end
  end.

Definition get_registered (args : s3_args) (size : Z) : I s3_response :=
  '(resp, r) ← out (perform (s3_GetRegion (a_bucket args) (a_region args)));
  if is_error resp then mret (error_response (s3_error resp))
  else
    let ctx := rdma_context args r in
    ret ← rdmaGetWithRetry ctx (a_buf args) size;
    if moved ret then
      _ ← count (CountRdmaGet (bytes ret)); mret (RdmaResponse (etag ctx))
    else
      device ← IsDevicePointer (a_buf args);
      if device : bool then
        mret (error_response (lit "RDMA GET failed (" ++ DescribeFailure ret ++
                              lit ") and the destination is device memory; no HTTP fallback is possible"))
      else
        _ ← out (perform (print_stderr (Message (lit "hipobj: RDMA GET failed (" ++ DescribeFailure ret ++
                                                 lit "); falling back to HTTP"))));
        _ ← count (CountHttpGet size);
        '(resp, chunks) ← out (perform (s3_GetObject (http_get_args args)));
        _ ← write_all (a_buf args) (streamed chunks (Z.to_nat size) 0);
        mret resp.

Definition GetObject (args : s3_args) : I s3_response :=
  let '(err, args) := ValidateGet args in
  match err with
  | Some err => mret (error_response err)
  | None =>
      if a_buf args =? 0 then
        '(resp, _) ← out (perform (s3_GetObject args)); mret resp
      else
        match a_size args with
        | None => mret (error_response (lit "size must be set when buf is set"))
        | Some size =>
            init_err ← EnsureInit base_url;
            if negb (bool_decide (opError init_err = hipObjSuccess)) then HttpGetIntoBuffer args size
            else
              registered ← register_here (a_buf args) size;
              match registered with
              | inl reg_err =>
                  mret (error_response (lit "hipObjBufRegister failed: " ++ hipObjGetErrorString (opError reg_err)))
              | inr registration =>
                  resp ← get_registered args size; _ ← BufDeregisterer registration; mret resp
              end
        end
  end.
End client.

(** *** The example's pattern *)

Definition kLcgMultiplier : Z := 6364136223846793005.
Definition kMixMultiplier : Z := 0xff51afd7ed558ccd.
Definition kMixShift : Z := 33.

Definition PatternByte (offset seed : Z) : Z :=
  let x := wrapu 64 (wrapu 64 (wrapu 64 (offset + 1) * kLcgMultiplier) + seed) in
  let x := Z.lxor x (Z.shiftr x kMixShift) in
  let x := wrapu 64 (x * kMixMultiplier) in
  let x := Z.lxor x (Z.shiftr x kMixShift) in
  wrapu 8 x.

(** The loops, from an offset on *)
Fixpoint fill_from (n : nat) (i : Z) (seed : Z) : list Z :=
  match n with
  | O => []
  | S n => PatternByte i seed :: fill_from n (i + 1) seed
  end.
Definition FillPattern (size : nat) (seed : Z) : list Z := fill_from size 0 seed.

Fixpoint mismatch_from (buf : list Z) (i : Z) (seed : Z) : Z :=
  match buf with
  | [] => i
  | b :: buf => if negb (b =? PatternByte i seed) then i else mismatch_from buf (i + 1) seed
  end.
Definition FirstMismatch (buf : list Z) (seed : Z) : Z := mismatch_from buf 0 seed.

(** ** Lemmas *)

(** *** An object's chunks *)

Lemma foldl_app_concat (chunks : list chars) acc : foldl app acc chunks = acc ++ concat chunks.
Proof.
  revert acc. induction chunks as [|c chunks IH]; intros acc; cbn [foldl concat]; [by rewrite app_nil_r|].
  by rewrite IH, app_assoc.
Qed.

Lemma write_at_end (done rest data : chars) :
  write_at (done ++ rest) (List.length done, data) = (done ++ data) ++ drop (List.length data) rest.
Proof.
  unfold write_at. cbn [fst snd]. rewrite take_app_length, <- drop_drop, drop_app_length. by rewrite app_assoc.
Qed.

(** The buffer's start, [done], has been written *)
Lemma streamed_writes chunks size (done rest : chars) :
  let k := (size - List.length done)%nat in
  foldl write_at (done ++ rest) (streamed chunks size (List.length done)) =
    done ++ take k (concat chunks) ++ drop (List.length (take k (concat chunks))) rest.
Proof.
  revert done rest. induction chunks as [|c chunks IH]; intros done rest k; cbn [streamed foldl concat].
  { by rewrite take_nil. }
  rewrite write_at_end, <- length_app. fold k. set (data := take k c). rewrite IH, length_app, <- !app_assoc.
  assert (take k (c ++ concat chunks) = data ++ take (k - List.length data) (concat chunks)) as Hk.
  { unfold data. rewrite take_app, length_take. f_equal. f_equal. lia. }
  replace (size - (List.length done + List.length data))%nat with (k - List.length data)%nat by lia.
  rewrite Hk, length_app, drop_drop. by rewrite <- !app_assoc.
Qed.

(** *** The pattern *)

Lemma mismatch_from_range buf i seed : i <= mismatch_from buf i seed <= i + Z.of_nat (List.length buf).
Proof.
  revert i. induction buf as [|b buf IH]; intros i; cbn [mismatch_from List.length]; [lia|].
  destruct (negb _); [lia|]. specialize (IH (i + 1)). lia.
Qed.

Lemma mismatch_from_spec buf i seed :
  let n := Z.to_nat (mismatch_from buf i seed - i) in
  take n buf = take n (fill_from (List.length buf) i seed) /\
  (forall b, buf !! n = Some b -> b <> PatternByte (i + Z.of_nat n) seed).
Proof.
  revert i. induction buf as [|b buf IH]; intros i; cbn [mismatch_from fill_from List.length].
  { rewrite Z.sub_diag. split; [done|]. by intros b Hb. }
  destruct (Z.eqb_spec b (PatternByte i seed)) as [->|Hne]; cbn [negb].
  - specialize (IH (i + 1)) as [Ht Hb]. pose proof (mismatch_from_range buf (i + 1) seed).
    replace (Z.to_nat (mismatch_from buf (i + 1) seed - i))
      with (S (Z.to_nat (mismatch_from buf (i + 1) seed - (i + 1)))) by lia.
    cbn [take]. rewrite Ht. split; [done|]. intros b Hl. apply Hb in Hl.
    by replace (i + Z.of_nat (S _)) with (i + 1 + Z.of_nat (Z.to_nat (mismatch_from buf (i + 1) seed - (i + 1)))) by lia.
  - rewrite Z.sub_diag. split; [done|]. intros d [= <-]. by rewrite Z.add_0_r.
Qed.

Lemma fill_from_length n i seed : List.length (fill_from n i seed) = n.
Proof. revert i. induction n as [|n IH]; intros i; cbn; [done|]. by rewrite IH. Qed.

(** *** The client *)

(** How a transfer was counted: as one over RDMA, when that's what moved the
    data; as one over HTTP, when it was tried; or not at all *)
Definition counted (rdma : TransferStats -> TransferStats -> Prop) (http : TransferStats -> TransferStats)
    (resp : s3_response) (s s' : Minio) : Prop :=
  (rdma (mn_stats s) (mn_stats s') /\ s3_error resp = []) \/
  mn_stats s' = http (mn_stats s) \/
  mn_stats s' = mn_stats s.

Section client_steady.
Context `{E : World} `{B : BuildConfig} `{C : MinioCpp} (bad : stop -> Prop) `{!LibraryKeeps bad} (base_url : BaseUrl).

Lemma EnsureInit_steady : isteady bad (@EnsureInit E SysfsTopology base_url).
Proof. unfold EnsureInit. repeat isteady_step. Qed.

Lemma register_here_steady buf size : isteady bad (register_here buf size).
Proof. unfold register_here. repeat isteady_step. Qed.

Lemma BufDeregisterer_steady p : isteady bad (BufDeregisterer p).
Proof. unfold BufDeregisterer. repeat isteady_step. Qed.

Lemma IsDevicePointer_steady p : isteady bad (IsDevicePointer p).
Proof. unfold IsDevicePointer. repeat isteady_step. Qed.

Lemma write_all_steady buf writes : isteady bad (write_all buf writes).
Proof. induction writes as [|[o d] writes IH]; cbn [write_all]; repeat (apply IH || isteady_step). Qed.

(** [m] keeps the invariant, and counts a transfer as it went *)
Definition counts (rdma : TransferStats -> TransferStats -> Prop) (http : TransferStats -> TransferStats)
    (m : I s3_response) : Prop :=
  forall F s, f_elsewhere F = [] -> Inv F (mn_process s) ->
    wp bad m (fun resp s' => Inv F (mn_process s') /\ counted rdma http resp s s') s.

Section counts.
Variables (rdma : TransferStats -> TransferStats -> Prop) (http : TransferStats -> TransferStats).

Lemma counts_steady m : isteady bad m -> counts rdma http m.
Proof.
  intros Hm F s HF HI. eapply wp_mono; [by apply Hm|]. cbv beta. intros resp s' [HI' Hs]. split; [done|]. by do 2 right.
Qed.

Lemma counts_bind {A} (m : I A) (k : A -> I s3_response) :
  isteady bad m -> (forall a, counts rdma http (k a)) -> counts rdma http (m ≫= k).
Proof.
  intros Hm Hk F s HF HI. apply wp_bind. eapply wp_mono; [by apply Hm|]. cbv beta. intros a s1 [HI1 Hs1].
  eapply wp_mono; [by apply Hk|]. cbv beta. intros resp s2 [HI2 Hc]. split; [done|].
  unfold counted in *. by rewrite <- Hs1.
Qed.

Lemma counts_then {A} m (k : I A) : counts rdma http m -> isteady bad k -> counts rdma http (resp ← m; _ ← k; mret resp).
Proof.
  intros Hm Hk F s HF HI. apply wp_bind. eapply wp_mono; [by apply Hm|]. cbv beta. intros resp s1 [HI1 Hs1].
  apply wp_bind. eapply wp_mono; [by apply Hk|]. cbv beta. intros a s2 [HI2 Hs2]. apply wp_ret. split; [done|].
  unfold counted in *. by rewrite Hs2.
Qed.

Lemma counts_rdma f resp :
  (forall x, rdma x (f x)) -> s3_error resp = [] -> counts rdma http (_ ← count f; mret resp).
Proof. intros Hf Hr F s HF HI. apply wp_bind, wp_modify, wp_ret. split; [done|]. by left. Qed.

Lemma counts_http m : isteady bad m -> counts rdma http (_ ← count http; m).
Proof.
  intros Hm F s HF HI. apply wp_bind, wp_modify. eapply wp_mono; [by apply Hm|]. cbv beta. intros resp s' [HI' Hs].
  split; [done|]. right. left. rewrite Hs. done.
Qed.
(** A step whose result is known to satisfy [P] when it returns *)
Lemma counts_bind_run {A} (P : A -> Prop) (m : I A) (k : A -> I s3_response) :
  isteady bad m -> (forall s a s', m s = (inl a, s') -> P a) -> (forall a, P a -> counts rdma http (k a)) ->
  counts rdma http (m ≫= k).
Proof.
  intros Hm HP Hk F s HF HI. pose proof (Hm F s HF HI) as Hs. specialize (HP s). unfold wp, mbind, M_bind in *.
  destruct (m s) as [[a|e] s1]; [|done]. destruct Hs as [HI1 Hs1].
  specialize (Hk a (HP _ _ eq_refl) F s1 HF HI1). unfold wp in Hk. destruct (k a s1) as [[resp|e] s2]; [|done].
  destruct Hk as [HI2 Hc]. split; [done|]. unfold counted in *. by rewrite <- Hs1.
Qed.
End counts.

Ltac counts_step :=
  match goal with
  | |- counts _ _ (_ ← count _; mret _) => apply counts_rdma
  | |- counts _ _ (mret _) => apply counts_steady, isteady_ret
  | |- counts _ _ (let '_ := ?x in _) => destruct x
  | |- counts _ _ (if ?b then _ else _) => destruct b eqn:?
  | |- counts _ _ (match ?x with _ => _ end) => destruct x
  end; cbn beta iota.

(** How much was moved *)
Lemma put_attempts_bytes n ret sctx buf size s x s' :
  (rdma_status ret = Ok -> bytes ret = size) ->
  put_attempts n ret sctx buf size s = (inl x, s') -> rdma_status (fst x) = Ok -> bytes (fst x) = size.
Proof.
  revert ret sctx s. induction n as [|n IH]; intros ret sctx s Hret H; cbn [put_attempts] in H.
  { by injection H as <- _. }
  apply bind_returns in H as (token & s1 & _ & H). destruct token as [token|]; [|by injection H as <- _].
  apply bind_returns in H as (staged & s2 & _ & H). destruct (negb staged); [by injection H as <- _|].
  apply bind_returns in H as ([ret1 ctx1] & s3 & Hput & H).
  apply (wp_run (fun _ => True) _ _ _ _ _ (rdmaPut_spec _ _ _ _ _)) in Hput. cbn [fst] in Hput.
  assert (rdma_status ret1 = Ok -> bytes ret1 = size) as Hret1.
  { destruct Hput as [->|(res & _ & _ & Hr)]; [done|]. pose proof (put_result_bytes res size sctx) as Hb. by rewrite Hr in Hb. }
  destruct (moved ret1 || _); [by injection H as <- _|]. by eapply IH.
Qed.

Lemma get_attempts_bytes n ret sctx buf size s x s' :
  (rdma_status ret = Ok -> bytes ret <= size) ->
  get_attempts n ret sctx buf size s = (inl x, s') -> rdma_status x = Ok -> bytes x <= size.
Proof.
  revert ret s. induction n as [|n IH]; intros ret s Hret H; cbn [get_attempts] in H.
  { by injection H as <- _. }
  apply bind_returns in H as (token & s1 & _ & H). destruct token as [token|]; [|by injection H as <- _].
  apply bind_returns in H as (ret1 & s3 & Hget & H).
  apply (wp_run (fun _ => True) _ _ _ _ _ (rdmaGet_spec _ _ _ _ _)) in Hget.
  assert (rdma_status ret1 = Ok -> bytes ret1 <= size) as Hret1.
  { destruct Hget as [->|(res & _ & _ & <-)]; [done|]. apply get_result_bytes. }
  destruct (moved ret1).
  - apply bind_returns in H as (staged & s4 & _ & H). destruct (negb staged); by injection H as <- _.
  - case_bool_decide; [by injection H as <- _|]. by eapply IH.
Qed.

(** What the counters say of transfers of [size] bytes *)
Definition one_rdma_put (size : Z) (a b : TransferStats) : Prop := b = CountRdmaPut size a.
Definition one_rdma_get (size : Z) (a b : TransferStats) : Prop := exists n, 0 < n <= size /\ b = CountRdmaGet n a.

Lemma moved_true ret : moved ret = true -> rdma_status ret = Ok /\ 0 < bytes ret.
Proof. unfold moved. intros H. by bools. Qed.

Lemma put_registered_counts args size :
  counts (one_rdma_put size) (CountHttpPut size) (put_registered base_url args size).
Proof.
  unfold put_registered. apply counts_bind; [by isteady_step|]. intros [resp r]. counts_step; [counts_step|].
  apply (counts_bind_run _ _ (fun x => rdma_status (fst x) = Ok -> bytes (fst x) = size)).
  - by apply put_attempts_steady.
  - intros s0 x s'. by apply put_attempts_bytes.
  - intros [ret ctx] Hb. cbn [fst] in Hb. cbn beta iota. destruct (moved ret) eqn:Hmoved.
    + apply moved_true in Hmoved as [Hok _]. apply counts_rdma; [|done]. intros x. unfold one_rdma_put. by rewrite Hb.
    + apply counts_bind; [by apply IsDevicePointer_steady|]. intros device. counts_step; [counts_step|].
      apply counts_bind; [by isteady_step|]. intros _. apply counts_http. by isteady_step.
Qed.

Lemma get_registered_counts args size :
  counts (one_rdma_get size) (CountHttpGet size) (get_registered base_url args size).
Proof.
  unfold get_registered. apply counts_bind; [by isteady_step|]. intros [resp r]. counts_step; [counts_step|].
  apply (counts_bind_run _ _ (fun ret => rdma_status ret = Ok -> bytes ret <= size)).
  - by apply get_attempts_steady.
  - intros s0 x s'. by apply get_attempts_bytes.
  - intros ret Hb. destruct (moved ret) eqn:Hmoved.
    + apply moved_true in Hmoved as [Hok Hpos]. apply counts_rdma; [|done]. intros x. exists (bytes ret). split; [|done].
      split; [done|by apply Hb].
    + apply counts_bind; [by apply IsDevicePointer_steady|]. intros device. counts_step; [counts_step|].
      apply counts_bind; [by isteady_step|]. intros _. apply counts_http.
      repeat (apply write_all_steady || isteady_step).
Qed.

Lemma HttpGetIntoBuffer_counts args size :
  counts (one_rdma_get size) (CountHttpGet size) (HttpGetIntoBuffer args size).
Proof.
  unfold HttpGetIntoBuffer. apply counts_bind; [by isteady_step|]. intros [resp chunks]. cbn beta iota.
  apply counts_bind; [repeat isteady_step|]. intros _. apply counts_http, isteady_ret.
Qed.

(** With the buffer's registration *)
Lemma registered_counts rdma http buf size (f : hipObjError_t -> s3_response) (m : I s3_response) :
  counts rdma http m ->
  counts rdma http (registered ← register_here buf size;
                    match registered with
                    | inl err => mret (f err)
                    | inr registration => resp ← m; _ ← BufDeregisterer registration; mret resp
                    end).
Proof.
  intros Hm. apply counts_bind; [by apply register_here_steady|]. intros [err|p].
  - apply counts_steady, isteady_ret.
  - apply counts_then; [done|]. by apply BufDeregisterer_steady.
Qed.

(** The size of a transfer, when its arguments have one *)
Definition sized (args : s3_args) : Z := default 0 (a_size args).

Lemma PutObject_counts args :
  let size := sized (snd (ValidatePut args)) in
  counts (one_rdma_put size) (CountHttpPut size) (@PutObject E SysfsTopology C base_url args).
Proof.
  unfold PutObject. destruct (ValidatePut args) as [[err|] a]; cbn [snd]; [apply counts_steady, isteady_ret|].
  destruct (a_buf a =? 0); [apply counts_steady; by isteady_step|]. unfold sized.
  destruct (a_size a) as [size|]; cbn [default]; [|apply counts_steady, isteady_ret].
  destruct (negb _); [apply counts_steady, isteady_ret|].
  apply counts_bind; [by apply EnsureInit_steady|]. intros init_err. destruct (negb _).
  - apply counts_bind; [by isteady_step|]. intros content. apply counts_http. by isteady_step.
  - apply registered_counts, put_registered_counts.
Qed.

Lemma GetObject_counts args :
  let size := sized (snd (ValidateGet args)) in
  counts (one_rdma_get size) (CountHttpGet size) (@GetObject E SysfsTopology C base_url args).
Proof.
  unfold GetObject. destruct (ValidateGet args) as [[err|] a]; cbn [snd]; [apply counts_steady, isteady_ret|].
  destruct (a_buf a =? 0); [apply counts_steady; repeat isteady_step|]. unfold sized.
  destruct (a_size a) as [size|]; cbn [default]; [|apply counts_steady, isteady_ret].
  apply counts_bind; [by apply EnsureInit_steady|]. intros init_err. destruct (negb _).
  - apply HttpGetIntoBuffer_counts.
  - apply registered_counts, get_registered_counts.
Qed.
End client_steady.

(** ** Properties *)


#[local] Instance client_build : BuildConfig := {| HIPOBJ_BNXT := true; HIPOBJ_IONIC := true |}.

Definition lab_args : s3_args :=
  {| a_bucket := lit "bucket"; a_object := lit "key"; a_region := []; a_buf := 65536; a_size := Some 4096;
     a_stream := None; a_object_size := 0; a_part_size := 0 |}.
Definition lab_url : BaseUrl := {| bu_host := lit "s3"; bu_region := lit "us-east-1"; bu_https := false |}.


(** The two ways to get an object over HTTP leave the same bytes in the
    buffer, however the object comes in chunks: one writes each chunk as it
    arrives, and the other collects them and copies the buffer's worth at
    the end. Neither writes past the buffer's size, and what's after the
    object's end stays. *)
Theorem http_gets_agree (chunks : list chars) (size : nat) (mem : chars) (Hmem : List.length mem = size) :
  foldl write_at mem (streamed chunks size 0) = write_at mem (0%nat, buffered chunks size) /\
  List.length (foldl write_at mem (streamed chunks size 0)) = size /\
  Forall (fun w => fst w + List.length (snd w) <= size)%nat (streamed chunks size 0).
Proof.
  pose proof (streamed_writes chunks size [] mem) as Hw. cbn [app List.length] in Hw. rewrite Nat.sub_0_r in Hw.
  assert (buffered chunks size = take size (concat chunks)) as Hb by (unfold buffered; by rewrite foldl_app_concat).
  split_and!.
  - rewrite Hw, Hb. unfold write_at. cbn [fst snd]. by rewrite take_0, Nat.add_0_l.
  - rewrite Hw, length_app, length_take, length_drop. lia.
  - clear. assert (0 <= size)%nat as H0 by lia. revert H0. generalize 0%nat as o.
    induction chunks as [|c chunks IH]; intros o Ho; cbn [streamed]; constructor; cbn [fst snd].
    + rewrite length_take. lia.
    + apply IH. rewrite length_take. lia.
Qed.

Lemma http_gets_agree_witness :
  foldl write_at (lit "........") (streamed [lit "hel"; []; lit "lo"; lit ", world"] 8 0) = lit "hello, w".
Proof.
  destruct (http_gets_agree [lit "hel"; []; lit "lo"; lit ", world"] 8 (lit "........") eq_refl) as [H _].
  rewrite H. reflexivity.
Defined.

(** The example's check finds what it's for: the offset that
    [FirstMismatch()] returns is the first at which the buffer isn't the
    pattern, and it's the buffer's size just when every byte is as
    [FillPattern()] wrote it. *)
Theorem FirstMismatch_first (buf : list Z) (seed : Z) :
  let n := FirstMismatch buf seed in
  0 <= n <= Z.of_nat (List.length buf) /\
  take (Z.to_nat n) buf = take (Z.to_nat n) (FillPattern (List.length buf) seed) /\
  (n = Z.of_nat (List.length buf) <-> buf = FillPattern (List.length buf) seed).
Proof.
  intros n. pose proof (mismatch_from_range buf 0 seed) as Hr. pose proof (mismatch_from_spec buf 0 seed) as [Ht Hb].
  fold (FirstMismatch buf seed) in *. fold n in Hr, Ht, Hb. rewrite Z.sub_0_r, Z.add_0_l in *.
  split_and!; [lia..|exact Ht|]. split.
  - intros Hn. rewrite Hn, Nat2Z.id in Ht. rewrite !take_ge in Ht; [exact Ht|by rewrite fill_from_length|done].
  - intros Heq. destruct (decide (n = Z.of_nat (List.length buf))) as [|Hne]; [done|exfalso].
    assert (Z.to_nat n < List.length buf)%nat as Hlt by lia.
    apply lookup_lt_is_Some in Hlt as [b Hlk]. apply (Hb b Hlk).
    assert (forall m i k, (k < m)%nat -> fill_from m i seed !! k = Some (PatternByte (i + Z.of_nat k) seed)) as Hf.
    { clear. induction m as [|m IH]; intros i k Hk; [lia|]. cbn [fill_from]. destruct k as [|k].
      - cbn. by rewrite Z.add_0_r.
      - cbn [lookup list_lookup]. change (list_lookup k ?l) with (l !! k). rewrite IH by lia. do 2 f_equal. lia. }
    rewrite Heq in Hlk. unfold FillPattern in Hlk. rewrite Hf in Hlk by lia. rewrite Z.add_0_l in Hlk. by injection Hlk.
Qed.

(** A world without libibverbs, with a buffer in device memory *)
Definition no_verbs : World := fun t A c =>
  match c in call A return A with
  | dlopen _ => 0
  | c => @respond (lab working) t _ c
  end.

(** A payload in device memory is read from the host when RDMA isn't
    available: [PutObject()] asks whether the buffer is device memory only
    after an RDMA transfer has failed, not when the library couldn't be
    initialized, and copies the buffer's bytes itself then. *)
Theorem put_reads_device_memory :
  let put := @PutObject no_verbs (@SysfsTopology no_verbs) lab_minio lab_url lab_args in
  (forall t, @respond no_verbs t _ (pointerGetAttributes 65536) = (hipSuccess, hipMemoryTypeDevice)) /\
  existsb (fun e => match e with Ev (read_buffer addr size) _ => (addr =? 65536) && (size =? 4096) | _ => false end)
    (calls_of (snd (put initial_minio))) = true.
Proof. split; [done|]. vm_compute. reflexivity. Qed.
