(* ===== verification/GetPut.v ===== *)
(** * The minio-cpp integration's example program
      ([integrations/minio-cpp/examples/getput-rdma.cpp])

    Its [main()]: a buffer, in device memory or not, is filled with the
    pattern and uploaded, overwritten, downloaded again, and compared with the
    pattern.  [MinioClient] has the pattern, and the calls that [main()]
    makes. *)

From Stdlib Require Import Ascii String.
From stdpp Require Import base numbers list gmap.
From S2P Require Import Prelude.
From S2P Require Import Parse.
From S2P Require Import Token.
From S2P Require Import IbvCore.
From S2P Require Import World.
From S2P Require Import Topology.
From S2P Require Import Transport.
From S2P Require Import Pool.
From S2P Require Import Buffer.
From S2P Require Import Abandoned.
From S2P Require Import Verbs.
From S2P Require Import State.
From S2P Require Import Invariant.
From S2P Require Import Api.
From S2P Require Import Safety.
From S2P Require Import MinioRdma.
From S2P Require Import MinioClient.

(** ** Definitions *)

(** *** The arguments *)

Definition kSizeArg : nat := 4.
Definition kGpuArg : nat := 5.
Definition kDefaultBufSize : Z := 10 * 1024 * 1024.
Definition kClobberByte : ascii := chr 0x55.

Definition size_arg (args : list chars) : option Z :=
  match args !! kSizeArg with
  | Some arg => parseNumber uint64_t arg kDefaultNumberBase
  | None => Some kDefaultBufSize
  end.

Definition gpu_arg (args : list chars) : bool :=
  match args !! kGpuArg with Some arg => bool_decide (arg = lit "gpu") | None => true end.

(** *** Printing, and the file *)

Definition say_out `{World} (text : chars) : I unit := out (perform (print_stdout text)).
Definition say_err `{World} (text : chars) : I unit := out (perform (print_stderr (Message text))).

(** An early return *)
Definition give_up_with `{World} (text : chars) : I Z := _ ← say_err text; mret 1.

(** [std::hex] of an [int] that was a byte *)
Definition hex_byte (b : Z) : chars :=
  if b <? 16 then [hex_digit b] else [hex_digit (Z.shiftr b 4); hex_digit (Z.land b kLowNibble)].

(** *** The buffer *)

Record BufferDeleter := { onGpu : bool; alignment : Z }.

(** What the [unique_ptr] does at the end; a null pointer isn't freed *)
Definition destroy_buffer `{World} (d : BufferDeleter) (ptr : Z) : I unit :=
  if ptr =? 0 then mret tt
  else if onGpu d then _ ← out (perform (hipFree ptr)); mret tt
  else out (perform (aligned_delete ptr (alignment d))).

(** A vector of [n] zeros, after a copy of [data] to its start *)
Definition vector_with (n : nat) (data : chars) : chars := write_at (replicate n (chr 0)) (0%nat, take n data).

(** Between the PUT and the GET: nothing of the PUT's may be left *)
Definition clobber `{World} (gpu : bool) (bufptr size : Z) : I unit :=
  if gpu then
    _ ← out (perform (hipMemset bufptr (code kClobberByte) size));
    _ ← out (perform deviceSynchronize);
    mret tt
  else out (perform (write_buffer bufptr (replicate (Z.to_nat size) kClobberByte))).

(** [hostbuf], or [hipMemcpy()]'s error *)
Definition read_back `{World} (gpu : bool) (bufptr size : Z) : I (Z + chars) :=
  let n := Z.to_nat size in
  if gpu then
    '(err, data) ← out (perform (hipMemcpyFrom bufptr size));
    mret (if negb (err =? hipSuccess) then inl err else inr (vector_with n data))
  else
    data ← out (perform (read_buffer bufptr size)); mret (inr (vector_with n data)).

(** *** [main()] *)

Section main.
Context `{World} `{NicTopology} `{MinioCpp}.
Variable hipGetErrorString : Z -> chars.

Definition put_args (bufptr size : Z) : s3_args :=
  let args := new_PutObjectArgs in
  {| a_bucket := lit "hipobj-test"; a_object := lit "my-object"; a_region := a_region args; a_buf := bufptr;
     a_size := Some size; a_stream := a_stream args; a_object_size := a_object_size args; a_part_size := a_part_size args |}.

Definition get_args (bufptr size : Z) : s3_args :=
  let args := new_GetObjectArgs in
  {| a_bucket := lit "hipobj-test"; a_object := lit "my-object"; a_region := a_region args; a_buf := bufptr;
     a_size := Some size; a_stream := a_stream args; a_object_size := a_object_size args; a_part_size := a_part_size args |}.

(** The check of what came back, and the exit status *)
Definition report (hostbuf : chars) (bufsize seed : Z) : I Z :=
  opened ← out (perform (ofstream_open (lit "output.bin")));
  if negb opened then give_up_with (lit "failed to open output.bin")
  else
    _ ← out (perform (ofstream_write hostbuf));
    _ ← say_out (lit "Wrote output.bin (" ++ to_string bufsize ++ lit " bytes)");
    let bad := FirstMismatch (code <$> hostbuf) seed in
    let ok := bad =? bufsize in
    _ ← (if ok then say_out (lit "Data integrity check passed (" ++ to_string bufsize ++ lit " bytes, seed " ++
                             to_string seed ++ lit ")")
         else say_out (lit "Data integrity check FAILED at offset " ++ to_string bad ++ lit ": expected 0x" ++
                       hex_byte (PatternByte bad seed) ++ lit " got 0x" ++
                       hex_byte (code (nth (Z.to_nat bad) hostbuf (chr 0)))));
    stats ← TransferStatsSnapshot;
    _ ← say_out (TransferStatsLine stats);
    mret (if ok then 0 else 1).

(** With the buffer filled *)
Definition put_and_get (base_url : BaseUrl) (gpu : bool) (bufptr bufsize seed : Z) : I Z :=
  presp ← PutObject base_url (put_args bufptr bufsize);
  if is_error presp then give_up_with (lit "PUT failed: " ++ s3_error presp)
  else
    _ ← say_out (lit "PUT ok etag=" ++ s3_etag presp);
    _ ← clobber gpu bufptr bufsize;
    gresp ← GetObject base_url (get_args bufptr bufsize);
    if is_error gresp then give_up_with (lit "GET failed: " ++ s3_error gresp)
    else
      _ ← say_out (lit "GET ok");
      hostbuf ← read_back gpu bufptr bufsize;
      match hostbuf with
      | inl err => give_up_with (lit "hipMemcpy failed: " ++ hipGetErrorString err)
      | inr hostbuf => report hostbuf bufsize seed
      end.

Definition on_gpu (base_url : BaseUrl) (expected : chars) (bufsize seed : Z) : I Z :=
  '(err, dev_ptr) ← out (perform (hipMalloc bufsize));
  if negb (err =? hipSuccess) then give_up_with (lit "hipMalloc failed: " ++ hipGetErrorString err)
  else
    r ← (err ← out (perform (hipMemcpyTo dev_ptr expected));
         if negb (err =? hipSuccess) then give_up_with (lit "hipMemcpy H2D failed: " ++ hipGetErrorString err)
         else
           _ ← out (perform deviceSynchronize);
           _ ← say_out (lit "GPU buffer " ++ to_string bufsize ++ lit " bytes");
           put_and_get base_url true dev_ptr bufsize seed);
    _ ← destroy_buffer {| onGpu := true; alignment := 0 |} dev_ptr;
    mret r.

Definition on_host (base_url : BaseUrl) (expected : chars) (bufsize seed : Z) : I Z :=
  pagesize ← out (perform sysconf_pagesize);
  if pagesize <=? 0 then give_up_with (lit "sysconf(_SC_PAGESIZE) failed")
  else
    bufptr ← out (perform (aligned_new bufsize pagesize));
    if bufptr =? 0 then give_up_with (lit "allocating the host buffer failed")
    else
      r ← (_ ← out (perform (write_buffer bufptr expected));
           _ ← say_out (lit "Host buffer " ++ to_string bufsize ++ lit " bytes");
           put_and_get base_url false bufptr bufsize seed);
      _ ← destroy_buffer {| onGpu := false; alignment := pagesize |} bufptr;
      mret r.

(** The keys go to the provider, which is the world's *)
Definition getput_main (args : list chars) : I Z :=
  if (List.length args <? 4)%nat then
    give_up_with (lit "usage: " ++ default (lit "minio-getput-rdma") (head args) ++
                  lit " <host> <access_key> <secret_key> [size_bytes] [gpu]")
  else
    match size_arg args with
    | None => give_up_with (lit "invalid size_bytes: " ++ default [] (args !! kSizeArg))
    | Some bufsize =>
        pid ← out (perform getpid);
        now ← out (perform time_now);
        let seed := Z.lxor (wrapu 32 pid) (wrapu 32 now) in
        _ ← say_out (lit "Pattern seed " ++ to_string seed);
        let expected := chr <$> FillPattern (Z.to_nat bufsize) seed in
        let base_url := new_BaseUrl (default [] (args !! 1%nat)) false (lit "us-east-1") in
        if gpu_arg args then on_gpu base_url expected bufsize seed else on_host base_url expected bufsize seed
    end.
End main.

(** What it means that the transfers did what they should, one after the
    other: the PUT succeeded, the buffer was overwritten, the GET succeeded,
    and what was read back then is the pattern *)
Definition verified `{World} `{NicTopology} `{MinioCpp} (args : list chars) : Prop :=
  exists bufptr bufsize seed s1 put s2 s3 s4 get s5 s6 s7,
    let base_url := new_BaseUrl (default [] (args !! 1%nat)) false (lit "us-east-1") in
    size_arg args = Some bufsize /\
    PutObject base_url (put_args bufptr bufsize) s1 = (inl put, s2) /\ s3_error put = [] /\
    say_out (lit "PUT ok etag=" ++ s3_etag put) s2 = (inl tt, s3) /\
    clobber (gpu_arg args) bufptr bufsize s3 = (inl tt, s4) /\
    GetObject base_url (get_args bufptr bufsize) s4 = (inl get, s5) /\ s3_error get = [] /\
    say_out (lit "GET ok") s5 = (inl tt, s6) /\
    read_back (gpu_arg args) bufptr bufsize s6 = (inl (inr (chr <$> FillPattern (Z.to_nat bufsize) seed)), s7).

(** Memory that's the program's own, and not the library's *)
Definition program_memory (h : handle) : bool :=
  match h with HDevice _ | HAligned _ => true | _ => false end.

(** ** Lemmas *)

(** *** The library's objects are never the program's memory *)

Lemma cnt_none (hs : list handle) h :
  program_memory h = true -> Forall (fun h => program_memory h = false) hs -> cnt h hs = 0.
Proof.
  intros Hh. induction 1 as [|x hs Hx _ IH]; [done|]. rewrite cnt_cons, IH, decide_False; [done|].
  intros <-. by rewrite Hh in Hx.
Qed.

Definition not_ours (hs : list handle) : Prop := Forall (fun h => program_memory h = false) hs.

Lemma not_ours_hostbuf p : not_ours (h_hostbuf p).
Proof. unfold h_hostbuf. destruct (p =? 0); repeat constructor. Qed.

Lemma not_ours_event p : not_ours (h_event p).
Proof. unfold h_event. destruct (p =? 0); repeat constructor. Qed.

Lemma not_ours_entry e : not_ours (own_entry e).
Proof. apply Forall_app. split; [destruct (mr e); repeat constructor|apply not_ours_hostbuf]. Qed.

Lemma not_ours_flat_map {A} (f : A -> list handle) l : (forall a, not_ours (f a)) -> not_ours (flat_map f l).
Proof. intros Hf. induction l as [|a l IH]; [constructor|]. apply Forall_app. split; [apply Hf|exact IH]. Qed.

Lemma not_ours_opt {A} (f : A -> list handle) o : (forall a, not_ours (f a)) -> not_ours (own_opt f o).
Proof. intros Hf. destruct o; [apply Hf|constructor]. Qed.

Lemma not_ours_instance i : not_ours (own_instance i).
Proof.
  unfold own_instance. apply Forall_app. split; [repeat constructor|]. apply Forall_app. split; [repeat constructor|].
  apply Forall_app. split; apply not_ours_flat_map.
  - intros o. apply not_ours_opt. repeat constructor.
  - intros c. apply not_ours_event.
Qed.

Lemma not_ours_platform p : not_ours (own_platform p).
Proof.
  unfold own_platform. destruct p as [[v|]|]; [|constructor..]. cbn [own_verbs]. unfold h_library.
  destruct (_ =? 0); repeat constructor.
Qed.

(** So once the program holds none of it, none is left *)
Lemma Inv_program_memory F g h :
  Inv F g -> program_memory h = true -> bal h (m_trace (g_mem g)) = cnt h (f_open F).
Proof.
  intros HI Hh. rewrite (Inv_open _ _ _ HI).
  rewrite (msum_zero _ (m_ents _)) by (intros; apply cnt_none; [done|apply not_ours_entry]).
  rewrite (msum_zero _ (g_insts _)) by (intros; apply cnt_none; [done|apply not_ours_instance]).
  rewrite (cnt_none (own_platform _)) by (done || apply not_ours_platform).
  rewrite (cnt_none (m_leaked _)); [lia|done|]. apply Forall_forall. intros x Hx.
  apply (mem_leaked _ (inv_mem _ _ HI)) in Hx. by destruct x.
Qed.

(** *** What [main()] leaves *)

Section main_keeps.
Context `{E : World} `{B : BuildConfig} `{C : MinioCpp} (bad : stop -> Prop) `{!LibraryKeeps bad}.
Variable hipGetErrorString : Z -> chars.

(** [m] keeps the invariant, whatever else is held *)
Definition leaves_sound {A} (m : I A) : Prop :=
  forall F s, f_elsewhere F = [] -> Inv F (mn_process s) -> wp bad m (fun _ s' => Inv F (mn_process s')) s.

Lemma sound_steady {A} (m : I A) : isteady bad m -> leaves_sound m.
Proof. intros Hm F s HF HI. eapply wp_mono; [by apply Hm|]. by intros a s' [HI' _]. Qed.

Lemma sound_counts rdma http m : counts bad rdma http m -> leaves_sound m.
Proof. intros Hm F s HF HI. eapply wp_mono; [by apply Hm|]. by intros a s' [HI' _]. Qed.

Lemma sound_bind {A D} (m : I A) (k : A -> I D) :
  leaves_sound m -> (forall a, leaves_sound (k a)) -> leaves_sound (m ≫= k).
Proof.
  intros Hm Hk F s HF HI. apply wp_bind. eapply wp_mono; [by apply Hm|]. cbv beta. intros a s1 HI1. by apply Hk.
Qed.

Lemma give_up_steady text : isteady bad (give_up_with text).
Proof. unfold give_up_with, say_err. repeat isteady_step. Qed.

Lemma report_steady hostbuf n seed : isteady bad (report hostbuf n seed).
Proof.
  unfold report, TransferStatsSnapshot, say_out. repeat (apply give_up_steady || isteady_step).
Qed.

Lemma put_and_get_sound base_url gpu p n seed :
  leaves_sound (@put_and_get E SysfsTopology C hipGetErrorString base_url gpu p n seed).
Proof.
  unfold put_and_get. apply sound_bind; [eapply sound_counts, PutObject_counts; apply _|]. intros presp.
  destruct (is_error presp); [apply sound_steady, give_up_steady|].
  apply sound_bind; [apply sound_steady; unfold say_out; repeat isteady_step|]. intros _.
  apply sound_bind; [apply sound_steady; unfold clobber; repeat isteady_step|]. intros _.
  apply sound_bind; [eapply sound_counts, GetObject_counts; apply _|]. intros gresp.
  apply sound_steady. unfold say_out, read_back. repeat (apply give_up_steady || apply report_steady || isteady_step).
Qed.
(** Steps that open the program's memory, or free it *)
Lemma wp_out_acquires {A} own (c : call A) F (Q : A -> Minio -> Prop) s :
  acquires bad own (perform c) -> Inv F (mn_process s) ->
  (forall a s', Inv (hold_open (own a) F) (mn_process s') -> Q a s') -> wp bad (out (perform c)) Q s.
Proof. intros Hc HI HQ. by apply wp_zoom, (wp_outside_acquires bad F own); [..|intros a g HI'; apply HQ]. Qed.

Lemma wp_out_frees {A} hs (c : call A) F (Q : A -> Minio -> Prop) s :
  (forall r h, delta h (Ev c r) = - cnt h hs) -> Inv (hold_open hs F) (mn_process s) ->
  (forall a s', Inv F (mn_process s') -> Q a s') -> wp bad (out (perform c)) Q s.
Proof. intros Hc HI HQ. by apply wp_zoom, (wp_outside_frees bad F hs); [..|intros a g HI'; apply HQ]. Qed.

(** What the deleter frees *)
Definition buffer_memory (d : BufferDeleter) (ptr : Z) : list handle := if onGpu d then h_device ptr else h_aligned ptr.

Lemma wp_destroy_buffer d ptr F (Q : unit -> Minio -> Prop) s :
  Inv (hold_open (buffer_memory d ptr) F) (mn_process s) -> (forall s', Inv F (mn_process s') -> Q tt s') ->
  wp bad (destroy_buffer d ptr) Q s.
Proof.
  intros HI HQ. unfold destroy_buffer. destruct (ptr =? 0) eqn:Hp.
  - apply wp_ret, HQ. unfold buffer_memory, h_device, h_aligned in HI. rewrite Hp in HI.
    destruct (onGpu d); by rewrite hold_open_nil in HI.
  - unfold buffer_memory in HI. destruct (onGpu d).
    + apply wp_bind, (wp_out_frees (h_device ptr) _ F); [done|done|]. intros r s' HI'. by apply wp_ret, HQ.
    + apply (wp_out_frees (h_aligned ptr) _ F); [done|done|]. intros [] s' HI'. by apply HQ.
Qed.

(** With the buffer, whose deleter runs at the end *)
Lemma sound_with_buffer {A} d ptr (m : I A) F s :
  leaves_sound m -> f_elsewhere F = [] -> Inv (hold_open (buffer_memory d ptr) F) (mn_process s) ->
  wp bad (r ← m; _ ← destroy_buffer d ptr; mret r) (fun _ s' => Inv F (mn_process s')) s.
Proof.
  intros Hm HF HI. apply wp_bind. eapply wp_mono; [by apply (Hm (hold_open (buffer_memory d ptr) F))|]. cbv beta.
  intros r s1 HI1. apply wp_bind, (wp_destroy_buffer d ptr F); [done|]. intros s2 HI2. by apply wp_ret.
Qed.

Lemma on_gpu_sound base_url expected n seed :
  leaves_sound (@on_gpu E SysfsTopology C hipGetErrorString base_url expected n seed).
Proof.
  intros F s HF HI. unfold on_gpu. apply wp_bind, (wp_out_acquires device_memory _ F); [apply hipMalloc_acquires|done|].
  intros [err p] s1 HI1. cbn beta iota. unfold device_memory in HI1. cbn [fst snd] in HI1.
  destruct (err =? hipSuccess); cbn [negb].
  - apply sound_with_buffer; [|done..]. apply sound_bind; [apply sound_steady; repeat isteady_step|]. intros e.
    destruct (negb _); [apply sound_steady, give_up_steady|].
    apply sound_bind; [apply sound_steady; repeat isteady_step|]. intros _.
    apply sound_bind; [apply sound_steady; unfold say_out; repeat isteady_step|]. intros _. apply put_and_get_sound.
  - rewrite hold_open_nil in HI1. by apply (sound_steady _ (give_up_steady _)).
Qed.

Lemma on_host_sound base_url expected n seed :
  leaves_sound (@on_host E SysfsTopology C hipGetErrorString base_url expected n seed).
Proof.
  apply sound_bind; [apply sound_steady; repeat isteady_step|]. intros pagesize.
  destruct (pagesize <=? 0); [apply sound_steady, give_up_steady|].
  intros F s HF HI. apply wp_bind, (wp_out_acquires h_aligned _ F); [apply aligned_new_acquires|done|].
  intros p s1 HI1. destruct (p =? 0) eqn:Hp.
  - unfold h_aligned in HI1. rewrite Hp, hold_open_nil in HI1. by apply (sound_steady _ (give_up_steady _)).
  - apply sound_with_buffer; [|done..]. apply sound_bind; [apply sound_steady; repeat isteady_step|]. intros _.
    apply sound_bind; [apply sound_steady; unfold say_out; repeat isteady_step|]. intros _. apply put_and_get_sound.
Qed.

Lemma getput_main_sound args : leaves_sound (@getput_main E SysfsTopology C hipGetErrorString args).
Proof.
  unfold getput_main. destruct (_ <? _)%nat; [apply sound_steady, give_up_steady|].
  destruct (size_arg args) as [n|]; [|apply sound_steady, give_up_steady].
  repeat (apply sound_bind; [apply sound_steady; unfold say_out; repeat isteady_step|]; intros ?).
  destruct (gpu_arg args); [apply on_gpu_sound|apply on_host_sound].
Qed.
End main_keeps.

(** *** What a success means *)

Section verified.
Context `{E : World} `{T : NicTopology} `{C : MinioCpp}.
Variable hipGetErrorString : Z -> chars.

Lemma gave_up text s r s' : give_up_with text s = (inl r, s') -> r = 1.
Proof. intros H. apply bind_returns in H as (x & s1 & _ & H). by injection H as <- _. Qed.

Lemma fill_from_bytes n i seed : Forall is_byte (fill_from n i seed).
Proof.
  revert i. induction n as [|n IH]; intros i; cbn [fill_from]; constructor; [|done].
  unfold PatternByte, is_byte, wrapu. cbv zeta. apply Z.mod_pos_bound. lia.
Qed.

Lemma pattern_of_codes hostbuf bs : Forall is_byte bs -> code <$> hostbuf = bs -> hostbuf = chr <$> bs.
Proof.
  intros Hbs <-. clear Hbs. induction hostbuf as [|c l IH]; [done|]. cbn. f_equal; [|done].
  apply code_inj. rewrite code_chr; [done|]. unfold is_byte, code. pose proof (N_ascii_bounded c). lia.
Qed.

Lemma report_status hostbuf n seed s r s' : report hostbuf n seed s = (inl r, s') -> r = 0 \/ r = 1.
Proof.
  intros H. unfold report in H. apply bind_returns in H as (opened & s1 & _ & H).
  destruct (negb opened); [apply gave_up in H; by right|].
  do 5 apply bind_returns in H as (? & ? & _ & H). injection H as <- _. destruct (_ =? _); auto.
Qed.

Lemma report_ok hostbuf n seed s s' :
  report hostbuf n seed s = (inl 0, s') -> List.length hostbuf = Z.to_nat n -> 0 <= n ->
  hostbuf = chr <$> FillPattern (Z.to_nat n) seed.
Proof.
  intros H Hlen Hn. unfold report in H. apply bind_returns in H as (opened & s1 & _ & H).
  destruct (negb opened); [by apply gave_up in H|].
  do 2 apply bind_returns in H as (? & ? & _ & H). do 3 apply bind_returns in H as (? & ? & _ & H).
  destruct (_ =? n) eqn:Hok; [|done]. bools. apply pattern_of_codes; [apply fill_from_bytes|].
  rewrite <- Hlen, <- (length_fmap code hostbuf). apply FirstMismatch_first. rewrite length_fmap, Hlen. lia.
Qed.

Lemma read_back_length gpu p n s data s' :
  read_back gpu p n s = (inl (inr data), s') -> List.length data = Z.to_nat n.
Proof.
  assert (forall k d, List.length (vector_with k d) = k) as Hv.
  { intros k d. unfold vector_with, write_at. cbn [fst snd]. rewrite take_0, Nat.add_0_l. cbn [app].
    rewrite length_app, length_drop, length_replicate, length_take. lia. }
  unfold read_back. destruct gpu; intros H; apply bind_returns in H as (x & s1 & _ & H).
  - destruct x as [err d]. cbn beta iota in H. destruct (negb _); [done|]. injection H as <- _. apply Hv.
  - injection H as <- _. apply Hv.
Qed.

(** The exit status, and what 0 stands for *)
Definition exits (P : Prop) (m : I Z) : Prop :=
  forall s r s', m s = (inl r, s') -> (r = 0 \/ r = 1) /\ (r = 0 -> P).

Lemma exits_gave_up P text : exits P (give_up_with text).
Proof. intros s r s' ->%gave_up. split; [by right|done]. Qed.

Lemma exits_bind {A} P (m : I A) k : (forall a, exits P (k a)) -> exits P (m ≫= k).
Proof. intros Hk s r s' H. apply bind_returns in H as (a & s1 & _ & H). by eapply Hk. Qed.

Lemma exits_with P (m : I Z) (k : I unit) : exits P m -> exits P (r ← m; _ ← k; mret r).
Proof.
  intros Hm s r s' H. apply bind_returns in H as (r1 & s1 & Hr & H). apply bind_returns in H as (x & s2 & _ & H).
  injection H as <- _. by eapply Hm.
Qed.

Lemma exits_put_and_get args p n seed :
  size_arg args = Some n -> 0 <= n ->
  exits (verified args) (put_and_get hipGetErrorString (new_BaseUrl (default [] (args !! 1%nat)) false (lit "us-east-1"))
                           (gpu_arg args) p n seed).
Proof.
  intros Hsize Hn s r s' H. unfold put_and_get in H. apply bind_returns in H as (put & s2 & Hput & H).
  destruct (is_error put) eqn:He; [by eapply exits_gave_up|].
  apply bind_returns in H as ([] & s3 & Hsay & H). apply bind_returns in H as ([] & s4 & Hcl & H).
  apply bind_returns in H as (get & s5 & Hget & H). destruct (is_error get) eqn:He'; [by eapply exits_gave_up|].
  apply bind_returns in H as ([] & s6 & Hsay' & H). apply bind_returns in H as ([err|hostbuf] & s7 & Hread & H);
    [by eapply exits_gave_up|].
  pose proof (read_back_length _ _ _ _ _ _ Hread) as Hlen. split; [by eapply report_status|]. intros ->.
  apply report_ok in H; [|done..]. unfold is_error in He, He'. bools. rewrite H in Hread.
  exists p, n, seed, s, put, s2, s3, s4, get, s5, s6, s7. by repeat split.
Qed.

Lemma size_arg_nonneg args n : size_arg args = Some n -> 0 <= n.
Proof.
  unfold size_arg. destruct (args !! kSizeArg) as [arg|]; [|by intros [= <-]].
  intros [_ H]%parseNumber_numeral. assert (in_range uint64_t n = true) as Hr by by destruct H.
  unfold in_range in Hr. apply andb_true_iff in Hr as [Hlo _]. by apply Z.leb_le in Hlo.
Qed.

Lemma getput_main_exits args : exits (verified args) (getput_main hipGetErrorString args).
Proof.
  unfold getput_main. destruct (_ <? _)%nat; [apply exits_gave_up|].
  destruct (size_arg args) as [n|] eqn:Hn; [|apply exits_gave_up].
  pose proof (size_arg_nonneg _ _ Hn) as Hpos. do 3 (apply exits_bind; intros ?). cbv zeta.
  pose proof (fun p seed => exits_put_and_get args p n seed Hn Hpos) as Hexits. destruct (gpu_arg args).
  - apply exits_bind. intros [err p]. destruct (negb _); [apply exits_gave_up|]. apply exits_with, exits_bind.
    intros e. destruct (negb _); [apply exits_gave_up|]. do 2 (apply exits_bind; intros ?). apply Hexits.
  - apply exits_bind. intros pagesize. destruct (_ <=? _); [apply exits_gave_up|]. apply exits_bind. intros p.
    destruct (_ =? _); [apply exits_gave_up|]. apply exits_with. do 2 (apply exits_bind; intros ?). apply Hexits.
Qed.
End verified.

(** ** Properties *)

(** C17: the program says that the data survived the round trip only when it
    did. Whatever the library, the devices and the server do, [main()] ends,
    with 0 or 1, leaves the library sound, and has freed the buffer with the
    allocator that made it. And when it returns 0, the PUT and the GET both
    succeeded, with the buffer overwritten between them, and all of the bytes
    that were read back after the GET are the pattern's. *)
Theorem getput_main_verifies `{E : World} `{B : BuildConfig} `{C : MinioCpp} (HC : SteadyClock E) (HP : PortsFit E)
    (hipGetErrorString : Z -> chars) (args : list chars) :
  wp (fun _ => False) (@getput_main E SysfsTopology C hipGetErrorString args) (fun r s =>
    (r = 0 \/ r = 1) /\ Inv no_frame (mn_process s) /\
    (forall h, program_memory h = true -> bal h (m_trace (g_mem (mn_process s))) = 0) /\
    (r = 0 -> @verified E SysfsTopology C args)) initial_minio.
Proof.
  pose proof (library_keeps_never HC HP) as HL.
  pose proof (getput_main_sound (fun _ => False) hipGetErrorString args no_frame initial_minio eq_refl Inv_initial) as Hs.
  unfold wp in *. destruct (getput_main _ _ _) as [[r|e] s] eqn:Hrun; [|done].
  apply getput_main_exits in Hrun as [Hr Hv]. split_and!; [done..| |done].
  intros h Hh. by rewrite (Inv_program_memory _ _ _ Hs Hh).
Qed.

(** A world in which a GET brings back what the PUT has sent: what's read
    from an address is what was written there first *)
Fixpoint first_written (addr : Z) (t : trace) : option chars :=
  match t with
  | [] => None
  | Ev (write_buffer a d) _ :: t' =>
      match first_written addr t' with Some d' => Some d' | None => if a =? addr then Some d else None end
  | _ :: t' => first_written addr t'
  end.

Definition honest : World := fun t A c =>
  match c in call A return A with
  | read_buffer a n => take (Z.to_nat n) (default [] (first_written a t))
  | c => @respond (lab working) t _ c
  end.

#[local] Instance honest_steady : SteadyClock honest.
Proof. split. intros t. apply Z.le_refl. Qed.

Lemma honest_ports : PortsFit honest.
Proof. split. intros t ctx. reflexivity. Qed.

#[local] Instance getput_build : BuildConfig := {| HIPOBJ_BNXT := true; HIPOBJ_IONIC := true |}.

Definition host_argv : list chars := [lit "getput"; lit "s3"; lit "me"; lit "x"; lit "24"; lit "host"].

(** In [honest], the program succeeds; in [lab working], in which RDMA
    transfers succeed and move nothing, it finds out *)
Example getput_finds_out :
  fst (@getput_main honest (@SysfsTopology honest) lab_minio to_string host_argv initial_minio) = inl 0 /\
  fst (@getput_main (lab working) (@SysfsTopology (lab working)) lab_minio to_string host_argv initial_minio) = inl 1.
Proof. vm_compute. split; reflexivity. Qed.

Lemma getput_main_verifies_witness :
  let main := @getput_main honest (@SysfsTopology honest) lab_minio to_string host_argv in
  fst (main initial_minio) = inl 0 /\
  wp (fun _ => False) main (fun r s =>
    (r = 0 \/ r = 1) /\ Inv no_frame (mn_process s) /\
    (forall h, program_memory h = true -> bal h (m_trace (g_mem (mn_process s))) = 0) /\
    (r = 0 -> @verified honest (@SysfsTopology honest) lab_minio host_argv)) initial_minio.
Proof.
  split; [vm_compute; reflexivity|].
  exact (@getput_main_verifies honest getput_build lab_minio honest_steady honest_ports to_string host_argv).
Defined.
