(* ===== verification/MinioThreads.v ===== *)
(** * The minio-cpp integration's client, called by many threads
      ([integrations/minio-cpp/src/client.cpp],
      [integrations/minio-cpp/src/rdma.cpp])

    The client's calls as programs of threads.  An action is one call to the
    library, to minio-cpp or to the outside, one addition to a counter, or
    what [HipObjRuntime] does while it has its mutex.  What threads do within
    a call to the library is in [Threads]. *)

From Stdlib Require Import Ascii String.
From stdpp Require Import base numbers list gmap relations.
From S2P Require Import Prelude.
From S2P Require Import Programs.
From S2P Require Import Parse.
From S2P Require Import Token.
From S2P Require Import IbvCore.
From S2P Require Import World.
From S2P Require Import Topology.
From S2P Require Import Transport.
From S2P Require Import Buffer.
From S2P Require Import Abandoned.
From S2P Require Import State.
From S2P Require Import Invariant.
From S2P Require Import Api.
From S2P Require Import Safety.
From S2P Require Import Threads.
From S2P Require Import Behaviour.
From S2P Require Import ThreadSafety.
From S2P Require Import MinioRdma.
From S2P Require Import MinioClient.

(** ** Definitions *)

Abbreviation TI := (prog Minio).

Definition outT {A} (m : W A) : TI A := act (out m).
Definition libT {A} (m : G A) : TI A := act (lib m).

(** *** The counters: each is an atomic of its own *)

Definition CountRdmaPutT (n : Z) : TI unit :=
  _ ← act (count (fun s => s <| rdmaPuts ::= fun c => fetch_add c 1 |>));
  act (count (fun s => s <| rdmaBytes ::= fun c => fetch_add c n |>)).
Definition CountRdmaGetT (n : Z) : TI unit :=
  _ ← act (count (fun s => s <| rdmaGets ::= fun c => fetch_add c 1 |>));
  act (count (fun s => s <| rdmaBytes ::= fun c => fetch_add c n |>)).
Definition CountHttpPutT (n : Z) : TI unit :=
  _ ← act (count (fun s => s <| httpPuts ::= fun c => fetch_add c 1 |>));
  act (count (fun s => s <| httpBytes ::= fun c => fetch_add c n |>)).
Definition CountHttpGetT (n : Z) : TI unit :=
  _ ← act (count (fun s => s <| httpGets ::= fun c => fetch_add c 1 |>));
  act (count (fun s => s <| httpBytes ::= fun c => fetch_add c n |>)).

(** One load after the other *)
Definition load (f : TransferStats -> Z) : TI Z := act (s ← get_state; mret (f (mn_stats s))).
Definition TransferStatsSnapshotT : TI TransferStats :=
  a ← load rdmaPuts; b ← load rdmaGets; c ← load httpPuts; d ← load httpGets; e ← load rdmaBytes; f ← load httpBytes;
  mret {| rdmaPuts := a; rdmaGets := b; httpPuts := c; httpGets := d; rdmaBytes := e; httpBytes := f |}.

(** *** The transfers *)

(** The static of [rdmaDebugEnabled()] is initialized by one thread, while
    the others wait *)
Definition rdmaTraceT `{World} (line : chars) : TI unit :=
  on ← act rdmaDebugEnabled;
  if on : bool then outT (perform (print_stderr (Message (lit "hipobj: rdma: " ++ line)))) else mret tt.

Definition rdmaPutT `{World} `{MinioCpp} (sctx : S3RdmaContext) (token : option chars) (size : Z)
    : TI (RdmaResult * S3RdmaContext) :=
  let rdma_token := token_text token in
  date ← outT (perform UtcTime_Now);
  creds ← outT (perform Fetch);
  match part_params sctx with
  | None => mret (rdma_failed, sctx)
  | Some query_params =>
      match BuildUrl (ctx_url sctx) (lit "PUT") (ctx_region sctx) query_params (ctx_s3_bucket sctx) (ctx_s3_object sctx) with
      | None => mret (rdma_failed, sctx)
      | Some url =>
          let '(sign_headers, query_params) :=
            SignV4S3 (lit "PUT") (url_path url) (ctx_region sctx)
              (put_sign_headers (HostHeaderValue url) rdma_token date creds sctx) query_params
              (access_key creds) (secret_key creds) kUnsignedPayload date in
          let url := with_query_string (ToQueryString query_params) url in
          res ← outT (perform (Execute (rdma_request (lit "PUT") url sign_headers token)));
          if negb (bool_decide (res_error res = [])) then
            _ ← rdmaTraceT (lit "put: http failed (status=" ++ to_string (res_status_code res) ++ lit " error='" ++
                            res_error res ++ lit "')");
            mret (rdma_failed, sctx)
          else
            let '(ret, sctx, traced) := put_result res size sctx in
            if traced : bool then
              _ ← rdmaTraceT (lit "put: rdma reply " ++
                              to_string (default 0 (parseRdmaReply (GetFront (res_headers res) kAmzRdmaReply))) ++
                              lit " (http status " ++ to_string (res_status_code res) ++ lit ")");
              mret (ret, sctx)
            else mret (ret, sctx)
      end
  end.

Definition rdmaGetT `{World} `{MinioCpp} (sctx : S3RdmaContext) (token : option chars) (size : Z) : TI RdmaResult :=
  let rdma_token := token_text token in
  date ← outT (perform UtcTime_Now);
  creds ← outT (perform Fetch);
  match BuildUrl (ctx_url sctx) (lit "GET") (ctx_region sctx) [] (ctx_s3_bucket sctx) (ctx_s3_object sctx) with
  | None => mret rdma_failed
  | Some url =>
      let '(sign_headers, _) :=
        SignV4S3 (lit "GET") (url_path url) (ctx_region sctx)
          (get_sign_headers (HostHeaderValue url) rdma_token date creds) []
          (access_key creds) (secret_key creds) kUnsignedPayload date in
      res ← outT (perform (Execute (rdma_request (lit "GET") url sign_headers token)));
      if negb (bool_decide (res_error res = [])) then
        _ ← rdmaTraceT (lit "get: http failed (status=" ++ to_string (res_status_code res) ++ lit " error='" ++
                        res_error res ++ lit "')");
        mret rdma_failed
      else
        let reply_code := parseRdmaReply (GetFront (res_headers res) kAmzRdmaReply) in
        let '(ret, traced) := get_result res size in
        if traced : bool then
          _ ← rdmaTraceT
                (if negb (bool_decide (reply_code = Some kRdmaReplySuccess)) &&
                    negb (bool_decide (reply_code = Some kRdmaReplyPartialContent))
                 then lit "get: rdma reply " ++ to_string (default 0 reply_code) ++
                      lit " (http status " ++ to_string (res_status_code res) ++ lit ")"
                 else lit "get: malformed or out-of-range " ++ kAmzRdmaBytesTransferred ++ lit " header");
          mret ret
        else mret ret
  end.

Definition attempt_tokenT `{World} (name : chars) (buf size op : Z) : TI (option chars) :=
  '(terr, token) ← libT (hipObjGetRdmaToken buf size op true);
  if negb (bool_decide (opError terr = hipObjSuccess)) || bool_decide (token = None) then
    _ ← rdmaTraceT (name ++ lit ": token: " ++ hipObjGetErrorString (opError terr));
    mret None
  else mret token.

Definition attempt_syncT `{World} (what : chars) (buf size direction : Z) : TI bool :=
  serr ← libT (hipObjBufSync buf size 0 direction);
  if negb (bool_decide (opError serr = hipObjSuccess)) then
    _ ← rdmaTraceT (what ++ hipObjGetErrorString (opError serr));
    mret false
  else mret true.

Fixpoint put_attemptsT `{World} `{MinioCpp} (attempts : nat) (ret : RdmaResult) (sctx : S3RdmaContext) (buf size : Z)
    : TI (RdmaResult * S3RdmaContext) :=
  match attempts with
  | O => mret (ret, sctx)
  | S attempts =>
      token ← attempt_tokenT (lit "put") buf size HIPOBJ_RDMA_OP_PUT;
      match token with
      | None => mret (rdma_failed, sctx)
      | Some token =>
          staged ← attempt_syncT (lit "put: stage to host: ") buf size HIPOBJ_SYNC_TO_HOST;
          if negb staged then mret (rdma_failed, sctx)
          else
            '(ret, sctx) ← rdmaPutT sctx (Some token) size;
            if moved ret || bool_decide (rdma_status ret = RdmaNotSupported) then mret (ret, sctx)
            else put_attemptsT attempts ret sctx buf size
      end
  end.

Fixpoint get_attemptsT `{World} `{MinioCpp} (attempts : nat) (ret : RdmaResult) (sctx : S3RdmaContext) (buf size : Z)
    : TI RdmaResult :=
  match attempts with
  | O => mret ret
  | S attempts =>
      token ← attempt_tokenT (lit "get") buf size HIPOBJ_RDMA_OP_GET;
      match token with
      | None => mret rdma_failed
      | Some token =>
          ret ← rdmaGetT sctx (Some token) size;
          if moved ret then
            staged ← attempt_syncT (lit "get: stage to device: ") buf size HIPOBJ_SYNC_TO_DEVICE;
            if negb staged then mret rdma_failed else mret ret
          else if bool_decide (rdma_status ret = RdmaNotSupported) then mret ret
          else get_attemptsT attempts ret sctx buf size
      end
  end.

(** *** The client *)

Fixpoint write_allT `{World} (buf : Z) (writes : list (nat * chars)) : TI unit :=
  match writes with
  | [] => mret tt
  | (offset, data) :: writes =>
      _ ← outT (perform (write_buffer (buf + Z.of_nat offset) data)); write_allT buf writes
  end.

Definition BufDeregistererT `{World} (ptr : Z) : TI unit :=
  if ptr =? 0 then mret tt else _ ← libT (hipObjBufDeregister ptr); mret tt.

Definition HttpGetIntoBufferT `{World} (args : s3_args) (size : Z) : TI s3_response :=
  '(resp, chunks) ← outT (perform (s3_GetObject (http_get_args args)));
  _ ← (if negb (is_error resp)
       then outT (perform (write_buffer (a_buf args) (buffered chunks (Z.to_nat size)))) else mret tt);
  _ ← CountHttpGetT size;
  mret resp.

Definition register_hereT `{World} (buf size : Z) : TI (hipObjError_t + Z) :=
  reg_err ← libT (hipObjBufRegister buf size);
  if negb (bool_decide (opError reg_err = hipObjSuccess)) &&
     negb (bool_decide (opError reg_err = hipObjBufAlreadyRegistered)) then mret (inl reg_err)
  else mret (inr (if bool_decide (opError reg_err = hipObjSuccess) then buf else 0)).

Section client.
Context `{World} `{NicTopology} `{MinioCpp} (base_url : BaseUrl).

Definition put_registeredT (args : s3_args) (size : Z) : TI s3_response :=
  '(resp, r) ← outT (perform (s3_GetRegion (a_bucket args) (a_region args)));
  if is_error resp then mret (error_response (s3_error resp))
  else
    '(ret, ctx) ← put_attemptsT kRdmaMaxAttempts rdma_failed (rdma_context base_url args r) (a_buf args) size;
    if moved ret then
      _ ← CountRdmaPutT (bytes ret); mret (RdmaResponse (etag ctx))
    else
      device ← act (IsDevicePointer (a_buf args));
      if device : bool then
        mret (error_response (lit "RDMA PUT failed (" ++ DescribeFailure ret ++
                              lit ") and the payload is device memory; no HTTP fallback is possible"))
      else
        _ ← outT (perform (print_stderr (Message (lit "hipobj: RDMA PUT failed (" ++ DescribeFailure ret ++
                                                  lit "); falling back to HTTP"))));
        _ ← CountHttpPutT size;
        outT (perform (s3_PutObject (http_put_args args (StreamOfBuffer (a_buf args) size) size))).

Definition PutObjectT (args : s3_args) : TI s3_response :=
  let '(err, args) := ValidatePut args in
  match err with
  | Some err => mret (error_response err)
  | None =>
      if a_buf args =? 0 then outT (perform (s3_PutObject args))
      else
        match a_size args with
        | None => mret (error_response (lit "size must be set when buf is set"))
        | Some size =>
            if negb (fits_long size) then mret (error_response (lit "object size is too large"))
            else
              init_err ← act (EnsureInit base_url);
              if negb (bool_decide (opError init_err = hipObjSuccess)) then
                content ← outT (perform (read_buffer (a_buf args) size));
                _ ← CountHttpPutT size;
                outT (perform (s3_PutObject (http_put_args args (StreamOfCopy content) size)))
              else
                registered ← register_hereT (a_buf args) size;
                match registered with
                | inl reg_err =>
                    mret (error_response (lit "hipObjBufRegister failed: " ++ hipObjGetErrorString (opError reg_err)))
                | inr registration =>
                    resp ← put_registeredT args size; _ ← BufDeregistererT registration; mret resp
                end
        end
  end.

Definition get_registeredT (args : s3_args) (size : Z) : TI s3_response :=
  '(resp, r) ← outT (perform (s3_GetRegion (a_bucket args) (a_region args)));
  if is_error resp then mret (error_response (s3_error resp))
  else
    let ctx := rdma_context base_url args r in
    ret ← get_attemptsT kRdmaMaxAttempts rdma_failed ctx (a_buf args) size;
    if moved ret then
      _ ← CountRdmaGetT (bytes ret); mret (RdmaResponse (etag ctx))
    else
      device ← act (IsDevicePointer (a_buf args));
      if device : bool then
        mret (error_response (lit "RDMA GET failed (" ++ DescribeFailure ret ++
                              lit ") and the destination is device memory; no HTTP fallback is possible"))
      else
        _ ← outT (perform (print_stderr (Message (lit "hipobj: RDMA GET failed (" ++ DescribeFailure ret ++
                                                  lit "); falling back to HTTP"))));
        _ ← CountHttpGetT size;
        '(resp, chunks) ← outT (perform (s3_GetObject (http_get_args args)));
        _ ← write_allT (a_buf args) (streamed chunks (Z.to_nat size) 0);
        mret resp.

Definition GetObjectT (args : s3_args) : TI s3_response :=
  let '(err, args) := ValidateGet args in
  match err with
  | Some err => mret (error_response err)
  | None =>
      if a_buf args =? 0 then
        '(resp, _) ← outT (perform (s3_GetObject args)); mret resp
      else
        match a_size args with
        | None => mret (error_response (lit "size must be set when buf is set"))
        | Some size =>
            init_err ← act (EnsureInit base_url);
            if negb (bool_decide (opError init_err = hipObjSuccess)) then HttpGetIntoBufferT args size
            else
              registered ← register_hereT (a_buf args) size;
              match registered with
              | inl reg_err =>
                  mret (error_response (lit "hipObjBufRegister failed: " ++ hipObjGetErrorString (opError reg_err)))
              | inr registration =>
                  resp ← get_registeredT args size; _ ← BufDeregistererT registration; mret resp
              end
        end
  end.
End client.

(** A call of the client's, by one thread *)
Record client_call := { put : bool; on_url : BaseUrl; with_args : s3_args }.

Definition run_call `{World} `{NicTopology} `{MinioCpp} (c : client_call) : TI s3_response :=
  (if put c then PutObjectT else GetObjectT) (on_url c) (with_args c).

(** *** What the counters add up to *)

Definition plus (a b : TransferStats) : TransferStats :=
  {| rdmaPuts := rdmaPuts a + rdmaPuts b; rdmaGets := rdmaGets a + rdmaGets b; httpPuts := httpPuts a + httpPuts b;
     httpGets := httpGets a + httpGets b; rdmaBytes := rdmaBytes a + rdmaBytes b; httpBytes := httpBytes a + httpBytes b |}.

Definition wrapped (a : TransferStats) : TransferStats :=
  {| rdmaPuts := wrapu 64 (rdmaPuts a); rdmaGets := wrapu 64 (rdmaGets a); httpPuts := wrapu 64 (httpPuts a);
     httpGets := wrapu 64 (httpGets a); rdmaBytes := wrapu 64 (rdmaBytes a); httpBytes := wrapu 64 (httpBytes a) |}.

Definition total (ds : list TransferStats) : TransferStats := foldr plus no_stats ds.

(** One transfer of [n] bytes *)
Definition over_rdma (put : bool) (n : Z) : TransferStats :=
  if put then no_stats <| rdmaPuts := 1 |> <| rdmaBytes := n |> else no_stats <| rdmaGets := 1 |> <| rdmaBytes := n |>.
Definition over_http (put : bool) (n : Z) : TransferStats :=
  if put then no_stats <| httpPuts := 1 |> <| httpBytes := n |> else no_stats <| httpGets := 1 |> <| httpBytes := n |>.

Definition call_size `{MinioCpp} (c : client_call) : Z :=
  sized (snd ((if put c then ValidatePut else ValidateGet) (with_args c))).

(** What a call adds to the counters: a transfer over RDMA, when that's what
    moved the data; one over HTTP, when it was tried; or nothing *)
Definition added `{MinioCpp} (c : client_call) (resp : s3_response) (d : TransferStats) : Prop :=
  (exists n, s3_error resp = [] /\ 0 < n <= call_size c /\ (put c = true -> n = call_size c) /\ d = over_rdma (put c) n) \/
  d = over_http (put c) (call_size c) \/
  d = no_stats.

(** What's true between the actions of threads: the library's invariant, and
    [HipObjRuntime] knows whether there's an instance *)
Record shared_ok (s : Minio) : Prop := {
  shared_inv : Inv no_frame (mn_process s);
  shared_runtime : initialized_ s = true <-> is_Some (g_current (mn_process s));
  shared_stats : wrapped (mn_stats s) = mn_stats s;
}.

(** A program that has added [d], and is run from there *)
Fixpoint counting {A} (d : TransferStats) (p : TI A) (Q : A -> TransferStats -> Prop) : Prop :=
  match p with
  | Ret a => Q a d
  | Act m k => forall s, shared_ok s ->
      wp never m (fun x s' => shared_ok s' /\
        exists e, mn_stats s' = wrapped (plus (mn_stats s) e) /\ counting (plus d e) (k x) Q) s
  | _ => False
  end.

(** ** Lemmas *)

(** *** With no other thread in between *)

Section alone.
Context `{E : World} `{T : NicTopology} `{C : MinioCpp}.

Lemma alone_CountRdmaPut n : alone (CountRdmaPutT n) ≡ count (CountRdmaPut n).
Proof. by intros s. Qed.

Lemma alone_CountRdmaGet n : alone (CountRdmaGetT n) ≡ count (CountRdmaGet n).
Proof. by intros s. Qed.

Lemma alone_CountHttpPut n : alone (CountHttpPutT n) ≡ count (CountHttpPut n).
Proof. by intros s. Qed.

Lemma alone_CountHttpGet n : alone (CountHttpGetT n) ≡ count (CountHttpGet n).
Proof. by intros s. Qed.

Lemma alone_snapshot : alone TransferStatsSnapshotT ≡ TransferStatsSnapshot.
Proof. intros s. unfold TransferStatsSnapshot, TransferStatsSnapshotT, load. destruct s as [p i k [] d]. reflexivity. Qed.

Lemma rdmaTrace_alone line : alone (rdmaTraceT line) ≡ rdmaTrace line.
Proof. unfold rdmaTraceT, rdmaTrace, outT. repeat astep. Qed.

Lemma rdmaPut_alone sctx token size : alone (rdmaPutT sctx token size) ≡ rdmaPut sctx token size.
Proof. unfold rdmaPutT, rdmaPut, outT. repeat (apply rdmaTrace_alone || astep). Qed.

Lemma rdmaGet_alone sctx token size : alone (rdmaGetT sctx token size) ≡ rdmaGet sctx token size.
Proof. unfold rdmaGetT, rdmaGet, outT. repeat (apply rdmaTrace_alone || astep). Qed.

Lemma put_attempts_alone n ret sctx buf size : alone (put_attemptsT n ret sctx buf size) ≡ put_attempts n ret sctx buf size.
Proof.
  revert ret sctx. induction n as [|n IH]; intros ret sctx; cbn [put_attemptsT put_attempts]; [done|].
  unfold attempt_tokenT, attempt_token, attempt_syncT, attempt_sync, libT.
  repeat (apply rdmaTrace_alone || apply rdmaPut_alone || apply IH || astep).
Qed.

Lemma get_attempts_alone n ret sctx buf size : alone (get_attemptsT n ret sctx buf size) ≡ get_attempts n ret sctx buf size.
Proof.
  revert ret. induction n as [|n IH]; intros ret; cbn [get_attemptsT get_attempts]; [done|].
  unfold attempt_tokenT, attempt_token, attempt_syncT, attempt_sync, libT.
  repeat (apply rdmaTrace_alone || apply rdmaGet_alone || apply IH || astep).
Qed.

Lemma write_all_alone buf writes : alone (write_allT buf writes) ≡ write_all buf writes.
Proof. induction writes as [|[o d] writes IH]; cbn [write_allT write_all]; unfold outT; repeat (apply IH || astep). Qed.

Ltac client_step :=
  match goal with
  | |- alone (put_attemptsT _ _ _ _ _) ≡ _ => apply put_attempts_alone
  | |- alone (get_attemptsT _ _ _ _ _) ≡ _ => apply get_attempts_alone
  | |- alone (write_allT _ _) ≡ _ => apply write_all_alone
  | |- alone (CountRdmaPutT _) ≡ _ => apply alone_CountRdmaPut
  | |- alone (CountRdmaGetT _) ≡ _ => apply alone_CountRdmaGet
  | |- alone (CountHttpPutT _) ≡ _ => apply alone_CountHttpPut
  | |- alone (CountHttpGetT _) ≡ _ => apply alone_CountHttpGet
  | |- _ => astep
  end.

Section url.
Variable base_url : BaseUrl.

Lemma register_here_alone buf size : alone (register_hereT buf size) ≡ register_here buf size.
Proof. unfold register_hereT, register_here, libT. repeat client_step. Qed.

Lemma BufDeregisterer_alone p : alone (BufDeregistererT p) ≡ BufDeregisterer p.
Proof. unfold BufDeregistererT, BufDeregisterer, libT. repeat client_step. Qed.

Lemma HttpGetIntoBuffer_alone args size : alone (HttpGetIntoBufferT args size) ≡ HttpGetIntoBuffer args size.
Proof. unfold HttpGetIntoBufferT, HttpGetIntoBuffer, outT. repeat client_step. Qed.

Lemma put_registered_alone args size : alone (put_registeredT base_url args size) ≡ put_registered base_url args size.
Proof. unfold put_registeredT, put_registered, outT, rdmaPutWithRetry. repeat client_step. Qed.

Lemma get_registered_alone args size : alone (get_registeredT base_url args size) ≡ get_registered base_url args size.
Proof. unfold get_registeredT, get_registered, outT, rdmaGetWithRetry. cbv zeta. repeat client_step. Qed.

Ltac call_step :=
  match goal with
  | |- alone (register_hereT _ _) ≡ _ => apply register_here_alone
  | |- alone (BufDeregistererT _) ≡ _ => apply BufDeregisterer_alone
  | |- alone (HttpGetIntoBufferT _ _) ≡ _ => apply HttpGetIntoBuffer_alone
  | |- alone (put_registeredT _ _ _) ≡ _ => apply put_registered_alone
  | |- alone (get_registeredT _ _ _) ≡ _ => apply get_registered_alone
  | |- _ => client_step
  end.

Lemma PutObject_alone args : alone (PutObjectT base_url args) ≡ PutObject base_url args.
Proof. unfold PutObjectT, PutObject, outT. repeat call_step. Qed.

Lemma GetObject_alone args : alone (GetObjectT base_url args) ≡ GetObject base_url args.
Proof. unfold GetObjectT, GetObject, outT. repeat call_step. Qed.
End url.
End alone.

(** *** Adding to the counters *)

Lemma plus_assoc a b c : plus a (plus b c) = plus (plus a b) c.
Proof. unfold plus. cbn. f_equal; lia. Qed.

Lemma plus_comm a b : plus a b = plus b a.
Proof. unfold plus. f_equal; lia. Qed.

Lemma plus_none a : plus a no_stats = a.
Proof. destruct a. unfold plus. cbn. f_equal; lia. Qed.

Lemma wrapped_plus a b : wrapped (plus (wrapped a) b) = wrapped (plus a b).
Proof. unfold wrapped, plus, wrapu. cbn. f_equal; by rewrite Zplus_mod_idemp_l. Qed.

Lemma total_insert ds t d e :
  ds !! t = Some d -> total (<[t := plus d e]> ds) = plus (total ds) e.
Proof.
  revert t. induction ds as [|d' ds IH]; intros [|t] Ht; [done..| |]; cbn in *.
  - injection Ht as <-. by rewrite <- plus_assoc, (plus_comm e), plus_assoc.
  - by rewrite IH, plus_assoc.
Qed.

(** *** Programs of the client *)

Lemma counting_mono {A} (p : TI A) d (P Q : A -> TransferStats -> Prop) :
  counting d p P -> (forall a d', P a d' -> Q a d') -> counting d p Q.
Proof.
  revert d. induction p as [a|X m k IH|k IH|k IH]; intros d Hp HPQ; cbn in *; [by apply HPQ| |done..].
  intros s Hs. eapply wp_mono; [by apply Hp|]. cbv beta. intros x s' (Hs' & e & He & Hk). split; [done|].
  exists e. split; [done|]. by eapply IH.
Qed.

Lemma counting_bind {A D} (p : TI A) (k : A -> TI D) d Q :
  counting d p (fun a d' => counting d' (k a) Q) -> counting d (p ≫= k) Q.
Proof.
  revert d. induction p as [a|X m next IH|next IH|next IH]; intros d Hp; cbn in *; [done| |done..].
  intros s Hs. eapply wp_mono; [by apply Hp|]. cbv beta. intros x s' (Hs' & e & He & Hk). split; [done|].
  exists e. split; [done|]. by apply IH.
Qed.

(** An action that leaves the counters, the library's current instance, and
    [HipObjRuntime] alone *)
Definition calm {A} (m : I A) : Prop :=
  forall s, shared_ok s -> wp never m (fun _ s' => shared_ok s' /\ mn_stats s' = mn_stats s) s.

(** A program of such actions, whose results satisfy [P] *)
Definition quiet {A} (P : A -> Prop) (p : TI A) : Prop := forall d, counting d p (fun a d' => d' = d /\ P a).

Lemma quiet_ret {A} (P : A -> Prop) (a : A) : P a -> quiet P (mret a).
Proof. by intros Ha d. Qed.

Lemma quiet_act {A} (P : A -> Prop) (m : I A) : calm m -> (forall a, P a) -> quiet P (act m).
Proof.
  intros Hm HP d s Hs. eapply wp_mono; [by apply Hm|]. cbv beta. intros a s' [Hs' Hst]. split; [done|].
  exists no_stats. rewrite !plus_none, Hst. split; [|by split]. symmetry. apply (shared_stats _ Hs).
Qed.

Lemma quiet_bind {A D} (P : A -> Prop) (Q : D -> Prop) (p : TI A) (k : A -> TI D) :
  quiet P p -> (forall a, P a -> quiet Q (k a)) -> quiet Q (p ≫= k).
Proof.
  intros Hp Hk d. apply counting_bind. eapply counting_mono; [by apply Hp|]. cbv beta. intros a d' [-> Ha]. by apply Hk.
Qed.

Lemma counting_quiet {A D} (P : A -> Prop) (p : TI A) (k : A -> TI D) d Q :
  quiet P p -> (forall a, P a -> counting d (k a) Q) -> counting d (p ≫= k) Q.
Proof.
  intros Hp Hk. apply counting_bind. eapply counting_mono; [by apply Hp|]. cbv beta. intros a d' [-> Ha]. by apply Hk.
Qed.

(** *** What leaves the current instance alone *)

Section current.
Context `{E : World}.

Lemma current_drop_inst id : same_current (drop_inst id).
Proof. keeps_current. Qed.

Lemma current_currentInstance : same_current currentInstance.
Proof. keeps_current. Qed.

Lemma current_with_instance {A} (fail : hipObjError_t -> A) body :
  (forall id, same_current (body id)) -> same_current (with_instance fail body).
Proof.
  intros Hb. apply current_bind; [apply current_currentInstance|]. intros [id|]; [|apply current_ret].
  apply current_bind; [done|]. intros a. apply current_bind; [apply current_drop_inst|]. intros _. apply current_ret.
Qed.

Lemma current_if_ok {A} (fail : hipObjError_t -> A) err (next : G A) :
  same_current next -> same_current (if_ok fail err next).
Proof. intros Hn. unfold if_ok. case_bool_decide; [done|apply current_ret]. Qed.

Lemma current_with_checked_buffer {A} (fail : hipObjError_t -> A) inst p n offset (next : nat -> G A) :
  (forall b, same_current (next b)) -> same_current (with_checked_buffer fail inst p n offset next).
Proof.
  intros Hn. unfold with_checked_buffer, with_buffer. apply current_bind; [apply current_get_inst|]. intros i.
  apply current_bind; [apply current_mem|]. intros [b|].
  - apply current_bind; [|intros a; apply current_bind; [apply current_mem|intros _; apply current_ret]].
    apply current_bind; [apply current_mem|]. intros e. apply current_if_ok, current_bind.
    + unfold checkNoAbandonedCopy, on_abandoned. repeat current_step.
    + intros err. by apply current_if_ok.
  - apply current_bind; [apply current_ret|]. intros a. apply current_bind; [apply current_ret|]. intros _. apply current_ret.
Qed.

Lemma current_register p n : same_current (hipObjBufRegister p n).
Proof. apply current_with_instance. intros id. apply current_if_ok. unfold on_buffers. repeat current_step. Qed.

Lemma current_deregister p : same_current (hipObjBufDeregister p).
Proof. apply current_with_instance. intros id. unfold on_buffers, on_abandoned. repeat current_step. Qed.

Lemma current_sync p n offset direction : same_current (hipObjBufSync p n offset direction).
Proof.
  apply current_with_instance. intros id. destruct (_ && _); [apply current_ret|].
  apply current_with_checked_buffer. intros b.
  destruct (_ =? _); unfold stageToDevice, stageToHost, stageCopyWithDeadline, give_back_slot, on_abandoned;
    repeat current_step.
Qed.

Lemma current_token p n op out : same_current (hipObjGetRdmaToken p n op out).
Proof.
  apply current_with_instance. intros id. destruct (_ || _); [apply current_ret|].
  apply current_with_checked_buffer. intros b. repeat current_step.
Qed.
End current.

(** *** Actions of the client *)

Section client_counting.
Context `{E : World} `{B : BuildConfig} `{C : MinioCpp} `{!LibraryKeeps never} `{!TopologyOk never SysfsTopology}.

Lemma calm_ret {A} (a : A) : calm (mret a).
Proof. intros s Hs. by apply wp_ret. Qed.

Lemma calm_bind {A D} (m : I A) (k : A -> I D) : calm m -> (forall a, calm (k a)) -> calm (m ≫= k).
Proof.
  intros Hm Hk s Hs. apply wp_bind. eapply wp_mono; [by apply Hm|]. cbv beta. intros a s1 [Hs1 He1].
  eapply wp_mono; [by apply Hk|]. cbv beta. intros d s2 [Hs2 He2]. split; [done|congruence].
Qed.

Lemma calm_lib {A} (m : G A) : is_application m -> same_current m -> calm (lib m).
Proof.
  intros Hm Hc s Hs. apply wp_zoom. pose proof (library_keeps _ m Hm no_frame eq_refl _ (shared_inv _ Hs)) as Hk.
  unfold wp in *. destruct (m (mn_process s)) as [[a|e] g] eqn:Hr; [|done]. split; [|done].
  destruct Hs as [_ Hrun Hst]. split; [done| |done]. cbn. by rewrite (Hc _ _ _ Hr).
Qed.

Lemma calm_out {A} (c : call A) : (forall r h, delta h (Ev c r) = 0) -> calm (out (perform c)).
Proof. intros Hc. apply calm_lib; [apply app_own, own_call, Hc|apply current_mem]. Qed.

Lemma calm_get {A} (k : Minio -> I A) : (forall s, calm (k s)) -> calm (s ← get_state; k s).
Proof. intros Hk s Hs. apply wp_bind, wp_get. by apply Hk. Qed.

Lemma calm_debug on : calm (modify (fun s => s <| mn_debug := on |>)).
Proof. intros s [H1 H2 H3]. apply wp_modify. by split. Qed.

(** [quiet] programs, with what their results satisfy *)
Definition anything {A} (a : A) : Prop := True.

Lemma quiet_out {A} (c : call A) : (forall r h, delta h (Ev c r) = 0) -> quiet anything (outT (perform c)).
Proof. intros Hc. apply quiet_act; [by apply calm_out|done]. Qed.

Lemma quiet_lib {A} (m : G A) : is_application m -> same_current m -> quiet anything (libT m).
Proof. intros Hm Hc. apply quiet_act; [by apply calm_lib|done]. Qed.

Lemma quiet_let {A D} (P : D -> Prop) (p : TI A) (k : A -> TI D) :
  quiet anything p -> (forall a, quiet P (k a)) -> quiet P (p ≫= k).
Proof. intros Hp Hk. eapply quiet_bind; [done|]. intros a _. apply Hk. Qed.

Lemma quiet_trace line : quiet anything (rdmaTraceT line).
Proof.
  apply quiet_let.
  - apply quiet_act; [|done]. apply calm_get. intros s. destruct (mn_debug s); [apply calm_ret|].
    apply calm_bind; [by apply calm_out|]. intros v. apply calm_bind; [apply calm_debug|]. intros _. apply calm_ret.
  - intros on. destruct on; [by apply quiet_out|by apply quiet_ret].
Qed.

Lemma quiet_rdmaPut sctx token size :
  quiet (fun x => rdma_status (fst x) = Ok -> bytes (fst x) = size) (rdmaPutT sctx token size).
Proof.
  apply quiet_let; [by apply quiet_out|]. intros date. apply quiet_let; [by apply quiet_out|]. intros creds.
  destruct (part_params sctx) as [query|]; [|by apply quiet_ret].
  destruct (BuildUrl _ _ _ _ _ _) as [url|]; [|by apply quiet_ret]. destruct (SignV4S3 _ _ _ _ _ _ _ _ _) as [hs q].
  apply quiet_let; [by apply quiet_out|]. intros res.
  destruct (negb _); [apply quiet_let; [apply quiet_trace|]; intros _; by apply quiet_ret|].
  pose proof (put_result_bytes res size sctx) as Hb. destruct (put_result res size sctx) as [[ret ctx] traced].
  destruct traced; [apply quiet_let; [apply quiet_trace|]; intros _|]; by apply quiet_ret.
Qed.

Lemma quiet_rdmaGet sctx token size :
  quiet (fun ret => rdma_status ret = Ok -> bytes ret <= size) (rdmaGetT sctx token size).
Proof.
  apply quiet_let; [by apply quiet_out|]. intros date. apply quiet_let; [by apply quiet_out|]. intros creds.
  destruct (BuildUrl _ _ _ _ _ _) as [url|]; [|by apply quiet_ret]. destruct (SignV4S3 _ _ _ _ _ _ _ _ _) as [hs q].
  apply quiet_let; [by apply quiet_out|]. intros res.
  destruct (negb _); [apply quiet_let; [apply quiet_trace|]; intros _; by apply quiet_ret|].
  pose proof (get_result_bytes res size) as Hb. destruct (get_result res size) as [ret traced].
  destruct traced; [apply quiet_let; [apply quiet_trace|]; intros _|]; by apply quiet_ret.
Qed.

Lemma quiet_token name buf size op : quiet anything (attempt_tokenT name buf size op).
Proof.
  apply quiet_let; [apply quiet_lib; [apply app_token|apply current_token]|]. intros [err token].
  destruct (_ || _); [apply quiet_let; [apply quiet_trace|]; intros _|]; by apply quiet_ret.
Qed.

Lemma quiet_sync what buf size direction : quiet anything (attempt_syncT what buf size direction).
Proof.
  apply quiet_let; [apply quiet_lib; [apply app_sync|apply current_sync]|]. intros err.
  destruct (negb _); [apply quiet_let; [apply quiet_trace|]; intros _|]; by apply quiet_ret.
Qed.

Lemma quiet_put_attempts n ret sctx buf size :
  (rdma_status ret = Ok -> bytes ret = size) ->
  quiet (fun x => rdma_status (fst x) = Ok -> bytes (fst x) = size) (put_attemptsT n ret sctx buf size).
Proof.
  revert ret sctx. induction n as [|n IH]; intros ret sctx Hret; [by apply quiet_ret|].
  apply quiet_let; [apply quiet_token|]. intros [token|]; [|by apply quiet_ret].
  apply quiet_let; [apply quiet_sync|]. intros staged. destruct (negb staged); [by apply quiet_ret|].
  eapply quiet_bind; [apply quiet_rdmaPut|]. intros [ret1 ctx1] Hret1. cbn [fst] in Hret1. cbn beta iota.
  destruct (_ || _); [by apply quiet_ret|by apply IH].
Qed.

Lemma quiet_get_attempts n ret sctx buf size :
  (rdma_status ret = Ok -> bytes ret <= size) ->
  quiet (fun ret => rdma_status ret = Ok -> bytes ret <= size) (get_attemptsT n ret sctx buf size).
Proof.
  revert ret. induction n as [|n IH]; intros ret Hret; [by apply quiet_ret|].
  apply quiet_let; [apply quiet_token|]. intros [token|]; [|by apply quiet_ret].
  eapply quiet_bind; [apply quiet_rdmaGet|]. intros ret1 Hret1. cbn beta. destruct (moved ret1).
  - apply quiet_let; [apply quiet_sync|]. intros staged. destruct (negb staged); by apply quiet_ret.
  - destruct (bool_decide _); [by apply quiet_ret|by apply IH].
Qed.

(** *** [HipObjRuntime] *)

(** With the instance shut down *)
Definition down (s s' : Minio) : Prop :=
  Inv no_frame (mn_process s') /\ g_current (mn_process s') = None /\ initialized_ s' = false /\ mn_stats s' = mn_stats s.

Lemma wp_lib {A} (m : G A) Q s :
  wp never m (fun a g => Q a (s <| mn_process := g |>)) (mn_process s) -> wp never (lib m) Q s.
Proof. intros H. unfold lib. by apply wp_zoom. Qed.

Lemma out_runtime {A} (c : call A) s :
  wp never (out (perform c))
    (fun _ s' => g_current (mn_process s') = g_current (mn_process s) /\ initialized_ s' = initialized_ s) s.
Proof. done. Qed.

Lemma runtime_down s :
  shared_ok s ->
  wp never (if initialized_ s then _ ← lib hipObjShutdown; modify (fun s => s <| initialized_ := false |>) else mret tt)
    (fun _ s' => down s s') s.
Proof.
  intros [HI Hrun Hst]. destruct (initialized_ s) eqn:Hi.
  - apply wp_bind, wp_lib. unfold hipObjShutdown. apply wp_bind, (keeps_shutdownInstance never no_frame); [done|].
    intros g HI' Hc. by apply wp_ret, wp_modify.
  - apply wp_ret. split_and!; [done| |done|done].
    destruct (g_current (mn_process s)) eqn:Hc; [|done]. exfalso. by assert (false = true) by (apply Hrun; eauto).
Qed.

Lemma calm_EnsureInit base_url : calm (@EnsureInit E SysfsTopology base_url).
Proof.
  intros s Hs. unfold EnsureInit. apply wp_bind, wp_get. destruct (_ && _); [by apply wp_ret|].
  apply wp_bind. eapply wp_mono; [by apply runtime_down|]. cbv beta. intros _ s1 (HI1 & Hc1 & Hi1 & Hst1).
  pose proof (shared_stats _ Hs) as Hst.
  apply wp_bind. eapply wp_mono; [apply wp_conj; [|apply out_runtime]|].
  { apply (calm_out (getenv (lit "HIPOBJ_NIC_HINT"))); [done|]. split; [done| |by rewrite Hst1].
    rewrite Hi1, Hc1. split; [done|by intros [? ?]]. }
  cbv beta. intros hint s2 [[[HI2 _ Hst2'] Hst2] [Hc2 Hi2]]. apply wp_bind, wp_lib.
  eapply wp_mono; [apply wp_conj; [by apply (library_keeps _ _ (app_init _) no_frame)|by apply (hipObjInit_outcome never no_frame)]|].
  cbv beta. intros err g3 [HI3 Hout]. unfold init_outcome in Hout. apply wp_bind. case_bool_decide as He.
  - rewrite decide_True in Hout by done. destruct Hout as (_ & _ & id & i & Hcur & _).
    apply wp_modify, wp_ret. split; [|by cbn; congruence]. split; [done| |done].
    cbn. rewrite Hcur. split; [by eexists|done].
  - rewrite decide_False in Hout by done. destruct Hout as [Hu _].
    apply wp_ret, wp_ret. split; [|by cbn; congruence]. split; [done| |done].
    cbn. rewrite (Behaviour.same_current _ _ Hu), Hc2, Hc1, Hi2, Hi1. split; [done|by intros [? ?]].
Qed.

(** *** The calls *)

Lemma wrapped_idem a : wrapped (wrapped a) = wrapped a.
Proof. unfold wrapped, wrapu. cbn. f_equal; by rewrite Zmod_mod. Qed.

(** What a counting function adds *)
Definition adds (p : TI unit) (e : TransferStats) : Prop := counting no_stats p (fun _ d => d = e).

Lemma counting_count d e f (Q : unit -> TransferStats -> Prop) :
  (forall a, wrapped a = a -> f a = wrapped (plus a e)) -> Q tt (plus d e) -> counting d (act (count f)) Q.
Proof.
  intros Hf HQ s [HI Hrun Hst]. apply wp_modify. cbn. split.
  - split; [done|done|]. cbn. by rewrite Hf, wrapped_idem.
  - exists e. split; [by apply Hf|done].
Qed.

Ltac counting_step e :=
  apply (counting_count _ e);
  [intros [] Ha; unfold wrapped, plus, fetch_add in *; cbn in Ha |- *; injection Ha as ? ? ? ? ? ?; rewrite ?Z.add_0_r;
   repeat match goal with H : wrapu 64 ?x = ?x |- _ => rewrite ?H; clear H end; reflexivity|].

Lemma adds_rdma put n : adds (if put : bool then CountRdmaPutT n else CountRdmaGetT n) (over_rdma put n).
Proof.
  unfold adds. destruct put; apply counting_bind.
  - counting_step (no_stats <| rdmaPuts := 1 |>). by counting_step (no_stats <| rdmaBytes := n |>).
  - counting_step (no_stats <| rdmaGets := 1 |>). by counting_step (no_stats <| rdmaBytes := n |>).
Qed.

Lemma adds_http put n : adds (if put : bool then CountHttpPutT n else CountHttpGetT n) (over_http put n).
Proof.
  unfold adds. destruct put; apply counting_bind.
  - counting_step (no_stats <| httpPuts := 1 |>). by counting_step (no_stats <| httpBytes := n |>).
  - counting_step (no_stats <| httpGets := 1 |>). by counting_step (no_stats <| httpBytes := n |>).
Qed.

(** A call that hasn't counted yet *)
Definition counts_as (c : client_call) (p : TI s3_response) : Prop := counting no_stats p (added c).

Lemma counts_quiet c p : quiet anything p -> counts_as c p.
Proof. intros Hp. eapply counting_mono; [apply Hp|]. cbv beta. intros resp d [-> _]. by do 2 right. Qed.

Lemma counts_let c {A} (p : TI A) k : quiet anything p -> (forall a, counts_as c (k a)) -> counts_as c (p ≫= k).
Proof. intros Hp Hk. eapply counting_quiet; [exact Hp|]. intros a _. apply Hk. Qed.

(** Counting, and then nothing that counts *)
Lemma counts_add c p e (k : TI s3_response) :
  adds p e -> (forall resp, anything resp -> added c resp e) -> quiet anything k -> counts_as c (_ ← p; k).
Proof.
  intros Hp He Hk. apply counting_bind. eapply counting_mono; [exact Hp|]. cbv beta. intros _ d ->.
  eapply counting_mono; [apply Hk|]. cbv beta. intros resp d [-> Hr]. by apply He.
Qed.

Lemma call_counts_http c (k : TI s3_response) :
  quiet anything k -> counts_as c (_ ← (if put c then CountHttpPutT (call_size c) else CountHttpGetT (call_size c)); k).
Proof. intros Hk. eapply counts_add; [apply adds_http| |done]. intros resp _. right. by left. Qed.

Lemma call_counts_rdma c n tag :
  0 < n <= call_size c -> (put c = true -> n = call_size c) ->
  counts_as c (_ ← (if put c then CountRdmaPutT n else CountRdmaGetT n); mret (RdmaResponse tag)).
Proof.
  intros Hn Hput. apply counting_bind. eapply counting_mono; [apply adds_rdma|]. cbv beta. intros _ d ->.
  left. by exists n.
Qed.

Lemma call_counts_then c (p : TI s3_response) (k : TI unit) :
  counts_as c p -> quiet anything k -> counts_as c (resp ← p; _ ← k; mret resp).
Proof.
  intros Hp Hk. apply counting_bind. eapply counting_mono; [exact Hp|]. intros resp d Hd.
  eapply counting_quiet; [exact Hk|]. by intros _ _.
Qed.

Lemma quiet_device p : quiet anything (act (IsDevicePointer p)).
Proof.
  apply quiet_act; [|done]. apply calm_bind; [by apply calm_out|]. intros [err type]. destruct (negb _); apply calm_ret.
Qed.

Lemma quiet_registration p : quiet anything (BufDeregistererT p).
Proof.
  unfold BufDeregistererT. destruct (p =? 0); [by apply quiet_ret|].
  apply quiet_let; [apply quiet_lib; [apply app_deregister|apply current_deregister]|]. intros _. by apply quiet_ret.
Qed.

Lemma quiet_register_here p n : quiet anything (register_hereT p n).
Proof.
  apply quiet_let; [apply quiet_lib; [apply app_register|apply current_register]|]. intros err.
  destruct (_ && _); by apply quiet_ret.
Qed.

Lemma quiet_write_all buf writes : quiet anything (write_allT buf writes).
Proof.
  induction writes as [|[o d] writes IH]; [by apply quiet_ret|]. apply quiet_let; [by apply quiet_out|]. by intros _.
Qed.

Lemma counts_put_registered url args size base_args :
  sized (snd (ValidatePut base_args)) = size ->
  counts_as {| put := true; on_url := url; with_args := base_args |} (put_registeredT url args size).
Proof.
  intros <-. set (c := {| put := true; on_url := url; with_args := base_args |}).
  apply counts_let; [by apply quiet_out|]. intros [resp r]. destruct (is_error resp); [by apply counts_quiet, quiet_ret|].
  eapply counting_quiet; [by apply quiet_put_attempts|]. intros [ret ctx] Hb. cbn [fst] in Hb. cbn beta iota.
  destruct (moved ret) eqn:Hm.
  { apply moved_true in Hm as [Hok Hpos]. specialize (Hb Hok). apply (call_counts_rdma c); [|by intros _].
    change (call_size c) with (sized (snd (ValidatePut base_args))). lia. }
  apply (counts_let c); [by apply quiet_device|]. intros device. destruct device; [by apply counts_quiet, quiet_ret|].
  apply (counts_let c); [by apply quiet_out|]. intros _. apply (call_counts_http c). by apply quiet_out.
Qed.

Lemma counts_get_registered url args size base_args :
  sized (snd (ValidateGet base_args)) = size ->
  counts_as {| put := false; on_url := url; with_args := base_args |} (get_registeredT url args size).
Proof.
  intros <-. set (c := {| put := false; on_url := url; with_args := base_args |}).
  apply counts_let; [by apply quiet_out|]. intros [resp r]. destruct (is_error resp); [by apply counts_quiet, quiet_ret|].
  eapply counting_quiet; [by apply quiet_get_attempts|]. intros ret Hb. cbn beta.
  destruct (moved ret) eqn:Hm.
  { apply moved_true in Hm as [Hok Hpos]. specialize (Hb Hok). apply (call_counts_rdma c); [|done].
    change (call_size c) with (sized (snd (ValidateGet base_args))). lia. }
  apply (counts_let c); [by apply quiet_device|]. intros device. destruct device; [by apply counts_quiet, quiet_ret|].
  apply (counts_let c); [by apply quiet_out|]. intros _. apply (call_counts_http c).
  apply quiet_let; [by apply quiet_out|]. intros [resp' chunks]. apply quiet_let; [apply quiet_write_all|].
  intros _. by apply quiet_ret.
Qed.

(** With the buffer's registration *)
Lemma counts_registered c buf size (f : hipObjError_t -> s3_response) (p : TI s3_response) :
  counts_as c p ->
  counts_as c (registered ← register_hereT buf size;
               match registered with
               | inl err => mret (f err)
               | inr registration => resp ← p; _ ← BufDeregistererT registration; mret resp
               end).
Proof.
  intros Hp. apply counts_let; [apply quiet_register_here|]. intros [err|r]; [by apply counts_quiet, quiet_ret|].
  apply call_counts_then; [done|apply quiet_registration].
Qed.

Lemma counts_call c : counts_as c (@run_call E SysfsTopology C c).
Proof.
  destruct c as [[] url args]; unfold run_call; cbn [put on_url with_args].
  - pose proof (counts_put_registered url (snd (ValidatePut args)) _ args eq_refl) as Hreg.
    pose proof (fun k => call_counts_http {| put := true; on_url := url; with_args := args |} k) as Hhttp.
    unfold PutObjectT, call_size in *. cbn [put with_args] in Hhttp. destruct (ValidatePut args) as [[err|] a]; cbn [snd] in *;
      [by apply counts_quiet, quiet_ret|].
    destruct (a_buf a =? 0); [by apply counts_quiet, quiet_out|]. unfold sized in *.
    destruct (a_size a) as [size|]; cbn [default] in *; [|by apply counts_quiet, quiet_ret].
    destruct (negb (fits_long _)); [by apply counts_quiet, quiet_ret|].
    apply counts_let; [apply quiet_act; [apply calm_EnsureInit|done]|]. intros err. destruct (negb _).
    + apply counts_let; [by apply quiet_out|]. intros content. by apply Hhttp, quiet_out.
    + by apply counts_registered.
  - pose proof (counts_get_registered url (snd (ValidateGet args)) _ args eq_refl) as Hreg.
    pose proof (fun k => call_counts_http {| put := false; on_url := url; with_args := args |} k) as Hhttp.
    unfold GetObjectT, call_size in *. cbn [put with_args] in Hhttp. destruct (ValidateGet args) as [[err|] a]; cbn [snd] in *;
      [by apply counts_quiet, quiet_ret|].
    destruct (a_buf a =? 0); [apply counts_quiet, quiet_let; [by apply quiet_out|]; intros []; by apply quiet_ret|].
    unfold sized in *. destruct (a_size a) as [size|]; cbn [default] in *; [|by apply counts_quiet, quiet_ret].
    apply counts_let; [apply quiet_act; [apply calm_EnsureInit|done]|]. intros err. destruct (negb _).
    + apply counts_let; [by apply quiet_out|]. intros [resp chunks].
      apply counts_let; [destruct (negb _); [by apply quiet_out|by apply quiet_ret]|]. intros _.
      apply Hhttp. by apply quiet_ret.
    + by apply counts_registered.
Qed.

(** *** Any number of calls at once *)

(** The calls in progress: what each has added, and what it has left to do *)
Definition calls_ok (calls : list client_call) (c : Programs.config Minio s3_response) : Prop :=
  shared_ok (fst c) /\ exists ds, mn_stats (fst c) = wrapped (total ds) /\
    List.length ds = List.length calls /\ List.length (snd c) = List.length calls /\
    forall t call p d, calls !! t = Some call -> snd c !! t = Some p -> ds !! t = Some d -> counting d p (added call).

Lemma calls_start calls : calls_ok calls (initial_minio, @run_call E SysfsTopology C <$> calls).
Proof.
  split; [split; [apply Inv_initial|split; [done|by intros [? ?]]|done]|].
  exists (replicate (List.length calls) no_stats). rewrite length_replicate. cbn [snd fst]. split_and!; [|done|by rewrite length_fmap|].
  - induction calls as [|c calls IH]; [done|]. cbn in *. by rewrite plus_comm, plus_none.
  - intros t call p d Hc Hp Hd. apply list_lookup_fmap_Some in Hp as (call' & -> & Hc').
    assert (call' = call) as -> by congruence. apply lookup_replicate in Hd as [-> _]. apply counts_call.
Qed.

Lemma calls_next calls s ps t p call :
  calls_ok calls (s, ps) -> ps !! t = Some p -> calls !! t = Some call ->
  exists d, counting d p (added call).
Proof.
  intros (_ & ds & _ & Hds & Hps & Hc) Hp Hcall. cbn in *. destruct (ds !! t) as [d|] eqn:Hd; [by eauto|].
  apply lookup_ge_None in Hd. apply lookup_lt_Some in Hp. lia.
Qed.

Lemma client_calls_step calls c c' : calls_ok calls c -> interleave c c' -> calls_ok calls c'.
Proof.
  destruct c as [s ps], c' as [s' ps']. intros (Hs & ds & Hst & Hds & Hps & Hc) (t & p & p' & Hp & Hstep & ->)%interleave_inv.
  cbn [fst snd] in *. assert (t < List.length calls)%nat as Ht by (apply lookup_lt_Some in Hp; lia).
  destruct (lookup_lt_is_Some_2 _ _ Ht) as [call Hcall].
  destruct (lookup_lt_is_Some_2 ds t) as [d Hd]; [by rewrite Hds|].
  specialize (Hc t call p d Hcall Hp Hd) as Hcp. destruct p as [a|X m k|k|k]; [done| |done..]. cbn in Hstep, Hcp.
  specialize (Hcp s Hs). unfold wp in Hcp. destruct (m s) as [[x|e] s1]; [|done]. injection Hstep as <- <-.
  destruct Hcp as (Hs1 & e & He & Hk). split; [done|]. exists (<[t := plus d e]> ds). cbn [fst snd].
  rewrite !length_insert. split_and!; [|done..|].
  - by rewrite (total_insert _ _ _ _ Hd), He, Hst, wrapped_plus.
  - intros u call' p1 d1 Hcall' Hp1 Hd1. destruct (decide (u = t)) as [->|Hne].
    + rewrite list_lookup_insert_eq in Hp1 by (by apply lookup_lt_Some in Hp).
      rewrite list_lookup_insert_eq in Hd1 by (by apply lookup_lt_Some in Hd).
      injection Hp1 as <-. injection Hd1 as <-. by assert (call' = call) as -> by congruence.
    + rewrite list_lookup_insert_ne in Hp1 by done. rewrite list_lookup_insert_ne in Hd1 by done. by eapply Hc.
Qed.
End client_counting.

(** ** Properties *)


#[local] Instance threads_build : BuildConfig := {| HIPOBJ_BNXT := true; HIPOBJ_IONIC := true |}.

(** Two uploads of one buffer to two objects *)
Definition upload (object : chars) : client_call :=
  {| put := true; on_url := lab_url;
     with_args := {| a_bucket := lit "bucket"; a_object := object; a_region := []; a_buf := 65536; a_size := Some 4096;
                     a_stream := None; a_object_size := 0; a_part_size := 0 |} |}.

(** The same to a server of another name *)
Definition elsewhere (c : client_call) : client_call :=
  {| put := put c; on_url := {| bu_host := lit "s4"; bu_region := lit "us-east-1"; bu_https := false |}; with_args := with_args c |}.

Definition two_uploads (E : World) (ts : list nat) : Programs.config Minio s3_response :=
  take_turns ts (initial_minio, @run_call E (@SysfsTopology E) lab_minio <$> [upload (lit "a"); upload (lit "b")]).

(** The second starts once the first has registered the buffer, and gets its
    token; the first ends; and the second goes on *)
Definition upload_turns : list nat := replicate 2 0%nat ++ replicate 6 1%nat ++ replicate 20 0%nat ++ replicate 20 1%nat.


(** A world whose server, like any, reads only memory that's registered when
    it does: it looks for the token's key among the MRs *)
Fixpoint registered_key (rkey : Z) (t : trace) : bool :=
  match t with
  | [] => false
  | Ev (dereg_mr m) _ :: t' => if mr_rkey m =? rkey then false else registered_key rkey t'
  | Ev (reg_mr _ _ _ _) (Some m) :: t' => if mr_rkey m =? rkey then true else registered_key rkey t'
  | Ev (reg_dmabuf_mr _ _ _ _ _ _) (Some m) :: t' => if mr_rkey m =? rkey then true else registered_key rkey t'
  | _ :: t' => registered_key rkey t'
  end.

Definition can_read (req : http_request) (t : trace) : bool :=
  match decodeRdmaTokenHex (@GetFront lab_minio (hr_headers req) kAmzRdmaToken) with
  | Some token => registered_key (tok_rkey token) t
  | None => false
  end.

Definition reading : World := fun t A c =>
  match c in call A return A with
  | Execute req =>
      if can_read req t then @respond (lab working) t _ (Execute req)
      else {| res_error := []; res_status_code := 500; res_headers := [(kAmzRdmaReply, lit "500")] |}
  | c => @respond (lab working) t _ c
  end.

Definition device_error : s3_response :=
  error_response (lit "RDMA PUT failed (error) and the payload is device memory; no HTTP fallback is possible").

(** A call takes a registration away from another call that uses it: two
    uploads of one buffer, in device memory, both succeed one after the
    other. But when the second finds the buffer registered by the first, it
    doesn't register it itself, and the first unregisters it at its end,
    while the server reads with the second's token; then the second upload
    fails. *)
Theorem concurrent_uploads_lose_registration :
  (exists s, rtc interleave (two_uploads reading []) (s, Ret <$> [RdmaResponse []; RdmaResponse []])) /\
  (exists s, rtc interleave (two_uploads reading []) (s, Ret <$> [RdmaResponse []; device_error])).
Proof.
  split.
  - exists (fst (two_uploads reading (replicate 30 0%nat ++ replicate 30 1%nat))).
    assert (snd (two_uploads reading (replicate 30 0%nat ++ replicate 30 1%nat)) = Ret <$> [RdmaResponse []; RdmaResponse []])
      as <- by (vm_compute; reflexivity).
    rewrite <- surjective_pairing. apply take_turns_interleave.
  - exists (fst (two_uploads reading upload_turns)).
    assert (snd (two_uploads reading upload_turns) = Ret <$> [RdmaResponse []; device_error]) as <- by (vm_compute; reflexivity).
    rewrite <- surjective_pairing. apply take_turns_interleave.
Qed.

Definition two_servers (ts : list nat) : Programs.config Minio s3_response :=
  take_turns ts (initial_minio,
    @run_call reading (@SysfsTopology reading) lab_minio <$> [upload (lit "a"); elsewhere (upload (lit "b"))]).

(** And a call for one server ends the calls for the others: the library is
    initialized for one at a time, so [EnsureInit()] shuts it down, with what
    another thread's call has registered. *)
Theorem calls_for_two_servers_interfere :
  exists s resp, rtc interleave (two_servers []) (s, Ret <$> [device_error; resp]) /\ s3_error resp = [].
Proof.
  set (ts := replicate 2 0%nat ++ [1%nat] ++ replicate 30 0%nat ++ replicate 30 1%nat).
  exists (fst (two_servers ts)), (RdmaResponse []). split; [|done].
  assert (snd (two_servers ts) = Ret <$> [device_error; RdmaResponse []]) as <- by (vm_compute; reflexivity).
  rewrite <- surjective_pairing. apply take_turns_interleave.
Qed.

(** With no other thread in between, the programs of threads are the
    client's functions, for any World and any minio-cpp. *)
Theorem client_threads_run_the_functions `{E : World} `{T : NicTopology} `{C : MinioCpp} (url : BaseUrl) (args : s3_args) :
  alone (PutObjectT url args) ≡ PutObject url args /\ alone (GetObjectT url args) ≡ GetObject url args.
Proof. split; [apply PutObject_alone|apply GetObject_alone]. Qed.
