(* ===== verification/Integration.v ===== *)
(** * The programs together

    What the test server's answers are to the clients: the library's tokens
    against the server's handler, in both directions, and the minio-cpp
    integration's [rdmaPut()] against the server's HTTP-only mode. *)

From Stdlib Require Import Ascii String.
From stdpp Require Import base numbers list gmap strings.
From S2P Require Import Prelude.
From S2P Require Import Parse.
From S2P Require Import Gid.
From S2P Require Import Token.
From S2P Require Import Text.
From S2P Require Import TokenHeader.
From S2P Require Import Http.
From S2P Require Import IbvCore.
From S2P Require Import World.
From S2P Require Import Transport.
From S2P Require Import Buffer.
From S2P Require Import Control.
From S2P Require Import Api.
From S2P Require Import Behaviour.
From S2P Require Import RdmaServer.
From S2P Require Import TestServer.
From S2P Require Import MinioRdma.
Import Status.
Import RdmaTestServer.

(** ** Definitions *)

(** A client's response, from a server's: the headers as minio-cpp keeps
    them *)
Definition as_client_response (resp : HttpResponse) : http_response :=
  {| res_error := []; res_status_code := resp_status resp; res_headers := map_to_list (resp_headers resp) |}.

(** The request that [rdmaPut()] sends, as the server gets it: no body, and a
    token *)
Definition rdma_put_request (target token : chars) : HttpRequest :=
  {| method := lit "PUT"; path := target; req_headers := {[ lit "x-amz-rdma-token" := token ]}; req_body := [];
     contentLength := 0 |}.

(** The requests of the library's transfers, as the examples send them *)
Definition library_request (meth target token : chars) : HttpRequest :=
  {| method := meth; path := target; req_headers := {[ lit "x-amz-rdma-token" := token ]}; req_body := [];
     contentLength := 0 |}.

(** A connection whose QP number, port and GID fit a token *)
Record fits_token (conn : RcConnection) : Prop := {
  fits_qp : 0 <= qp_num (rc_qp conn) < 2 ^ 32;
  fits_port : 0 <= dev_portNum (rc_device conn) < 2 ^ 8;
  fits_gid : wf_gid (toGid (dev_localGid (rc_device conn)));
}.

(** The library's token for a range of a registration whose MR is [m] *)
Record offer (conn : RcConnection) (buf : BufEntry) (m : ibv_mr) (size offset : Z) (token : RdmaToken) : Prop := {
  offer_built : buildRdmaToken conn buf size offset = Some token;
  offer_mr : mr buf = Some m;
  offer_key : 0 <= mr_rkey m < 2 ^ 32;
  offer_size : 0 < size;
  offer_addr : 0 <= remoteAddr buf /\ remoteAddr buf + buf_size buf < 2 ^ 64;
  offer_conn : fits_token conn;
}.

(** A work request for the first [len] bytes of that range *)
Definition within_offer (buf : BufEntry) (m : ibv_mr) (size offset len : Z) (wr : ibv_send_wr) : Prop :=
  rdma_rkey wr = mr_rkey m /\ rdma_remote_addr wr = remoteAddr buf + offset /\ wr_length wr = len /\
  len <= size /\ remoteAddr buf <= rdma_remote_addr wr /\
  rdma_remote_addr wr + wr_length wr <= remoteAddr buf + buf_size buf.

(** The reply of a response, which tells the library that the transfer
    succeeded, and which QP its own is to be connected to *)
Definition replies (c : RcConnection) (resp : HttpResponse) : Prop :=
  exists reply, resp_headers resp !! lit "x-amz-rdma-reply" = Some reply /\
    decodeRdmaReply reply = Some Success /\ parsePeerTokenFromReply reply = Some (buildServerToken c).

(** An offer, and a server that can take it, to try things with *)
Definition demo_mr : ibv_mr := {| mr_addr := 1; mr_buf := 65536; mr_rkey := 77; mr_lkey := 78 |}.
Definition demo_token : RdmaToken := default golden_token (buildRdmaToken demo_connection demo_entry 256 1024).
Definition rdma_server : Server :=
  {| objects := {[ lit "bucket/key" := lit "object" ]}; rdma := lab_impl; srv_trace := lab_trace |}.

(** ** Lemmas *)

Lemma server_reply c :
  fits_token c ->
  let reply := encodeReplyWithPeerToken kHttpOk (buildServerToken c) in
  decodeRdmaReply reply = Some Success /\ parsePeerTokenFromReply reply = Some (buildServerToken c).
Proof.
  intros [Hq Hp Hg]. cbv zeta.
  assert (wf_token (buildServerToken c)) as Hwf by (by split_and!; cbn; first [lia|apply Hg]).
  pose proof (parseReply_peer_token kHttpOk _ [] Hwf ltac:(constructor) ltac:(done)) as H. rewrite app_nil_r in H.
  unfold decodeRdmaReply, parseRdmaReplyHttpCode, parsePeerTokenFromReply. by rewrite H.
Qed.

(** The server takes the library's token for what it is *)
Lemma offer_received conn buf m size offset token :
  offer conn buf m size offset token ->
  parseTokenHeader (encodeRdmaToken token) = Some {| th_token := token; th_length := 0 |} /\
  tok_length token = size /\ tok_rkey token = mr_rkey m /\
  tok_remoteAddr token = remoteAddr buf + offset /\
  remoteAddr buf <= tok_remoteAddr token /\ tok_remoteAddr token + size <= remoteAddr buf + buf_size buf.
Proof.
  intros [Hb Hm Hk Hs [Ha1 Ha2] [Hq Hp Hg]].
  destruct (built_token conn buf size offset token Hb) as (H1 & H2 & H3 & H4 & (m' & Hm' & H5) & _ & _ & H6);
    [lia|lia|lia|done|done|done| |].
  { intros m' Hm'. rewrite Hm in Hm'. by injection Hm' as <-. }
  rewrite Hm in Hm'. injection Hm' as <-. split_and!; [|done|done|done|done|lia].
  apply parseTokenHeader_complete, plain_header, H6.
Qed.

(** A request with the library's token, and a server that can do RDMA *)
Lemma wp_library_request `{E : World} `{B : BuildConfig} bad conn buf m size offset token meth target (Q : HttpResponse -> Server -> Prop) s :
  offer conn buf m size offset token -> isReady (rdma s) = true ->
  let req := library_request meth target (encodeRdmaToken token) in
  is_health req = false -> is_location req = false ->
  wp bad (serve_rdma (objectKey target) {| th_token := token; th_length := 0 |} req) Q s -> wp bad (handler req) Q s.
Proof.
  intros Ho Hr req Hh Hl Hw. unfold handler. rewrite Hh, Hl. apply wp_bind, wp_get.
  assert (req_headers req !! lit "x-amz-rdma-token" = Some (encodeRdmaToken token)) as -> by apply lookup_singleton_eq.
  rewrite Hr. by rewrite (proj1 (offer_received _ _ _ _ _ _ Ho)).
Qed.

Lemma demo_fits : fits_token demo_connection.
Proof. split; [cbn; lia..|]. split; [reflexivity|]. vm_compute. repeat constructor; discriminate. Qed.

Lemma demo_offer : offer demo_connection demo_entry demo_mr 256 1024 demo_token.
Proof. split; [done|done|cbn; lia|lia|cbn; lia|apply demo_fits]. Qed.

Lemma lab_fits : exists i c, lab_impl = Some i /\ im_conn i = Some c /\ fits_token c.
Proof.
  assert (match lab_impl ≫= im_conn with
          | Some c => bool_decide (wf_token (buildServerToken c) /\ 0 <= dev_portNum (rc_device c) < 2 ^ 8)
          | None => false
          end = true) as H by (vm_compute; reflexivity).
  destruct lab_impl as [i|]; [|done]. cbn in H. destruct (im_conn i) as [c|] eqn:Hc; [|done].
  apply bool_decide_eq_true in H as [(Hq & Hg & _) Hp]. by exists i, c.
Qed.

(** ** Properties *)

(** An object is lost when the server can't do RDMA. Without an RDMA
    device, the test server serves a PUT that comes with a token over HTTP
    alone: it stores the request's body, which is empty. [rdmaPut()] takes
    the answer, which has an ETag and no reply, for a transfer of all of the
    buffer, so the client reports success, and doesn't fall back to HTTP. *)
Theorem http_only_server_loses_put `{World} `{BuildConfig} (target token : chars) (s : Server) (size : Z)
    (sctx : S3RdmaContext) (Hrdma : isReady (rdma s) = false) :
  exists resp, handler (rdma_put_request target token) s = (inl resp, s <| objects ::= <[objectKey target := []]> |>) /\
    @Contains lab_minio (res_headers (as_client_response resp)) kAmzRdmaReply = false /\
    fst (fst (@put_result lab_minio (as_client_response resp) size sctx)) = rdma_ok size.
Proof.
  exists put_ok. split_and!; [|by vm_compute|].
  - rewrite handler_http; [done|done|done|by right].
  - unfold put_result. by vm_compute.
Qed.

Lemma http_only_server_loses_put_witness :
  exists resp, @handler (lab working) lab_build (rdma_put_request (lit "/bucket/key") (encodeRdmaToken golden_token)) started =
      (inl resp, started <| objects ::= <[lit "bucket/key" := []]> |>) /\
    @Contains lab_minio (res_headers (as_client_response resp)) kAmzRdmaReply = false /\
    fst (fst (@put_result lab_minio (as_client_response resp) 4096 lab_context)) = rdma_ok 4096.
Proof.
  exact (@http_only_server_loses_put (lab working) lab_build (lit "/bucket/key") (encodeRdmaToken golden_token) started 4096
           lab_context eq_refl).
Defined.




